(** * FrFTL: a flash-resident flash translation layer for NOR flash

    Shallow embedding of [radio/src/thirdparty/frftl/frftl.cpp] and the
    properties of its sector API, cache, allocator and mount logic.

    Conventions of the embedding:
    - every C integer is a [Z]; the conversions that C performs when a value
      is stored in a narrower or signed variable are written out with
      [u8], [u16], [u32] and [i16];
    - a page is the list of its 4096 bytes, so that the [Page] union (raw
      data / translation table) is one object, as in the source;
    - a [PageBuffer*] is the index of the slot in the buffer array, [NULL]
      is [None];
    - the four HAL callbacks are functions over an abstract device state;
      every call is also recorded in a trace kept next to the device. *)

From Stdlib Require Import ZArith List Lia Bool Permutation.
Import ListNotations.
Local Open Scope Z_scope.

(** ** Fixed-width integers *)

Definition u8 (z : Z) : Z := z mod 256.
Definition u16 (z : Z) : Z := z mod 65536.
Definition u32 (z : Z) : Z := z mod 4294967296.
Definition i16 (z : Z) : Z :=
  let r := z mod 65536 in if r <? 32768 then r else r - 65536.
Definition i8 (z : Z) : Z :=
  let r := z mod 256 in if r <? 128 then r else r - 256.

(** ** Constants of the source *)

Definition SECTOR_SIZE : Z := 512.
Definition PAGE_SIZE : Z := 4096.
Definition SECTORS_PER_PAGE : Z := PAGE_SIZE / SECTOR_SIZE.
Definition TT_PAGE_MAGIC : Z := 0xEF87364A.
Definition TT_RECORDS_PER_PAGE : Z := 1024.
Definition BUFFER_SIZE_MULTIPLIER : Z := 4.
Definition RESERVED_PAGES_MULTIPLIER : Z := 16.
Definition supportedFlashSizes : list Z := [4; 8; 16; 32; 64; 128].

(** Sizes of the packed structures. *)
Definition sizeof_PageInfo : Z := 3.
Definition sizeof_TransTableHeader : Z := 16.

(** ** Enumerations *)

Inductive PhysicalPageState := UNKNOWN | USED | ERASE_REQUIRED | ERASED.

Inductive ProgramMode := NONE | PROGRAM | ERASE_PROGRAM | RELOCATE_ERASE_PROGRAM.

Definition state_to_Z (s : PhysicalPageState) : Z :=
  match s with UNKNOWN => 0 | USED => 1 | ERASE_REQUIRED => 2 | ERASED => 3 end.

Definition state_of_Z (z : Z) : PhysicalPageState :=
  if z =? 0 then UNKNOWN else if z =? 1 then USED
  else if z =? 2 then ERASE_REQUIRED else ERASED.

Definition state_eqb (a b : PhysicalPageState) : bool :=
  state_to_Z a =? state_to_Z b.

Definition mode_eqb (a b : ProgramMode) : bool :=
  match a, b with
  | NONE, NONE | PROGRAM, PROGRAM | ERASE_PROGRAM, ERASE_PROGRAM
  | RELOCATE_ERASE_PROGRAM, RELOCATE_ERASE_PROGRAM => true
  | _, _ => false
  end.

(** ** Lists indexed as C arrays *)

Fixpoint upd {A} (n : nat) (x : A) (l : list A) : list A :=
  match l, n with
  | [], _ => []
  | _ :: t, O => x :: t
  | h :: t, S k => h :: upd k x t
  end.

Definition zth {A} (d : A) (l : list A) (i : Z) : A :=
  if i <? 0 then d else nth (Z.to_nat i) l d.

Definition zupd {A} (i : Z) (x : A) (l : list A) : list A :=
  if i <? 0 then l else upd (Z.to_nat i) x l.

(** ** Physical-page state words

    [getPhysicalPageState] and [setPhysicalPageState] work on one 32-bit
    word of the packed array; the word-level part is separated here. *)

Definition state_shift (physicalPageNo : Z) : Z := Z.land physicalPageNo 0xf * 2.

Definition word_get (w sh : Z) : Z := Z.land (Z.shiftr w sh) 0x3.

Definition word_set (w sh st : Z) : Z :=
  let mask := u32 (Z.shiftl 0x3 sh) in
  let w1 := Z.land w (Z.lxor mask 0xFFFFFFFF) in
  Z.lor w1 (u32 (Z.shiftl (Z.land st 0x3) sh)).

(** ** Pages as byte arrays *)

Definition Page := list Z.

Definition get8 (p : Page) (off : Z) : Z := zth 0 p off.
Definition get16 (p : Page) (off : Z) : Z := get8 p off + 256 * get8 p (off + 1).
Definition get32 (p : Page) (off : Z) : Z :=
  get16 p off + 65536 * get16 p (off + 2).

Definition set8 (off v : Z) (p : Page) : Page := zupd off (u8 v) p.
Definition set16 (off v : Z) (p : Page) : Page :=
  set8 (off + 1) (u16 v / 256) (set8 off v p).
Definition set32 (off v : Z) (p : Page) : Page :=
  set16 (off + 2) (u32 v / 65536) (set16 off v p).

(** [memcpy(dst + off, src, n)] and [memset(dst, 0xff, n)] on a page.  Only
    the bytes that [src] provides are copied. *)
Fixpoint blit (off : nat) (src : list Z) (dst : Page) : Page :=
  match off, dst with
  | _, [] => []
  | S k, h :: t => h :: blit k src t
  | O, h :: t => match src with
                 | [] => dst
                 | s :: src' => s :: blit O src' t
                 end
  end.

Definition memcpy_to (dst : Page) (off : Z) (src : list Z) (n : Z) : Page :=
  blit (Z.to_nat off) (firstn (Z.to_nat n) src) dst.

Definition memcpy_from (src : Page) (off n : Z) : list Z :=
  firstn (Z.to_nat n) (skipn (Z.to_nat off) src).

Definition erased_page : Page := repeat 0xff (Z.to_nat PAGE_SIZE).

(** Offsets of the [TransTableHeader] fields and of [pageInfos]. *)
Definition off_magicStart : Z := 0.
Definition off_logicalPageNo : Z := 4.
Definition off_serial : Z := 8.
Definition off_padding : Z := 12.
Definition off_crc16 : Z := 14.
Definition off_pageInfos (recordNo : Z) : Z :=
  sizeof_TransTableHeader + sizeof_PageInfo * recordNo.

Record PageInfo := mkPageInfo {
  pi_physicalPageNo : Z;   (* int16_t *)
  pi_sectStatus : Z        (* uint8_t *)
}.

Definition get_pageInfo (p : Page) (recordNo : Z) : PageInfo :=
  {| pi_physicalPageNo := i16 (get16 p (off_pageInfos recordNo));
     pi_sectStatus := get8 p (off_pageInfos recordNo + 2) |}.

Definition set_pageInfo (recordNo : Z) (pinfo : PageInfo) (p : Page) : Page :=
  set8 (off_pageInfos recordNo + 2) (pi_sectStatus pinfo)
    (set16 (off_pageInfos recordNo) (pi_physicalPageNo pinfo) p).

Definition set_pageInfo_physical (recordNo v : Z) (p : Page) : Page :=
  set16 (off_pageInfos recordNo) v p.

Definition with_physicalPageNo (v : Z) (pinfo : PageInfo) : PageInfo :=
  {| pi_physicalPageNo := v; pi_sectStatus := pi_sectStatus pinfo |}.
Definition with_sectStatus (v : Z) (pinfo : PageInfo) : PageInfo :=
  {| pi_physicalPageNo := pi_physicalPageNo pinfo; pi_sectStatus := v |}.

(** ** CRC *)

(** Modelled from the spec: [crc16] of [crc.h] is not part of the sources at
    hand; the spec fixes it as the CRC-16 with polynomial 0x1021, taken most
    significant bit first, with the initial value given by the caller. *)
Fixpoint crc16_bits (n : nat) (crc : Z) : Z :=
  match n with
  | O => crc
  | S k =>
      let crc' := if Z.testbit crc 15
                  then Z.lxor (u16 (Z.shiftl crc 1)) 0x1021
                  else u16 (Z.shiftl crc 1) in
      crc16_bits k crc'
  end.

Definition crc16_byte (crc b : Z) : Z :=
  crc16_bits 8 (Z.lxor crc (Z.shiftl b 8)).

Definition crc16 (data : list Z) (init : Z) : Z := fold_left crc16_byte data init.

(** [calcCRC] overwrites the padding of the header it is given and returns
    the checksum together with the modified bytes. *)
Definition calcCRC (header : Page) : Z * Page :=
  let header' := set16 off_padding 0xffff header in
  (crc16 (memcpy_from header' 0 (sizeof_TransTableHeader - 2)) 0xffff, header').

(** ** The flash device behind the four callbacks *)

Record Hal (D : Type) := mkHal {
  flashRead : D -> Z -> Z -> option (list Z);
  flashProgram : D -> Z -> list Z -> bool * D;
  flashErase : D -> Z -> bool * D;
  isFlashErased : D -> Z -> bool
}.
Arguments flashRead {D}.
Arguments flashProgram {D}.
Arguments flashErase {D}.
Arguments isFlashErased {D}.

(** One entry per callback invocation.  A program entry also records the
    logical page number of the buffer (or table) being programmed. *)
Inductive Event :=
| EvRead (addr len : Z)
| EvProgram (logical addr : Z)
| EvErase (addr : Z)
| EvIsErased (addr : Z).

Definition is_program (e : Event) : bool :=
  match e with EvProgram _ _ => true | _ => false end.
Definition is_erase (e : Event) : bool :=
  match e with EvErase _ => true | _ => false end.

(** ** Cache slots and the FTL handle *)

Record PageBuffer := mkPageBuffer {
  pb_logicalPageNo : Z;    (* int16_t *)
  pb_physicalPageNo : Z;   (* int16_t *)
  pb_lru : Z;              (* uint8_t *)
  pb_lock : bool;
  pb_pMode : ProgramMode;
  pb_page : Page
}.

Definition pb_with_logical v b := mkPageBuffer v (pb_physicalPageNo b) (pb_lru b) (pb_lock b) (pb_pMode b) (pb_page b).
Definition pb_with_physical v b := mkPageBuffer (pb_logicalPageNo b) v (pb_lru b) (pb_lock b) (pb_pMode b) (pb_page b).
Definition pb_with_lru v b := mkPageBuffer (pb_logicalPageNo b) (pb_physicalPageNo b) v (pb_lock b) (pb_pMode b) (pb_page b).
Definition pb_with_lock v b := mkPageBuffer (pb_logicalPageNo b) (pb_physicalPageNo b) (pb_lru b) v (pb_pMode b) (pb_page b).
Definition pb_with_pMode v b := mkPageBuffer (pb_logicalPageNo b) (pb_physicalPageNo b) (pb_lru b) (pb_lock b) v (pb_page b).
Definition pb_with_page v b := mkPageBuffer (pb_logicalPageNo b) (pb_physicalPageNo b) (pb_lru b) (pb_lock b) (pb_pMode b) v.

(** What a read through a slot index outside the array yields in the model;
    the source never forms such an index while the [lru] fields hold slot
    indices. *)
Definition no_buffer : PageBuffer := mkPageBuffer (-1) (-1) 0 true NONE [].

(** The fields of [FrFTL] (declared in [frftl.h]): page numbers and counts
    are [uint16_t], [usableSectorCount] is [uint32_t], [pageBufferSize] is
    [uint8_t].  The callbacks are the [Hal] of the section below; their
    device and the trace of their invocations are carried here. *)
Record FrFTL (D : Type) := mkFrFTL {
  mttPhysicalPageNo : Z;
  physicalPageCount : Z;
  ttPageCount : Z;
  usableSectorCount : Z;
  writeFrontier : Z;
  physicalPageState : list Z;
  physicalPageStateResolved : bool;
  pageBuffer : list PageBuffer;
  pageBufferSize : Z;
  dev : D;
  trace : list Event
}.
Arguments mkFrFTL {D}.
Arguments mttPhysicalPageNo {D}.
Arguments physicalPageCount {D}.
Arguments ttPageCount {D}.
Arguments usableSectorCount {D}.
Arguments writeFrontier {D}.
Arguments physicalPageState {D}.
Arguments physicalPageStateResolved {D}.
Arguments pageBuffer {D}.
Arguments pageBufferSize {D}.
Arguments dev {D}.
Arguments trace {D}.

(** How a call ends: it returns, it dereferences a null pointer or writes
    outside an array, or it runs for longer than the fuel given to a loop
    whose counter cannot reach its bound. *)
Inductive Outcome (A : Type) :=
| Returned (a : A)
| Fault
| NoReturn.
Arguments Returned {A}.
Arguments Fault {A}.
Arguments NoReturn {A}.

Section FTL.

Context {D : Type}.
Variable hal : Hal D.

(** An automatic [PageInfo] that is read before [readPageInfo] has filled it
    holds whatever the stack held; the same goes for the memory [malloc]
    returns for the page buffers and for a header that [flashRead] failed to
    fill. *)
Variable indeterminatePageInfo : PageInfo.
Variable indeterminatePage : Page.
Variable indeterminateHeader : Page.

Local Abbreviation FTL := (FrFTL D).

Definition set_mttPhysicalPageNo (v : Z) (f : FTL) : FTL :=
  mkFrFTL v (physicalPageCount f) (ttPageCount f) (usableSectorCount f)
    (writeFrontier f) (physicalPageState f) (physicalPageStateResolved f)
    (pageBuffer f) (pageBufferSize f) (dev f) (trace f).
Definition set_writeFrontier (v : Z) (f : FTL) : FTL :=
  mkFrFTL (mttPhysicalPageNo f) (physicalPageCount f) (ttPageCount f)
    (usableSectorCount f) v (physicalPageState f) (physicalPageStateResolved f)
    (pageBuffer f) (pageBufferSize f) (dev f) (trace f).
Definition set_physicalPageState (v : list Z) (f : FTL) : FTL :=
  mkFrFTL (mttPhysicalPageNo f) (physicalPageCount f) (ttPageCount f)
    (usableSectorCount f) (writeFrontier f) v (physicalPageStateResolved f)
    (pageBuffer f) (pageBufferSize f) (dev f) (trace f).
Definition set_physicalPageStateResolved (v : bool) (f : FTL) : FTL :=
  mkFrFTL (mttPhysicalPageNo f) (physicalPageCount f) (ttPageCount f)
    (usableSectorCount f) (writeFrontier f) (physicalPageState f) v
    (pageBuffer f) (pageBufferSize f) (dev f) (trace f).
Definition set_pageBuffer (v : list PageBuffer) (f : FTL) : FTL :=
  mkFrFTL (mttPhysicalPageNo f) (physicalPageCount f) (ttPageCount f)
    (usableSectorCount f) (writeFrontier f) (physicalPageState f)
    (physicalPageStateResolved f) v (pageBufferSize f) (dev f) (trace f).
Definition set_dev (d : D) (e : Event) (f : FTL) : FTL :=
  mkFrFTL (mttPhysicalPageNo f) (physicalPageCount f) (ttPageCount f)
    (usableSectorCount f) (writeFrontier f) (physicalPageState f)
    (physicalPageStateResolved f) (pageBuffer f) (pageBufferSize f) d
    (trace f ++ [e]).

(** The slot a [PageBuffer*] points to, and assignment through it. *)
Definition slot (f : FTL) (i : Z) : PageBuffer := zth no_buffer (pageBuffer f) i.
Definition set_slot (i : Z) (b : PageBuffer) (f : FTL) : FTL :=
  set_pageBuffer (zupd i b (pageBuffer f)) f.
Definition upd_slot (i : Z) (g : PageBuffer -> PageBuffer) (f : FTL) : FTL :=
  set_slot i (g (slot f i)) f.

(** *** Callback invocations *)

Definition call_flashRead (f : FTL) (addr len : Z) : option (list Z) * FTL :=
  (flashRead hal (dev f) addr len, set_dev (dev f) (EvRead addr len) f).

Definition call_flashProgram (f : FTL) (logical addr : Z) (data : list Z)
  : bool * FTL :=
  let '(ok, d) := flashProgram hal (dev f) addr data in
  (ok, set_dev d (EvProgram logical addr) f).

Definition call_flashErase (f : FTL) (addr : Z) : bool * FTL :=
  let '(ok, d) := flashErase hal (dev f) addr in
  (ok, set_dev d (EvErase addr) f).

Definition call_isFlashErased (f : FTL) (addr : Z) : bool * FTL :=
  (isFlashErased hal (dev f) addr, set_dev (dev f) (EvIsErased addr) f).

(** *** Physical-page state map

    The C code indexes [physicalPageState] without a check: with a page
    number whose word lies outside the array it reads, or overwrites, the
    memory that follows the array, which may be that of the cache slots.
    The model has no such memory: a read outside the array yields 0
    (UNKNOWN) and a write outside it changes nothing.  Statements about
    the state map or the cache after such a call are therefore made for
    page numbers inside the map only: they assume [geometry_ok], the
    conditions of [sync_ready] on the pages of the locked slots, or
    [records_within] for the records read at mount. *)

Definition getPhysicalPageState (f : FTL) (physicalPageNo : Z) : PhysicalPageState :=
  let p := i16 physicalPageNo in
  let idx := u32 (Z.shiftr p 4) in
  state_of_Z (word_get (zth 0 (physicalPageState f) idx) (state_shift p)).

Definition setPhysicalPageState (f : FTL) (physicalPageNo : Z)
  (state : PhysicalPageState) : FTL :=
  let p := i16 physicalPageNo in
  let idx := u32 (Z.shiftr p 4) in
  let w := zth 0 (physicalPageState f) idx in
  set_physicalPageState
    (zupd idx (word_set w (state_shift p) (state_to_Z state)) (physicalPageState f)) f.

(** The body of the [for] loop of [resolveUnknownState]; [n] counts the
    iterations that remain, the result tells whether the loop was left by
    [break]. *)
Fixpoint resolveUnknownState_loop (n : nat) (f : FTL) (idx count : Z) : FTL * bool :=
  match n with
  | O => (f, false)
  | S n' =>
      let next := let idx' := u16 (idx + 1) in
                  if idx' >=? physicalPageCount f then 0 else idx' in
      if state_eqb (getPhysicalPageState f idx) UNKNOWN then
        let '(erased, f1) := call_isFlashErased f (u32 (idx * PAGE_SIZE)) in
        let state := if erased then ERASED else ERASE_REQUIRED in
        let f2 := setPhysicalPageState f1 idx state in
        let count' := u16 (count - 1) in
        if count' =? 0 then (f2, true)
        else resolveUnknownState_loop n' f2 next count'
      else resolveUnknownState_loop n' f next count
  end.

Definition resolveUnknownState (f : FTL) (count : Z) : FTL :=
  if physicalPageStateResolved f then f
  else
    let '(f1, earlyEnd) :=
      resolveUnknownState_loop (Z.to_nat (physicalPageCount f)) f
        (writeFrontier f) (u16 count) in
    if negb earlyEnd then set_physicalPageStateResolved true f1 else f1.

(** *** LRU ranks

    [lru] of slot [j] names the slot of rank [j].  Promotion looks for the
    first rank [j > 0] that names slot [i], moves ranks [0 .. j-1] one
    place down and puts [i] at rank 0. *)
Fixpoint lru_rank_from (j : nat) (lrus : list Z) (i : Z) : option nat :=
  match lrus with
  | [] => None
  | x :: t => if (x =? i) && negb (Nat.eqb j 0) then Some j
              else lru_rank_from (S j) t i
  end.

Definition lru_promote (lrus : list Z) (i : Z) : list Z :=
  match lru_rank_from 0 lrus i with
  | None => lrus
  | Some j => i :: firstn j lrus ++ skipn (S j) lrus
  end.

Fixpoint write_lrus (lrus : list Z) (bufs : list PageBuffer) : list PageBuffer :=
  match lrus, bufs with
  | x :: lrus', b :: bufs' => pb_with_lru x b :: write_lrus lrus' bufs'
  | _, _ => bufs
  end.

Definition update_lru (f : FTL) (i : Z) : FTL :=
  set_pageBuffer
    (write_lrus (lru_promote (map pb_lru (pageBuffer f)) i) (pageBuffer f)) f.

(** First slot, in array order, that holds [physicalPageNo]. *)
Fixpoint find_slot (i : Z) (bufs : list PageBuffer) (physicalPageNo : Z) : option Z :=
  match bufs with
  | [] => None
  | b :: t => if pb_physicalPageNo b =? physicalPageNo then Some i
              else find_slot (i + 1) t physicalPageNo
  end.

Definition findPhysicalPageInBuffer (f : FTL) (physicalPageNo : Z) : option Z * FTL :=
  match find_slot 0 (pageBuffer f) (u16 physicalPageNo) with
  | Some i => (Some i, update_lru f i)
  | None => (None, f)
  end.

(** The victim search of [loadPhysicalPageInBuffer] and
    [initPhysicalPageInBuffer]: ranks are visited from the last to the
    first, the search stops at the first unlocked slot.  [None] stands for
    the case in which the slot looked at last is locked. *)
Fixpoint scan_unlocked (f : FTL) (ranks : list Z) : option Z :=
  match ranks with
  | [] => None
  | bufferIdx :: rest =>
      if negb (pb_lock (slot f bufferIdx)) then Some bufferIdx
      else scan_unlocked f rest
  end.

Definition pick_unlocked (f : FTL) : option Z :=
  scan_unlocked f (rev (map pb_lru (pageBuffer f))).

Definition loadPhysicalPageInBuffer (f : FTL) (logicalPageNo physicalPageNo : Z)
  : option Z * FTL :=
  match findPhysicalPageInBuffer f physicalPageNo with
  | (Some i, f1) => (Some i, f1)
  | (None, f1) =>
      match pick_unlocked f1 with
      | None => (None, f1)
      | Some bufferIdx =>
          let f2 := upd_slot bufferIdx (pb_with_physical (-1)) f1 in
          match call_flashRead f2 (u32 (u16 physicalPageNo * PAGE_SIZE)) PAGE_SIZE with
          | (None, f3) => (None, f3)
          | (Some data, f3) =>
              let f4 := upd_slot bufferIdx (fun b =>
                          pb_with_pMode NONE (pb_with_lock false
                            (pb_with_physical (i16 physicalPageNo)
                              (pb_with_logical (i16 logicalPageNo)
                                (pb_with_page data b))))) f3 in
              (Some bufferIdx, update_lru f4 bufferIdx)
          end
      end
  end.

Definition initPhysicalPageInBuffer (f : FTL) (logicalPageNo physicalPageNo : Z)
  : option Z * FTL :=
  match findPhysicalPageInBuffer f physicalPageNo with
  | (Some i, f1) => (Some i, f1)
  | (None, f1) =>
      match pick_unlocked f1 with
      | None => (None, f1)
      | Some bufferIdx =>
          (Some bufferIdx,
           upd_slot bufferIdx (fun b =>
             pb_with_page erased_page (pb_with_pMode ERASE_PROGRAM
               (pb_with_lock true (pb_with_physical (i16 physicalPageNo)
                 (pb_with_logical (i16 logicalPageNo) b))))) f1)
      end
  end.

Fixpoint count_free (bufs : list PageBuffer) (found bufferCount : Z) : bool :=
  match bufs with
  | [] => false
  | b :: t =>
      if negb (pb_lock b) then
        let found' := u16 (found + 1) in
        if found' >=? bufferCount then true else count_free t found' bufferCount
      else count_free t found bufferCount
  end.

Definition hasFreeBuffers (f : FTL) (bufferCount : Z) : bool :=
  count_free (pageBuffer f) 0 (u16 bufferCount).


(** *** Translation-table access *)

Definition readPhysicalSector (f : FTL) (logicalPageNo physicalPageNo pageSectorNo : Z)
  : option (list Z) * FTL :=
  match loadPhysicalPageInBuffer f logicalPageNo physicalPageNo with
  | (Some i, f1) =>
      (Some (memcpy_from (pb_page (slot f1 i)) (pageSectorNo * SECTOR_SIZE) SECTOR_SIZE), f1)
  | (None, f1) => (None, f1)
  end.

(** The functions that fill a [PageInfo*] take the value the pointee had and
    return the value it has afterwards. *)
Definition readPhysicalPageInfo (f : FTL) (pageInfo : PageInfo)
  (logicalPageNo physicalPageNo recordNo : Z) : bool * PageInfo * FTL :=
  match loadPhysicalPageInBuffer f logicalPageNo physicalPageNo with
  | (Some i, f1) => (true, get_pageInfo (pb_page (slot f1 i)) recordNo, f1)
  | (None, f1) => (false, pageInfo, f1)
  end.

Definition readPageInfo (f : FTL) (pageInfo : PageInfo) (logicalPageNo : Z)
  : bool * PageInfo * FTL :=
  let logicalPageNo := u16 logicalPageNo in
  if logicalPageNo <? TT_RECORDS_PER_PAGE then
    readPhysicalPageInfo f pageInfo 0 (mttPhysicalPageNo f) logicalPageNo
  else
    let sttLogicalPageNo := logicalPageNo / TT_RECORDS_PER_PAGE in
    match readPhysicalPageInfo f indeterminatePageInfo 0 (mttPhysicalPageNo f)
            sttLogicalPageNo with
    | (false, _, f1) => (false, pageInfo, f1)
    | (true, secondaryTTInfo, f1) =>
        readPhysicalPageInfo f1 pageInfo sttLogicalPageNo
          (pi_physicalPageNo secondaryTTInfo) (logicalPageNo mod TT_RECORDS_PER_PAGE)
    end.

Definition updatePhysicalPageInfo (f : FTL) (pageInfo : PageInfo)
  (logicalPageNo physicalPageNo recordNo : Z) : bool * FTL :=
  match loadPhysicalPageInBuffer f logicalPageNo physicalPageNo with
  | (None, f1) => (false, f1)
  | (Some i, f1) =>
      (true,
       upd_slot i (fun b =>
         let b1 := pb_with_lock true b in
         let b2 := if mode_eqb (pb_pMode b1) NONE then pb_with_pMode PROGRAM b1 else b1 in
         pb_with_page (set_pageInfo recordNo pageInfo (pb_page b2)) b2) f1)
  end.

Definition updatePageInfo (f : FTL) (pageInfo : PageInfo) (logicalPageNo : Z)
  : bool * FTL :=
  let logicalPageNo := u16 logicalPageNo in
  if logicalPageNo <? TT_RECORDS_PER_PAGE then
    updatePhysicalPageInfo f pageInfo 0 (mttPhysicalPageNo f) logicalPageNo
  else
    let sttLogicalPageNo := logicalPageNo / TT_RECORDS_PER_PAGE in
    match readPhysicalPageInfo f indeterminatePageInfo 0 (mttPhysicalPageNo f)
            sttLogicalPageNo with
    | (false, _, f1) => (false, f1)
    | (true, secondaryTTInfo, f1) =>
        updatePhysicalPageInfo f1 pageInfo sttLogicalPageNo
          (pi_physicalPageNo secondaryTTInfo) (logicalPageNo mod TT_RECORDS_PER_PAGE)
    end.

(** *** Allocator *)

Definition advance_writeFrontier (f : FTL) : FTL :=
  let wf := u16 (writeFrontier f + 1) in
  set_writeFrontier (if wf >=? physicalPageCount f then 0 else wf) f.

(** The [while] loop of [allocatePhysicalPage]; [false] is the [return -1]
    inside the loop.  The loop body runs at most [physicalPageCount + 1]
    times before [lookupCount] exceeds [physicalPageCount]. *)
Fixpoint allocate_scan (fuel : nat) (f : FTL) (lookupCount : Z) : bool * FTL :=
  match fuel with
  | O => (false, f)
  | S fuel' =>
      if state_eqb (getPhysicalPageState f (writeFrontier f)) USED then
        let f1 := advance_writeFrontier f in
        let lookupCount' := u16 (lookupCount + 1) in
        if lookupCount' >? physicalPageCount f1 then (false, f1)
        else allocate_scan fuel' f1 lookupCount'
      else (true, f)
  end.

Definition allocatePhysicalPage (f : FTL) : Z * FTL :=
  match allocate_scan (Z.to_nat (physicalPageCount f + 2)) f 0 with
  | (false, f1) => (-1, f1)
  | (true, f1) =>
      let physicalPageNo := writeFrontier f1 in
      (i16 physicalPageNo, advance_writeFrontier f1)
  end.

(** *** Program engine *)

Definition bump_serial (p : Page) : Page :=
  let p1 := set32 off_serial (u32 (get32 p off_serial + 1)) p in
  let '(crc, header) := calcCRC (firstn (Z.to_nat sizeof_TransTableHeader) p1) in
  set16 off_crc16 crc (blit 0 header p1).

Definition programPageInBuffer (f : FTL) (buffer : Z) : bool * FTL :=
  let b := slot f buffer in
  match pb_pMode b with
  | NONE => (true, f)
  | PROGRAM =>
      match call_flashProgram f (pb_logicalPageNo b)
              (u32 (pb_physicalPageNo b * PAGE_SIZE)) (pb_page b) with
      | (false, f1) => (false, f1)
      | (true, f1) => (true, setPhysicalPageState f1 (pb_physicalPageNo b) USED)
      end
  | ERASE_PROGRAM =>
      let addr := u32 (pb_physicalPageNo b * PAGE_SIZE) in
      let '(ok, f1) :=
        if negb (state_eqb (getPhysicalPageState f (pb_physicalPageNo b)) ERASED)
        then call_flashErase f addr else (true, f) in
      if negb ok then (false, f1)
      else
        match call_flashProgram f1 (pb_logicalPageNo b) addr (pb_page b) with
        | (false, f2) => (false, f2)
        | (true, f2) => (true, setPhysicalPageState f2 (pb_physicalPageNo b) USED)
        end
  | RELOCATE_ERASE_PROGRAM =>
      let '(newPhysicalPageNo, f1) := allocatePhysicalPage f in
      if newPhysicalPageNo <? 0 then (false, f1)
      else
        let f2 :=
          if pb_logicalPageNo b <? ttPageCount f1 then
            upd_slot buffer (fun b0 =>
              let p0 := if pb_logicalPageNo b0 =? 0
                        then set_pageInfo_physical 0 newPhysicalPageNo (pb_page b0)
                        else pb_page b0 in
              pb_with_page (bump_serial p0) b0) f1
          else f1 in
        let addr := u32 (newPhysicalPageNo * PAGE_SIZE) in
        let '(ok, f3) :=
          if negb (state_eqb (getPhysicalPageState f2 (pb_physicalPageNo b)) ERASED)
          then call_flashErase f2 addr else (true, f2) in
        if negb ok then (false, f3)
        else
          match call_flashProgram f3 (pb_logicalPageNo b) addr (pb_page (slot f3 buffer)) with
          | (false, f4) => (false, f4)
          | (true, f4) =>
              let f5 := setPhysicalPageState f4 (pb_physicalPageNo b) ERASE_REQUIRED in
              let f6 := upd_slot buffer (pb_with_physical newPhysicalPageNo) f5 in
              let f7 := setPhysicalPageState f6 newPhysicalPageNo USED in
              (true,
               if pb_logicalPageNo b =? 0
               then set_mttPhysicalPageNo (u16 newPhysicalPageNo) f7
               else f7)
          end
  end.


(** *** Sync *)

Definition unlock_slot (i : Z) (f : FTL) : FTL :=
  upd_slot i (fun b => pb_with_pMode NONE (pb_with_lock false b)) f.

(** First loop of [ftlSync]: data pages.  [n] counts the iterations that
    remain, [i] is the loop variable. *)
Fixpoint sync_data (n : nat) (i : Z) (f : FTL) : bool * FTL :=
  match n with
  | O => (true, f)
  | S n' =>
      let currentBuffer := slot f i in
      if pb_lock currentBuffer && (pb_logicalPageNo currentBuffer >=? ttPageCount f) then
        match programPageInBuffer f i with
        | (false, f1) => (false, f1)
        | (true, f1) =>
            match readPageInfo f1 indeterminatePageInfo (pb_logicalPageNo (slot f1 i)) with
            | (false, _, f2) => (false, f2)
            | (true, pageInfo, f2) =>
                let pageInfo' := with_physicalPageNo (pb_physicalPageNo (slot f2 i)) pageInfo in
                match updatePageInfo f2 pageInfo' (pb_logicalPageNo (slot f2 i)) with
                | (false, f3) => (false, f3)
                | (true, f3) => sync_data n' (i + 1) (unlock_slot i f3)
                end
            end
        end
      else sync_data n' (i + 1) f
  end.

(** Second loop: secondary translation tables. *)
Fixpoint sync_stt (n : nat) (i : Z) (mttBuffer : Z) (f : FTL) : bool * FTL :=
  match n with
  | O => (true, f)
  | S n' =>
      let currentBuffer := slot f i in
      if pb_lock currentBuffer && (pb_logicalPageNo currentBuffer >? 0)
         && (pb_logicalPageNo currentBuffer <? ttPageCount f) then
        match programPageInBuffer f i with
        | (false, f1) => (false, f1)
        | (true, f1) =>
            let cur := slot f1 i in
            let f2 := upd_slot mttBuffer (fun b =>
                        pb_with_page (set_pageInfo_physical (pb_logicalPageNo cur)
                                        (pb_physicalPageNo cur) (pb_page b)) b) f1 in
            sync_stt n' (i + 1) mttBuffer (unlock_slot i f2)
        end
      else sync_stt n' (i + 1) mttBuffer f
  end.

Definition sync_mtt (mttBuffer : Z) (f : FTL) : bool * FTL :=
  if pb_lock (slot f mttBuffer) then
    match programPageInBuffer f mttBuffer with
    | (false, f1) => (false, f1)
    | (true, f1) => (true, unlock_slot mttBuffer f1)
    end
  else (true, f).

Definition ftlSync (f : FTL) : bool * FTL :=
  match sync_data (Z.to_nat (pageBufferSize f)) 0 f with
  | (false, f1) => (false, f1)
  | (true, f1) =>
      match loadPhysicalPageInBuffer f1 0 (mttPhysicalPageNo f1) with
      | (None, f2) => (false, f2)
      | (Some mttBuffer, f2) =>
          match sync_stt (Z.to_nat (pageBufferSize f2)) 0 mttBuffer f2 with
          | (false, f3) => (false, f3)
          | (true, f3) => sync_mtt mttBuffer f3
          end
      end
  end.

(** *** Sector write and read *)

Definition lock_for (mode : ProgramMode) (b : PageBuffer) : PageBuffer :=
  pb_with_pMode mode (pb_with_lock true b).

Definition lock_at_least_PROGRAM (b : PageBuffer) : PageBuffer :=
  let b1 := pb_with_lock true b in
  if mode_eqb (pb_pMode b1) NONE then pb_with_pMode PROGRAM b1 else b1.

Definition copy_sector (pageSectorNo : Z) (buf : list Z) (b : PageBuffer) : PageBuffer :=
  pb_with_page (memcpy_to (pb_page b) (pageSectorNo * SECTOR_SIZE) buf SECTOR_SIZE) b.

(** The "sector already written" branch of [ftlWriteSector], entered with
    the data buffer loaded. *)
Definition write_overwrite (f : FTL) (dataBuffer logicalPageNo pageSectorNo : Z)
  (buf : list Z) : Outcome (bool * FTL) :=
  let f1 := upd_slot dataBuffer (fun b =>
              copy_sector pageSectorNo buf (lock_for RELOCATE_ERASE_PROGRAM b)) f in
  let ttPageNo := logicalPageNo / TT_RECORDS_PER_PAGE in
  match readPageInfo f1 indeterminatePageInfo ttPageNo with
  | (false, _, f2) => Returned (false, f2)
  | (true, ttPageInfo, f2) =>
      match loadPhysicalPageInBuffer f2 ttPageNo (pi_physicalPageNo ttPageInfo) with
      | (None, _) => Fault
      | (Some ttBuffer, f3) =>
          let f4 := upd_slot ttBuffer (lock_for RELOCATE_ERASE_PROGRAM) f3 in
          if ttPageNo >? 0 then
            match loadPhysicalPageInBuffer f4 0 (mttPhysicalPageNo f4) with
            | (None, _) => Fault
            | (Some mttBuffer, f5) =>
                Returned (true, upd_slot mttBuffer (lock_for RELOCATE_ERASE_PROGRAM) f5)
            end
          else Returned (true, f4)
      end
  end.

(** One iteration of the [while] loop of [ftlWriteSector]; [true] means
    that the loop goes on. *)
Definition write_one (f : FTL) (sectorNo : Z) (buf : list Z) : Outcome (bool * FTL) :=
  let '(ok, f0) := if negb (hasFreeBuffers f 3) then ftlSync f else (true, f) in
  if negb ok then Returned (false, f0)
  else
    let logicalPageNo := u16 (sectorNo / SECTORS_PER_PAGE + ttPageCount f0) in
    let pageSectorNo := u8 (sectorNo mod SECTORS_PER_PAGE) in
    let '(_, pageInfo, f1) := readPageInfo f0 indeterminatePageInfo logicalPageNo in
    let fresh_or_load : option (Z * PageInfo) * FTL :=
      if pi_physicalPageNo pageInfo <? 0 then
        let '(p, f2) := allocatePhysicalPage f1 in
        if p <? 0 then (None, f2)
        else
          match initPhysicalPageInBuffer f2 logicalPageNo p with
          | (None, f3) => (None, f3)
          | (Some dataBuffer, f3) =>
              let pageInfo1 := with_sectStatus 0xff (with_physicalPageNo p pageInfo) in
              match updatePageInfo f3 pageInfo1 logicalPageNo with
              | (false, f4) => (None, f4)
              | (true, f4) => (Some (dataBuffer, pageInfo1), f4)
              end
          end
      else
        match loadPhysicalPageInBuffer f1 logicalPageNo (pi_physicalPageNo pageInfo) with
        | (None, f2) => (None, f2)
        | (Some dataBuffer, f2) => (Some (dataBuffer, pageInfo), f2)
        end in
    match fresh_or_load with
    | (None, f5) => Returned (false, f5)
    | (Some (dataBuffer, pageInfo1), f5) =>
        let sectMask := u8 (Z.shiftl 1 pageSectorNo) in
        if negb (Z.land (pi_sectStatus pageInfo1) sectMask =? 0) then
          let pageInfo2 :=
            with_sectStatus (u8 (Z.land (pi_sectStatus pageInfo1) (Z.lnot sectMask)))
              pageInfo1 in
          match updatePageInfo f5 pageInfo2 logicalPageNo with
          | (false, f6) => Returned (false, f6)
          | (true, f6) =>
              Returned (true, upd_slot dataBuffer (fun b =>
                copy_sector pageSectorNo buf (lock_at_least_PROGRAM b)) f6)
          end
        else write_overwrite f5 dataBuffer logicalPageNo pageSectorNo buf
    end.

Fixpoint write_loop (n : nat) (f : FTL) (sectorNo : Z) (buf : list Z)
  : Outcome (bool * FTL) :=
  match n with
  | O => Returned (true, f)
  | S n' =>
      match write_one f sectorNo buf with
      | Returned (true, f1) =>
          write_loop n' f1 (u32 (sectorNo + 1)) (skipn (Z.to_nat SECTOR_SIZE) buf)
      | r => r
      end
  end.

Definition ftlWriteSector (f : FTL) (startSectorNo noOfSectors : Z) (buf : list Z)
  : Outcome (bool * FTL) :=
  let f1 := resolveUnknownState f (ttPageCount f) in
  if u32 (u32 startSectorNo + u32 noOfSectors) >? usableSectorCount f1
  then Returned (false, f1)
  else write_loop (Z.to_nat (u32 noOfSectors)) f1 (u32 startSectorNo) buf.

(** [Some] carries what the call left in the caller's 512-byte buffer when
    it returned [true]; [None] is the result [false]. *)
Definition ftlReadSector (f : FTL) (sectorNo : Z) : option (list Z) * FTL :=
  let sectorNo := u32 sectorNo in
  if sectorNo >=? usableSectorCount f then (None, f)
  else
    let logicalPageNo := u16 (sectorNo / SECTORS_PER_PAGE + ttPageCount f) in
    let pageSectorNo := u8 (sectorNo mod SECTORS_PER_PAGE) in
    let '(_, pageInfo, f1) := readPageInfo f indeterminatePageInfo logicalPageNo in
    let sectMask := u8 (Z.shiftl 1 pageSectorNo) in
    if negb (Z.land (pi_sectStatus pageInfo) sectMask =? 0) then
      (Some (repeat 0xff (Z.to_nat SECTOR_SIZE)), f1)
    else readPhysicalSector f1 logicalPageNo (pi_physicalPageNo pageInfo) pageSectorNo.


(** *** Initialisation, format and mount *)

(** The loop of [initPageBuffer] counts with an [int8_t]; an index below
    zero is a write in front of the array. *)
Fixpoint initPageBuffer_loop (fuel : nat) (i : Z) (f : FTL) : Outcome FTL :=
  match fuel with
  | O => NoReturn
  | S fuel' =>
      if i <? pageBufferSize f then
        if i <? 0 then Fault
        else
          initPageBuffer_loop fuel' (i8 (i + 1))
            (upd_slot i (fun b =>
               pb_with_pMode NONE (pb_with_lock false (pb_with_lru (u8 i)
                 (pb_with_physical (-1) (pb_with_logical (-1) b))))) f)
      else Returned f
  end.

Definition initPageBuffer (f : FTL) : Outcome FTL :=
  let raw := mkPageBuffer 0 0 0 false NONE indeterminatePage in
  initPageBuffer_loop 257
    0 (set_pageBuffer (repeat raw (Z.to_nat (pageBufferSize f))) f).

Definition initTransTablePage (logicalPageNo : Z) : Page :=
  let p1 := set32 off_magicStart TT_PAGE_MAGIC erased_page in
  let p2 := set32 off_logicalPageNo logicalPageNo p1 in
  let p3 := set32 off_serial 1 p2 in
  let '(crc, header) := calcCRC (firstn (Z.to_nat sizeof_TransTableHeader) p3) in
  set16 off_crc16 crc (blit 0 header p3).

(** Erase-if-needed, program and mark USED, as [createFTL] does it (the
    results of the callbacks are not looked at). *)
Definition create_program (f : FTL) (physicalPageNo : Z) (p : Page) : FTL :=
  let addr := u32 (physicalPageNo * PAGE_SIZE) in
  let f1 := if negb (state_eqb (getPhysicalPageState f physicalPageNo) ERASED)
            then snd (call_flashErase f addr) else f in
  let f2 := snd (call_flashProgram f1 physicalPageNo addr p) in
  setPhysicalPageState f2 physicalPageNo USED.

Fixpoint createFTL_loop (n : nat) (i : Z) (f : FTL) (mtt : Page) : FTL * Page :=
  match n with
  | O => (f, mtt)
  | S n' =>
      let stt := initTransTablePage i in
      let f1 := create_program f i stt in
      createFTL_loop n' (i + 1) f1 (set_pageInfo i (mkPageInfo i 0) mtt)
  end.

Definition createFTL (f : FTL) : FTL :=
  let f1 := resolveUnknownState (set_writeFrontier 0 f) (pageBufferSize f) in
  let mtt := set_pageInfo 0 (mkPageInfo 0 0) (initTransTablePage 0) in
  let '(f2, mtt1) := createFTL_loop (Z.to_nat (ttPageCount f1 - 1)) 1 f1 mtt in
  let f3 := create_program f2 0 mtt1 in
  set_writeFrontier (ttPageCount f3) f3.

Definition header_is_mtt (header : Page) : bool :=
  (get32 header off_magicStart =? TT_PAGE_MAGIC)
  && (get32 header off_logicalPageNo =? 0)
  && (get16 header off_crc16 =? fst (calcCRC header)).

(** The scan of [loadFTL]; the loop variable is an [int16_t]. *)
Fixpoint loadFTL_scan (fuel : nat) (f : FTL) (i currentSerial currentPhysicalMTTPageNo : Z)
  : option (Z * Z * FTL) :=
  match fuel with
  | O => None
  | S fuel' =>
      if i <? physicalPageCount f then
        let '(r, f1) := call_flashRead f (u32 (i * PAGE_SIZE)) sizeof_TransTableHeader in
        let header := match r with Some h => h | None => indeterminateHeader end in
        if header_is_mtt header && (get32 header off_serial >? currentSerial)
        then loadFTL_scan fuel' f1 (i16 (i + 1)) (get32 header off_serial) i
        else loadFTL_scan fuel' f1 (i16 (i + 1)) currentSerial currentPhysicalMTTPageNo
      else Some (currentSerial, currentPhysicalMTTPageNo, f)
  end.

Definition mark_used (f : FTL) (currentPhysicalPageNo : Z) : FTL :=
  if currentPhysicalPageNo >=? 0
  then setPhysicalPageState f currentPhysicalPageNo USED else f.

Fixpoint loadFTL_stt_records (n : nat) (j : Z) (stt : Z) (f : FTL) : FTL :=
  match n with
  | O => f
  | S n' =>
      let f1 := mark_used f (pi_physicalPageNo (get_pageInfo (pb_page (slot f stt)) j)) in
      loadFTL_stt_records n' (j + 1) stt f1
  end.

Fixpoint loadFTL_mtt_records (n : nat) (i : Z) (mtt : Z) (f : FTL) : Outcome FTL :=
  match n with
  | O => Returned f
  | S n' =>
      let currentPhysicalPageNo :=
        pi_physicalPageNo (get_pageInfo (pb_page (slot f mtt)) i) in
      let f1 := mark_used f currentPhysicalPageNo in
      if i <? ttPageCount f1 then
        match loadPhysicalPageInBuffer f1 i currentPhysicalPageNo with
        | (None, _) => Fault
        | (Some stt, f2) =>
            loadFTL_mtt_records n' (i + 1) mtt
              (loadFTL_stt_records (Z.to_nat TT_RECORDS_PER_PAGE) 0 stt f2)
        end
      else loadFTL_mtt_records n' (i + 1) mtt f1
  end.

Definition loadFTL (fuel : nat) (f : FTL) : Outcome (bool * FTL) :=
  match loadFTL_scan fuel f 0 0 (-1) with
  | None => NoReturn
  | Some (_, currentPhysicalMTTPageNo, f1) =>
      if currentPhysicalMTTPageNo >=? 0 then
        let f2 := set_mttPhysicalPageNo (u16 currentPhysicalMTTPageNo) f1 in
        let f3 := setPhysicalPageState f2 currentPhysicalMTTPageNo USED in
        let wf := u16 (currentPhysicalMTTPageNo + 1) in
        let f4 := set_writeFrontier (if wf >=? physicalPageCount f3 then 0 else wf) f3 in
        match loadPhysicalPageInBuffer f4 0 currentPhysicalMTTPageNo with
        | (None, _) => Fault
        | (Some mtt, f5) =>
            match loadFTL_mtt_records (Z.to_nat (TT_RECORDS_PER_PAGE - 1)) 1 mtt f5 with
            | Returned f6 => Returned (true, resolveUnknownState f6 (pageBufferSize f6))
            | Fault => Fault
            | NoReturn => NoReturn
            end
        end
      else Returned (false, f1)
  end.

Definition flash_size_supported (flashSizeInMB : Z) : bool :=
  existsb (Z.eqb flashSizeInMB) supportedFlashSizes.

(** [None] is the [NULL] result.  [d] is the device the callbacks work on;
    [fuel] bounds the scan of [loadFTL]. *)
Definition ftlInit (fuel : nat) (d : D) (flashSizeInMB : Z) : Outcome (option FTL) :=
  let flashSizeInMB := u8 flashSizeInMB in
  if negb (flash_size_supported flashSizeInMB) then Returned None
  else
    let physicalPageCount := u16 (flashSizeInMB * 1024 * 1024 / PAGE_SIZE) in
    let ttPageCount := u16 (physicalPageCount / TT_RECORDS_PER_PAGE) in
    let usableSectorCount :=
      u32 ((physicalPageCount - ttPageCount * RESERVED_PAGES_MULTIPLIER) * SECTORS_PER_PAGE) in
    let stateSize := u32 (physicalPageCount / 16
                          + (if physicalPageCount mod 16 >? 0 then 1 else 0)) in
    let f0 := mkFrFTL 0 physicalPageCount ttPageCount usableSectorCount 0
                (repeat 0 (Z.to_nat stateSize)) false []
                (u8 (ttPageCount * BUFFER_SIZE_MULTIPLIER)) d [] in
    match initPageBuffer f0 with
    | Returned f1 =>
        match loadFTL fuel f1 with
        | Returned (true, f2) => Returned (Some f2)
        | Returned (false, f2) => Returned (Some (createFTL f2))
        | Fault => Fault
        | NoReturn => NoReturn
        end
    | Fault => Fault
    | NoReturn => NoReturn
    end.

End FTL.

(** ** A NOR flash device

    Pages that were never touched are kept out of the association list and
    read as [blank].  Programming can only clear bits; erasing sets a whole
    page to ones.  None of the callbacks fails. *)

Record Nor := mkNor {
  nor_blank : Page;
  nor_pages : list (Z * Page)
}.

Fixpoint nor_lookup (pages : list (Z * Page)) (n : Z) : option Page :=
  match pages with
  | [] => None
  | (k, p) :: t => if k =? n then Some p else nor_lookup t n
  end.

Definition nor_page (d : Nor) (n : Z) : Page :=
  match nor_lookup (nor_pages d) n with
  | Some p => p
  | None => nor_blank d
  end.

Definition nor_store (d : Nor) (n : Z) (p : Page) : Nor :=
  mkNor (nor_blank d) ((n, p) :: nor_pages d).

Fixpoint and_bytes (old new : list Z) : list Z :=
  match old, new with
  | o :: old', n :: new' => Z.land o n :: and_bytes old' new'
  | _, _ => old
  end.

Definition nor_read (d : Nor) (addr len : Z) : option (list Z) :=
  Some (memcpy_from (nor_page d (addr / PAGE_SIZE)) (addr mod PAGE_SIZE) len).

Definition nor_program (d : Nor) (addr : Z) (data : list Z) : bool * Nor :=
  let n := addr / PAGE_SIZE in
  (true, nor_store d n (and_bytes (nor_page d n) data)).

Definition nor_erase (d : Nor) (addr : Z) : bool * Nor :=
  (true, nor_store d (addr / PAGE_SIZE) erased_page).

Definition nor_is_erased (d : Nor) (addr : Z) : bool :=
  forallb (Z.eqb 0xff) (nor_page d (addr / PAGE_SIZE)).

Definition nor_hal : Hal Nor := mkHal Nor nor_read nor_program nor_erase nor_is_erased.

(** A device that is erased throughout. *)
Definition nor_erased : Nor := mkNor erased_page [].

(** ** Vocabulary of the statements *)

(** Two handles that differ at most in the state map, its [resolved] flag
    and the trace of callback invocations. *)
Definition same_but_state_map {D} (f f' : FrFTL D) : Prop :=
  mttPhysicalPageNo f' = mttPhysicalPageNo f /\
  physicalPageCount f' = physicalPageCount f /\
  ttPageCount f' = ttPageCount f /\
  usableSectorCount f' = usableSectorCount f /\
  writeFrontier f' = writeFrontier f /\
  pageBuffer f' = pageBuffer f /\
  pageBufferSize f' = pageBufferSize f /\
  dev f' = dev f.

(** The freshly formatted 4 MiB and 8 MiB devices used in the examples. *)
Definition blank_PageInfo : PageInfo := mkPageInfo 0 0.

Definition ftlInit_nor (d : Nor) (flashSizeInMB : Z) : Outcome (option (FrFTL Nor)) :=
  ftlInit nor_hal [] [] (Z.to_nat 40000) d flashSizeInMB.

Definition write1 (f : FrFTL Nor) (sectorNo byte : Z) : Outcome (bool * FrFTL Nor) :=
  ftlWriteSector nor_hal blank_PageInfo f sectorNo 1 (repeat byte (Z.to_nat SECTOR_SIZE)).

(** A run of single-sector writes, each of which has to return [true]. *)
Fixpoint write_all (f : FrFTL Nor) (ws : list (Z * Z)) : option (FrFTL Nor) :=
  match ws with
  | [] => Some f
  | (sectorNo, byte) :: ws' =>
      match write1 f sectorNo byte with
      | Returned (true, f') => write_all f' ws'
      | _ => None
      end
  end.

(** The callback invocations made between [f] and [f']. *)
Definition new_events {D} (f f' : FrFTL D) : list Event :=
  skipn (length (trace f)) (trace f').

Definition programs_and_erases (t : list Event) : list Event :=
  filter (fun e => is_program e || is_erase e) t.

(** The handle [ftlInit] returns on an erased 4 MiB device. *)
Definition fresh4 : FrFTL Nor :=
  Eval vm_compute in
    match ftlInit_nor nor_erased 4 with
    | Returned (Some f) => f
    | _ => mkFrFTL 0 0 0 0 0 [] false [] 0 nor_erased []
    end.

(** An 8 MiB device that is erased except for its page 7, which holds
    zeros, and carries no translation table. *)
Definition stale8 : Nor := mkNor erased_page [(7, repeat 0 (Z.to_nat PAGE_SIZE))].

(** The writes that bring the data page of sector 0 to a pending
    relocation, and those that follow until its cache slot is reused. *)
Definition writes_until_relocation : list (Z * Z) :=
  [(0, 0xAA); (0, 0x55); (8, 1); (16, 1); (24, 1); (32, 1)].

Definition writes_until_eviction : list (Z * Z) :=
  [(0, 0xAA); (0, 0x55); (8, 1); (9, 1); (16, 1); (17, 1); (24, 1); (25, 1);
   (32, 1); (33, 1); (40, 1); (41, 1); (48, 1); (49, 1); (56, 1)].

(** Number of slots, and the slots that can be handed out. *)
Definition nslots {D} (f : FrFTL D) : Z := Z.of_nat (length (pageBuffer f)).

Definition free_count {D} (f : FrFTL D) : nat :=
  length (filter (fun b => negb (pb_lock b)) (pageBuffer f)).

(** The [lru] fields name every slot exactly once. *)
Definition lru_ok {D} (f : FrFTL D) : Prop :=
  Permutation (map pb_lru (pageBuffer f))
              (map Z.of_nat (seq 0 (length (pageBuffer f)))).

(** No [flashRead] call fails. *)
Definition reads_succeed {D} (hal : Hal D) : Prop :=
  forall d addr len, flashRead hal d addr len <> None.

(** Two slots that agree on everything but their rank. *)
Definition same_fields (b b' : PageBuffer) : Prop :=
  pb_with_lru 0 b = pb_with_lru 0 b'.

(** Two handles that differ at most in the contents of the cache and in
    the trace. *)
Definition same_but_cache {D} (f f' : FrFTL D) : Prop :=
  mttPhysicalPageNo f' = mttPhysicalPageNo f /\
  physicalPageCount f' = physicalPageCount f /\
  ttPageCount f' = ttPageCount f /\
  usableSectorCount f' = usableSectorCount f /\
  writeFrontier f' = writeFrontier f /\
  physicalPageState f' = physicalPageState f /\
  physicalPageStateResolved f' = physicalPageStateResolved f /\
  pageBufferSize f' = pageBufferSize f /\
  dev f' = dev f /\
  nslots f' = nslots f.

Definition is_read (e : Event) : bool :=
  match e with EvRead _ _ => true | _ => false end.

(** [f'] has made the callback invocations [evs] since [f]. *)
Definition emitted {D} (f f' : FrFTL D) (evs : list Event) : Prop :=
  trace f' = trace f ++ evs.

(** The slot a missed page is read into. *)
Definition loaded_slot (logicalPageNo physicalPageNo : Z) (data : Page)
  (b : PageBuffer) : PageBuffer :=
  pb_with_pMode NONE (pb_with_lock false (pb_with_physical (i16 physicalPageNo)
    (pb_with_logical (i16 logicalPageNo) (pb_with_page data b)))).

(** The events of one [programPageInBuffer]: at most one erase followed by
    at most one program, the program tagged with the logical page of the
    buffer. *)
Definition program_events (logical : Z) (evs : list Event) : Prop :=
  evs = [] \/
  (exists a, evs = [EvErase a]) \/
  (exists a, evs = [EvProgram logical a]) \/
  (exists a a', evs = [EvErase a; EvProgram logical a']).

(** The master TT is where the handle says: at least one TT page exists,
    [mttPhysicalPageNo] is a page number, that page is marked USED, and a
    slot that caches it carries logical page 0.  Page numbers held by slots
    are [int16_t] values. *)
Definition mtt_slot_ok (mtt : Z) (b : PageBuffer) : Prop :=
  -32768 <= pb_physicalPageNo b < 32768 /\
  (pb_physicalPageNo b = mtt -> pb_logicalPageNo b = 0).

Definition mtt_coherent {D} (f : FrFTL D) : Prop :=
  1 <= ttPageCount f /\
  0 <= mttPhysicalPageNo f < 32768 /\
  getPhysicalPageState f (mttPhysicalPageNo f) = USED /\
  Forall (mtt_slot_ok (mttPhysicalPageNo f)) (pageBuffer f).

Definition mtt_cached {D} (f : FrFTL D) : Prop :=
  exists j, pb_physicalPageNo (slot f j) = mttPhysicalPageNo f.

(** A condition on the logical page number carried by program events;
    other events pass. *)
Definition program_tag (P : Z -> Prop) (e : Event) : Prop :=
  match e with
  | EvProgram logical _ => P logical
  | _ => True
  end.

(** Between [f] and [f'] flash was only read. *)
Definition reads_only {D} (f f' : FrFTL D) : Prop :=
  exists evs, emitted f f' evs /\ forallb is_read evs = true.

(** What the functions that read or update page infos have in common. *)
Definition table_access {D} (f f' : FrFTL D) : Prop :=
  same_but_cache f f' /\ reads_only f f' /\
  (mtt_coherent f -> mtt_coherent f').

(** A stretch of the run all programs of which satisfy [P]. *)
Definition stretch {D} (P : Z -> Prop) (f f' : FrFTL D) : Prop :=
  exists evs, emitted f f' evs /\ Forall (program_tag P) evs.

(** The geometry of a handle: at most 32768 pages (page numbers are
    [int16_t]), two bits of state for each of them, the write frontier on
    one of them. *)
Definition geometry_ok {D} (f : FrFTL D) : Prop :=
  physicalPageCount f <= 32768 /\
  physicalPageCount f <= 16 * Z.of_nat (length (physicalPageState f)) /\
  0 <= writeFrontier f < physicalPageCount f.

(** ** The cache as [ftlSync] expects it

    At most one slot holds the master TT. *)
Definition one_mtt_slot {D} (f : FrFTL D) : Prop :=
  forall j j',
    pb_physicalPageNo (slot f j) = mttPhysicalPageNo f ->
    pb_physicalPageNo (slot f j') = mttPhysicalPageNo f -> j = j'.

(** The cache knows where the secondary TT [k] lives and holds it: a slot
    holds the master TT, the record [k] of that page names a page that is
    marked USED, some slot holds that page, and whichever slot holds it
    carries logical page [k]. *)
Definition stt_cached {D} (f : FrFTL D) (k : Z) : Prop :=
  0 < k < ttPageCount f /\
  exists m,
    pb_physicalPageNo (slot f m) = mttPhysicalPageNo f /\
    let q := pi_physicalPageNo (get_pageInfo (pb_page (slot f m)) k) in
    0 <= q /\
    getPhysicalPageState f q = USED /\
    (exists s, pb_physicalPageNo (slot f s) = q) /\
    forall s, pb_physicalPageNo (slot f s) = q -> pb_logicalPageNo (slot f s) = k.

(** A slot between two syncs: an unlocked slot has nothing pending; the
    logical page number is an [int16_t]; a locked slot holds a data page,
    a secondary TT, or the master TT, on a page of the device; the
    translation table of a locked data page that the master TT does not
    map itself (logical page 1024 and above) is in the cache. *)
Definition slot_ready {D} (f : FrFTL D) (b : PageBuffer) : Prop :=
  (pb_lock b = false -> pb_pMode b = NONE) /\
  pb_logicalPageNo b < 32768 /\
  (pb_lock b = true ->
   0 <= pb_logicalPageNo b /\
   (pb_logicalPageNo b = 0 -> pb_physicalPageNo b = mttPhysicalPageNo f) /\
   0 <= pb_physicalPageNo b < physicalPageCount f /\
   (TT_RECORDS_PER_PAGE <= pb_logicalPageNo b ->
    stt_cached f (pb_logicalPageNo b / TT_RECORDS_PER_PAGE))).

(** A cache that is ready for a sync: the master TT is where the handle
    says, in at most one slot; the cache has its [pageBufferSize] slots;
    the state map covers the device, so that every page the sync marks
    lies inside it; every slot is ready. *)
Definition sync_ready {D} (f : FrFTL D) : Prop :=
  mtt_coherent f /\
  one_mtt_slot f /\
  nslots f = pageBufferSize f /\
  pageBufferSize f < 256 /\
  geometry_ok f /\
  Forall (slot_ready f) (pageBuffer f).

(** The cache in the middle of a sync: [pending j l] tells which locked
    slots [j], with logical page [l], are still to be flushed by the phase
    at hand; the only other locked slot is the one of the master TT. *)
Definition flushing {D} (pending : Z -> Z -> Prop) (f : FrFTL D) : Prop :=
  mtt_coherent f /\
  one_mtt_slot f /\
  forall j, 0 <= j < nslots f ->
    let b := slot f j in
    (pb_lock b = false -> pb_pMode b = NONE) /\
    pb_logicalPageNo b < 32768 /\
    (pb_lock b = true ->
     pending j (pb_logicalPageNo b) \/
     (pb_logicalPageNo b = 0 /\ pb_physicalPageNo b = mttPhysicalPageNo f)).

(** The tables of the locked pages that the master TT does not map itself
    are in the cache. *)
Definition tables_cached {D} (f : FrFTL D) : Prop :=
  forall j, pb_lock (slot f j) = true ->
    TT_RECORDS_PER_PAGE <= pb_logicalPageNo (slot f j) ->
    stt_cached f (pb_logicalPageNo (slot f j) / TT_RECORDS_PER_PAGE).

Definition pending_data (T i : Z) (j l : Z) : Prop :=
  (T <= l /\ i <= j) \/ 0 < l < T.

Definition pending_stt (T i : Z) (j l : Z) : Prop :=
  0 < l < T /\ i <= j.

(** ** Vocabulary of the mount *)

(** The header [loadFTL] sees at physical page [i]. *)
Definition header_at {D} (hal : Hal D) (indeterminateHeader : Page) (d : D) (i : Z) : Page :=
  match flashRead hal d (u32 (i * PAGE_SIZE)) sizeof_TransTableHeader with
  | Some h => h
  | None => indeterminateHeader
  end.

(** A page that can become the master TT: valid header (magic, logical page
    0, CRC) and a serial above zero. *)
Definition mtt_candidate {D} (hal : Hal D) (indeterminateHeader : Page) (d : D) (i : Z) : Prop :=
  header_is_mtt (header_at hal indeterminateHeader d i) = true /\
  get32 (header_at hal indeterminateHeader d i) off_serial > 0.

Definition serial_at {D} (hal : Hal D) (indeterminateHeader : Page) (d : D) (i : Z) : Z :=
  get32 (header_at hal indeterminateHeader d i) off_serial.

(** Following the spec's words, "among those ... pick the one with greatest
    serial": [p] is a candidate among the pages [0 .. P-1], no candidate has
    a greater serial, and [p] is the first page with its serial. *)
Definition authoritative_mtt {D} (hal : Hal D) (indeterminateHeader : Page) (d : D)
  (P p : Z) : Prop :=
  0 <= p < P /\
  mtt_candidate hal indeterminateHeader d p /\
  (forall i, 0 <= i < P -> mtt_candidate hal indeterminateHeader d i ->
             serial_at hal indeterminateHeader d i <= serial_at hal indeterminateHeader d p) /\
  (forall i, 0 <= i < p -> mtt_candidate hal indeterminateHeader d i ->
             serial_at hal indeterminateHeader d i < serial_at hal indeterminateHeader d p).

(** A translation-table page as [initTransTablePage] builds it, with a
    serial of one's choice. *)
Definition tt_page (logicalPageNo serial : Z) : Page :=
  let p1 := set32 off_magicStart TT_PAGE_MAGIC erased_page in
  let p2 := set32 off_logicalPageNo logicalPageNo p1 in
  let p3 := set32 off_serial serial p2 in
  let '(crc, header) := calcCRC (firstn (Z.to_nat sizeof_TransTableHeader) p3) in
  set16 off_crc16 crc (blit 0 header p3).

(** What the scan of [loadFTL] has established once it has looked at the
    pages below [i]. *)
Definition scanned {D} (hal : Hal D) (indeterminateHeader : Page) (d : D)
  (i currentSerial currentPhysicalMTTPageNo : Z) : Prop :=
  (currentPhysicalMTTPageNo = -1 /\ currentSerial = 0 /\
   forall q, 0 <= q < i -> ~ mtt_candidate hal indeterminateHeader d q) \/
  (0 <= currentPhysicalMTTPageNo < i /\
   mtt_candidate hal indeterminateHeader d currentPhysicalMTTPageNo /\
   serial_at hal indeterminateHeader d currentPhysicalMTTPageNo = currentSerial /\
   (forall q, 0 <= q < i -> mtt_candidate hal indeterminateHeader d q ->
              serial_at hal indeterminateHeader d q <= currentSerial) /\
   (forall q, 0 <= q < currentPhysicalMTTPageNo ->
              mtt_candidate hal indeterminateHeader d q ->
              serial_at hal indeterminateHeader d q < currentSerial)).

(** Two handles with the master TT and the write frontier at the same
    place. *)
Definition same_location {D} (f f' : FrFTL D) : Prop :=
  mttPhysicalPageNo f' = mttPhysicalPageNo f /\
  writeFrontier f' = writeFrontier f /\
  physicalPageCount f' = physicalPageCount f.

(** The serial a page carries in its header. *)
Definition page_serial (p : Page) : Z := get32 p off_serial.

(** ** Runs on the NOR device *)

(** The serial of the page that the handle names as master TT, as it is on
    the flash. *)
Definition mtt_serial_on_media (f : FrFTL Nor) : Z :=
  page_serial (nor_page (dev f) (mttPhysicalPageNo f)).

(** Calls of the sector API, each of which has to succeed. *)
Inductive Op : Type :=
| OpWrite (sectorNo byte : Z)
| OpRead (sectorNo : Z)
| OpSync.

Definition run_op (f : FrFTL Nor) (o : Op) : option (FrFTL Nor) :=
  match o with
  | OpWrite sectorNo byte =>
      match write1 f sectorNo byte with
      | Returned (true, f') => Some f'
      | _ => None
      end
  | OpRead sectorNo =>
      match ftlReadSector nor_hal blank_PageInfo f sectorNo with
      | (Some _, f') => Some f'
      | (None, _) => None
      end
  | OpSync =>
      match ftlSync nor_hal blank_PageInfo f with
      | (true, f') => Some f'
      | (false, _) => None
      end
  end.

Fixpoint run_ops (f : FrFTL Nor) (ops : list Op) : option (FrFTL Nor) :=
  match ops with
  | [] => Some f
  | o :: rest =>
      match run_op f o with
      | Some f' => run_ops f' rest
      | None => None
      end
  end.

(** The freshly formatted 4 MiB device after sector 0 was written twice:
    the data page and the master TT wait for their relocation. *)
Definition overwritten4 : FrFTL Nor :=
  match run_ops fresh4 [OpWrite 0 0xAA; OpWrite 0 0x55] with
  | Some f => f
  | None => fresh4
  end.

(** A 4 MiB device, erased except page 3, which holds a translation-table
    page for logical page 0 with serial 0 and a matching checksum. *)
Definition serial0_4 : Nor := mkNor erased_page [(3, tt_page 0 0)].

(** The flash of the formatted 4 MiB device, with record 0 of the master
    TT, the one for the master TT itself, pointing to page 9. *)
Definition skewed4 : Nor :=
  nor_store (dev fresh4) 0 (set_pageInfo 0 (mkPageInfo 9 0) (nor_page (dev fresh4) 0)).

(** The flash of a formatted 8 MiB device. *)
Definition formatted8 : Nor :=
  match ftlInit_nor nor_erased 8 with
  | Returned (Some f) => dev f
  | _ => nor_erased
  end.

(** The same, with the record of the first data page (logical page 2)
    pointing to physical page 1, where the secondary TT lives. *)
Definition aliased8 : Nor :=
  nor_store formatted8 0 (set_pageInfo 2 (mkPageInfo 1 0xFE) (nor_page formatted8 0)).

(** The flash of a formatted 8 MiB device on which the records of logical
    pages 2 and 3 both point to physical page 6, sector 0 written.  Page 6
    holds records too: the secondary TT at page 1 and logical page 2 at
    page 5; its header is blank. *)
Definition shadowed8 : Nor :=
  nor_store
    (nor_store formatted8 0
       (set_pageInfo 3 (mkPageInfo 6 0xFE)
          (set_pageInfo 2 (mkPageInfo 6 0xFE) (nor_page formatted8 0))))
    6 (set_pageInfo 2 (mkPageInfo 5 0xFE) (set_pageInfo 1 (mkPageInfo 1 0) erased_page)).

(** Logical page 2 is relocated off page 6; logical page 3 is then read
    from page 6 into the cache; two allocations later the master TT is
    relocated to page 6; a sector of logical page 1024 and a second sector
    of logical page 2 are written. *)
Definition ops_until_mtt_shadowed : list Op :=
  [OpWrite 0 0xA1; OpSync; OpRead 8; OpWrite 16 0xB2; OpWrite 0 0xC3; OpSync;
   OpWrite 8176 0xD4; OpWrite 1 0xE5].

Definition ops_until_alias_locked : list Op :=
  [OpWrite 8 1; OpWrite 16 1; OpWrite 24 1; OpWrite 32 1; OpWrite 40 1; OpSync;
   OpRead 40; OpRead 32; OpRead 24; OpRead 16; OpRead 8;
   OpWrite 48 1; OpWrite 56 1; OpRead 0; OpWrite 8176 7; OpSync].

(** ** The conditions on the cache as checks *)

Definition mtt_slot_okb (mtt : Z) (b : PageBuffer) : bool :=
  (-32768 <=? pb_physicalPageNo b) && (pb_physicalPageNo b <? 32768)
  && (negb (pb_physicalPageNo b =? mtt) || (pb_logicalPageNo b =? 0)).

Definition mtt_coherentb {D} (f : FrFTL D) : bool :=
  (1 <=? ttPageCount f)
  && (0 <=? mttPhysicalPageNo f) && (mttPhysicalPageNo f <? 32768)
  && state_eqb (getPhysicalPageState f (mttPhysicalPageNo f)) USED
  && forallb (mtt_slot_okb (mttPhysicalPageNo f)) (pageBuffer f).

Definition one_mtt_slotb {D} (f : FrFTL D) : bool :=
  (0 <=? mttPhysicalPageNo f)
  && Nat.leb (length (filter (fun b => pb_physicalPageNo b =? mttPhysicalPageNo f)
                        (pageBuffer f))) 1.

(** The conditions on a cache that is ready for a sync, as checks. *)
Definition stt_cachedb {D} (f : FrFTL D) (k : Z) : bool :=
  if (0 <? k) && (k <? ttPageCount f) then
    match find_slot 0 (pageBuffer f) (mttPhysicalPageNo f) with
    | Some m =>
        let q := pi_physicalPageNo (get_pageInfo (pb_page (slot f m)) k) in
        if 0 <=? q then
          state_eqb (getPhysicalPageState f q) USED
          && existsb (fun b => pb_physicalPageNo b =? q) (pageBuffer f)
          && forallb (fun b => negb (pb_physicalPageNo b =? q) || (pb_logicalPageNo b =? k))
               (pageBuffer f)
        else false
    | None => false
    end
  else false.

Definition slot_readyb {D} (f : FrFTL D) (b : PageBuffer) : bool :=
  (pb_lock b || mode_eqb (pb_pMode b) NONE)
  && (pb_logicalPageNo b <? 32768)
  && (if pb_lock b then
        (0 <=? pb_logicalPageNo b)
        && (negb (pb_logicalPageNo b =? 0)
            || (pb_physicalPageNo b =? mttPhysicalPageNo f))
        && (0 <=? pb_physicalPageNo b)
        && (pb_physicalPageNo b <? physicalPageCount f)
        && (if pb_logicalPageNo b <? TT_RECORDS_PER_PAGE then true
            else stt_cachedb f (pb_logicalPageNo b / TT_RECORDS_PER_PAGE))
      else true).

Definition geometry_okb {D} (f : FrFTL D) : bool :=
  (physicalPageCount f <=? 32768)
  && (physicalPageCount f <=? 16 * Z.of_nat (length (physicalPageState f)))
  && (0 <=? writeFrontier f) && (writeFrontier f <? physicalPageCount f).

Definition sync_readyb {D} (f : FrFTL D) : bool :=
  mtt_coherentb f && one_mtt_slotb f
  && (nslots f =? pageBufferSize f) && (pageBufferSize f <? 256)
  && geometry_okb f
  && forallb (slot_readyb f) (pageBuffer f).

(** ** Vocabulary of the further properties *)

(** The number of steps after which the cyclic walk over the pages
    [0 .. P-1] that starts at [idx] reaches [q]. *)
Definition steps_to (P idx q : Z) : Z :=
  if q >=? idx then q - idx else q - idx + P.

(** The state the resolver gives to an UNKNOWN page. *)
Definition resolved_state {D} (hal : Hal D) (d : D) (q : Z) : PhysicalPageState :=
  if isFlashErased hal d (u32 (q * PAGE_SIZE)) then ERASED else ERASE_REQUIRED.

Definition is_probe (e : Event) : bool :=
  match e with EvIsErased _ => true | _ => false end.

(** The slots from the most recently to the least recently used one: the
    [lru] field of slot [j] names the slot of rank [j]. *)
Definition lru_order {D} (f : FrFTL D) : list Z := map pb_lru (pageBuffer f).

(** The header of a page, as [loadFTL] reads it from the flash. *)
Definition header_of (p : Page) : Page := firstn (Z.to_nat sizeof_TransTableHeader) p.

(** Every page in the cache is a whole page, and so is every page the
    flash returns. *)
Definition pages_full {D} (f : FrFTL D) : Prop :=
  Forall (fun b => length (pb_page b) = Z.to_nat PAGE_SIZE) (pageBuffer f).

Definition reads_full {D} (hal : Hal D) : Prop :=
  forall d addr data,
    flashRead hal d addr PAGE_SIZE = Some data -> length data = Z.to_nat PAGE_SIZE.

(** [header.crc16 = calcCRC(&header)] on the header of a page: the padding
    is forced to 0xFFFF and the checksum is stored. *)
Definition store_crc (p : Page) : Page :=
  let '(crc, header) := calcCRC (header_of p) in
  set16 off_crc16 crc (blit 0 header p).

(** A record that maps nothing: [physicalPageNo] -1, no sector written. *)
Definition unmapped_PageInfo : PageInfo := mkPageInfo (-1) 0xff.

(** From [f] to [f'] only the cache and the trace have changed, the flash
    was only read, and the locked slots are as they were. *)
Definition cache_only {D} (f f' : FrFTL D) : Prop :=
  same_but_cache f f' /\ reads_only f f' /\
  forall j, pb_lock (slot f j) = true -> same_fields (slot f' j) (slot f j).

(** The [lru] fields of [f'] are those of [f] in another order, and the
    cache has kept its size. *)
Definition ranks_kept {D} (f f' : FrFTL D) : Prop :=
  Permutation (lru_order f') (lru_order f) /\
  nslots f' = nslots f /\ pageBufferSize f' = pageBufferSize f.

(** The cache holds [pageBufferSize] slots and the [lru] fields name each
    of them once. *)
Definition cache_ranked {D} (f : FrFTL D) : Prop :=
  lru_ok f /\ nslots f = pageBufferSize f.

(** Two handles of one geometry: the page counts, the number of usable
    sectors and the length of the state map agree. *)
Definition same_geometry {D} (f f' : FrFTL D) : Prop :=
  physicalPageCount f' = physicalPageCount f /\
  ttPageCount f' = ttPageCount f /\
  usableSectorCount f' = usableSectorCount f /\
  length (physicalPageState f') = length (physicalPageState f).

(** Slot [k] is not the one the next load evicts: it is locked, or it is
    the most recently used slot and another slot is unlocked. *)
Definition spared {D} (f : FrFTL D) (k : Z) : Prop :=
  pb_lock (slot f k) = true \/
  exists rest, lru_order f = k :: rest /\
    exists u, In u rest /\ pb_lock (slot f u) = false.

(** The cache holds sector [s] of logical page [l] with contents [data]:
    the lookup by physical page finds the master translation table, its
    record for [l] names a physical page and marks the sector as written,
    and the lookup finds that page with [data] in the place of the
    sector. *)
Definition sector_in_cache {D} (f : FrFTL D) (l s : Z) (data : list Z) : Prop :=
  exists t db p st,
    find_slot 0 (pageBuffer f) (mttPhysicalPageNo f) = Some t /\
    get_pageInfo (pb_page (slot f t)) l = mkPageInfo p st /\
    Z.land st (u8 (Z.shiftl 1 s)) = 0 /\
    0 <= p < 32768 /\
    find_slot 0 (pageBuffer f) p = Some db /\
    memcpy_from (pb_page (slot f db)) (s * SECTOR_SIZE) SECTOR_SIZE = data.

(** ** Devices of the further examples *)

(** The NOR device behind a read callback that hands out exactly [len]
    bytes: bytes that the page does not provide read as 0xff. *)
Definition nor_read_whole (d : Nor) (addr len : Z) : option (list Z) :=
  match nor_read d addr len with
  | Some data => Some (firstn (Z.to_nat len) (data ++ repeat 0xff (Z.to_nat len)))
  | None => None
  end.

Definition whole_hal : Hal Nor :=
  mkHal Nor nor_read_whole nor_program nor_erase nor_is_erased.

(** The handle [ftlInit] returns on an erased 4 MiB device when the memory
    of the slots holds 0xff. *)
Definition full4 : FrFTL Nor :=
  match ftlInit whole_hal erased_page [] (Z.to_nat 2000) nor_erased 4 with
  | Returned (Some f) => f
  | _ => fresh4
  end.

(** A write-protected NOR device: program and erase fail. *)
Definition protected_hal : Hal Nor :=
  mkHal Nor nor_read (fun d _ _ => (false, d)) (fun d _ => (false, d)) nor_is_erased.

(** The handle [full4] after sector 0 was written. *)
Definition written_full4 : FrFTL Nor :=
  match ftlWriteSector whole_hal blank_PageInfo full4 0 1
          (repeat 0xAA (Z.to_nat SECTOR_SIZE)) with
  | Returned (_, f) => f
  | _ => full4
  end.

(** The handle [ftlInit] returns on an erased 8 MiB device. *)
Definition fresh8 : FrFTL Nor :=
  Eval vm_compute in
    match ftlInit_nor nor_erased 8 with
    | Returned (Some f) => f
    | _ => mkFrFTL 0 0 0 0 0 [] false [] 0 nor_erased []
    end.

(** The freshly formatted 8 MiB device after a sector of logical page
    1024, the first page that a secondary TT maps, was written: the data
    page and the secondary TT wait to be programmed. *)
Definition appended8 : FrFTL Nor :=
  match run_ops fresh8 [OpWrite 8176 0xA5] with
  | Some f => f
  | None => fresh8
  end.

(** The same device after that sector was written, synced and written
    again: the data page, the secondary TT and the master TT wait for
    their relocation. *)
Definition overwritten8 : FrFTL Nor :=
  match run_ops fresh8 [OpWrite 8176 0xA5; OpSync; OpWrite 8176 0x5A] with
  | Some f => f
  | None => fresh8
  end.

(** The callbacks of [hal] on a device that also keeps a log of what was
    programmed: the address and the data of every [flashProgram] call, in
    the order of the calls. *)
Definition recording {D} (hal : Hal D) : Hal (D * list (Z * Page)) :=
  mkHal (D * list (Z * Page))
    (fun d addr len => flashRead hal (fst d) addr len)
    (fun d addr data =>
       let '(ok, d') := flashProgram hal (fst d) addr data in
       (ok, (d', snd d ++ [(addr, data)])))
    (fun d addr =>
       let '(ok, d') := flashErase hal (fst d) addr in (ok, (d', snd d)))
    (fun d addr => isFlashErased hal (fst d) addr).

Definition programmed {D} (f : FrFTL (D * list (Z * Page))) : list (Z * Page) :=
  snd (dev f).

(** The handle of an 8 MiB device as [createFTL] gets it on an erased
    flash: 2048 pages, two translation-table pages, nothing resolved, an
    empty log. *)
Definition unformatted8 : FrFTL (Nor * list (Z * Page)) :=
  mkFrFTL 0 2048 2 16128 0 (repeat 0 (Z.to_nat 128)) false [] 8 (nor_erased, []) [].

(** Every page that the device hands out is a whole page, and each of its
    1024 page-info records names a page below [P] or no page. *)
Definition records_within {D} (hal : Hal D) (d : D) (P : Z) : Prop :=
  forall p data,
    flashRead hal d (u32 (u16 p * PAGE_SIZE)) PAGE_SIZE = Some data ->
    length data = Z.to_nat PAGE_SIZE /\
    forall r, 0 <= r < TT_RECORDS_PER_PAGE ->
      pi_physicalPageNo (get_pageInfo data r) < P.

(** * Properties *)

(** ** Array access *)

Lemma upd_length {A} (n : nat) (x : A) (l : list A) : length (upd n x l) = length l.
Proof.
  revert n; induction l as [|h t IH]; intros [|n]; simpl; auto.
Qed.

Lemma nth_upd_same {A} (n : nat) (x d : A) (l : list A) :
  (n < length l)%nat -> nth n (upd n x l) d = x.
Proof.
  revert n; induction l as [|h t IH]; intros [|n] H; simpl in *; try lia; auto.
  apply IH; lia.
Qed.

Lemma nth_upd_other {A} (n m : nat) (x d : A) (l : list A) :
  n <> m -> nth m (upd n x l) d = nth m l d.
Proof.
  revert n m; induction l as [|h t IH]; intros [|n] [|m] H; simpl; auto; try lia.
Qed.

Lemma upd_beyond {A} (n : nat) (x : A) (l : list A) :
  (length l <= n)%nat -> upd n x l = l.
Proof.
  revert n; induction l as [|h t IH]; intros [|n] H; simpl in *; auto; try lia.
  f_equal; apply IH; lia.
Qed.

Lemma zupd_length {A} (i : Z) (x : A) (l : list A) : length (zupd i x l) = length l.
Proof.
  unfold zupd; destruct (i <? 0); auto using upd_length.
Qed.

Lemma zth_zupd_same {A} (i : Z) (x d : A) (l : list A) :
  0 <= i < Z.of_nat (length l) -> zth d (zupd i x l) i = x.
Proof.
  intros H; unfold zth, zupd.
  destruct (Z.ltb_spec i 0); [lia|].
  apply nth_upd_same; lia.
Qed.

Lemma zth_zupd_other {A} (i j : Z) (x d : A) (l : list A) :
  i <> j -> zth d (zupd i x l) j = zth d l j.
Proof.
  intros H; unfold zth, zupd.
  destruct (Z.ltb_spec j 0); auto.
  destruct (Z.ltb_spec i 0); auto.
  apply nth_upd_other; lia.
Qed.

(** ** The packed state word *)

Lemma state_shift_range (p : Z) : 0 <= state_shift p <= 30 /\ Z.even (state_shift p) = true.
Proof.
  unfold state_shift.
  assert (0 <= Z.land p 0xf < 16).
  { change 0xf with (Z.ones 4); rewrite Z.land_ones by lia.
    apply Z.mod_pos_bound; lia. }
  split; [lia|]. rewrite Z.even_mul; apply orb_true_r.
Qed.

Lemma state_of_to_Z (s : PhysicalPageState) : state_of_Z (state_to_Z s) = s.
Proof. destruct s; reflexivity. Qed.

Lemma state_to_Z_range (s : PhysicalPageState) : 0 <= state_to_Z s < 4.
Proof. destruct s; simpl; lia. Qed.

Lemma u32_testbit (z n : Z) :
  0 <= n -> Z.testbit (u32 z) n = (n <? 32) && Z.testbit z n.
Proof.
  intros Hn; unfold u32; change 4294967296 with (2 ^ 32).
  destruct (Z.ltb_spec n 32).
  - rewrite Z.mod_pow2_bits_low by lia; reflexivity.
  - rewrite Z.mod_pow2_bits_high by lia; reflexivity.
Qed.

Lemma three_testbit (n : Z) : Z.testbit 3 n = (0 <=? n) && (n <? 2).
Proof.
  change 3 with (Z.ones 2).
  destruct (Z.leb_spec 0 n).
  - destruct (Z.ltb_spec n 2).
    + rewrite Z.ones_spec_low by lia; reflexivity.
    + rewrite Z.ones_spec_high by lia; reflexivity.
  - rewrite Z.testbit_neg_r by lia; reflexivity.
Qed.

(** Bit [n] of the word after [word_set]: the two bits of the field come
    from the new state, every other bit of the low 32 is kept. *)
Lemma word_set_testbit (w sh st n : Z) :
  0 <= sh <= 30 -> 0 <= n ->
  Z.testbit (word_set w sh st) n =
  if (sh <=? n) && (n <? sh + 2) then Z.testbit st (n - sh)
  else (n <? 32) && Z.testbit w n.
Proof.
  intros Hsh Hn; unfold word_set.
  rewrite Z.lor_spec, Z.land_spec, Z.lxor_spec, !u32_testbit by lia.
  rewrite !Z.shiftl_spec by lia.
  rewrite Z.land_spec, !three_testbit.
  change 0xFFFFFFFF with (Z.ones 32).
  destruct (Z.leb_spec sh n), (Z.ltb_spec n (sh + 2)), (Z.ltb_spec n 32); simpl;
    try lia;
    repeat match goal with
           | |- context [Z.testbit (Z.ones 32) n] =>
               first [rewrite Z.ones_spec_low by lia | rewrite Z.ones_spec_high by lia]
           | |- context [0 <=? ?a] => destruct (Z.leb_spec 0 a); try lia
           | |- context [?a <? 2] => destruct (Z.ltb_spec a 2); try lia
           end; simpl;
    rewrite ?andb_true_r, ?andb_false_r, ?orb_false_r, ?orb_false_l;
    try reflexivity;
    try (rewrite (Z.testbit_neg_r _ (n - sh)) by lia; rewrite ?andb_false_r; reflexivity);
    try (destruct (Z.testbit w n); reflexivity).
Qed.

Lemma word_get_testbit (w sh n : Z) :
  0 <= sh -> 0 <= n ->
  Z.testbit (word_get w sh) n = (n <? 2) && Z.testbit w (n + sh).
Proof.
  intros Hsh Hn; unfold word_get.
  rewrite Z.land_spec, Z.shiftr_spec, three_testbit by lia.
  destruct (Z.leb_spec 0 n); [|lia].
  destruct (n <? 2); simpl; rewrite ?andb_true_r, ?andb_false_r; reflexivity.
Qed.

Lemma word_get_set_same (w sh st : Z) :
  0 <= sh <= 30 -> 0 <= st < 4 -> word_get (word_set w sh st) sh = st.
Proof.
  intros Hsh Hst. apply Z.bits_inj'; intros n Hn.
  rewrite word_get_testbit, word_set_testbit by lia.
  destruct (Z.ltb_spec n 2); simpl.
  - destruct (Z.leb_spec sh (n + sh)), (Z.ltb_spec (n + sh) (sh + 2)); try lia; simpl.
    f_equal; lia.
  - symmetry. apply Z.bits_above_log2; [lia|].
    destruct (Z.eq_dec st 0) as [->|]; [simpl; lia|].
    assert (Z.log2 st < 2) by (apply Z.log2_lt_pow2; lia). lia.
Qed.

Lemma word_get_set_other (w sh sh' st : Z) :
  0 <= sh <= 30 -> 0 <= sh' <= 30 -> Z.even sh = true -> Z.even sh' = true ->
  sh <> sh' -> word_get (word_set w sh st) sh' = word_get w sh'.
Proof.
  intros Hsh Hsh' He He' Hne. apply Z.bits_inj'; intros n Hn.
  rewrite !word_get_testbit, word_set_testbit by lia.
  destruct (Z.ltb_spec n 2); simpl; auto.
  assert (sh + 2 <= sh' \/ sh' + 2 <= sh).
  { apply Z.even_spec in He, He'. destruct He as [a ->], He' as [b ->]. lia. }
  destruct (Z.leb_spec sh (n + sh')), (Z.ltb_spec (n + sh') (sh + 2)); simpl; try lia;
    destruct (Z.ltb_spec (n + sh') 32); simpl; auto; lia.
Qed.

(** ** State map: what is read after a write *)

Lemma i16_range (z : Z) : -32768 <= i16 z < 32768.
Proof.
  unfold i16. pose proof (Z.mod_pos_bound z 65536 ltac:(lia)).
  destruct (Z.ltb_spec (z mod 65536) 32768); lia.
Qed.

Lemma mod_shifted (a b : Z) : - b <= a < 0 -> a mod b = a + b.
Proof.
  intros H. symmetry. apply Z.mod_unique with (q := -1); lia.
Qed.

Lemma i16_small (z : Z) : -32768 <= z < 32768 -> i16 z = z.
Proof.
  intros H; unfold i16.
  destruct (Z.leb_spec 0 z).
  - rewrite Z.mod_small by lia.
    destruct (Z.ltb_spec z 32768); lia.
  - rewrite mod_shifted by lia.
    destruct (Z.ltb_spec (z + 65536) 32768); lia.
Qed.

Lemma i16_idem (z : Z) : i16 (i16 z) = i16 z.
Proof. apply i16_small, i16_range. Qed.

Lemma page_split (p : Z) : p = 16 * Z.shiftr p 4 + Z.land p 0xf.
Proof.
  rewrite Z.shiftr_div_pow2 by lia.
  change 0xf with (Z.ones 4); rewrite Z.land_ones by lia.
  change (2 ^ 4) with 16. apply Z.div_mod; lia.
Qed.

Lemma land15_range (p : Z) : 0 <= Z.land p 0xf < 16.
Proof.
  change 0xf with (Z.ones 4); rewrite Z.land_ones by lia.
  apply Z.mod_pos_bound; lia.
Qed.

Lemma state_index_inj (p q : Z) :
  -32768 <= p < 32768 -> -32768 <= q < 32768 ->
  u32 (Z.shiftr p 4) = u32 (Z.shiftr q 4) -> Z.shiftr p 4 = Z.shiftr q 4.
Proof.
  intros Hp Hq H.
  pose proof (page_split p). pose proof (page_split q).
  pose proof (land15_range p). pose proof (land15_range q).
  unfold u32 in H.
  assert (forall a, -2048 <= a < 2048 ->
            a mod 4294967296 = if a <? 0 then a + 4294967296 else a) as E.
  { intros a Ha. destruct (Z.ltb_spec a 0).
    - apply mod_shifted; lia.
    - apply Z.mod_small; lia. }
  rewrite !E in H by lia.
  destruct (Z.ltb_spec (Z.shiftr p 4) 0), (Z.ltb_spec (Z.shiftr q 4) 0); lia.
Qed.

Section StateMap.

Context {D : Type}.
Implicit Types (f : FrFTL D) (s : PhysicalPageState).

Lemma getPhysicalPageState_set_same f p s :
  0 <= i16 p < 16 * Z.of_nat (length (physicalPageState f)) ->
  getPhysicalPageState (setPhysicalPageState f p s) p = s.
Proof.
  intros H. unfold getPhysicalPageState, setPhysicalPageState; simpl.
  pose proof (page_split (i16 p)) as Hs. pose proof (land15_range (i16 p)) as Hl.
  assert (0 <= Z.shiftr (i16 p) 4 < Z.of_nat (length (physicalPageState f))) by lia.
  assert (u32 (Z.shiftr (i16 p) 4) = Z.shiftr (i16 p) 4) as ->.
  { unfold u32. apply Z.mod_small. pose proof (i16_range p). lia. }
  rewrite zth_zupd_same by lia.
  rewrite word_get_set_same.
  - apply state_of_to_Z.
  - pose proof (state_shift_range (i16 p)); lia.
  - apply state_to_Z_range.
Qed.

Lemma getPhysicalPageState_set_other f p q s :
  i16 p <> i16 q ->
  getPhysicalPageState (setPhysicalPageState f p s) q = getPhysicalPageState f q.
Proof.
  intros H. unfold getPhysicalPageState, setPhysicalPageState; simpl.
  destruct (Z.eq_dec (u32 (Z.shiftr (i16 p) 4)) (u32 (Z.shiftr (i16 q) 4))) as [E|E].
  - pose proof (state_index_inj _ _ (i16_range p) (i16_range q) E) as E'.
    rewrite <- E.
    set (idx := u32 (Z.shiftr (i16 p) 4)).
    destruct (Z.ltb_spec idx (Z.of_nat (length (physicalPageState f)))) as [Hin|Hout].
    + assert (0 <= idx) by (apply Z.mod_pos_bound; lia).
      rewrite zth_zupd_same by lia.
      rewrite word_get_set_other; auto;
        try (pose proof (state_shift_range (i16 p));
             pose proof (state_shift_range (i16 q)); tauto).
      unfold state_shift.
      pose proof (page_split (i16 p)). pose proof (page_split (i16 q)). lia.
    + unfold zupd. destruct (idx <? 0); auto.
      rewrite upd_beyond by lia. reflexivity.
  - rewrite zth_zupd_other by auto. reflexivity.
Qed.

(** C10. For every physical page [p] in [0, P) and every state [s], after
    [setPhysicalPageState(ftl, p, s)] the call [getPhysicalPageState(ftl, p)]
    returns [s], and [getPhysicalPageState(ftl, q)] is what it was for every
    other page [q] in [0, P).  [P] is at most 32768 (page numbers are
    [int16_t]) and the packed array holds two bits for each of the [P]
    pages. *)
Theorem setPhysicalPageState_get_frame f p s :
  0 <= p < physicalPageCount f ->
  physicalPageCount f <= 32768 ->
  physicalPageCount f <= 16 * Z.of_nat (length (physicalPageState f)) ->
  getPhysicalPageState (setPhysicalPageState f p s) p = s /\
  forall q, 0 <= q < physicalPageCount f -> q <> p ->
    getPhysicalPageState (setPhysicalPageState f p s) q = getPhysicalPageState f q.
Proof.
  intros Hp HP Hlen. split.
  - apply getPhysicalPageState_set_same. rewrite i16_small by lia. lia.
  - intros q Hq Hne. apply getPhysicalPageState_set_other.
    rewrite !i16_small by lia. lia.
Qed.

End StateMap.

(** ** Parameter checks *)

Section ParameterChecks.

Context {D : Type}.
Variable hal : Hal D.
Variable indeterminatePageInfo : PageInfo.
Variables indeterminatePage indeterminateHeader : Page.
Implicit Types (f : FrFTL D).

Lemma same_but_state_map_refl f : same_but_state_map f f.
Proof. unfold same_but_state_map; tauto. Qed.

Lemma same_but_state_map_trans f1 f2 f3 :
  same_but_state_map f1 f2 -> same_but_state_map f2 f3 -> same_but_state_map f1 f3.
Proof.
  unfold same_but_state_map; intros H1 H2.
  decompose [and] H1; decompose [and] H2; repeat split; congruence.
Qed.

Lemma resolveUnknownState_loop_frame n : forall f idx count,
  same_but_state_map f (fst (resolveUnknownState_loop hal n f idx count)).
Proof.
  induction n as [|n IH]; intros f idx count; simpl.
  - apply same_but_state_map_refl.
  - destruct (state_eqb (getPhysicalPageState f idx) UNKNOWN); [|apply IH].
    match goal with
    | |- context [setPhysicalPageState ?g idx ?st] =>
        assert (same_but_state_map f (setPhysicalPageState g idx st)) as Hs
          by (unfold same_but_state_map; simpl; tauto)
    end.
    destruct (u16 (count - 1) =? 0); simpl; auto.
    eapply same_but_state_map_trans; [exact Hs|apply IH].
Qed.

Lemma resolveUnknownState_frame f count :
  same_but_state_map f (resolveUnknownState hal f count).
Proof.
  unfold resolveUnknownState.
  destruct (physicalPageStateResolved f); [apply same_but_state_map_refl|].
  pose proof (resolveUnknownState_loop_frame (Z.to_nat (physicalPageCount f)) f
                (writeFrontier f) (u16 count)) as H.
  destruct (resolveUnknownState_loop hal _ f _ _) as [f1 earlyEnd]; simpl in H.
  destruct earlyEnd; simpl; exact H.
Qed.

Lemma resolveUnknownState_resolved f count :
  physicalPageStateResolved f = true -> resolveUnknownState hal f count = f.
Proof. intros H; unfold resolveUnknownState; rewrite H; reflexivity. Qed.

Lemma flash_size_supported_In (size : Z) :
  flash_size_supported size = true <-> In size supportedFlashSizes.
Proof.
  unfold flash_size_supported. rewrite existsb_exists. split.
  - intros [x [Hin Heq]]. apply Z.eqb_eq in Heq. subst; auto.
  - intros H. exists size. split; auto. apply Z.eqb_refl.
Qed.

(** C7 (amended). [ftlInit] returns [NULL] for every [flashSizeInMB] outside
    {4, 8, 16, 32, 64, 128}.  [ftlWriteSector] returns [false] whenever
    [startSectorNo + noOfSectors] (a sum that fits 32 bits) exceeds
    [usableSectorCount]; it has run the lazy resolver before the check, so
    the state map and its [resolved] flag may have moved on, while cache,
    frontier, table location and flash are what they were, and nothing at
    all changes once the map is resolved.  [ftlReadSector] returns [false]
    whenever [sectorNo >= usableSectorCount] and changes nothing. *)
Theorem invalid_parameters_rejected :
  (forall fuel d flashSizeInMB,
      0 <= flashSizeInMB < 256 -> ~ In flashSizeInMB supportedFlashSizes ->
      ftlInit hal indeterminatePage indeterminateHeader fuel d flashSizeInMB
      = Returned None) /\
  (forall f startSectorNo noOfSectors buf,
      0 <= startSectorNo -> 0 <= noOfSectors ->
      startSectorNo + noOfSectors < 2 ^ 32 ->
      startSectorNo + noOfSectors > usableSectorCount f ->
      let f' := resolveUnknownState hal f (ttPageCount f) in
      ftlWriteSector hal indeterminatePageInfo f startSectorNo noOfSectors buf
      = Returned (false, f') /\
      same_but_state_map f f' /\
      (physicalPageStateResolved f = true -> f' = f)) /\
  (forall f sectorNo,
      0 <= sectorNo < 2 ^ 32 -> sectorNo >= usableSectorCount f ->
      ftlReadSector hal indeterminatePageInfo f sectorNo = (None, f)).
Proof.
  split; [|split].
  - intros fuel d size Hr Hn. unfold ftlInit.
    assert (u8 size = size) as -> by (unfold u8; apply Z.mod_small; lia).
    destruct (flash_size_supported size) eqn:E; simpl; auto.
    apply flash_size_supported_In in E. contradiction.
  - intros f s n buf Hs Hn Hsum Hgt f'. subst f'.
    pose proof (resolveUnknownState_frame f (ttPageCount f)) as Hf.
    split; [|split; auto using resolveUnknownState_resolved].
    unfold ftlWriteSector.
    assert (u32 (u32 s + u32 n) = s + n) as ->.
    { change (2 ^ 32) with 4294967296 in Hsum.
      unfold u32.
      rewrite (Z.mod_small s), (Z.mod_small n), Z.mod_small by lia. reflexivity. }
    destruct Hf as (_ & _ & _ & Hu & _). rewrite Hu.
    destruct (Z.gtb_spec (s + n) (usableSectorCount f)); auto; lia.
  - intros f n Hn Hge. unfold ftlReadSector.
    change (2 ^ 32) with 4294967296 in Hn.
    assert (u32 n = n) as -> by (unfold u32; apply Z.mod_small; lia).
    destruct (Z.geb_spec n (usableSectorCount f)); auto; lia.
Qed.

End ParameterChecks.

(** ** The cache: slots, lookup and LRU ranks *)

Section Cache.

Context {D : Type}.
Variable hal : Hal D.
Implicit Types (f : FrFTL D) (b : PageBuffer).

Lemma zth_default {A} (d : A) (l : list A) (i : Z) :
  ~ (0 <= i < Z.of_nat (length l)) -> zth d l i = d.
Proof.
  intros H; unfold zth. destruct (Z.ltb_spec i 0); auto.
  apply nth_overflow; lia.
Qed.

Lemma zth_map {A B} (g : A -> B) (d : A) (l : list A) (i : Z) :
  g (zth d l i) = zth (g d) (map g l) i.
Proof.
  unfold zth. destruct (i <? 0); auto. symmetry; apply map_nth.
Qed.

Lemma zth_In {A} (d : A) (l : list A) (i : Z) :
  0 <= i < Z.of_nat (length l) -> In (zth d l i) l.
Proof.
  intros H; unfold zth. destruct (Z.ltb_spec i 0); [lia|].
  apply nth_In; lia.
Qed.

Lemma In_zth {A} (d : A) (l : list A) (x : A) :
  In x l -> exists i, 0 <= i < Z.of_nat (length l) /\ zth d l i = x.
Proof.
  intros H. destruct (In_nth l x d H) as [n [Hn Hx]].
  exists (Z.of_nat n). split; [lia|]. unfold zth.
  destruct (Z.ltb_spec (Z.of_nat n) 0); [lia|]. rewrite Nat2Z.id; auto.
Qed.

Lemma slot_outside f i : ~ (0 <= i < nslots f) -> slot f i = no_buffer.
Proof. apply zth_default. Qed.

Lemma slot_set_slot_same f i b : 0 <= i < nslots f -> slot (set_slot i b f) i = b.
Proof. intros H; unfold slot, set_slot; simpl. apply zth_zupd_same; auto. Qed.

Lemma slot_set_slot_other f i j b : i <> j -> slot (set_slot i b f) j = slot f j.
Proof. intros H; unfold slot, set_slot; simpl. apply zth_zupd_other; auto. Qed.

Lemma nslots_set_slot f i b : nslots (set_slot i b f) = nslots f.
Proof. unfold nslots, set_slot; simpl. rewrite zupd_length; auto. Qed.

Lemma slot_upd_slot_same f i g : 0 <= i < nslots f -> slot (upd_slot i g f) i = g (slot f i).
Proof. intros H; unfold upd_slot. apply slot_set_slot_same; auto. Qed.

Lemma slot_upd_slot_other f i j g : i <> j -> slot (upd_slot i g f) j = slot f j.
Proof. intros H; unfold upd_slot. apply slot_set_slot_other; auto. Qed.

Lemma nslots_upd_slot f i g : nslots (upd_slot i g f) = nslots f.
Proof. unfold upd_slot. apply nslots_set_slot. Qed.

(** A slot after [upd_slot], in and out of range. *)
Lemma slot_upd_slot f i j g :
  slot (upd_slot i g f) j =
  if (j =? i) && (0 <=? i) && (i <? nslots f) then g (slot f i) else slot f j.
Proof.
  destruct (Z.eqb_spec j i) as [->|Hne]; simpl.
  - destruct (Z.leb_spec 0 i), (Z.ltb_spec i (nslots f)); simpl;
      try (apply slot_upd_slot_same; lia);
      unfold upd_slot, set_slot, slot; simpl; unfold zupd, zth;
      destruct (Z.ltb_spec i 0); auto; try lia.
    rewrite upd_beyond; auto. unfold nslots in *; lia.
  - apply slot_upd_slot_other; auto.
Qed.

(** *** Writing the ranks back leaves every other field alone *)

Lemma write_lrus_length lrus bufs : length (write_lrus lrus bufs) = length bufs.
Proof.
  revert bufs; induction lrus as [|x t IH]; intros [|b bufs]; simpl; auto.
Qed.

Lemma write_lrus_map {A} (g : PageBuffer -> A) lrus bufs :
  (forall x b, g (pb_with_lru x b) = g b) ->
  map g (write_lrus lrus bufs) = map g bufs.
Proof.
  intros Hg. revert bufs; induction lrus as [|x t IH]; intros [|b bufs]; simpl; auto.
  rewrite Hg, IH; auto.
Qed.

Lemma write_lrus_lru lrus bufs :
  length lrus = length bufs -> map pb_lru (write_lrus lrus bufs) = lrus.
Proof.
  revert bufs; induction lrus as [|x t IH]; intros [|b bufs] H; simpl in *;
    try discriminate; auto.
  f_equal; apply IH; lia.
Qed.

Lemma nslots_update_lru f i : nslots (update_lru f i) = nslots f.
Proof. unfold nslots, update_lru; simpl. rewrite write_lrus_length; auto. Qed.

Lemma slot_update_lru {A} (g : PageBuffer -> A) f i j :
  (forall x b, g (pb_with_lru x b) = g b) ->
  g (slot (update_lru f i) j) = g (slot f j).
Proof.
  intros Hg. unfold slot, update_lru; simpl.
  rewrite (zth_map g no_buffer (write_lrus _ _) j).
  rewrite (zth_map g no_buffer (pageBuffer f) j).
  rewrite write_lrus_map; auto.
Qed.

Lemma logical_update_lru f i j :
  pb_logicalPageNo (slot (update_lru f i) j) = pb_logicalPageNo (slot f j).
Proof. apply slot_update_lru; reflexivity. Qed.

Lemma physical_update_lru f i j :
  pb_physicalPageNo (slot (update_lru f i) j) = pb_physicalPageNo (slot f j).
Proof. apply slot_update_lru; reflexivity. Qed.

Lemma lock_update_lru f i j : pb_lock (slot (update_lru f i) j) = pb_lock (slot f j).
Proof. apply slot_update_lru; reflexivity. Qed.

Lemma pMode_update_lru f i j : pb_pMode (slot (update_lru f i) j) = pb_pMode (slot f j).
Proof. apply slot_update_lru; reflexivity. Qed.

Lemma page_update_lru f i j : pb_page (slot (update_lru f i) j) = pb_page (slot f j).
Proof. apply slot_update_lru; reflexivity. Qed.

(** *** Promotion permutes the ranks *)

Lemma lru_rank_from_spec lrus i : forall j0 j,
  lru_rank_from j0 lrus i = Some j ->
  (j0 <= j)%nat /\ nth_error lrus (j - j0) = Some i.
Proof.
  induction lrus as [|x t IH]; intros j0 j H; simpl in H; [discriminate|].
  destruct ((x =? i) && negb (Nat.eqb j0 0)) eqn:E.
  - injection H as <-. apply andb_prop in E as [E _]. apply Z.eqb_eq in E; subst.
    rewrite Nat.sub_diag; simpl; auto.
  - apply IH in H as [Hle Hn]. split; [lia|].
    replace (j - j0)%nat with (S (j - S j0)) by lia. exact Hn.
Qed.

Lemma firstn_middle {A} (l1 l2 : list A) (x : A) :
  firstn (length l1) (l1 ++ x :: l2) = l1.
Proof. induction l1 as [|h t IH]; simpl; auto. f_equal; auto. Qed.

Lemma skipn_middle {A} (l1 l2 : list A) (x : A) :
  skipn (S (length l1)) (l1 ++ x :: l2) = l2.
Proof. induction l1 as [|h t IH]; simpl; auto. Qed.

Lemma lru_promote_perm lrus i : Permutation (lru_promote lrus i) lrus.
Proof.
  unfold lru_promote. destruct (lru_rank_from 0 lrus i) as [j|] eqn:E; auto.
  apply lru_rank_from_spec in E as [_ E]. rewrite Nat.sub_0_r in E.
  apply nth_error_split in E as (l1 & l2 & -> & <-).
  rewrite firstn_middle, skipn_middle.
  apply Permutation_middle.
Qed.

Lemma lru_ok_update_lru f i : lru_ok f -> lru_ok (update_lru f i).
Proof.
  unfold lru_ok, update_lru; simpl. intros H.
  pose proof (lru_promote_perm (map pb_lru (pageBuffer f)) i) as Hp.
  rewrite write_lrus_length, write_lrus_lru.
  - eapply Permutation_trans; eauto.
  - rewrite (Permutation_length Hp), length_map; auto.
Qed.

Lemma free_count_update_lru f i : free_count (update_lru f i) = free_count f.
Proof.
  unfold free_count, update_lru; simpl.
  assert (forall l, length (filter (fun b => negb (pb_lock b)) l)
                    = length (filter negb (map pb_lock l))) as E.
  { induction l as [|b l IH]; simpl; auto.
    destruct (negb (pb_lock b)); simpl; rewrite IH; auto. }
  rewrite !E, write_lrus_map; auto.
Qed.

End Cache.

(** ** The cache: lookup, victim search and load *)

Section CacheLoad.

Context {D : Type}.
Variable hal : Hal D.
Implicit Types (f : FrFTL D) (b : PageBuffer).

Lemma same_fields_refl b : same_fields b b.
Proof. reflexivity. Qed.

Lemma same_fields_sym b b' : same_fields b b' -> same_fields b' b.
Proof. unfold same_fields; congruence. Qed.

Lemma same_fields_trans b1 b2 b3 :
  same_fields b1 b2 -> same_fields b2 b3 -> same_fields b1 b3.
Proof. unfold same_fields; congruence. Qed.

Lemma same_fields_inv b b' :
  same_fields b b' ->
  pb_logicalPageNo b = pb_logicalPageNo b' /\
  pb_physicalPageNo b = pb_physicalPageNo b' /\
  pb_lock b = pb_lock b' /\ pb_pMode b = pb_pMode b' /\ pb_page b = pb_page b'.
Proof.
  destruct b, b'; unfold same_fields, pb_with_lru; simpl.
  intros H; injection H; auto.
Qed.

Lemma same_fields_update_lru f i j : same_fields (slot (update_lru f i) j) (slot f j).
Proof.
  unfold same_fields.
  apply (slot_update_lru (pb_with_lru 0)). reflexivity.
Qed.

Lemma same_but_cache_refl f : same_but_cache f f.
Proof. unfold same_but_cache; tauto. Qed.

Lemma same_but_cache_trans f1 f2 f3 :
  same_but_cache f1 f2 -> same_but_cache f2 f3 -> same_but_cache f1 f3.
Proof.
  unfold same_but_cache; intros H1 H2.
  decompose [and] H1; decompose [and] H2; repeat split; congruence.
Qed.

Lemma same_but_cache_update_lru f i : same_but_cache f (update_lru f i).
Proof.
  unfold same_but_cache; simpl. rewrite nslots_update_lru. tauto.
Qed.

Lemma same_but_cache_upd_slot f i g : same_but_cache f (upd_slot i g f).
Proof.
  unfold same_but_cache; simpl. rewrite nslots_upd_slot. tauto.
Qed.

Lemma same_but_cache_read f addr len r f' :
  call_flashRead hal f addr len = (r, f') ->
  same_but_cache f f' /\ pageBuffer f' = pageBuffer f /\
  emitted f f' [EvRead addr len] /\ r = flashRead hal (dev f) addr len.
Proof.
  unfold call_flashRead; intros H; injection H as <- <-.
  unfold same_but_cache, emitted; simpl. tauto.
Qed.

(** *** Lookup *)

Lemma find_slot_Some bufs p : forall i0 i,
  find_slot i0 bufs p = Some i ->
  i0 <= i < i0 + Z.of_nat (length bufs) /\
  pb_physicalPageNo (zth no_buffer bufs (i - i0)) = p /\
  forall j, i0 <= j < i -> pb_physicalPageNo (zth no_buffer bufs (j - i0)) <> p.
Proof.
  induction bufs as [|b t IH]; intros i0 i H; simpl in H; [discriminate|].
  destruct (Z.eqb_spec (pb_physicalPageNo b) p) as [E|E].
  - injection H as <-. rewrite Z.sub_diag. simpl length.
    repeat split; try lia. exact E.
  - apply IH in H as (Hr & Hp & Hf). simpl length.
    assert (forall j, i0 + 1 <= j ->
              zth no_buffer (b :: t) (j - i0) = zth no_buffer t (j - (i0 + 1))) as Hz.
    { intros j Hj. unfold zth.
      destruct (Z.ltb_spec (j - i0) 0), (Z.ltb_spec (j - (i0 + 1)) 0); try lia.
      replace (Z.to_nat (j - i0)) with (S (Z.to_nat (j - (i0 + 1)))) by lia.
      reflexivity. }
    repeat split; try lia.
    + rewrite Hz by lia. exact Hp.
    + intros j Hj. destruct (Z.eq_dec j i0) as [->|Hne].
      * rewrite Z.sub_diag. exact E.
      * rewrite Hz by lia. apply Hf. lia.
Qed.

Lemma find_slot_None bufs p : forall i0,
  find_slot i0 bufs p = None -> forall b, In b bufs -> pb_physicalPageNo b <> p.
Proof.
  induction bufs as [|b t IH]; intros i0 H b' Hin; simpl in *; [contradiction|].
  destruct (Z.eqb_spec (pb_physicalPageNo b) p) as [E|E]; [discriminate|].
  destruct Hin as [<-|Hin]; eauto.
Qed.

Lemma find_in_cache f p i :
  find_slot 0 (pageBuffer f) p = Some i ->
  0 <= i < nslots f /\ pb_physicalPageNo (slot f i) = p /\
  forall j, 0 <= j < i -> pb_physicalPageNo (slot f j) <> p.
Proof.
  intros H. apply find_slot_Some in H as (Hr & Hp & Hf).
  rewrite Z.sub_0_r in Hp. unfold nslots, slot. repeat split; try lia; auto.
  intros j Hj. specialize (Hf j Hj). rewrite Z.sub_0_r in Hf. exact Hf.
Qed.

Lemma find_not_in_cache f p j :
  find_slot 0 (pageBuffer f) p = None -> p <> -1 ->
  pb_physicalPageNo (slot f j) <> p.
Proof.
  intros H Hp.
  destruct (Z.leb_spec 0 j), (Z.ltb_spec j (nslots f));
    try (rewrite slot_outside by lia; simpl; lia).
  eapply find_slot_None; eauto. apply zth_In. unfold nslots in *; lia.
Qed.

Lemma u16_range (z : Z) : 0 <= u16 z < 65536.
Proof. apply Z.mod_pos_bound; lia. Qed.

Lemma u16_small (z : Z) : 0 <= z < 65536 -> u16 z = z.
Proof. apply Z.mod_small. Qed.

Lemma i16_u16 (z : Z) : i16 (u16 z) = i16 z.
Proof. unfold i16, u16. rewrite Z.mod_mod by lia. reflexivity. Qed.

Lemma u16_i16 (z : Z) : u16 (i16 z) = u16 z.
Proof.
  unfold i16, u16. destruct (z mod 65536 <? 32768).
  - apply Z.mod_mod; lia.
  - rewrite Zminus_mod, Z_mod_same_full, Z.sub_0_r, !Z.mod_mod by lia. reflexivity.
Qed.

(** *** Victim search *)

Lemma scan_unlocked_Some f ranks i :
  scan_unlocked f ranks = Some i -> In i ranks /\ pb_lock (slot f i) = false.
Proof.
  induction ranks as [|x t IH]; simpl; [discriminate|].
  destruct (pb_lock (slot f x)) eqn:E; simpl.
  - intros H. apply IH in H as [H1 H2]. auto.
  - intros H; injection H as <-. auto.
Qed.

Lemma scan_unlocked_None f ranks :
  scan_unlocked f ranks = None -> forall i, In i ranks -> pb_lock (slot f i) = true.
Proof.
  induction ranks as [|x t IH]; simpl; intros H i Hin; [contradiction|].
  destruct (pb_lock (slot f x)) eqn:E; simpl in H; [|discriminate].
  destruct Hin as [<-|Hin]; auto.
Qed.

Lemma pick_unlocked_Some f i :
  pick_unlocked f = Some i -> 0 <= i < nslots f /\ pb_lock (slot f i) = false.
Proof.
  unfold pick_unlocked. intros H. apply scan_unlocked_Some in H as [_ H].
  split; auto.
  destruct (Z.leb_spec 0 i), (Z.ltb_spec i (nslots f)); try lia;
    rewrite slot_outside in H by lia; discriminate.
Qed.

Lemma free_count_pos f :
  (1 <= free_count f)%nat -> exists j, 0 <= j < nslots f /\ pb_lock (slot f j) = false.
Proof.
  unfold free_count. intros H.
  destruct (filter (fun b => negb (pb_lock b)) (pageBuffer f)) as [|b t] eqn:E;
    [simpl in H; lia|].
  assert (In b (filter (fun b => negb (pb_lock b)) (pageBuffer f))) as Hin
      by (rewrite E; left; auto).
  apply filter_In in Hin as [Hin Hb].
  destruct (In_zth no_buffer _ _ Hin) as [j [Hj Hz]].
  exists j. split; auto. unfold slot. rewrite Hz.
  destruct (pb_lock b); auto; discriminate.
Qed.

Lemma pick_unlocked_exists f :
  lru_ok f -> (1 <= free_count f)%nat -> exists i, pick_unlocked f = Some i.
Proof.
  intros Hl Hf. destruct (free_count_pos f Hf) as [j [Hj Hu]].
  unfold pick_unlocked.
  destruct (scan_unlocked f (rev (map pb_lru (pageBuffer f)))) as [i|] eqn:E; eauto.
  exfalso. pose proof (scan_unlocked_None _ _ E j) as Hn.
  rewrite Hn in Hu; [discriminate|].
  apply in_rev. rewrite rev_involutive.
  eapply Permutation_in; [apply Permutation_sym; exact Hl|].
  replace j with (Z.of_nat (Z.to_nat j)) by lia.
  apply in_map, in_seq. unfold nslots in Hj. lia.
Qed.

End CacheLoad.

(** ** What a load does to the cache *)

Section LoadEffect.

Context {D : Type}.
Variable hal : Hal D.
Implicit Types (f : FrFTL D) (b : PageBuffer).

Lemma load_cases f l p r f' :
  loadPhysicalPageInBuffer hal f l p = (r, f') ->
  (exists i, find_slot 0 (pageBuffer f) (u16 p) = Some i /\
             r = Some i /\ f' = update_lru f i) \/
  (find_slot 0 (pageBuffer f) (u16 p) = None /\
   ((pick_unlocked f = None /\ r = None /\ f' = f) \/
    exists i, pick_unlocked f = Some i /\
      let addr := u32 (u16 p * PAGE_SIZE) in
      let f3 := set_dev (dev f) (EvRead addr PAGE_SIZE)
                  (upd_slot i (pb_with_physical (-1)) f) in
      (flashRead hal (dev f) addr PAGE_SIZE = None /\ r = None /\ f' = f3) \/
      (exists data, flashRead hal (dev f) addr PAGE_SIZE = Some data /\
         r = Some i /\
         f' = update_lru (upd_slot i (loaded_slot l p data) f3) i))).
Proof.
  unfold loadPhysicalPageInBuffer, findPhysicalPageInBuffer.
  destruct (find_slot 0 (pageBuffer f) (u16 p)) as [i|] eqn:Ef.
  - intros H; injection H as <- <-. left; eauto.
  - intros H. right. split; auto.
    destruct (pick_unlocked f) as [i|] eqn:Ep.
    + right. exists i. split; auto. cbv zeta.
      unfold call_flashRead in H. simpl dev in H.
      destruct (flashRead hal (dev f) (u32 (u16 p * PAGE_SIZE)) PAGE_SIZE) as [data|].
      * injection H as <- <-. right. exists data. auto.
      * injection H as <- <-. left. auto.
    + injection H as <- <-. left; auto.
Qed.

Lemma emitted_refl f : emitted f f [].
Proof. unfold emitted. rewrite app_nil_r; auto. Qed.

Lemma emitted_trans f1 f2 f3 e1 e2 :
  emitted f1 f2 e1 -> emitted f2 f3 e2 -> emitted f1 f3 (e1 ++ e2).
Proof. unfold emitted; intros -> ->. rewrite app_assoc; auto. Qed.

Lemma emitted_update_lru f i : emitted f (update_lru f i) [].
Proof. unfold emitted; simpl. rewrite app_nil_r; auto. Qed.

Lemma emitted_upd_slot f i g : emitted f (upd_slot i g f) [].
Proof. unfold emitted; simpl. rewrite app_nil_r; auto. Qed.

(** A load touches the cache and the trace only; it reads flash at most
    once; when it succeeds it either found the page, or it replaced an
    unlocked slot; when it fails, at most the page number of one unlocked
    slot was set to -1. *)
Lemma load_effect f l p r f' :
  loadPhysicalPageInBuffer hal f l p = (r, f') ->
  same_but_cache f f' /\
  (exists evs, emitted f f' evs /\ forallb is_read evs = true) /\
  match r with
  | Some i =>
      0 <= i < nslots f /\
      ((find_slot 0 (pageBuffer f) (u16 p) = Some i /\
        forall j, same_fields (slot f' j) (slot f j)) \/
       (find_slot 0 (pageBuffer f) (u16 p) = None /\
        pb_lock (slot f i) = false /\
        (exists data,
            flashRead hal (dev f) (u32 (u16 p * PAGE_SIZE)) PAGE_SIZE = Some data /\
            same_fields (slot f' i) (mkPageBuffer (i16 l) (i16 p) 0 false NONE data)) /\
        forall j, j <> i -> same_fields (slot f' j) (slot f j)))
  | None =>
      find_slot 0 (pageBuffer f) (u16 p) = None /\
      forall j, same_fields (slot f' j) (slot f j) \/
                (pb_lock (slot f j) = false /\
                 slot f' j = pb_with_physical (-1) (slot f j))
  end.
Proof.
  intros H. apply load_cases in H.
  destruct H as [(i & Hf & -> & ->) | (Hf & [(Hp & -> & ->) | (i & Hp & H)])].
  - split; [apply same_but_cache_update_lru|].
    split; [exists []; split; [apply emitted_update_lru | reflexivity]|].
    apply find_in_cache in Hf as Hi. split; [tauto|].
    left. split; auto. intros j. apply same_fields_update_lru.
  - split; [apply same_but_cache_refl|].
    split; [exists []; split; [apply emitted_refl | reflexivity]|].
    split; auto. intros j; left; apply same_fields_refl.
  - apply pick_unlocked_Some in Hp as [Hi Hu].
    cbv zeta in H.
    set (addr := u32 (u16 p * PAGE_SIZE)) in *.
    set (f2 := upd_slot i (pb_with_physical (-1)) f) in *.
    set (f3 := set_dev (dev f) (EvRead addr PAGE_SIZE) f2) in *.
    assert (same_but_cache f f3) as Hc3.
    { repeat split; try reflexivity. apply (nslots_upd_slot f). }
    assert (emitted f f3 [EvRead addr PAGE_SIZE]) as He3 by reflexivity.
    assert (forall j, slot f3 j = slot f2 j) as Hs3 by reflexivity.
    assert (nslots f3 = nslots f) as Hn3 by (apply Hc3).
    destruct H as [(Hr & -> & ->) | (data & Hr & -> & ->)].
    + split; auto. split; [exists [EvRead addr PAGE_SIZE]; auto|].
      split; auto. intros j. rewrite Hs3. unfold f2.
      destruct (Z.eq_dec j i) as [->|Hne].
      * right. rewrite slot_upd_slot_same by lia. auto.
      * left. rewrite slot_upd_slot_other by auto. apply same_fields_refl.
    + split.
      { eapply same_but_cache_trans; [exact Hc3|].
        eapply same_but_cache_trans;
          [apply same_but_cache_upd_slot | apply same_but_cache_update_lru]. }
      split.
      { exists [EvRead addr PAGE_SIZE]. split; auto. }
      split; auto. right. split; auto. split; auto. split.
      * exists data. split; auto.
        eapply same_fields_trans; [apply same_fields_update_lru|].
        rewrite slot_upd_slot_same by lia. reflexivity.
      * intros j Hne.
        eapply same_fields_trans; [apply same_fields_update_lru|].
        rewrite slot_upd_slot_other by auto. rewrite Hs3. unfold f2.
        rewrite slot_upd_slot_other by auto. apply same_fields_refl.
Qed.

(** With ranks that name every slot, a free slot and a flash that can be
    read, a load cannot fail. *)
Lemma load_succeeds f l p :
  reads_succeed hal -> lru_ok f -> (1 <= free_count f)%nat ->
  exists i f', loadPhysicalPageInBuffer hal f l p = (Some i, f').
Proof.
  intros Hr Hl Hf.
  destruct (loadPhysicalPageInBuffer hal f l p) as [r f'] eqn:E.
  destruct r as [i|]; eauto. exfalso.
  apply load_cases in E.
  destruct E as [(i & _ & E & _) | (_ & [(Hp & _) | (i & Hp & H)])]; try discriminate.
  - destruct (pick_unlocked_exists f Hl Hf) as [i E]. congruence.
  - cbv zeta in H. destruct H as [(H & _) | (data & _ & H & _)]; [|discriminate].
    exact (Hr _ _ _ H).
Qed.

End LoadEffect.

(** ** Ranks and free slots across loads and locks *)

Section CacheCounts.

Context {D : Type}.
Variable hal : Hal D.
Variable indeterminatePageInfo : PageInfo.
Implicit Types (f : FrFTL D) (b : PageBuffer).

Lemma map_upd {A B} (g : A -> B) (n : nat) (x : A) (l : list A) :
  map g (upd n x l) = upd n (g x) (map g l).
Proof.
  revert n; induction l as [|h t IH]; intros [|n]; simpl; auto. f_equal; auto.
Qed.

Lemma upd_nth_same {A} (n : nat) (d : A) (l : list A) : upd n (nth n l d) l = l.
Proof.
  revert n; induction l as [|h t IH]; intros [|n]; simpl; auto. f_equal; auto.
Qed.

Lemma lru_ok_upd_slot f i g :
  (forall b, pb_lru (g b) = pb_lru b) -> lru_ok f -> lru_ok (upd_slot i g f).
Proof.
  intros Hg. unfold lru_ok, upd_slot, set_slot, slot; simpl.
  rewrite zupd_length. unfold zupd, zth.
  destruct (i <? 0); auto.
  rewrite map_upd, Hg, <- (map_nth pb_lru), upd_nth_same. auto.
Qed.

Lemma filter_upd_length {A} (P : A -> bool) (n : nat) (x : A) (l : list A) :
  (length (filter P l) <= S (length (filter P (upd n x l))))%nat.
Proof.
  revert n; induction l as [|h t IH]; intros [|n]; simpl; auto.
  - destruct (P h), (P x); simpl; lia.
  - specialize (IH n). destruct (P h); simpl; lia.
Qed.

Lemma free_count_upd_slot f i g :
  (free_count f <= S (free_count (upd_slot i g f)))%nat.
Proof.
  unfold free_count, upd_slot, set_slot; simpl. unfold zupd.
  destruct (i <? 0); [lia|]. apply filter_upd_length.
Qed.

Lemma free_count_locks f f' :
  nslots f' = nslots f ->
  (forall j, pb_lock (slot f' j) = pb_lock (slot f j)) ->
  free_count f' = free_count f.
Proof.
  intros Hn Hl. unfold free_count.
  assert (map pb_lock (pageBuffer f') = map pb_lock (pageBuffer f)) as E.
  { apply (nth_ext _ _ true true).
    - rewrite !length_map. unfold nslots in Hn. lia.
    - intros n Hn'. specialize (Hl (Z.of_nat n)). unfold slot, zth in Hl.
      destruct (Z.ltb_spec (Z.of_nat n) 0); [lia|].
      rewrite Nat2Z.id in Hl.
      rewrite <- !(map_nth pb_lock) in Hl. exact Hl. }
  assert (forall l, length (filter (fun b => negb (pb_lock b)) l)
                    = length (filter negb (map pb_lock l))) as E'.
  { induction l as [|b l IH]; simpl; auto.
    destruct (negb (pb_lock b)); simpl; rewrite IH; auto. }
  rewrite !E', E. reflexivity.
Qed.

Lemma load_keeps_locks f l p r f' :
  loadPhysicalPageInBuffer hal f l p = (r, f') ->
  forall j, pb_lock (slot f' j) = pb_lock (slot f j).
Proof.
  intros H j. apply load_effect in H as (_ & _ & H).
  destruct r as [i|].
  - destruct H as (Hi & [(_ & Hs) | (_ & Hu & (data & _ & Hd) & Hs)]).
    + specialize (Hs j). apply same_fields_inv in Hs. tauto.
    + destruct (Z.eq_dec j i) as [->|Hne].
      * apply same_fields_inv in Hd. simpl in Hd. rewrite Hu. tauto.
      * specialize (Hs j Hne). apply same_fields_inv in Hs. tauto.
  - destruct H as (_ & H). destruct (H j) as [Hs | (Hu & ->)].
    + apply same_fields_inv in Hs. tauto.
    + reflexivity.
Qed.

Lemma load_keeps_free_count f l p r f' :
  loadPhysicalPageInBuffer hal f l p = (r, f') -> free_count f' = free_count f.
Proof.
  intros H. apply free_count_locks.
  - apply load_effect in H as (Hc & _). apply Hc.
  - eapply load_keeps_locks; eauto.
Qed.

Lemma lru_ok_set_dev f d e : lru_ok f -> lru_ok (set_dev d e f).
Proof. auto. Qed.

Lemma load_keeps_lru_ok f l p r f' :
  loadPhysicalPageInBuffer hal f l p = (r, f') -> lru_ok f -> lru_ok f'.
Proof.
  intros H Hl. apply load_cases in H.
  destruct H as [(i & _ & _ & ->) | (_ & [(_ & _ & ->) | (i & _ & H)])]; auto.
  - apply lru_ok_update_lru; auto.
  - cbv zeta in H. destruct H as [(_ & _ & ->) | (data & _ & _ & ->)].
    + apply lru_ok_set_dev, lru_ok_upd_slot; auto.
    + apply lru_ok_update_lru, lru_ok_upd_slot; [reflexivity|].
      apply lru_ok_set_dev, lru_ok_upd_slot; auto.
Qed.

(** C9. In the overwrite branch of [ftlWriteSector] the buffers that
    [loadPhysicalPageInBuffer] returns for the owning TT page and for the
    MTT are used without a NULL check.  When at least 3 slots are unlocked
    on entry to the branch and every [flashRead] succeeds, none of these
    loads returns NULL: the branch runs to its end and the iteration
    completes.  (The [lru] fields name every slot once, as they do from
    [initPageBuffer] on; the logical page number is a [uint16_t].) *)
Theorem write_overwrite_loads_never_null f dataBuffer logicalPageNo pageSectorNo buf :
  reads_succeed hal ->
  lru_ok f ->
  (3 <= free_count f)%nat ->
  0 <= logicalPageNo < 65536 ->
  exists f',
    write_overwrite hal indeterminatePageInfo f dataBuffer logicalPageNo pageSectorNo buf
    = Returned (true, f').
Proof.
  intros Hr Hl Hf Hlog. unfold write_overwrite.
  set (f1 := upd_slot dataBuffer _ f).
  assert (lru_ok f1) as Hl1 by (apply lru_ok_upd_slot; auto).
  assert (2 <= free_count f1)%nat as Hf1
      by (pose proof (free_count_upd_slot f dataBuffer
                        (fun b => copy_sector pageSectorNo buf
                                    (lock_for RELOCATE_ERASE_PROGRAM b))); fold f1 in H; lia).
  set (ttPageNo := logicalPageNo / TT_RECORDS_PER_PAGE).
  assert (0 <= ttPageNo < 64) as Htt.
  { unfold ttPageNo, TT_RECORDS_PER_PAGE. split.
    - apply Z.div_pos; lia.
    - apply Z.div_lt_upper_bound; lia. }
  unfold readPageInfo. rewrite (u16_small ttPageNo) by lia.
  destruct (Z.ltb_spec ttPageNo TT_RECORDS_PER_PAGE) as [_|Hge];
    [|unfold TT_RECORDS_PER_PAGE in Hge; lia].
  unfold readPhysicalPageInfo.
  destruct (load_succeeds hal f1 0 (mttPhysicalPageNo f1) Hr Hl1 ltac:(lia))
    as (i & f2 & E2).
  rewrite E2.
  pose proof (load_keeps_lru_ok _ _ _ _ _ E2 Hl1) as Hl2.
  pose proof (load_keeps_free_count _ _ _ _ _ E2) as Hf2.
  set (phys := pi_physicalPageNo (get_pageInfo (pb_page (slot f2 i)) ttPageNo)).
  destruct (load_succeeds hal f2 ttPageNo phys Hr Hl2 ltac:(lia))
    as (ttBuffer & f3 & E3).
  rewrite E3.
  pose proof (load_keeps_lru_ok _ _ _ _ _ E3 Hl2) as Hl3.
  pose proof (load_keeps_free_count _ _ _ _ _ E3) as Hf3.
  set (f4 := upd_slot ttBuffer (lock_for RELOCATE_ERASE_PROGRAM) f3).
  assert (lru_ok f4) as Hl4 by (apply lru_ok_upd_slot; auto).
  pose proof (free_count_upd_slot f3 ttBuffer (lock_for RELOCATE_ERASE_PROGRAM)) as Hf4.
  fold f4 in Hf4.
  destruct (ttPageNo >? 0); eauto.
  destruct (load_succeeds hal f4 0 (mttPhysicalPageNo f4) Hr Hl4 ltac:(lia))
    as (mttBuffer & f5 & E5).
  rewrite E5. eauto.
Qed.

End CacheCounts.

(** ** Allocator and program engine: what they change *)

Section ProgramEffect.

Context {D : Type}.
Variable hal : Hal D.
Implicit Types (f : FrFTL D) (b : PageBuffer).

Lemma state_eqb_eq (s s' : PhysicalPageState) : state_eqb s s' = true <-> s = s'.
Proof. destruct s, s'; simpl; split; intros H; try discriminate; auto. Qed.

Lemma state_eqb_neq (s s' : PhysicalPageState) : state_eqb s s' = false <-> s <> s'.
Proof. destruct s, s'; simpl; split; intros H; try discriminate; auto; congruence. Qed.

Lemma allocate_scan_effect fuel : forall f lookupCount found f',
  allocate_scan fuel f lookupCount = (found, f') ->
  (exists w, f' = set_writeFrontier w f) /\
  (found = true -> getPhysicalPageState f (writeFrontier f') <> USED).
Proof.
  induction fuel as [|fuel IH]; intros f lc found f' H; simpl in H.
  - injection H as <- <-. split; [exists (writeFrontier f); destruct f; reflexivity|].
    discriminate.
  - destruct (state_eqb (getPhysicalPageState f (writeFrontier f)) USED) eqn:E.
    + match type of H with
      | (if ?c then _ else _) = _ => destruct c
      end.
      * injection H as <- <-. split; [eexists; reflexivity | discriminate].
      * apply IH in H as [[w ->] Hs]. split; [exists w; reflexivity|]. exact Hs.
    + injection H as <- <-. split; [exists (writeFrontier f); destruct f; reflexivity|].
      intros _. apply state_eqb_neq; auto.
Qed.

(** [allocatePhysicalPage] moves the write frontier and nothing else; the
    page it returns is not USED. *)
Lemma allocate_effect f new f' :
  allocatePhysicalPage f = (new, f') ->
  (exists w, f' = set_writeFrontier w f) /\
  -32768 <= new < 32768 /\
  (0 <= new -> getPhysicalPageState f new <> USED).
Proof.
  unfold allocatePhysicalPage.
  destruct (allocate_scan _ f 0) as [found f1] eqn:E.
  apply allocate_scan_effect in E as [[w ->] Hs].
  destruct found; intros H; injection H as <- <-.
  - split; [eexists; reflexivity|]. split; [apply i16_range|].
    intros _. specialize (Hs eq_refl). simpl in Hs.
    unfold getPhysicalPageState in *. rewrite i16_idem. exact Hs.
  - split; [exists w; reflexivity|]. split; [lia|lia].
Qed.

Lemma getPhysicalPageState_i16 f p :
  getPhysicalPageState f (i16 p) = getPhysicalPageState f p.
Proof. unfold getPhysicalPageState. rewrite i16_idem. reflexivity. Qed.

Lemma mode_eqb_eq (m m' : ProgramMode) : mode_eqb m m' = true <-> m = m'.
Proof. destruct m, m'; simpl; split; intros H; try discriminate; auto. Qed.

Lemma slot_in_range_of_mode f i : pb_pMode (slot f i) <> NONE -> 0 <= i < nslots f.
Proof.
  intros H. destruct (Z.leb_spec 0 i), (Z.ltb_spec i (nslots f)); try lia;
    rewrite slot_outside in H by lia; simpl in H; congruence.
Qed.

Lemma call_flashProgram_effect f logical addr data ok f' :
  call_flashProgram hal f logical addr data = (ok, f') ->
  exists d, f' = set_dev d (EvProgram logical addr) f.
Proof.
  unfold call_flashProgram. destruct (flashProgram hal (dev f) addr data) as [ok' d].
  intros H; injection H as <- <-. eauto.
Qed.

Lemma call_flashErase_effect f addr ok f' :
  call_flashErase hal f addr = (ok, f') ->
  exists d, f' = set_dev d (EvErase addr) f.
Proof.
  unfold call_flashErase. destruct (flashErase hal (dev f) addr) as [ok' d].
  intros H; injection H as <- <-. eauto.
Qed.


Lemma getPhysicalPageState_congr f f' q :
  physicalPageState f' = physicalPageState f ->
  getPhysicalPageState f' q = getPhysicalPageState f q.
Proof. unfold getPhysicalPageState; intros ->; reflexivity. Qed.

Lemma getPhysicalPageState_set_indexed f p s :
  u32 (Z.shiftr (i16 p) 4) < Z.of_nat (length (physicalPageState f)) ->
  getPhysicalPageState (setPhysicalPageState f p s) p = s.
Proof.
  intros H. unfold getPhysicalPageState, setPhysicalPageState; simpl.
  assert (0 <= u32 (Z.shiftr (i16 p) 4)) by (apply Z.mod_pos_bound; lia).
  rewrite zth_zupd_same by lia.
  rewrite word_get_set_same.
  - apply state_of_to_Z.
  - pose proof (state_shift_range (i16 p)); lia.
  - apply state_to_Z_range.
Qed.

Lemma getPhysicalPageState_indexed f q :
  getPhysicalPageState f q <> UNKNOWN ->
  u32 (Z.shiftr (i16 q) 4) < Z.of_nat (length (physicalPageState f)).
Proof.
  intros H.
  destruct (Z.ltb_spec (u32 (Z.shiftr (i16 q) 4))
              (Z.of_nat (length (physicalPageState f)))); auto.
  exfalso. apply H. unfold getPhysicalPageState.
  rewrite zth_default by lia.
  unfold word_get. rewrite Z.shiftr_0_l. reflexivity.
Qed.

(** Marking a page USED does not take that mark from any page. *)
Lemma used_after_set_USED f p q :
  getPhysicalPageState f q = USED ->
  getPhysicalPageState (setPhysicalPageState f p USED) q = USED.
Proof.
  intros H. destruct (Z.eq_dec (i16 p) (i16 q)) as [E|E].
  - assert (getPhysicalPageState (setPhysicalPageState f p USED) q
            = getPhysicalPageState (setPhysicalPageState f p USED) p) as ->.
    { unfold getPhysicalPageState. rewrite E. reflexivity. }
    apply getPhysicalPageState_set_indexed.
    rewrite E. apply getPhysicalPageState_indexed. rewrite H. discriminate.
  - rewrite getPhysicalPageState_set_other; auto.
Qed.

End ProgramEffect.

Section ProgramPage.

Context {D : Type}.
Variable hal : Hal D.
Implicit Types (f : FrFTL D) (b : PageBuffer).

Lemma program_events_nil l : program_events l [].
Proof. left; auto. Qed.

Ltac frame_fields :=
  repeat split; try reflexivity;
  try (rewrite ?nslots_upd_slot; reflexivity).

(** Everything the invariants need to know about one call of
    [programPageInBuffer]: the page either stays where it is, or the call
    succeeded in mode RELOCATE_ERASE_PROGRAM and the page sits on a page
    that was not USED. *)
Lemma program_effect f i ok f' :
  programPageInBuffer hal f i = (ok, f') ->
  let b := slot f i in
  (physicalPageCount f' = physicalPageCount f /\
   ttPageCount f' = ttPageCount f /\
   usableSectorCount f' = usableSectorCount f /\
   pageBufferSize f' = pageBufferSize f /\
   nslots f' = nslots f) /\
  (forall j, j <> i -> slot f' j = slot f j) /\
  (pb_logicalPageNo (slot f' i) = pb_logicalPageNo b /\
   pb_lock (slot f' i) = pb_lock b /\
   pb_pMode (slot f' i) = pb_pMode b /\
   pb_lru (slot f' i) = pb_lru b) /\
  (ttPageCount f <= pb_logicalPageNo b -> pb_page (slot f' i) = pb_page b) /\
  (exists evs, emitted f f' evs /\ program_events (pb_logicalPageNo b) evs) /\
  ((mttPhysicalPageNo f' = mttPhysicalPageNo f /\
    pb_physicalPageNo (slot f' i) = pb_physicalPageNo b /\
    (forall q, getPhysicalPageState f q = USED -> getPhysicalPageState f' q = USED) /\
    (forall q, i16 q <> i16 (pb_physicalPageNo b) ->
               getPhysicalPageState f' q = getPhysicalPageState f q)) \/
   (ok = true /\ pb_pMode b = RELOCATE_ERASE_PROGRAM /\
    exists new, 0 <= new < 32768 /\
      getPhysicalPageState f new <> USED /\
      pb_physicalPageNo (slot f' i) = new /\
      (forall q, i16 q <> i16 (pb_physicalPageNo b) ->
                 getPhysicalPageState f q = USED -> getPhysicalPageState f' q = USED) /\
      (forall q, i16 q <> new -> i16 q <> i16 (pb_physicalPageNo b) ->
                 getPhysicalPageState f' q = getPhysicalPageState f q) /\
      mttPhysicalPageNo f' = if pb_logicalPageNo b =? 0 then new else mttPhysicalPageNo f)).
Proof.
  intros H b. unfold programPageInBuffer in H. fold b in H.
  destruct (pb_pMode b) eqn:Em.
  - (* NONE *)
    injection H as <- <-.
    split; [frame_fields|]. split; [auto|]. split; [repeat split; try reflexivity; exact Em|].
    split; [auto|]. split; [exists []; split; [apply emitted_refl | apply program_events_nil]|].
    left. auto.
  - (* PROGRAM *)
    destruct (call_flashProgram hal f _ _ _) as [okp f1] eqn:Ep.
    apply call_flashProgram_effect in Ep as [d ->].
    assert (exists evs, emitted f (set_dev d (EvProgram (pb_logicalPageNo b)
                (u32 (pb_physicalPageNo b * PAGE_SIZE))) f) evs /\
              program_events (pb_logicalPageNo b) evs) as Hev.
    { eexists; split; [reflexivity|]. right; right; left; eauto. }
    destruct okp; injection H as <- <-.
    + split; [frame_fields|]. split; [auto|]. split; [repeat split; try reflexivity; exact Em|].
      split; [auto|]. split; [exact Hev|].
      left. split; [reflexivity|]. split; [reflexivity|]. split.
      * intros q Hq. apply used_after_set_USED. exact Hq.
      * intros q Hq. rewrite getPhysicalPageState_set_other by auto. reflexivity.
    + split; [frame_fields|]. split; [auto|]. split; [repeat split; try reflexivity; exact Em|].
      split; [auto|]. split; [exact Hev|].
      left. auto.
  - (* ERASE_PROGRAM *)
    destruct (negb (state_eqb (getPhysicalPageState f (pb_physicalPageNo b)) ERASED)).
    + destruct (call_flashErase hal f _) as [oke f1] eqn:Ee.
      apply call_flashErase_effect in Ee as [d ->].
      destruct oke; simpl negb in H; cbv iota in H.
      * destruct (call_flashProgram hal _ _ _ _) as [okp f2] eqn:Ep.
        apply call_flashProgram_effect in Ep as [d' ->].
        assert (exists evs,
                  emitted f (set_dev d' (EvProgram (pb_logicalPageNo b)
                     (u32 (pb_physicalPageNo b * PAGE_SIZE)))
                     (set_dev d (EvErase (u32 (pb_physicalPageNo b * PAGE_SIZE))) f)) evs /\
                  program_events (pb_logicalPageNo b) evs) as Hev.
        { exists [EvErase (u32 (pb_physicalPageNo b * PAGE_SIZE));
                  EvProgram (pb_logicalPageNo b) (u32 (pb_physicalPageNo b * PAGE_SIZE))].
          split; [unfold emitted; simpl; rewrite <- app_assoc; reflexivity|].
          right; right; right; eauto. }
        destruct okp; injection H as <- <-.
        -- split; [frame_fields|]. split; [auto|]. split; [repeat split; try reflexivity; exact Em|].
           split; [auto|]. split; [exact Hev|].
           left. split; [reflexivity|]. split; [reflexivity|]. split.
           ++ intros q Hq. apply used_after_set_USED. exact Hq.
           ++ intros q Hq. rewrite getPhysicalPageState_set_other by auto. reflexivity.
        -- split; [frame_fields|]. split; [auto|]. split; [repeat split; try reflexivity; exact Em|].
           split; [auto|]. split; [exact Hev|]. left. auto.
      * injection H as <- <-.
        split; [frame_fields|]. split; [auto|]. split; [repeat split; try reflexivity; exact Em|].
        split; [auto|].
        split; [eexists; split; [reflexivity | right; left; eauto]|].
        left. auto.
    + simpl negb in H; cbv iota in H.
      destruct (call_flashProgram hal _ _ _ _) as [okp f2] eqn:Ep.
      apply call_flashProgram_effect in Ep as [d' ->].
      assert (exists evs, emitted f (set_dev d' (EvProgram (pb_logicalPageNo b)
                  (u32 (pb_physicalPageNo b * PAGE_SIZE))) f) evs /\
                program_events (pb_logicalPageNo b) evs) as Hev.
      { eexists; split; [reflexivity|]. right; right; left; eauto. }
      destruct okp; injection H as <- <-.
      * split; [frame_fields|]. split; [auto|]. split; [repeat split; try reflexivity; exact Em|].
        split; [auto|]. split; [exact Hev|].
        left. split; [reflexivity|]. split; [reflexivity|]. split.
        -- intros q Hq. apply used_after_set_USED. exact Hq.
        -- intros q Hq. rewrite getPhysicalPageState_set_other by auto. reflexivity.
      * split; [frame_fields|]. split; [auto|]. split; [repeat split; try reflexivity; exact Em|].
        split; [auto|]. split; [exact Hev|]. left. auto.
  - (* RELOCATE_ERASE_PROGRAM *)
    assert (0 <= i < nslots f) as Hi
        by (apply slot_in_range_of_mode; fold b; rewrite Em; discriminate).
    destruct (allocatePhysicalPage f) as [new f1] eqn:Ea.
    apply allocate_effect in Ea as ([w ->] & Hnew & Hfree).
    destruct (Z.ltb_spec new 0) as [Hneg|Hpos].
    { injection H as <- <-.
      split; [frame_fields|]. split; [intros; reflexivity|].
      split; [repeat split; try reflexivity; exact Em|].
      split; [intros; reflexivity|].
      split; [exists []; split;
              [unfold emitted; simpl; rewrite app_nil_r; reflexivity
              | apply program_events_nil]|].
      left. repeat split; intros; try reflexivity; assumption. }
    specialize (Hfree Hpos).
    set (f1 := set_writeFrontier w f) in *.
    set (G := fun b0 : PageBuffer =>
                pb_with_page (bump_serial
                  (if pb_logicalPageNo b0 =? 0
                   then set_pageInfo_physical 0 new (pb_page b0) else pb_page b0)) b0) in *.
    set (f2 := if pb_logicalPageNo b <? ttPageCount f1 then upd_slot i G f1 else f1) in *.
    assert (physicalPageState f2 = physicalPageState f /\
            mttPhysicalPageNo f2 = mttPhysicalPageNo f /\
            physicalPageCount f2 = physicalPageCount f /\
            ttPageCount f2 = ttPageCount f /\
            usableSectorCount f2 = usableSectorCount f /\
            pageBufferSize f2 = pageBufferSize f /\
            nslots f2 = nslots f /\
            trace f2 = trace f) as Hf2.
    { unfold f2. destruct (pb_logicalPageNo b <? ttPageCount f1);
        repeat split; try reflexivity. apply (nslots_upd_slot f1). }
    assert (forall j, j <> i -> slot f2 j = slot f j) as Hother2.
    { intros j Hj. unfold f2. destruct (pb_logicalPageNo b <? ttPageCount f1); auto.
      rewrite slot_upd_slot_other by auto. reflexivity. }
    assert (pb_logicalPageNo (slot f2 i) = pb_logicalPageNo b /\
            pb_physicalPageNo (slot f2 i) = pb_physicalPageNo b /\
            pb_lock (slot f2 i) = pb_lock b /\
            pb_pMode (slot f2 i) = pb_pMode b /\
            pb_lru (slot f2 i) = pb_lru b /\
            (ttPageCount f <= pb_logicalPageNo b -> pb_page (slot f2 i) = pb_page b)) as Hsame2.
    { unfold f2. destruct (Z.ltb_spec (pb_logicalPageNo b) (ttPageCount f1)) as [Hl|Hl].
      - rewrite slot_upd_slot_same by exact Hi.
        repeat split; try reflexivity. intros Hge. change (ttPageCount f1) with (ttPageCount f) in Hl. lia.
      - repeat split; reflexivity. }
    destruct Hf2 as (Hst2 & Hm2 & HP2 & HT2 & Hu2 & Hsz2 & Hn2 & Htr2).
    destruct Hsame2 as (Hlg2 & Hph2 & Hlk2 & Hmo2 & Hlru2 & Hpg2).
    clearbody f2. clear G.
    set (addr := u32 (new * PAGE_SIZE)) in *.
    destruct (let '(ok0, f3) :=
                if negb (state_eqb (getPhysicalPageState f2 (pb_physicalPageNo b)) ERASED)
                then call_flashErase hal f2 addr else (true, f2) in (ok0, f3))
      as [oke f3] eqn:Ee.
    assert (exists d evs3, f3 = mkFrFTL (mttPhysicalPageNo f2) (physicalPageCount f2)
              (ttPageCount f2) (usableSectorCount f2) (writeFrontier f2)
              (physicalPageState f2) (physicalPageStateResolved f2) (pageBuffer f2)
              (pageBufferSize f2) d (trace f2 ++ evs3) /\
              (evs3 = [] \/ evs3 = [EvErase addr])) as (d3 & evs3 & -> & Hevs3).
    { destruct (negb (state_eqb (getPhysicalPageState f2 (pb_physicalPageNo b)) ERASED)).
      - destruct (call_flashErase hal f2 addr) as [o g] eqn:E.
        apply call_flashErase_effect in E as [d ->]. injection Ee as <- <-.
        exists d, [EvErase addr]. split; auto.
      - injection Ee as <- <-. exists (dev f2), []. split; auto.
        rewrite app_nil_r. destruct f2; reflexivity. }
    match type of H with
    | (let '(_, _) := ?c in _) = _ =>
        replace c with (oke, mkFrFTL (mttPhysicalPageNo f2) (physicalPageCount f2)
              (ttPageCount f2) (usableSectorCount f2) (writeFrontier f2)
              (physicalPageState f2) (physicalPageStateResolved f2) (pageBuffer f2)
              (pageBufferSize f2) d3 (trace f2 ++ evs3)) in H
    end.
    2:{ symmetry. revert Ee.
        destruct (if negb (state_eqb (getPhysicalPageState f2 (pb_physicalPageNo b)) ERASED)
                  then call_flashErase hal f2 addr else (true, f2)); auto. }
    clear Ee.
    set (f3 := mkFrFTL _ _ _ _ _ _ _ _ _ d3 _) in *.
    assert (forall j, slot f3 j = slot f2 j) as Hs3 by reflexivity.
    destruct oke; simpl negb in H; cbv iota in H.
    2:{ injection H as <- <-.
        split; [repeat split; simpl; first [assumption | exact Hn2 | congruence]|].
        split; [intros j Hj; rewrite Hs3; auto|].
        split; [rewrite Hs3; repeat split; congruence|].
        split; [rewrite Hs3; auto|].
        split.
        { exists evs3. split; [unfold emitted; simpl; congruence|].
          destruct Hevs3 as [->| ->]; [left; auto | right; left; eauto]. }
        left. split; [simpl; congruence|]. split; [rewrite Hs3; congruence|].
        split; intros q Hq; rewrite <- Hq || idtac;
          apply getPhysicalPageState_congr; simpl; congruence. }
    destruct (call_flashProgram hal f3 _ _ _) as [okp f4] eqn:Ep.
    apply call_flashProgram_effect in Ep as [d4 ->].
    set (f4 := set_dev d4 _ f3) in *.
    assert (exists evs, emitted f f4 evs /\ program_events (pb_logicalPageNo b) evs) as Hev.
    { exists (evs3 ++ [EvProgram (pb_logicalPageNo b) addr]). split.
      - unfold emitted, f4, f3; simpl. rewrite Htr2, app_assoc. reflexivity.
      - destruct Hevs3 as [->| ->]; simpl; [right; right; left | right; right; right]; eauto. }
    assert (forall j, slot f4 j = slot f2 j) as Hs4 by reflexivity.
    destruct okp.
    2:{ injection H as <- <-.
        split; [repeat split; simpl; first [assumption | exact Hn2 | congruence]|].
        split; [intros j Hj; rewrite Hs4; auto|].
        split; [rewrite Hs4; repeat split; congruence|].
        split; [rewrite Hs4; auto|].
        split; [exact Hev|].
        left. split; [simpl; congruence|]. split; [rewrite Hs4; congruence|].
        split; intros q Hq; rewrite <- Hq || idtac;
          apply getPhysicalPageState_congr; simpl; congruence. }
    set (old := pb_physicalPageNo b) in *.
    set (f5 := setPhysicalPageState f4 old ERASE_REQUIRED) in *.
    set (f6 := upd_slot i (pb_with_physical new) f5) in *.
    set (f7 := setPhysicalPageState f6 new USED) in *.
    set (g' := if pb_logicalPageNo b =? 0
               then set_mttPhysicalPageNo (u16 new) f7 else f7) in *.
    injection H as <- <-.
    assert (nslots f5 = nslots f) as Hn5 by (unfold f5; simpl; exact Hn2).
    assert (forall g : FrFTL D, (g = f7 \/ g = set_mttPhysicalPageNo (u16 new) f7) ->
              (forall j, slot g j = slot f6 j) /\
              (forall q, getPhysicalPageState g q = getPhysicalPageState f7 q) /\
              physicalPageCount g = physicalPageCount f /\
              ttPageCount g = ttPageCount f /\
              usableSectorCount g = usableSectorCount f /\
              pageBufferSize g = pageBufferSize f /\
              nslots g = nslots f /\ trace g = trace f4) as Hg.
    { intros g [->| ->];
        (split; [intros; reflexivity|]); (split; [intros; reflexivity|]);
        repeat split; try (simpl; congruence);
        change (nslots f6 = nslots f); unfold f6; rewrite nslots_upd_slot; exact Hn5. }
    assert (forall q, getPhysicalPageState f4 q = getPhysicalPageState f q) as Hst4
        by (intros q; apply getPhysicalPageState_congr; simpl; congruence).
    assert (i16 new = new) as Hi16 by (apply i16_small; lia).
    destruct (Hg g') as (Hsg & Hstg & HPg & HTg & Hug & Hszg & Hng & Htrg);
      [unfold g'; destruct (pb_logicalPageNo b =? 0); auto|].
    split; [repeat split; assumption|].
    split.
    { intros j Hj. rewrite Hsg. unfold f6. rewrite slot_upd_slot_other by auto.
      change (slot f5 j) with (slot f2 j). auto. }
    assert (slot g' i = pb_with_physical new (slot f2 i)) as Hsi.
    { rewrite Hsg. unfold f6. rewrite slot_upd_slot_same by lia. reflexivity. }
    split; [rewrite Hsi; simpl; repeat split; congruence|].
    split; [rewrite Hsi; simpl; auto|].
    split.
    { destruct Hev as (evs & He & Hp). exists evs. split; auto.
      unfold emitted in *. rewrite Htrg. exact He. }
    right. split; auto. split; auto.
    exists new. split; [lia|]. split; [exact Hfree|].
    split; [rewrite Hsi; reflexivity|].
    split; [|split].
    + intros q Hq Hu. rewrite Hstg. unfold f7. apply used_after_set_USED.
      change (getPhysicalPageState f6 q) with (getPhysicalPageState f5 q).
      unfold f5. rewrite getPhysicalPageState_set_other by auto.
      rewrite Hst4. exact Hu.
    + intros q Hq1 Hq2. rewrite Hstg. unfold f7.
      rewrite getPhysicalPageState_set_other by (rewrite Hi16; auto).
      change (getPhysicalPageState f6 q) with (getPhysicalPageState f5 q).
      unfold f5. rewrite getPhysicalPageState_set_other by auto.
      apply Hst4.
    + unfold g'. destruct (pb_logicalPageNo b =? 0); simpl.
      * apply u16_small; lia.
      * congruence.
Qed.

End ProgramPage.

(** ** Coherence of the master TT slot *)

Section MttCoherence.

Context {D : Type}.
Variable hal : Hal D.
Variable indeterminatePageInfo : PageInfo.
Implicit Types (f : FrFTL D) (b : PageBuffer).

Lemma slots_of_Forall f (P : PageBuffer -> Prop) :
  Forall P (pageBuffer f) -> P no_buffer -> forall j, P (slot f j).
Proof.
  intros H Hd j.
  destruct (Z.leb_spec 0 j), (Z.ltb_spec j (nslots f));
    try (rewrite slot_outside by lia; exact Hd).
  rewrite Forall_forall in H. apply H. apply zth_In. unfold nslots in *; lia.
Qed.

Lemma Forall_of_slots f (P : PageBuffer -> Prop) :
  (forall j, P (slot f j)) -> Forall P (pageBuffer f).
Proof.
  intros H. apply Forall_forall. intros b Hb.
  destruct (In_zth no_buffer _ _ Hb) as [j [_ <-]]. apply H.
Qed.

Lemma mtt_coherent_slots f :
  mtt_coherent f <->
  1 <= ttPageCount f /\
  0 <= mttPhysicalPageNo f < 32768 /\
  getPhysicalPageState f (mttPhysicalPageNo f) = USED /\
  forall j, mtt_slot_ok (mttPhysicalPageNo f) (slot f j).
Proof.
  unfold mtt_coherent.
  split; intros (H1 & H2 & H3 & H4); (split; [|split; [|split]]); auto.
  - apply slots_of_Forall; auto. unfold mtt_slot_ok; simpl. split; lia.
  - apply Forall_of_slots; auto.
Qed.

Lemma mtt_slot_ok_same_fields mtt b b' :
  same_fields b' b -> mtt_slot_ok mtt b -> mtt_slot_ok mtt b'.
Proof.
  intros H. apply same_fields_inv in H as (Hl & Hp & _).
  unfold mtt_slot_ok. rewrite Hl, Hp. auto.
Qed.

(** A load keeps the coherence when it is a load of the master TT itself,
    or when the master TT is in the cache at that moment. *)
Lemma load_keeps_mtt_coherent f l p r f' :
  loadPhysicalPageInBuffer hal f l p = (r, f') ->
  mtt_coherent f ->
  i16 l = 0 \/ mtt_cached f ->
  mtt_coherent f'.
Proof.
  intros H HK Hc. apply load_effect in H as (Hsame & _ & H).
  apply mtt_coherent_slots in HK as (HT & Hm & Hu & Hs).
  destruct Hsame as (Em & _ & ET & _ & _ & Est & _).
  apply mtt_coherent_slots. rewrite Em, ET.
  split; auto. split; auto. split.
  { rewrite <- Hu. apply getPhysicalPageState_congr. tauto. }
  destruct r as [i|].
  - destruct H as (Hi & [(_ & Hsf) | (Hnone & Hunl & (data & _ & Hd) & Hsf)]).
    + intros j. eapply mtt_slot_ok_same_fields; eauto.
    + intros j. destruct (Z.eq_dec j i) as [->|Hne].
      * eapply mtt_slot_ok_same_fields; [exact Hd|].
        unfold mtt_slot_ok; simpl. split; [apply i16_range|].
        intros Hp. destruct Hc as [Hc|[k Hk]]; auto.
        exfalso. apply (find_not_in_cache f (u16 p) k Hnone).
        -- pose proof (u16_range p); lia.
        -- rewrite Hk, <- Hp. rewrite <- u16_i16.
           symmetry. apply u16_small. rewrite Hp. lia.
      * eapply mtt_slot_ok_same_fields; eauto.
  - destruct H as (_ & H). intros j. destruct (H j) as [Hsf | (_ & ->)].
    + eapply mtt_slot_ok_same_fields; eauto.
    + unfold mtt_slot_ok; simpl. split; lia.
Qed.

Lemma load_makes_mtt_cached f l r f' :
  loadPhysicalPageInBuffer hal f l (mttPhysicalPageNo f) = (Some r, f') ->
  0 <= mttPhysicalPageNo f < 32768 ->
  pb_physicalPageNo (slot f' r) = mttPhysicalPageNo f' /\
  (forall j, 0 <= j < r -> pb_physicalPageNo (slot f' j) <> mttPhysicalPageNo f') /\
  mtt_cached f'.
Proof.
  intros H Hm. apply load_effect in H as (Hsame & _ & Hi & H).
  destruct Hsame as (Em & _). rewrite Em.
  assert (u16 (mttPhysicalPageNo f) = mttPhysicalPageNo f) as Eu
      by (apply u16_small; lia).
  assert (pb_physicalPageNo (slot f' r) = mttPhysicalPageNo f /\
          (forall j, 0 <= j < r -> pb_physicalPageNo (slot f' j) <> mttPhysicalPageNo f)) as [E1 E2].
  { destruct H as [(Hf & Hsf) | (Hnone & _ & (data & _ & Hd) & Hsf)].
    - rewrite Eu in Hf. apply find_in_cache in Hf as (_ & Hp & Hfirst).
      split.
      + specialize (Hsf r). apply same_fields_inv in Hsf. destruct Hsf as (_ & -> & _). auto.
      + intros j Hj. specialize (Hsf j). apply same_fields_inv in Hsf.
        destruct Hsf as (_ & -> & _). auto.
    - split.
      + apply same_fields_inv in Hd. destruct Hd as (_ & -> & _). simpl.
        apply i16_small; lia.
      + intros j Hj. assert (j <> r) as Hne by lia.
        specialize (Hsf j Hne). apply same_fields_inv in Hsf.
        destruct Hsf as (_ & -> & _).
        apply find_not_in_cache; [rewrite Eu in Hnone; exact Hnone | lia]. }
  split; auto. split; auto. exists r. rewrite Em. exact E1.
Qed.

Lemma upd_slot_keeps_mtt_coherent f i g :
  (forall b, pb_logicalPageNo (g b) = pb_logicalPageNo b /\
             pb_physicalPageNo (g b) = pb_physicalPageNo b) ->
  mtt_coherent f -> mtt_coherent (upd_slot i g f).
Proof.
  intros Hg HK.
  apply mtt_coherent_slots in HK as (HT & Hm & Hu & Hs).
  apply mtt_coherent_slots. (split; [|split; [|split]]); auto.
  intros j. unfold mtt_slot_ok in *. rewrite slot_upd_slot.
  destruct ((j =? i) && (0 <=? i) && (i <? nslots f)).
  - destruct (Hg (slot f i)) as [-> ->]. apply Hs.
  - apply Hs.
Qed.

Lemma upd_slot_keeps_mtt_cached f i g :
  (forall b, pb_physicalPageNo (g b) = pb_physicalPageNo b) ->
  mtt_cached f -> mtt_cached (upd_slot i g f).
Proof.
  intros Hg [j Hj]. exists j. rewrite slot_upd_slot.
  destruct ((j =? i) && (0 <=? i) && (i <? nslots f)) eqn:E; auto.
  rewrite Hg. apply andb_prop in E as [E _]. apply andb_prop in E as [E _].
  apply Z.eqb_eq in E. subst. exact Hj.
Qed.

(** Programming a buffer that is not the master TT keeps the coherence. *)
Lemma program_keeps_mtt_coherent f i ok f' :
  programPageInBuffer hal f i = (ok, f') ->
  pb_logicalPageNo (slot f i) <> 0 ->
  mtt_coherent f -> mtt_coherent f'.
Proof.
  intros H Hlog HK. apply program_effect in H. cbv zeta in H.
  destruct H as ((_ & ET & _) & Hother & (Hl & _) & _ & _ & Hplace).
  apply mtt_coherent_slots in HK as (HT & Hm & Hu & Hs).
  apply mtt_coherent_slots. rewrite ET.
  assert (pb_physicalPageNo (slot f i) <> mttPhysicalPageNo f) as Hold.
  { intros E. apply Hlog. apply (Hs i). exact E. }
  destruct Hplace as [(Em & Hp & Hused & _) | (_ & _ & new & Hnew & Hfree & Hp & Hused & _ & Em)].
  - rewrite Em. (split; [|split; [|split]]); auto.
    intros j. destruct (Z.eq_dec j i) as [->|Hne].
    + unfold mtt_slot_ok. rewrite Hp, Hl. apply Hs.
    + rewrite Hother by auto. apply Hs.
  - destruct (Z.eqb_spec (pb_logicalPageNo (slot f i)) 0) as [E|_]; [contradiction|].
    rewrite Em. split; auto. split; auto. split.
    + apply Hused; auto. rewrite !i16_small; auto; try lia. apply (Hs i).
    + intros j. destruct (Z.eq_dec j i) as [->|Hne].
      * unfold mtt_slot_ok. rewrite Hp. split; [lia|].
        intros E. exfalso. apply Hfree. rewrite E. exact Hu.
      * rewrite Hother by auto. apply Hs.
Qed.

End MttCoherence.

(** ** Translation-table access keeps the coherence and only reads flash *)

Section TableAccess.

Context {D : Type}.
Variable hal : Hal D.
Variable indeterminatePageInfo : PageInfo.
Implicit Types (f : FrFTL D) (b : PageBuffer).

Lemma reads_only_refl f : reads_only f f.
Proof. exists []. split; [apply emitted_refl | reflexivity]. Qed.

Lemma reads_only_trans f1 f2 f3 :
  reads_only f1 f2 -> reads_only f2 f3 -> reads_only f1 f3.
Proof.
  intros (e1 & H1 & R1) (e2 & H2 & R2). exists (e1 ++ e2).
  split; [eapply emitted_trans; eauto|].
  rewrite forallb_app, R1, R2. reflexivity.
Qed.

Lemma reads_only_upd_slot f i g : reads_only f (upd_slot i g f).
Proof. exists []. split; [apply emitted_upd_slot | reflexivity]. Qed.

Lemma load_reads_only f l p r f' :
  loadPhysicalPageInBuffer hal f l p = (r, f') -> reads_only f f'.
Proof. intros H. apply load_effect in H. apply H. Qed.

Lemma load_same_but_cache f l p r f' :
  loadPhysicalPageInBuffer hal f l p = (r, f') -> same_but_cache f f'.
Proof. intros H. apply load_effect in H. apply H. Qed.

Lemma table_access_refl f : table_access f f.
Proof.
  split; [apply same_but_cache_refl|]. split; [apply reads_only_refl | auto].
Qed.

Lemma table_access_trans f1 f2 f3 :
  table_access f1 f2 -> table_access f2 f3 -> table_access f1 f3.
Proof.
  intros (A1 & B1 & C1) (A2 & B2 & C2).
  split; [eapply same_but_cache_trans; eauto|].
  split; [eapply reads_only_trans; eauto | auto].
Qed.

Lemma table_access_upd_slot f i g :
  (forall b, pb_logicalPageNo (g b) = pb_logicalPageNo b /\
             pb_physicalPageNo (g b) = pb_physicalPageNo b) ->
  table_access f (upd_slot i g f).
Proof.
  intros Hg. split; [apply same_but_cache_upd_slot|].
  split; [apply reads_only_upd_slot|].
  apply upd_slot_keeps_mtt_coherent; auto.
Qed.

Lemma table_access_load f l p r f' :
  loadPhysicalPageInBuffer hal f l p = (r, f') ->
  (mtt_coherent f -> i16 l = 0 \/ mtt_cached f) ->
  table_access f f'.
Proof.
  intros H Hc. split; [eapply load_same_but_cache; eauto|].
  split; [eapply load_reads_only; eauto|].
  intros HK. eapply load_keeps_mtt_coherent; eauto.
Qed.

Lemma readPhysicalPageInfo_access f pinfo l p recordNo ok pinfo' f' :
  readPhysicalPageInfo hal f pinfo l p recordNo = (ok, pinfo', f') ->
  (mtt_coherent f -> i16 l = 0 \/ mtt_cached f) ->
  table_access f f'.
Proof.
  unfold readPhysicalPageInfo.
  destruct (loadPhysicalPageInBuffer hal f l p) as [[i|] f1] eqn:E;
    intros H Hc; injection H as <- <- <-; eapply table_access_load; eauto.
Qed.

Lemma readPhysicalPageInfo_mtt_cached f pinfo l recordNo pinfo' f' :
  readPhysicalPageInfo hal f pinfo l (mttPhysicalPageNo f) recordNo = (true, pinfo', f') ->
  0 <= mttPhysicalPageNo f < 32768 -> mtt_cached f'.
Proof.
  unfold readPhysicalPageInfo.
  destruct (loadPhysicalPageInBuffer hal f l (mttPhysicalPageNo f)) as [[i|] f1] eqn:E;
    intros H Hm; [injection H as <- <- | discriminate].
  eapply load_makes_mtt_cached; eauto.
Qed.

Lemma updatePhysicalPageInfo_access f pinfo l p recordNo ok f' :
  updatePhysicalPageInfo hal f pinfo l p recordNo = (ok, f') ->
  (mtt_coherent f -> i16 l = 0 \/ mtt_cached f) ->
  table_access f f'.
Proof.
  unfold updatePhysicalPageInfo.
  destruct (loadPhysicalPageInBuffer hal f l p) as [[i|] f1] eqn:E;
    intros H Hc; injection H as <- <-.
  - eapply table_access_trans; [eapply table_access_load; eauto|].
    apply table_access_upd_slot. intros b. simpl.
    destruct (mode_eqb (pb_pMode b) NONE); split; reflexivity.
  - eapply table_access_load; eauto.
Qed.

Lemma mtt_coherent_range f : mtt_coherent f -> 0 <= mttPhysicalPageNo f < 32768.
Proof. intros H; apply H. Qed.

Lemma readPageInfo_access f pinfo l ok pinfo' f' :
  readPageInfo hal indeterminatePageInfo f pinfo l = (ok, pinfo', f') ->
  table_access f f'.
Proof.
  unfold readPageInfo.
  destruct (u16 l <? TT_RECORDS_PER_PAGE).
  - intros H. eapply readPhysicalPageInfo_access; eauto.
  - destruct (readPhysicalPageInfo hal f indeterminatePageInfo 0 (mttPhysicalPageNo f) _)
      as [[ok1 info1] f1] eqn:E1.
    pose proof (readPhysicalPageInfo_access _ _ _ _ _ _ _ _ E1 (fun _ => or_introl eq_refl))
      as A1.
    destruct ok1.
    + intros H. eapply table_access_trans; [exact A1|].
      eapply readPhysicalPageInfo_access; eauto.
      intros HK1. right.
      eapply readPhysicalPageInfo_mtt_cached in E1; eauto.
      destruct A1 as ((Em & _) & _). rewrite <- Em.
      apply mtt_coherent_range; auto.
    + intros H; injection H as <- <- <-. exact A1.
Qed.

Lemma updatePageInfo_access f pinfo l ok f' :
  updatePageInfo hal indeterminatePageInfo f pinfo l = (ok, f') ->
  table_access f f'.
Proof.
  unfold updatePageInfo.
  destruct (u16 l <? TT_RECORDS_PER_PAGE).
  - intros H. eapply updatePhysicalPageInfo_access; eauto.
  - destruct (readPhysicalPageInfo hal f indeterminatePageInfo 0 (mttPhysicalPageNo f) _)
      as [[ok1 info1] f1] eqn:E1.
    pose proof (readPhysicalPageInfo_access _ _ _ _ _ _ _ _ E1 (fun _ => or_introl eq_refl))
      as A1.
    destruct ok1.
    + intros H. eapply table_access_trans; [exact A1|].
      eapply updatePhysicalPageInfo_access; eauto.
      intros HK1. right.
      eapply readPhysicalPageInfo_mtt_cached in E1; eauto.
      destruct A1 as ((Em & _) & _). rewrite <- Em.
      apply mtt_coherent_range; auto.
    + intros H; injection H as <- <-. exact A1.
Qed.

End TableAccess.

(** ** The three phases of sync and the order of their programs *)

Section SyncOrder.

Context {D : Type}.
Variable hal : Hal D.
Variable indeterminatePageInfo : PageInfo.
Implicit Types (f : FrFTL D) (b : PageBuffer).

Lemma program_events_tag (P : Z -> Prop) l evs :
  program_events l evs -> P l -> Forall (program_tag P) evs.
Proof.
  intros [->|[[a ->]|[[a ->]|(a & a' & ->)]]] HP;
    repeat constructor; simpl; auto.
Qed.

Lemma reads_tag (P : Z -> Prop) evs :
  forallb is_read evs = true -> Forall (program_tag P) evs.
Proof.
  induction evs as [|e t IH]; simpl; intros H; constructor.
  - destruct e; simpl in *; auto; discriminate.
  - apply IH. destruct (is_read e); auto; discriminate.
Qed.

Lemma stretch_refl P f : stretch P f f.
Proof. exists []. split; [apply emitted_refl | constructor]. Qed.

Lemma stretch_trans P f1 f2 f3 : stretch P f1 f2 -> stretch P f2 f3 -> stretch P f1 f3.
Proof.
  intros (e1 & H1 & R1) (e2 & H2 & R2). exists (e1 ++ e2).
  split; [eapply emitted_trans; eauto | apply Forall_app; auto].
Qed.

Lemma stretch_reads P f f' : reads_only f f' -> stretch P f f'.
Proof. intros (evs & H & R). exists evs. split; auto. apply reads_tag; auto. Qed.

Lemma stretch_access P f f' : table_access f f' -> stretch P f f'.
Proof. intros (_ & H & _). apply stretch_reads; auto. Qed.

Lemma stretch_upd_slot P f i g : stretch P f (upd_slot i g f).
Proof. apply stretch_reads, reads_only_upd_slot. Qed.

Lemma stretch_program P f i ok f' :
  programPageInBuffer hal f i = (ok, f') ->
  P (pb_logicalPageNo (slot f i)) -> stretch P f f'.
Proof.
  intros H HP. apply program_effect in H. cbv zeta in H.
  destruct H as (_ & _ & _ & _ & (evs & He & Hp) & _).
  exists evs. split; auto. eapply program_events_tag; eauto.
Qed.

Lemma unlock_keeps_mtt_coherent f i : mtt_coherent f -> mtt_coherent (unlock_slot i f).
Proof. apply upd_slot_keeps_mtt_coherent. intros b; split; reflexivity. Qed.

(** First phase: the coherence of the master TT slot is kept, and every
    program is the program of a data page. *)
Lemma sync_data_effect n : forall i f ok f',
  sync_data hal indeterminatePageInfo n i f = (ok, f') ->
  mtt_coherent f ->
  mtt_coherent f' /\ ttPageCount f' = ttPageCount f /\
  stretch (fun l => ttPageCount f <= l) f f'.
Proof.
  induction n as [|n IH]; intros i f ok f' H HK; simpl in H.
  - injection H as <- <-. split; auto. split; auto. apply stretch_refl.
  - destruct (pb_lock (slot f i) && (pb_logicalPageNo (slot f i) >=? ttPageCount f)) eqn:Ec.
    2:{ eapply IH; eauto. }
    apply andb_prop in Ec as [_ Ege]. apply Z.geb_le in Ege.
    assert (pb_logicalPageNo (slot f i) <> 0) as Hne
        by (destruct HK as (HT & _); lia).
    destruct (programPageInBuffer hal f i) as [ok1 f1] eqn:E1.
    pose proof (program_keeps_mtt_coherent _ _ _ _ _ E1 Hne HK) as HK1.
    pose proof (stretch_program (fun l => ttPageCount f <= l) _ _ _ _ E1 Ege) as S1.
    assert (ttPageCount f1 = ttPageCount f) as ET1.
    { apply program_effect in E1. cbv zeta in E1. apply E1. }
    destruct ok1.
    2:{ injection H as <- <-. auto. }
    destruct (readPageInfo hal indeterminatePageInfo f1 _ _) as [[ok2 info2] f2] eqn:E2.
    apply readPageInfo_access in E2 as A2.
    assert (ttPageCount f2 = ttPageCount f) as ET2.
    { destruct A2 as ((_ & _ & -> & _) & _). exact ET1. }
    pose proof (stretch_trans _ _ _ _ S1 (stretch_access _ _ _ A2)) as S2.
    destruct A2 as (_ & _ & HK2). specialize (HK2 HK1).
    destruct ok2.
    2:{ injection H as <- <-. auto. }
    destruct (updatePageInfo hal indeterminatePageInfo f2 _ _) as [ok3 f3] eqn:E3.
    apply updatePageInfo_access in E3 as A3.
    assert (ttPageCount f3 = ttPageCount f) as ET3.
    { destruct A3 as ((_ & _ & -> & _) & _). exact ET2. }
    pose proof (stretch_trans _ _ _ _ S2 (stretch_access _ _ _ A3)) as S3.
    destruct A3 as (_ & _ & HK3). specialize (HK3 HK2).
    destruct ok3.
    2:{ injection H as <- <-. auto. }
    apply IH in H; [|apply unlock_keeps_mtt_coherent; exact HK3].
    destruct H as (HK' & ET' & S').
    split; auto. split; [rewrite ET'; exact ET3|].
    eapply stretch_trans; [exact S3|].
    eapply stretch_trans; [apply stretch_upd_slot|].
    change (ttPageCount (unlock_slot i f3)) with (ttPageCount f3) in S'.
    rewrite ET3 in S'. exact S'.
Qed.

(** Second phase: no slot changes its logical page, and every program is
    the program of a secondary TT. *)
Lemma sync_stt_effect n : forall i m f ok f',
  sync_stt hal n i m f = (ok, f') ->
  ttPageCount f' = ttPageCount f /\
  (forall j, pb_logicalPageNo (slot f' j) = pb_logicalPageNo (slot f j)) /\
  stretch (fun l => 0 < l < ttPageCount f) f f'.
Proof.
  induction n as [|n IH]; intros i m f ok f' H; simpl in H.
  - injection H as <- <-. split; auto. split; auto. apply stretch_refl.
  - destruct (pb_lock (slot f i) && (pb_logicalPageNo (slot f i) >? 0)
              && (pb_logicalPageNo (slot f i) <? ttPageCount f)) eqn:Ec.
    2:{ eapply IH; eauto. }
    apply andb_prop in Ec as [Ec Elt]. apply andb_prop in Ec as [_ Egt].
    apply Z.ltb_lt in Elt. apply Z.gtb_lt in Egt.
    destruct (programPageInBuffer hal f i) as [ok1 f1] eqn:E1.
    pose proof (stretch_program (fun l => 0 < l < ttPageCount f) _ _ _ _ E1
                  (conj Egt Elt)) as S1.
    apply program_effect in E1. cbv zeta in E1.
    destruct E1 as ((_ & ET1 & _) & Hother & (Hl & _) & _).
    assert (forall j, pb_logicalPageNo (slot f1 j) = pb_logicalPageNo (slot f j)) as Hlog1.
    { intros j. destruct (Z.eq_dec j i) as [->|Hne]; auto. rewrite Hother; auto. }
    destruct ok1.
    2:{ injection H as <- <-. auto. }
    apply IH in H. destruct H as (ET' & Hlog' & S').
    match type of S' with
    | stretch _ (unlock_slot i ?g) _ => set (f2 := g) in *
    end.
    assert (forall j, pb_logicalPageNo (slot (unlock_slot i f2) j)
                      = pb_logicalPageNo (slot f1 j)) as Hlog2.
    { intros j. unfold unlock_slot. rewrite slot_upd_slot.
      destruct ((j =? i) && (0 <=? i) && (i <? nslots f2)) eqn:E.
      - apply andb_prop in E as [E _]. apply andb_prop in E as [E _].
        apply Z.eqb_eq in E. subst j. simpl.
        unfold f2. rewrite slot_upd_slot.
        destruct ((i =? m) && (0 <=? m) && (m <? nslots f1)) eqn:E'; auto.
        apply andb_prop in E' as [E' _]. apply andb_prop in E' as [E' _].
        apply Z.eqb_eq in E'. subst m. reflexivity.
      - unfold f2. rewrite slot_upd_slot.
        destruct ((j =? m) && (0 <=? m) && (m <? nslots f1)) eqn:E'; auto.
        apply andb_prop in E' as [E' _]. apply andb_prop in E' as [E' _].
        apply Z.eqb_eq in E'. subst m. reflexivity. }
    split; [rewrite ET'; exact ET1|].
    split; [intros j; rewrite Hlog', Hlog2; apply Hlog1|].
    eapply stretch_trans; [exact S1|].
    eapply stretch_trans; [apply (stretch_upd_slot _ f1 m)|].
    eapply stretch_trans; [apply stretch_upd_slot|].
    change (ttPageCount (unlock_slot i f2)) with (ttPageCount f1) in S'.
    rewrite ET1 in S'. exact S'.
Qed.

Lemma sync_mtt_effect m f ok f' :
  sync_mtt hal m f = (ok, f') ->
  stretch (fun l => l = pb_logicalPageNo (slot f m)) f f'.
Proof.
  unfold sync_mtt. destruct (pb_lock (slot f m)).
  - destruct (programPageInBuffer hal f m) as [ok1 f1] eqn:E1.
    pose proof (stretch_program (fun l => l = pb_logicalPageNo (slot f m)) _ _ _ _ E1
                  eq_refl) as S1.
    destruct ok1; intros H; injection H as <- <-; exact S1.
  - intros H; injection H as <- <-. apply stretch_refl.
Qed.

(** C2 (amended). During one [ftlSync] on a handle that is coherent about
    its master TT (the page [mttPhysicalPageNo] is marked USED and cached,
    if at all, under logical page 0), and whether the call succeeds or
    stops early, the callback invocations fall into three consecutive
    stretches: in the first every flash program is the program of a
    data-page buffer (logical page >= T), in the second of a secondary-TT
    buffer (0 < logical < T), in the third of the master-TT buffer (logical
    0).  So the MTT is programmed after every page it references. *)
Theorem ftlSync_ordered_flush f ok f' :
  mtt_coherent f ->
  ftlSync hal indeterminatePageInfo f = (ok, f') ->
  exists data_evs stt_evs mtt_evs,
    emitted f f' (data_evs ++ stt_evs ++ mtt_evs) /\
    Forall (program_tag (fun l => ttPageCount f <= l)) data_evs /\
    Forall (program_tag (fun l => 0 < l < ttPageCount f)) stt_evs /\
    Forall (program_tag (fun l => l = 0)) mtt_evs.
Proof.
  intros HK H. unfold ftlSync in H.
  destruct (sync_data hal indeterminatePageInfo _ 0 f) as [ok1 f1] eqn:E1.
  apply sync_data_effect in E1 as (HK1 & ET1 & (e1 & He1 & Ht1)); auto.
  destruct ok1.
  2:{ injection H as <- <-. exists e1, [], []. rewrite !app_nil_r.
      repeat split; auto. }
  destruct (loadPhysicalPageInBuffer hal f1 0 (mttPhysicalPageNo f1)) as [[m|] f2] eqn:E2.
  2:{ injection H as <- <-. apply load_reads_only in E2 as (e2 & He2 & Hr2).
      exists (e1 ++ e2), [], []. rewrite !app_nil_r.
      split; [eapply emitted_trans; eauto|].
      split; [apply Forall_app; split; auto; apply reads_tag; auto|].
      split; constructor. }
  pose proof (load_keeps_mtt_coherent _ _ _ _ _ _ E2 HK1 (or_introl eq_refl)) as HK2.
  pose proof (load_makes_mtt_cached _ _ _ _ _ E2 (mtt_coherent_range _ HK1))
    as (Hm2 & _ & _).
  assert (pb_logicalPageNo (slot f2 m) = 0) as Hlog2.
  { apply mtt_coherent_slots in HK2 as (_ & _ & _ & Hs). apply (Hs m). exact Hm2. }
  assert (ttPageCount f2 = ttPageCount f) as ET2.
  { apply load_same_but_cache in E2. destruct E2 as (_ & _ & -> & _). exact ET1. }
  apply load_reads_only in E2 as (e2 & He2 & Hr2).
  destruct (sync_stt hal _ 0 m f2) as [ok3 f3] eqn:E3.
  apply sync_stt_effect in E3 as (ET3 & Hlog3 & (e3 & He3 & Ht3)).
  rewrite ET2 in Ht3.
  destruct ok3.
  2:{ injection H as <- <-. exists (e1 ++ e2), e3, []. rewrite !app_nil_r.
      split; [eapply emitted_trans; [eapply emitted_trans|]; eauto|].
      split; [apply Forall_app; split; auto; apply reads_tag; auto|].
      split; auto. }
  apply sync_mtt_effect in H as (e4 & He4 & Ht4).
  rewrite Hlog3, Hlog2 in Ht4.
  exists (e1 ++ e2), e3, e4.
  split.
  { rewrite <- app_assoc.
    eapply emitted_trans; [exact He1|].
    eapply emitted_trans; [exact He2|].
    eapply emitted_trans; eauto. }
  split; [apply Forall_app; split; auto; apply reads_tag; auto|].
  split; auto.
Qed.

End SyncOrder.

(** ** The cache while a sync is under way *)

Section Flushing.

Context {D : Type}.
Variable hal : Hal D.
Variable indeterminatePageInfo : PageInfo.
Implicit Types (f : FrFTL D) (b : PageBuffer) (pending : Z -> Z -> Prop).

Lemma flushing_weaken pending pending' f :
  (forall j l, 0 <= j < nslots f -> pending j l -> pending' j l) ->
  flushing pending f -> flushing pending' f.
Proof.
  intros Hw (HK & Hu & Hs). split; auto. split; auto.
  intros j Hj. destruct (Hs j Hj) as (H1 & H2 & H3).
  split; auto. split; auto. intros Hl. destruct (H3 Hl); auto.
Qed.

Lemma slot_in_range_of_logical f i : 0 <= pb_logicalPageNo (slot f i) -> 0 <= i < nslots f.
Proof.
  intros H. destruct (Z.leb_spec 0 i), (Z.ltb_spec i (nslots f)); try lia;
    rewrite slot_outside in H by lia; simpl in H; lia.
Qed.

Lemma slot_in_range_of_physical f i : 0 <= pb_physicalPageNo (slot f i) -> 0 <= i < nslots f.
Proof.
  intros H. destruct (Z.leb_spec 0 i), (Z.ltb_spec i (nslots f)); try lia;
    rewrite slot_outside in H by lia; simpl in H; lia.
Qed.

(** A page that some slot holds is found by the lookup. *)
Lemma find_held f q s :
  0 <= q -> pb_physicalPageNo (slot f s) = q ->
  exists i, find_slot 0 (pageBuffer f) q = Some i /\ pb_physicalPageNo (slot f i) = q.
Proof.
  intros Hq Hs. destruct (find_slot 0 (pageBuffer f) q) as [i|] eqn:E.
  - exists i. split; auto. apply find_in_cache in E. tauto.
  - exfalso. apply (find_not_in_cache f q s E); [lia | exact Hs].
Qed.

(** A load of a page that is in the cache changes ranks only. *)
Lemma load_held f l p s r f' :
  0 <= p < 32768 -> pb_physicalPageNo (slot f s) = p ->
  loadPhysicalPageInBuffer hal f l p = (r, f') ->
  same_but_cache f f' /\
  (forall j, same_fields (slot f' j) (slot f j)) /\
  exists i, r = Some i /\ pb_physicalPageNo (slot f i) = p.
Proof.
  intros Hp Hs H.
  destruct (find_held f p s ltac:(lia) Hs) as (i & Hf & Hi).
  assert (u16 p = p) as Eu by (apply u16_small; lia).
  apply load_effect in H as (Hsame & _ & H). rewrite Eu in H.
  split; [exact Hsame|].
  destruct r as [i'|].
  - destruct H as (_ & [(Hf' & Hsf) | (Hnone & _)]); [|congruence].
    split; [exact Hsf|]. exists i'. split; auto.
    apply find_in_cache in Hf'. tauto.
  - destruct H as (Hnone & _). congruence.
Qed.

(** Loading the master TT. *)
Lemma flushing_load_mtt pending f r f' :
  loadPhysicalPageInBuffer hal f 0 (mttPhysicalPageNo f) = (r, f') ->
  flushing pending f ->
  flushing pending f' /\
  same_but_cache f f' /\
  (forall j, pb_lock (slot f j) = true -> same_fields (slot f' j) (slot f j)) /\
  match r with
  | Some m => pb_physicalPageNo (slot f' m) = mttPhysicalPageNo f' /\
              pb_logicalPageNo (slot f' m) = 0
  | None => True
  end /\
  ((forall j, pb_physicalPageNo (slot f j) <> mttPhysicalPageNo f) \/
   (forall j, same_fields (slot f' j) (slot f j))) /\
  (forall j, pb_lock (slot f' j) = true -> same_fields (slot f' j) (slot f j)).
Proof.
  intros H (HK & Hu & Hs).
  pose proof (load_keeps_mtt_coherent _ _ _ _ _ _ H HK (or_introl eq_refl)) as HK'.
  pose proof (mtt_coherent_range _ HK) as Hm.
  assert (u16 (mttPhysicalPageNo f) = mttPhysicalPageNo f) as Eu by (apply u16_small; lia).
  apply load_effect in H as Heff. destruct Heff as (Hsame & _ & Heff).
  pose proof Hsame as (Em & _ & _ & _ & _ & _ & _ & _ & _ & En).
  assert (forall j, pb_lock (slot f j) = true -> same_fields (slot f' j) (slot f j)) as Hlocked.
  { intros j Hl. destruct r as [m|].
    - destruct Heff as (_ & [(_ & Hsf) | (_ & Hunl & _ & Hsf)]); auto.
      apply Hsf. intros ->. congruence.
    - destruct Heff as (_ & Hc). destruct (Hc j) as [Hsf | (Hunl & _)]; auto. congruence. }
  assert (forall j, pb_physicalPageNo (slot f' j) = mttPhysicalPageNo f ->
            pb_physicalPageNo (slot f j) = mttPhysicalPageNo f \/
            (find_slot 0 (pageBuffer f) (mttPhysicalPageNo f) = None /\ r = Some j)) as Hhold.
  { intros j Hj. destruct r as [m|].
    - destruct Heff as (_ & [(_ & Hsf) | (Hnone & _ & _ & Hsf)]).
      + left. specialize (Hsf j). apply same_fields_inv in Hsf.
        destruct Hsf as (_ & <- & _). exact Hj.
      + rewrite Eu in Hnone. destruct (Z.eq_dec j m) as [->|Hne]; [right; auto|].
        left. specialize (Hsf j Hne). apply same_fields_inv in Hsf.
        destruct Hsf as (_ & <- & _). exact Hj.
    - destruct Heff as (_ & Hc). destruct (Hc j) as [Hsf | (_ & E)].
      + left. apply same_fields_inv in Hsf. destruct Hsf as (_ & <- & _). exact Hj.
      + rewrite E in Hj. simpl in Hj. lia. }
  assert ((forall j, pb_physicalPageNo (slot f j) <> mttPhysicalPageNo f) \/
          (forall j, same_fields (slot f' j) (slot f j))) as Hhit.
  { destruct r as [m|].
    - destruct Heff as (_ & [(_ & Hsf) | (Hnone & _)]); [right; exact Hsf|].
      left. intros j. rewrite Eu in Hnone. apply find_not_in_cache; [exact Hnone | lia].
    - destruct Heff as (Hnone & _).
      left. intros j. rewrite Eu in Hnone. apply find_not_in_cache; [exact Hnone | lia]. }
  assert (forall j, pb_lock (slot f' j) = true -> same_fields (slot f' j) (slot f j)) as Hlocked'.
  { intros j Hl. destruct r as [m|].
    - destruct Heff as (_ & [(_ & Hsf) | (_ & _ & (data & _ & Hd) & Hsf)]); auto.
      destruct (Z.eq_dec j m) as [->|Hne]; auto.
      apply same_fields_inv in Hd. simpl in Hd. destruct Hd as (_ & _ & Hd & _). congruence.
    - destruct Heff as (_ & Hc). destruct (Hc j) as [Hsf | (Hunl & E)]; auto.
      rewrite E in Hl. simpl in Hl. congruence. }
  split; [|split; [exact Hsame|split; [exact Hlocked|split; [|split; [exact Hhit|exact Hlocked']]]]].
  - split; [exact HK'|]. split.
    + intros j j' Hj Hj'. rewrite Em in Hj, Hj'.
      destruct (Hhold j Hj) as [Hf|(Hnone & Hr)], (Hhold j' Hj') as [Hf'|(Hnone' & Hr')].
      * apply Hu; auto.
      * exfalso. apply (find_not_in_cache f _ j Hnone'); auto. lia.
      * exfalso. apply (find_not_in_cache f _ j' Hnone); auto. lia.
      * congruence.
    + intros j Hj. rewrite En in Hj. rewrite Em.
      destruct (Hs j Hj) as (H1 & H2 & H3). cbv zeta in *.
      assert (same_fields (slot f' j) (slot f j) \/
              (pb_lock (slot f j) = false /\
               pb_lock (slot f' j) = false /\ pb_pMode (slot f' j) = NONE /\
               pb_logicalPageNo (slot f' j) < 32768)) as [Hsf|(Hunl & Hl' & Hm' & Hlog')].
      { destruct r as [m|].
        - destruct Heff as (_ & [(_ & Hsf) | (_ & Hunl & (data & _ & Hd) & Hsf)]); auto.
          destruct (Z.eq_dec j m) as [->|Hne]; auto.
          right. apply same_fields_inv in Hd. simpl in Hd.
          destruct Hd as (-> & _ & -> & -> & _). repeat split; auto.
        - destruct Heff as (_ & Hc). destruct (Hc j) as [Hsf | (Hunl & E)]; auto.
          right. rewrite E. simpl. repeat split; auto. }
      * apply same_fields_inv in Hsf. destruct Hsf as (-> & -> & -> & -> & _). auto.
      * split; auto. split; auto. congruence.
  - destruct r as [m|]; auto.
    pose proof (load_makes_mtt_cached _ _ _ _ _ H Hm) as (Hp & _).
    split; auto. apply mtt_coherent_slots in HK' as (_ & _ & _ & Hs').
    apply (Hs' m). exact Hp.
Qed.

(** Steps that touch ranks only keep the cache as the sync needs it. *)
Lemma flushing_same pending f f' :
  same_but_cache f f' ->
  (forall j, same_fields (slot f' j) (slot f j)) ->
  flushing pending f -> flushing pending f'.
Proof.
  intros Hsame Hsf (HK & Hu & Hs).
  pose proof Hsame as (Em & _ & ET & _ & _ & Est & _ & _ & _ & En).
  assert (forall j, pb_logicalPageNo (slot f' j) = pb_logicalPageNo (slot f j) /\
                    pb_physicalPageNo (slot f' j) = pb_physicalPageNo (slot f j) /\
                    pb_lock (slot f' j) = pb_lock (slot f j) /\
                    pb_pMode (slot f' j) = pb_pMode (slot f j)) as E.
  { intros j. specialize (Hsf j). apply same_fields_inv in Hsf. tauto. }
  split; [|split].
  - apply mtt_coherent_slots in HK as (HT & Hm & Hst & Hok).
    apply mtt_coherent_slots. rewrite Em, ET.
    split; auto. split; auto. split.
    + rewrite <- Hst. apply getPhysicalPageState_congr. exact Est.
    + intros j. eapply mtt_slot_ok_same_fields; [apply Hsf | apply Hok].
  - intros j j' Hj Hj'. rewrite Em in Hj, Hj'.
    destruct (E j) as (_ & Ej & _). destruct (E j') as (_ & Ej' & _).
    apply Hu; congruence.
  - intros j Hj. rewrite En in Hj. rewrite Em. cbv zeta.
    destruct (E j) as (-> & -> & -> & ->). apply (Hs j Hj).
Qed.

(** An update of a slot that keeps page numbers, lock and mode. *)
Lemma flushing_upd_page pending f i g :
  (forall b, pb_logicalPageNo (g b) = pb_logicalPageNo b /\
             pb_physicalPageNo (g b) = pb_physicalPageNo b /\
             pb_lock (g b) = pb_lock b /\ pb_pMode (g b) = pb_pMode b) ->
  flushing pending f -> flushing pending (upd_slot i g f).
Proof.
  intros Hg (HK & Hu & Hs).
  assert (forall j, pb_logicalPageNo (slot (upd_slot i g f) j) = pb_logicalPageNo (slot f j) /\
                    pb_physicalPageNo (slot (upd_slot i g f) j) = pb_physicalPageNo (slot f j) /\
                    pb_lock (slot (upd_slot i g f) j) = pb_lock (slot f j) /\
                    pb_pMode (slot (upd_slot i g f) j) = pb_pMode (slot f j)) as E.
  { intros j. rewrite slot_upd_slot.
    destruct ((j =? i) && (0 <=? i) && (i <? nslots f)) eqn:Ec; auto.
    apply andb_prop in Ec as [Ec _]. apply andb_prop in Ec as [Ec _].
    apply Z.eqb_eq in Ec. subst j. apply Hg. }
  split; [apply upd_slot_keeps_mtt_coherent; auto; intros b; split; apply Hg|].
  split.
  - intros j j' Hj Hj'. apply Hu.
    + destruct (E j) as (_ & <- & _). exact Hj.
    + destruct (E j') as (_ & <- & _). exact Hj'.
  - intros j Hj. rewrite nslots_upd_slot in Hj. cbv zeta.
    destruct (E j) as (-> & -> & -> & ->). apply (Hs j Hj).
Qed.

(** Locking a slot that the phase at hand, or the last one, flushes: the
    slot of the master TT, or a slot whose page is pending. *)
Lemma flushing_lock pending f m g :
  (forall b, pb_logicalPageNo (g b) = pb_logicalPageNo b /\
             pb_physicalPageNo (g b) = pb_physicalPageNo b /\
             pb_lock (g b) = true) ->
  pending m (pb_logicalPageNo (slot f m)) \/
  (pb_logicalPageNo (slot f m) = 0 /\
   pb_physicalPageNo (slot f m) = mttPhysicalPageNo f) ->
  flushing pending f -> flushing pending (upd_slot m g f).
Proof.
  intros Hg Hp (HK & Hu & Hs).
  split; [apply upd_slot_keeps_mtt_coherent; auto; intros b; split; apply Hg|].
  assert (forall j, pb_physicalPageNo (slot (upd_slot m g f) j) = pb_physicalPageNo (slot f j)) as Ep.
  { intros j. rewrite slot_upd_slot.
    destruct ((j =? m) && (0 <=? m) && (m <? nslots f)) eqn:Ec; auto.
    apply andb_prop in Ec as [Ec _]. apply andb_prop in Ec as [Ec _].
    apply Z.eqb_eq in Ec. subst j. apply Hg. }
  split.
  - intros j j' Hj Hj'. apply Hu; rewrite <- Ep; auto.
  - intros j Hj. rewrite nslots_upd_slot in Hj. cbv zeta.
    rewrite slot_upd_slot.
    destruct ((j =? m) && (0 <=? m) && (m <? nslots f)) eqn:Ec.
    + apply andb_prop in Ec as [Ec _]. apply andb_prop in Ec as [Ec _].
      apply Z.eqb_eq in Ec. subst j.
      destruct (Hg (slot f m)) as (-> & -> & ->).
      split; [discriminate|]. split; [apply (Hs m Hj)|].
      intros _. exact Hp.
    + apply (Hs j Hj).
Qed.

(** Programming a buffer other than the master TT. *)
Lemma flushing_program pending f i ok f' :
  programPageInBuffer hal f i = (ok, f') ->
  pb_logicalPageNo (slot f i) <> 0 ->
  flushing pending f ->
  flushing pending f' /\
  mttPhysicalPageNo f' = mttPhysicalPageNo f /\
  ttPageCount f' = ttPageCount f /\
  pageBufferSize f' = pageBufferSize f /\
  nslots f' = nslots f /\
  (forall j, j <> i -> slot f' j = slot f j) /\
  forall j, pb_logicalPageNo (slot f' j) = pb_logicalPageNo (slot f j) /\
            pb_lock (slot f' j) = pb_lock (slot f j).
Proof.
  intros H Hne (HK & Hu & Hs).
  pose proof (program_keeps_mtt_coherent _ _ _ _ _ H Hne HK) as HK'.
  apply program_effect in H. cbv zeta in H.
  destruct H as ((_ & ET & _ & Esz & En) & Hother & (Hl & Hlk & Hmo & _) & _ & _ & Hplace).
  assert (mttPhysicalPageNo f' = mttPhysicalPageNo f) as Em.
  { destruct Hplace as [(Em & _) | (_ & _ & new & _ & _ & _ & _ & _ & Em)]; auto.
    destruct (Z.eqb_spec (pb_logicalPageNo (slot f i)) 0); [contradiction | auto]. }
  assert (pb_physicalPageNo (slot f' i) = mttPhysicalPageNo f ->
          pb_physicalPageNo (slot f i) = mttPhysicalPageNo f) as Hhold.
  { destruct Hplace as [(_ & -> & _) | (_ & _ & new & _ & Hfree & -> & _)]; auto.
    intros E. exfalso. apply Hfree. rewrite E. apply HK. }
  split; [|repeat split; auto].
  - split; [exact HK'|]. split.
    + intros j j' Hj Hj'. rewrite Em in Hj, Hj'. apply Hu.
      * destruct (Z.eq_dec j i) as [->|Hn]; auto. rewrite <- Hother; auto.
      * destruct (Z.eq_dec j' i) as [->|Hn]; auto. rewrite <- Hother; auto.
    + intros j Hj. rewrite En in Hj. rewrite Em. cbv zeta.
      destruct (Z.eq_dec j i) as [->|Hn].
      * rewrite Hl, Hlk, Hmo. destruct (Hs i Hj) as (H1 & H2 & H3).
        split; auto. split; auto. intros Hlock.
        destruct (H3 Hlock) as [Hp|[Hz _]]; [left; auto | contradiction].
      * rewrite Hother by auto. apply (Hs j Hj).
  - destruct (Z.eq_dec j i) as [->|Hn]; auto. rewrite Hother; auto.
  - destruct (Z.eq_dec j i) as [->|Hn]; auto. rewrite Hother; auto.
Qed.

(** Unlocking the slot that was just flushed. *)
Lemma flushing_unlock pending pending' f i :
  (forall j l, j <> i -> pending j l -> pending' j l) ->
  flushing pending f -> flushing pending' (unlock_slot i f).
Proof.
  intros Hw (HK & Hu & Hs).
  split; [apply unlock_keeps_mtt_coherent; auto|].
  assert (forall j, pb_physicalPageNo (slot (unlock_slot i f) j) = pb_physicalPageNo (slot f j)) as Ep.
  { intros j. unfold unlock_slot. rewrite slot_upd_slot.
    destruct ((j =? i) && (0 <=? i) && (i <? nslots f)) eqn:Ec; auto.
    apply andb_prop in Ec as [Ec _]. apply andb_prop in Ec as [Ec _].
    apply Z.eqb_eq in Ec. subst j. reflexivity. }
  split.
  - intros j j' Hj Hj'. apply Hu; rewrite <- Ep; auto.
  - intros j Hj. unfold unlock_slot in *. rewrite nslots_upd_slot in Hj. cbv zeta.
    rewrite slot_upd_slot.
    destruct ((j =? i) && (0 <=? i) && (i <? nslots f)) eqn:Ec.
    + apply andb_prop in Ec as [Ec _]. apply andb_prop in Ec as [Ec _].
      apply Z.eqb_eq in Ec. subst j. simpl.
      split; auto. split; [apply (Hs i Hj)|]. discriminate.
    + destruct (Hs j Hj) as (H1 & H2 & H3). split; auto. split; auto.
      intros Hl. destruct (H3 Hl) as [Hp|Hp]; auto. left. apply Hw; auto.
      intros ->. rewrite Z.eqb_refl in Ec. simpl in Ec.
      destruct (Z.leb_spec 0 i), (Z.ltb_spec i (nslots f)); simpl in Ec; try discriminate; lia.
Qed.

End Flushing.

(** ** The tables of the pending pages *)

Section PendingTables.

Context {D : Type}.
Variable hal : Hal D.
Variable indeterminatePageInfo : PageInfo.
Implicit Types (f : FrFTL D) (b : PageBuffer) (p : Page) (pending : Z -> Z -> Prop).

Lemma get_pageInfo_set_other p r r' info :
  0 <= r -> 0 <= r' -> r <> r' ->
  get_pageInfo (set_pageInfo r info p) r' = get_pageInfo p r'.
Proof.
  intros Hr Hr' Hne.
  unfold get_pageInfo, set_pageInfo, set16, get16, set8, get8, off_pageInfos,
    sizeof_TransTableHeader, sizeof_PageInfo.
  rewrite !zth_zupd_other by lia. reflexivity.
Qed.

Lemma page_serial_set_pageInfo p r info :
  0 <= r -> page_serial (set_pageInfo r info p) = page_serial p.
Proof.
  intros Hr.
  unfold page_serial, get32, off_serial, set_pageInfo, set16, get16, set8, get8,
    off_pageInfos, sizeof_TransTableHeader, sizeof_PageInfo.
  rewrite !zth_zupd_other by lia. reflexivity.
Qed.

Lemma page_serial_set_physical p r v :
  0 <= r -> page_serial (set_pageInfo_physical r v p) = page_serial p.
Proof.
  intros Hr.
  unfold page_serial, get32, off_serial, set_pageInfo_physical, set16, get16, set8, get8,
    off_pageInfos, sizeof_TransTableHeader, sizeof_PageInfo.
  rewrite !zth_zupd_other by lia. reflexivity.
Qed.

Lemma set_pageInfo_keeps_length p r info :
  length (set_pageInfo r info p) = length p.
Proof. unfold set_pageInfo, set16, set8. rewrite !zupd_length. reflexivity. Qed.

Lemma record_is_int16 p r : i16 (pi_physicalPageNo (get_pageInfo p r)) = pi_physicalPageNo (get_pageInfo p r).
Proof. unfold get_pageInfo. simpl. apply i16_idem. Qed.

(** Steps that keep the page numbers of the slots, the state map and the
    records of the secondary TTs in the master TT. *)
Lemma stt_cached_fields f f' k :
  mttPhysicalPageNo f' = mttPhysicalPageNo f ->
  ttPageCount f' = ttPageCount f ->
  physicalPageState f' = physicalPageState f ->
  (forall j, pb_logicalPageNo (slot f' j) = pb_logicalPageNo (slot f j) /\
             pb_physicalPageNo (slot f' j) = pb_physicalPageNo (slot f j)) ->
  (forall j, pb_physicalPageNo (slot f j) = mttPhysicalPageNo f ->
             get_pageInfo (pb_page (slot f' j)) k = get_pageInfo (pb_page (slot f j)) k) ->
  stt_cached f k -> stt_cached f' k.
Proof.
  intros Em ET Est Hf Hrec (Hk & m & Hm & Hq & Hused & (s & Hs) & Hall).
  cbv zeta in *.
  split; [rewrite ET; exact Hk|]. exists m.
  split; [rewrite Em; destruct (Hf m) as (_ & ->); exact Hm|].
  cbv zeta. rewrite (Hrec m Hm).
  split; [exact Hq|]. split.
  { rewrite <- Hused. apply getPhysicalPageState_congr. exact Est. }
  split.
  - exists s. destruct (Hf s) as (_ & ->). exact Hs.
  - intros s' Hs'. destruct (Hf s') as (El & Ep). rewrite El. apply Hall.
    rewrite <- Ep. exact Hs'.
Qed.

Lemma tables_cached_fields f f' :
  mttPhysicalPageNo f' = mttPhysicalPageNo f ->
  ttPageCount f' = ttPageCount f ->
  physicalPageState f' = physicalPageState f ->
  (forall j, pb_logicalPageNo (slot f' j) = pb_logicalPageNo (slot f j) /\
             pb_physicalPageNo (slot f' j) = pb_physicalPageNo (slot f j)) ->
  (forall j k, 0 < k < ttPageCount f ->
             pb_physicalPageNo (slot f j) = mttPhysicalPageNo f ->
             get_pageInfo (pb_page (slot f' j)) k = get_pageInfo (pb_page (slot f j)) k) ->
  (forall j, pb_lock (slot f' j) = true ->
             pb_lock (slot f j) = true \/ pb_logicalPageNo (slot f j) < TT_RECORDS_PER_PAGE) ->
  tables_cached f -> tables_cached f'.
Proof.
  intros Em ET Est Hf Hrec Hlock HT j Hl Hlog.
  destruct (Hf j) as (El & _). rewrite El in *.
  destruct (Hlock j Hl) as [Hl0|Hsmall]; [|lia].
  pose proof (HT j Hl0 Hlog) as Hc.
  eapply stt_cached_fields; eauto.
  intros j' Hj'. apply Hrec; auto. apply Hc.
Qed.

Lemma tables_cached_same f f' :
  same_but_cache f f' ->
  (forall j, same_fields (slot f' j) (slot f j)) ->
  tables_cached f -> tables_cached f'.
Proof.
  intros Hsame Hsf.
  pose proof Hsame as (Em & _ & ET & _ & _ & Est & _).
  apply tables_cached_fields; auto.
  - intros j. specialize (Hsf j). apply same_fields_inv in Hsf. tauto.
  - intros j k _ _. specialize (Hsf j). apply same_fields_inv in Hsf.
    destruct Hsf as (_ & _ & _ & _ & ->). reflexivity.
  - intros j Hl. left. specialize (Hsf j). apply same_fields_inv in Hsf.
    destruct Hsf as (_ & _ & <- & _). exact Hl.
Qed.

(** A load of the master TT: where it is missed, no table was cached. *)
Lemma tables_cached_load_mtt f f' :
  same_but_cache f f' ->
  ((forall j, pb_physicalPageNo (slot f j) <> mttPhysicalPageNo f) \/
   (forall j, same_fields (slot f' j) (slot f j))) ->
  (forall j, pb_lock (slot f' j) = true -> same_fields (slot f' j) (slot f j)) ->
  tables_cached f -> tables_cached f'.
Proof.
  intros Hsame [Habs|Hsf] Hlocked HT; [|apply (tables_cached_same f); auto].
  intros j Hl Hlog. exfalso.
  specialize (Hlocked j Hl). apply same_fields_inv in Hlocked.
  destruct Hlocked as (El & _ & Elk & _).
  rewrite El in Hlog. rewrite Elk in Hl.
  destruct (HT j Hl Hlog) as (_ & m & Hm & _). apply (Habs m Hm).
Qed.

(** Programming a data page. *)
Lemma tables_cached_program f i ok f' :
  programPageInBuffer hal f i = (ok, f') ->
  mtt_coherent f ->
  ttPageCount f <= pb_logicalPageNo (slot f i) ->
  tables_cached f -> tables_cached f'.
Proof.
  intros H HK Hge HT.
  pose proof HK as HK0.
  apply mtt_coherent_slots in HK as (HT1 & Hm & Hst & Hok).
  apply program_effect in H. cbv zeta in H.
  destruct H as ((_ & ET & _ & _ & _) & Hother & (Hl & Hlk & _ & _) & _ & _ & Hplace).
  assert (mttPhysicalPageNo f' = mttPhysicalPageNo f) as Em.
  { destruct Hplace as [(Em & _) | (_ & _ & new & _ & _ & _ & _ & _ & Em)]; auto.
    destruct (Z.eqb_spec (pb_logicalPageNo (slot f i)) 0); [lia | auto]. }
  intros j Hlock Hlog.
  assert (pb_logicalPageNo (slot f' j) = pb_logicalPageNo (slot f j) /\
          pb_lock (slot f' j) = pb_lock (slot f j)) as (Elog & Elock).
  { destruct (Z.eq_dec j i) as [->|Hn]; auto. rewrite Hother; auto. }
  rewrite Elog in *. rewrite Elock in Hlock.
  destruct (HT j Hlock Hlog) as (Hk & m & Hmh & Hq & Hused & (s & Hs) & Hall).
  cbv zeta in *.
  set (k := pb_logicalPageNo (slot f j) / TT_RECORDS_PER_PAGE) in *.
  set (q := pi_physicalPageNo (get_pageInfo (pb_page (slot f m)) k)) in *.
  assert (pb_physicalPageNo (slot f i) <> q) as Hiq.
  { intros E. apply Hall in E. lia. }
  assert (m <> i) as Hmi.
  { intros ->. destruct (Hok i) as (_ & Hz). specialize (Hz Hmh). lia. }
  assert (s <> i) as Hsi by (intros E; apply Hiq; rewrite <- E; exact Hs).
  assert (i16 q = q) as Eq by apply record_is_int16.
  assert (i16 (pb_physicalPageNo (slot f i)) = pb_physicalPageNo (slot f i)) as Ei
      by (apply i16_small; apply (Hok i)).
  split; [rewrite ET; exact Hk|]. exists m.
  rewrite (Hother m Hmi), Em. split; [exact Hmh|]. cbv zeta. fold q.
  split; [exact Hq|]. split; [|split].
  - destruct Hplace as [(_ & _ & Hkeep & _) | (_ & _ & new & _ & _ & _ & Hkeep & _)].
    + apply Hkeep. exact Hused.
    + apply Hkeep; [rewrite Eq, Ei; auto | exact Hused].
  - exists s. rewrite (Hother s Hsi). exact Hs.
  - intros s' Hs'. destruct (Z.eq_dec s' i) as [->|Hn].
    + exfalso.
      destruct Hplace as [(_ & Ep & _) | (_ & _ & new & _ & Hfree & Ep & _)].
      * rewrite Ep in Hs'. contradiction.
      * rewrite Ep in Hs'. apply Hfree. rewrite Hs'. exact Hused.
    + rewrite (Hother s' Hn) in *. apply Hall. exact Hs'.
Qed.

Lemma tables_cached_unlock f i : tables_cached f -> tables_cached (unlock_slot i f).
Proof.
  unfold unlock_slot. apply tables_cached_fields; auto.
  - intros j. rewrite slot_upd_slot.
    destruct ((j =? i) && (0 <=? i) && (i <? nslots f)) eqn:Ec; auto.
    apply andb_prop in Ec as [Ec _]. apply andb_prop in Ec as [Ec _].
    apply Z.eqb_eq in Ec. subst j. auto.
  - intros j k _ _. rewrite slot_upd_slot.
    destruct ((j =? i) && (0 <=? i) && (i <? nslots f)) eqn:Ec; auto.
    apply andb_prop in Ec as [Ec _]. apply andb_prop in Ec as [Ec _].
    apply Z.eqb_eq in Ec. subst j. reflexivity.
  - intros j. rewrite slot_upd_slot.
    destruct ((j =? i) && (0 <=? i) && (i <? nslots f)) eqn:Ec; auto.
    simpl. discriminate.
Qed.

End PendingTables.

(** ** The phases of sync on a ready cache *)

Section SyncPhases.

Context {D : Type}.
Variable hal : Hal D.
Variable indeterminatePageInfo : PageInfo.
Implicit Types (f : FrFTL D) (b : PageBuffer) (pending : Z -> Z -> Prop).

(** What a step keeps of a slot that holds the master TT: it still holds
    it, with the serial it had; it stays locked, in the mode it had. *)
Local Abbreviation mtt_kept f f' :=
  (forall m, pb_physicalPageNo (slot f m) = mttPhysicalPageNo f ->
     pb_physicalPageNo (slot f' m) = mttPhysicalPageNo f' /\
     page_serial (pb_page (slot f' m)) = page_serial (pb_page (slot f m)) /\
     length (pb_page (slot f' m)) = length (pb_page (slot f m)) /\
     (pb_lock (slot f m) = true -> pb_lock (slot f' m) = true) /\
     (pb_pMode (slot f m) <> NONE -> pb_pMode (slot f' m) = pb_pMode (slot f m))).

Lemma mtt_kept_trans f1 f2 f3 : mtt_kept f1 f2 -> mtt_kept f2 f3 -> mtt_kept f1 f3.
Proof.
  intros H12 H23 m Hm.
  destruct (H12 m Hm) as (A1 & A2 & A5 & A3 & A4).
  destruct (H23 m A1) as (B1 & B2 & B5 & B3 & B4).
  split; [exact B1|]. split; [congruence|]. split; [congruence|]. split; [auto|].
  intros Hmode. rewrite <- (A4 Hmode). apply B4. rewrite (A4 Hmode). exact Hmode.
Qed.

Lemma mtt_kept_same f f' :
  mttPhysicalPageNo f' = mttPhysicalPageNo f ->
  (forall m, pb_physicalPageNo (slot f m) = mttPhysicalPageNo f ->
             same_fields (slot f' m) (slot f m)) ->
  mtt_kept f f'.
Proof.
  intros Em Hsf m Hm. specialize (Hsf m Hm). apply same_fields_inv in Hsf.
  destruct Hsf as (_ & -> & -> & -> & ->). rewrite Em. auto.
Qed.

Lemma mtt_kept_load f f' :
  same_but_cache f f' ->
  ((forall j, pb_physicalPageNo (slot f j) <> mttPhysicalPageNo f) \/
   (forall j, same_fields (slot f' j) (slot f j))) ->
  mtt_kept f f'.
Proof.
  intros Hsame [Habs|Hsf].
  - intros m Hm. exfalso. apply (Habs m Hm).
  - apply mtt_kept_same; [apply Hsame | auto].
Qed.

(** Reading the page info of a pending data page. *)
Lemma flushing_readPageInfo pending f pinfo l ok pinfo' f' :
  0 <= l < 32768 ->
  (TT_RECORDS_PER_PAGE <= l -> stt_cached f (l / TT_RECORDS_PER_PAGE)) ->
  readPageInfo hal indeterminatePageInfo f pinfo l = (ok, pinfo', f') ->
  flushing pending f -> tables_cached f ->
  flushing pending f' /\ tables_cached f' /\ same_but_cache f f' /\
  (forall j, pb_lock (slot f j) = true -> same_fields (slot f' j) (slot f j)) /\
  mtt_kept f f'.
Proof.
  intros Hl Hc H HF HT. unfold readPageInfo in H. unfold TT_RECORDS_PER_PAGE in *.
  rewrite u16_small in H by lia.
  destruct (Z.ltb_spec l 1024) as [Hsmall|Hbig].
  - unfold readPhysicalPageInfo in H.
    destruct (loadPhysicalPageInBuffer hal f 0 (mttPhysicalPageNo f)) as [r f1] eqn:E.
    destruct (flushing_load_mtt hal _ _ _ _ E HF) as (H1 & H2 & H3 & _ & H5 & H6).
    assert (f' = f1) as -> by (destruct r; injection H; auto).
    split; [exact H1|]. split; [eapply tables_cached_load_mtt; eauto|].
    split; [exact H2|]. split; [exact H3|]. apply mtt_kept_load; auto.
  - destruct (Hc Hbig) as (Hk & m & Hm & Hq & Hused & (s & Hs) & Hall). cbv zeta in *.
    pose proof (mtt_coherent_range _ (proj1 HF)) as Hmr.
    unfold readPhysicalPageInfo in H.
    destruct (loadPhysicalPageInBuffer hal f 0 (mttPhysicalPageNo f)) as [r f1] eqn:E.
    destruct (load_held hal _ _ _ _ _ _ Hmr Hm E) as (Hc1 & Hsf1 & (m1 & -> & Hm1)).
    assert (m1 = m) as -> by (apply HF; auto).
    assert (pb_page (slot f1 m) = pb_page (slot f m)) as Epg.
    { specialize (Hsf1 m). apply same_fields_inv in Hsf1. tauto. }
    rewrite Epg in H.
    set (q := pi_physicalPageNo (get_pageInfo (pb_page (slot f m)) (l / 1024))) in *.
    assert (-32768 <= q < 32768) as Hqr
        by (unfold q; rewrite <- record_is_int16; apply i16_range).
    assert (pb_physicalPageNo (slot f1 s) = q) as Hs1.
    { specialize (Hsf1 s). apply same_fields_inv in Hsf1. destruct Hsf1 as (_ & -> & _). exact Hs. }
    destruct (loadPhysicalPageInBuffer hal f1 (l / 1024) q) as [r2 f2] eqn:E2.
    destruct (load_held hal _ _ _ _ _ _ (conj Hq (proj2 Hqr)) Hs1 E2)
      as (Hc2 & Hsf2 & (s2 & -> & Hs2)).
    injection H as <- <- <-.
    assert (forall j, same_fields (slot f2 j) (slot f j)) as Hsf
        by (intros j; eapply same_fields_trans; [apply Hsf2 | apply Hsf1]).
    assert (same_but_cache f f2) as Hsame by (eapply same_but_cache_trans; eauto).
    split; [eapply flushing_same; eauto|].
    split; [eapply tables_cached_same; eauto|].
    split; [exact Hsame|]. split; [auto|].
    apply mtt_kept_same; [apply Hsame | auto].
Qed.

(** Updating the page info of a pending data page: the table that holds
    its record is locked. *)
Lemma flushing_updatePageInfo pending f pinfo l ok f' :
  ttPageCount f <= l < 32768 ->
  (forall j k, 0 < k < ttPageCount f -> pending j k) ->
  (TT_RECORDS_PER_PAGE <= l -> stt_cached f (l / TT_RECORDS_PER_PAGE)) ->
  updatePageInfo hal indeterminatePageInfo f pinfo l = (ok, f') ->
  flushing pending f -> tables_cached f ->
  flushing pending f' /\ tables_cached f' /\ same_but_cache f f' /\
  (forall j, pb_lock (slot f j) = true ->
             pb_logicalPageNo (slot f' j) = pb_logicalPageNo (slot f j) /\
             pb_lock (slot f' j) = true) /\
  mtt_kept f f'.
Proof.
  intros Hl Hpend Hc H HF HT.
  assert (1 <= ttPageCount f) as HT1 by apply HF.
  unfold updatePageInfo in H. unfold TT_RECORDS_PER_PAGE in *.
  rewrite u16_small in H by lia.
  assert (forall r b b',
            b' = (let b1 := pb_with_lock true b in
                  let b2 := if mode_eqb (pb_pMode b1) NONE
                            then pb_with_pMode PROGRAM b1 else b1 in
                  pb_with_page (set_pageInfo r pinfo (pb_page b2)) b2) ->
            pb_logicalPageNo b' = pb_logicalPageNo b /\
            pb_physicalPageNo b' = pb_physicalPageNo b /\
            pb_lock b' = true /\
            pb_page b' = set_pageInfo r pinfo (pb_page b) /\
            (pb_pMode b <> NONE -> pb_pMode b' = pb_pMode b)) as HG.
  { intros r b b' ->. cbv zeta. destruct b as [lg ph lr lk md pg]. simpl.
    destruct md; simpl; repeat split; auto; intros; congruence. }
  destruct (Z.ltb_spec l 1024) as [Hsmall|Hbig].
  - unfold updatePhysicalPageInfo in H.
    destruct (loadPhysicalPageInBuffer hal f 0 (mttPhysicalPageNo f)) as [[m|] f1] eqn:E;
      injection H as <- <-;
      destruct (flushing_load_mtt hal _ _ _ _ E HF) as (H1 & H2 & H3 & H4 & H5 & H6).
    2:{ split; [exact H1|]. split; [eapply tables_cached_load_mtt; eauto|].
        split; [exact H2|]. split; [|apply mtt_kept_load; auto].
        intros j Hj. specialize (H3 j Hj). apply same_fields_inv in H3.
        destruct H3 as (-> & _ & -> & _). auto. }
    destruct H4 as (Hp & Hlog).
    pose proof H2 as (Em & _ & ET & _ & _ & Est & _ & _ & _ & En).
    assert (tables_cached f1) as HT1' by (eapply tables_cached_load_mtt; eauto).
    match goal with |- flushing _ (upd_slot m ?g f1) /\ _ => set (G1 := g) end.
    assert (forall j, pb_logicalPageNo (slot (upd_slot m G1 f1) j) = pb_logicalPageNo (slot f1 j) /\
                      pb_physicalPageNo (slot (upd_slot m G1 f1) j) = pb_physicalPageNo (slot f1 j)) as Hf.
    { intros j. rewrite slot_upd_slot.
      destruct ((j =? m) && (0 <=? m) && (m <? nslots f1)) eqn:Ec; auto.
      apply andb_prop in Ec as [Ec _]. apply andb_prop in Ec as [Ec _].
      apply Z.eqb_eq in Ec. subst j. destruct (HG l (slot f1 m) (G1 (slot f1 m)) eq_refl) as (A & B & _). auto. }
    split; [|split; [|split; [|split]]].
    + apply flushing_lock; auto. intros b. destruct (HG l b (G1 b) eq_refl) as (A & B & C & _). auto.
    + revert HT1'. apply tables_cached_fields; auto.
      * intros j k Hk Hj. rewrite slot_upd_slot.
        destruct ((j =? m) && (0 <=? m) && (m <? nslots f1)) eqn:Ec; auto.
        apply andb_prop in Ec as [Ec _]. apply andb_prop in Ec as [Ec _].
        apply Z.eqb_eq in Ec. subst j. destruct (HG l (slot f1 m) (G1 (slot f1 m)) eq_refl) as (_ & _ & _ & -> & _).
        apply get_pageInfo_set_other; lia.
      * intros j. rewrite slot_upd_slot.
        destruct ((j =? m) && (0 <=? m) && (m <? nslots f1)) eqn:Ec; auto.
        apply andb_prop in Ec as [Ec _]. apply andb_prop in Ec as [Ec _].
        apply Z.eqb_eq in Ec. subst j. intros _. right. rewrite Hlog. unfold TT_RECORDS_PER_PAGE. lia.
    + eapply same_but_cache_trans; [exact H2 | apply same_but_cache_upd_slot].
    + intros j Hj. specialize (H3 j Hj). apply same_fields_inv in H3.
      destruct H3 as (Hlg & _ & Hlock & _).
      rewrite slot_upd_slot.
      destruct ((j =? m) && (0 <=? m) && (m <? nslots f1)) eqn:Ec.
      * apply andb_prop in Ec as [Ec _]. apply andb_prop in Ec as [Ec _].
        apply Z.eqb_eq in Ec. subst j. destruct (HG l (slot f1 m) (G1 (slot f1 m)) eq_refl) as (A & _ & C & _).
        split; [congruence | exact C].
      * split; congruence.
    + apply (mtt_kept_trans f f1); [apply mtt_kept_load; auto|].
      intros m' Hm'. change (mttPhysicalPageNo (upd_slot m G1 f1)) with (mttPhysicalPageNo f1).
      assert (m' = m) as -> by (apply H1; auto).
      assert (0 <= m < nslots f1) as Hmr.
      { apply slot_in_range_of_physical. rewrite Hp.
        pose proof (mtt_coherent_range _ (proj1 H1)). lia. }
      rewrite slot_upd_slot_same by exact Hmr.
      destruct (HG l (slot f1 m) (G1 (slot f1 m)) eq_refl) as (_ & B & C & P & M).
      split; [congruence|]. split; [|split; [|split; auto]].
      * rewrite P. apply page_serial_set_pageInfo. lia.
      * rewrite P. apply set_pageInfo_keeps_length.
  - destruct (Hc Hbig) as (Hk & m & Hm & Hq & Hused & (s & Hs) & Hall). cbv zeta in *.
    pose proof (mtt_coherent_range _ (proj1 HF)) as Hmr.
    unfold readPhysicalPageInfo in H.
    destruct (loadPhysicalPageInBuffer hal f 0 (mttPhysicalPageNo f)) as [r f1] eqn:E.
    destruct (load_held hal _ _ _ _ _ _ Hmr Hm E) as (Hc1 & Hsf1 & (m1 & -> & Hm1)).
    assert (m1 = m) as -> by (apply HF; auto).
    assert (pb_page (slot f1 m) = pb_page (slot f m)) as Epg.
    { specialize (Hsf1 m). apply same_fields_inv in Hsf1. tauto. }
    rewrite Epg in H.
    set (q := pi_physicalPageNo (get_pageInfo (pb_page (slot f m)) (l / 1024))) in *.
    assert (-32768 <= q < 32768) as Hqr
        by (unfold q; rewrite <- record_is_int16; apply i16_range).
    assert (pb_physicalPageNo (slot f1 s) = q) as Hs1.
    { specialize (Hsf1 s). apply same_fields_inv in Hsf1. destruct Hsf1 as (_ & -> & _). exact Hs. }
    unfold updatePhysicalPageInfo in H.
    destruct (loadPhysicalPageInBuffer hal f1 (l / 1024) q) as [r2 f2] eqn:E2.
    destruct (load_held hal _ _ _ _ _ _ (conj Hq (proj2 Hqr)) Hs1 E2)
      as (Hc2 & Hsf2 & (s2 & -> & Hs2)).
    injection H as <- <-.
    assert (forall j, same_fields (slot f2 j) (slot f j)) as Hsf
        by (intros j; eapply same_fields_trans; [apply Hsf2 | apply Hsf1]).
    assert (same_but_cache f f2) as Hsame by (eapply same_but_cache_trans; eauto).
    pose proof Hsame as (Em & _ & ET & _ & _ & Est & _ & _ & _ & En).
    assert (flushing pending f2) as HF2 by (eapply flushing_same; eauto).
    assert (tables_cached f2) as HT2 by (eapply tables_cached_same; eauto).
    assert (pb_logicalPageNo (slot f2 s2) = l / 1024) as Hlog2.
    { specialize (Hsf s2). apply same_fields_inv in Hsf. destruct Hsf as (-> & _).
      apply Hall. specialize (Hsf1 s2). apply same_fields_inv in Hsf1.
      destruct Hsf1 as (_ & <- & _). exact Hs2. }
    match goal with |- flushing _ (upd_slot s2 ?g f2) /\ _ => set (G1 := g) end.
    assert (forall j, pb_logicalPageNo (slot (upd_slot s2 G1 f2) j) = pb_logicalPageNo (slot f2 j) /\
                      pb_physicalPageNo (slot (upd_slot s2 G1 f2) j) = pb_physicalPageNo (slot f2 j)) as Hf.
    { intros j. rewrite slot_upd_slot.
      destruct ((j =? s2) && (0 <=? s2) && (s2 <? nslots f2)) eqn:Ec; auto.
      apply andb_prop in Ec as [Ec _]. apply andb_prop in Ec as [Ec _].
      apply Z.eqb_eq in Ec. subst j.
      destruct (HG (l mod 1024) (slot f2 s2) (G1 (slot f2 s2)) eq_refl) as (A & B & _). auto. }
    assert (forall j, pb_physicalPageNo (slot f2 j) = mttPhysicalPageNo f2 -> j <> s2) as Hms.
    { intros j Hj ->. destruct HF2 as (HK2 & _).
      apply mtt_coherent_slots in HK2 as (_ & _ & _ & Hok).
      destruct (Hok s2) as (_ & Hz). specialize (Hz Hj). lia. }
    split; [|split; [|split; [|split]]].
    + apply flushing_lock; auto.
      * intros b. destruct (HG (l mod 1024) b (G1 b) eq_refl) as (A & B & C & _). auto.
      * left. rewrite Hlog2. apply Hpend. lia.
    + revert HT2. apply tables_cached_fields; auto.
      * intros j k _ Hj. rewrite slot_upd_slot_other; auto.
        intros ->. apply (Hms j); auto.
      * intros j. rewrite slot_upd_slot.
        destruct ((j =? s2) && (0 <=? s2) && (s2 <? nslots f2)) eqn:Ec; auto.
        apply andb_prop in Ec as [Ec _]. apply andb_prop in Ec as [Ec _].
        apply Z.eqb_eq in Ec. subst j. intros _. right. rewrite Hlog2.
        unfold TT_RECORDS_PER_PAGE. apply Z.div_lt_upper_bound; lia.
    + eapply same_but_cache_trans; [exact Hsame | apply same_but_cache_upd_slot].
    + intros j Hj. specialize (Hsf j). apply same_fields_inv in Hsf.
      destruct Hsf as (Hlg & _ & Hlock & _).
      rewrite slot_upd_slot.
      destruct ((j =? s2) && (0 <=? s2) && (s2 <? nslots f2)) eqn:Ec.
      * apply andb_prop in Ec as [Ec _]. apply andb_prop in Ec as [Ec _].
        apply Z.eqb_eq in Ec. subst j.
        destruct (HG (l mod 1024) (slot f2 s2) (G1 (slot f2 s2)) eq_refl) as (A & _ & C & _).
        split; [congruence | exact C].
      * split; congruence.
    + apply (mtt_kept_trans f f2); [apply mtt_kept_same; [apply Hsame | auto]|].
      apply mtt_kept_same; [reflexivity|].
      intros m' Hm'. rewrite slot_upd_slot_other; [apply same_fields_refl|].
      intros E'. apply (Hms m'); auto.
Qed.

Lemma pending_data_next T i j l :
  j <> i -> pending_data T i j l -> pending_data T (i + 1) j l.
Proof. unfold pending_data. intros Hne [[H1 H2]|H]; [left; lia | right; auto]. Qed.

(** First phase: afterwards no data page is pending. *)
Lemma sync_data_flush n : forall i f f',
  sync_data hal indeterminatePageInfo n i f = (true, f') ->
  flushing (pending_data (ttPageCount f) i) f ->
  tables_cached f ->
  flushing (pending_data (ttPageCount f) (i + Z.of_nat n)) f' /\
  ttPageCount f' = ttPageCount f /\
  pageBufferSize f' = pageBufferSize f /\
  nslots f' = nslots f /\
  mttPhysicalPageNo f' = mttPhysicalPageNo f /\
  mtt_kept f f'.
Proof.
  induction n as [|n IH]; intros i f f' H HF HT.
  - simpl in H. injection H as <-. rewrite Z.add_0_r.
    split; [exact HF|]. repeat (split; [reflexivity|]).
    intros m Hm. repeat split; auto.
  - rewrite Nat2Z.inj_succ. replace (i + Z.succ (Z.of_nat n)) with (i + 1 + Z.of_nat n) by lia.
    simpl in H.
    destruct (pb_lock (slot f i) && (pb_logicalPageNo (slot f i) >=? ttPageCount f)) eqn:Ec.
    2:{ apply IH; auto. destruct HF as (HK & Hu & Hs). split; auto. split; auto.
        intros j Hj. destruct (Hs j Hj) as (H1 & H2 & H3). split; auto. split; auto.
        intros Hl. destruct (H3 Hl) as [Hp|Hp]; auto. left.
        destruct (Z.eq_dec j i) as [->|Hne]; [|apply pending_data_next; auto].
        rewrite Hl in Ec. simpl in Ec. rewrite Z.geb_leb in Ec. apply Z.leb_gt in Ec.
        destruct Hp as [[Hp _]|Hp]; [lia | right; auto]. }
    apply andb_prop in Ec as [Elock Ege]. apply Z.geb_le in Ege.
    assert (1 <= ttPageCount f) as HT1 by (apply HF).
    destruct (programPageInBuffer hal f i) as [ok1 f1] eqn:E1.
    pose proof (tables_cached_program hal _ _ _ _ E1 (proj1 HF) Ege HT) as HTb1.
    destruct (flushing_program hal _ _ _ _ _ E1 ltac:(lia) HF)
      as (HF1 & Em1 & ET1 & Esz1 & En1 & Hother1 & Hsl1).
    destruct ok1; [|discriminate].
    destruct (Hsl1 i) as (Hlog1 & Hlock1). rewrite Elock in Hlock1.
    assert (0 <= i < nslots f1) as Hi1
        by (apply slot_in_range_of_logical; rewrite Hlog1; lia).
    assert (pb_logicalPageNo (slot f1 i) < 32768) as Hlt1
        by (apply HF1; auto).
    assert (mtt_kept f f1) as HM1.
    { apply mtt_kept_same; auto. intros m Hm.
      rewrite Hother1; [apply same_fields_refl|].
      intros ->. destruct HF as (HK & _).
      apply mtt_coherent_slots in HK as (_ & _ & _ & Hok).
      destruct (Hok i) as (_ & Hz). specialize (Hz Hm). lia. }
    assert (0 <= pb_logicalPageNo (slot f1 i) < 32768) as Hr1 by lia.
    destruct (readPageInfo hal indeterminatePageInfo f1 _ _) as [[ok2 info2] f2] eqn:E2.
    destruct (flushing_readPageInfo _ _ _ _ _ _ _ Hr1 (HTb1 i Hlock1) E2 HF1 HTb1)
      as (HF2 & HTb2 & Hc2 & Hsl2 & HM2).
    destruct ok2; [|discriminate].
    pose proof (Hsl2 i Hlock1) as Hsf2. apply same_fields_inv in Hsf2.
    destruct Hsf2 as (Hlog2 & _ & Hlock2 & _). rewrite Hlock1 in Hlock2.
    assert (mttPhysicalPageNo f2 = mttPhysicalPageNo f1) as Em2 by (apply Hc2).
    assert (ttPageCount f2 = ttPageCount f1) as ET2 by (apply Hc2).
    assert (ttPageCount f2 <= pb_logicalPageNo (slot f2 i) < 32768) as Hr2 by lia.
    destruct (updatePageInfo hal indeterminatePageInfo f2 _ _) as [ok3 f3] eqn:E3.
    assert (flushing (pending_data (ttPageCount f2) i) f2) as HF2'
        by (rewrite ET2, ET1; exact HF2).
    destruct (flushing_updatePageInfo _ _ _ _ _ _ Hr2
                (fun j k Hk => or_intror Hk) (HTb2 i Hlock2) E3 HF2' HTb2)
      as (HF3 & HTb3 & Hc3 & Hsl3 & HM3).
    destruct ok3; [|discriminate].
    assert (ttPageCount f3 = ttPageCount f) as ET3.
    { destruct Hc3 as (_ & _ & -> & _). congruence. }
    assert (pageBufferSize f3 = pageBufferSize f) as Esz3.
    { destruct Hc3 as (_ & _ & _ & _ & _ & _ & _ & -> & _).
      destruct Hc2 as (_ & _ & _ & _ & _ & _ & _ & -> & _). exact Esz1. }
    assert (nslots f3 = nslots f) as En3.
    { destruct Hc3 as (_ & _ & _ & _ & _ & _ & _ & _ & _ & ->).
      destruct Hc2 as (_ & _ & _ & _ & _ & _ & _ & _ & _ & ->). exact En1. }
    assert (mttPhysicalPageNo f3 = mttPhysicalPageNo f) as Em3.
    { destruct Hc3 as (-> & _). congruence. }
    assert (pb_logicalPageNo (slot f3 i) = pb_logicalPageNo (slot f i)) as Hlog3.
    { destruct (Hsl3 i Hlock2) as (-> & _). congruence. }
    assert (mtt_kept f3 (unlock_slot i f3)) as HM4.
    { apply mtt_kept_same; [reflexivity|]. intros m Hm. unfold unlock_slot.
      rewrite slot_upd_slot_other; [apply same_fields_refl|].
      intros ->. destruct HF3 as (HK & _).
      apply mtt_coherent_slots in HK as (_ & _ & _ & Hok).
      destruct (Hok m) as (_ & Hz). specialize (Hz Hm). lia. }
    apply IH in H.
    + destruct H as (A & B & C & E & F & G).
      change (ttPageCount (unlock_slot i f3)) with (ttPageCount f3) in A, B.
      change (pageBufferSize (unlock_slot i f3)) with (pageBufferSize f3) in C.
      change (mttPhysicalPageNo (unlock_slot i f3)) with (mttPhysicalPageNo f3) in F.
      replace (nslots (unlock_slot i f3)) with (nslots f) in E
        by (unfold unlock_slot; rewrite nslots_upd_slot; auto).
      rewrite ET3 in A, B. rewrite Esz3 in C. rewrite Em3 in F.
      repeat (split; [assumption|]).
      apply (mtt_kept_trans f f1); [exact HM1|].
      apply (mtt_kept_trans f1 f2); [exact HM2|].
      apply (mtt_kept_trans f2 f3); [exact HM3|].
      apply (mtt_kept_trans f3 (unlock_slot i f3)); [exact HM4 | exact G].
    + change (ttPageCount (unlock_slot i f3)) with (ttPageCount f3). rewrite ET3.
      assert (ttPageCount f2 = ttPageCount f) as ET2f by congruence.
      rewrite ET2f in HF3.
      eapply flushing_unlock; [|exact HF3].
      intros j l Hne. apply pending_data_next; auto.
    + apply tables_cached_unlock. exact HTb3.
Qed.


Lemma pending_stt_next T i j l :
  j <> i -> pending_stt T i j l -> pending_stt T (i + 1) j l.
Proof. unfold pending_stt. intros Hne [H1 H2]. split; auto. lia. Qed.

(** Second phase: afterwards no secondary TT is pending, and the slot of
    the master TT is still the same, with the serial, the lock and the
    mode it had. *)
Lemma sync_stt_flush n : forall i m f f',
  sync_stt hal n i m f = (true, f') ->
  flushing (pending_stt (ttPageCount f) i) f ->
  pb_physicalPageNo (slot f m) = mttPhysicalPageNo f ->
  pb_logicalPageNo (slot f m) = 0 ->
  flushing (pending_stt (ttPageCount f) (i + Z.of_nat n)) f' /\
  ttPageCount f' = ttPageCount f /\
  pageBufferSize f' = pageBufferSize f /\
  nslots f' = nslots f /\
  pb_physicalPageNo (slot f' m) = mttPhysicalPageNo f' /\
  pb_logicalPageNo (slot f' m) = 0 /\
  mttPhysicalPageNo f' = mttPhysicalPageNo f /\
  page_serial (pb_page (slot f' m)) = page_serial (pb_page (slot f m)) /\
  length (pb_page (slot f' m)) = length (pb_page (slot f m)) /\
  pb_lock (slot f' m) = pb_lock (slot f m) /\
  pb_pMode (slot f' m) = pb_pMode (slot f m).
Proof.
  induction n as [|n IH]; intros i m f f' H HF Hp Hl.
  - simpl in H. injection H as <-. rewrite Z.add_0_r. auto 14.
  - rewrite Nat2Z.inj_succ. replace (i + Z.succ (Z.of_nat n)) with (i + 1 + Z.of_nat n) by lia.
    simpl in H.
    destruct (pb_lock (slot f i) && (pb_logicalPageNo (slot f i) >? 0)
              && (pb_logicalPageNo (slot f i) <? ttPageCount f)) eqn:Ec.
    2:{ apply IH; auto. destruct HF as (HK & Hu & Hs). split; auto. split; auto.
        intros j Hj. destruct (Hs j Hj) as (H1 & H2 & H3). split; auto. split; auto.
        intros Hlk. destruct (H3 Hlk) as [Hpd|Hpd]; auto. left.
        destruct (Z.eq_dec j i) as [->|Hne]; [|apply pending_stt_next; auto].
        destruct Hpd as [[Hp1 Hp2] _].
        rewrite Hlk in Ec. simpl in Ec.
        destruct (Z.gtb_spec (pb_logicalPageNo (slot f i)) 0),
                 (Z.ltb_spec (pb_logicalPageNo (slot f i)) (ttPageCount f));
          simpl in Ec; try discriminate; lia. }
    apply andb_prop in Ec as [Ec Elt]. apply andb_prop in Ec as [Elock Egt].
    apply Z.ltb_lt in Elt. apply Z.gtb_lt in Egt.
    destruct (programPageInBuffer hal f i) as [ok1 f1] eqn:E1.
    destruct (flushing_program hal _ _ _ _ _ E1 ltac:(lia) HF)
      as (HF1 & Em1 & ET1 & Esz1 & En1 & Hother1 & Hsl1).
    destruct ok1; [|discriminate].
    assert (m <> i) as Hmi by (intros ->; lia).
    assert (slot f1 m = slot f m) as Esm by (apply Hother1; auto).
    assert (0 < pb_logicalPageNo (slot f1 i)) as Hcur
        by (destruct (Hsl1 i) as (-> & _); exact Egt).
    match type of H with
    | sync_stt _ _ _ _ (unlock_slot i ?g) = _ => set (f2 := g) in *
    end.
    assert (flushing (pending_stt (ttPageCount f) i) f2) as HF2.
    { unfold f2. apply flushing_upd_page; auto; intros b; repeat split; reflexivity. }
    assert (nslots f2 = nslots f) as En2
        by (unfold f2; rewrite nslots_upd_slot; exact En1).
    assert (pb_physicalPageNo (slot (unlock_slot i f2) m) = mttPhysicalPageNo f /\
            pb_logicalPageNo (slot (unlock_slot i f2) m) = 0 /\
            page_serial (pb_page (slot (unlock_slot i f2) m))
            = page_serial (pb_page (slot f m)) /\
            length (pb_page (slot (unlock_slot i f2) m)) = length (pb_page (slot f m)) /\
            pb_lock (slot (unlock_slot i f2) m) = pb_lock (slot f m) /\
            pb_pMode (slot (unlock_slot i f2) m) = pb_pMode (slot f m))
      as (Hp3 & Hl3 & Hser3 & Hlen3 & Hlk3 & Hmo3).
    { unfold unlock_slot. rewrite slot_upd_slot_other by auto.
      unfold f2. rewrite slot_upd_slot.
      destruct ((m =? m) && (0 <=? m) && (m <? nslots f1)); simpl; rewrite Esm; auto 8.
      repeat split; auto.
      - apply page_serial_set_physical. lia.
      - unfold set_pageInfo_physical, set16, set8. rewrite !zupd_length. reflexivity. }
    apply IH in H.
    + destruct H as (A & B & C & E & F & G & I & J & J' & K & L).
      change (ttPageCount (unlock_slot i f2)) with (ttPageCount f1) in A, B.
      change (pageBufferSize (unlock_slot i f2)) with (pageBufferSize f1) in C.
      change (mttPhysicalPageNo (unlock_slot i f2)) with (mttPhysicalPageNo f1) in I.
      replace (nslots (unlock_slot i f2)) with (nslots f) in E
        by (unfold unlock_slot; rewrite nslots_upd_slot; auto).
      rewrite ET1 in A, B. rewrite Esz1 in C. rewrite Em1 in I.
      repeat (split; [assumption|]).
      split; [congruence|]. split; [congruence|]. split; congruence.
    + change (ttPageCount (unlock_slot i f2)) with (ttPageCount f1). rewrite ET1.
      eapply flushing_unlock; [|exact HF2].
      intros j l Hne. apply pending_stt_next; auto.
    + change (mttPhysicalPageNo (unlock_slot i f2)) with (mttPhysicalPageNo f1).
      rewrite Em1. exact Hp3.
    + exact Hl3.
Qed.

(** Third phase: with nothing else pending, every slot ends up unlocked. *)
Lemma sync_mtt_flush m f f' bound :
  sync_mtt hal m f = (true, f') ->
  flushing (pending_stt (ttPageCount f) bound) f ->
  nslots f <= bound ->
  pb_physicalPageNo (slot f m) = mttPhysicalPageNo f ->
  pb_logicalPageNo (slot f m) = 0 ->
  (forall j, 0 <= j < nslots f' ->
     pb_lock (slot f' j) = false /\ pb_pMode (slot f' j) = NONE) /\
  nslots f' = nslots f /\
  pageBufferSize f' = pageBufferSize f /\
  pb_physicalPageNo (slot f' m) = mttPhysicalPageNo f' /\
  0 <= mttPhysicalPageNo f' < 32768.
Proof.
  intros H (HK & Hu & Hs) Hb Hp Hl.
  pose proof (mtt_coherent_range _ HK) as Hm.
  assert (0 <= m < nslots f) as Hmr
      by (apply slot_in_range_of_physical; rewrite Hp; lia).
  assert (forall j, 0 <= j < nslots f -> j <> m ->
            pb_lock (slot f j) = false /\ pb_pMode (slot f j) = NONE) as Hrest.
  { intros j Hj Hne. destruct (Hs j Hj) as (H1 & _ & H3).
    destruct (pb_lock (slot f j)) eqn:E; auto.
    exfalso. destruct (H3 eq_refl) as [[_ Hge]|[_ Hph]]; [lia|].
    apply Hne. apply Hu; auto. }
  unfold sync_mtt in H. destruct (pb_lock (slot f m)) eqn:Elock.
  - destruct (programPageInBuffer hal f m) as [ok1 f1] eqn:E1.
    destruct ok1; [|discriminate]. injection H as <-.
    apply program_effect in E1. cbv zeta in E1.
    destruct E1 as ((_ & _ & _ & Esz & En) & Hother & _ & _ & _ & Hplace).
    unfold unlock_slot.
    split; [|split; [|split; [|split]]].
    + intros j Hj. rewrite nslots_upd_slot in Hj. rewrite slot_upd_slot.
      destruct ((j =? m) && (0 <=? m) && (m <? nslots f1)) eqn:Ec; [simpl; auto|].
      assert (j <> m) as Hne.
      { intros ->. rewrite Z.eqb_refl in Ec. simpl in Ec.
        destruct (Z.leb_spec 0 m), (Z.ltb_spec m (nslots f1)); simpl in Ec;
          try discriminate; lia. }
      rewrite Hother by auto. apply Hrest; auto. lia.
    + rewrite nslots_upd_slot. exact En.
    + exact Esz.
    + rewrite slot_upd_slot_same by lia. simpl.
      change (mttPhysicalPageNo (upd_slot m _ f1)) with (mttPhysicalPageNo f1).
      destruct Hplace as [(Em & -> & _) | (_ & _ & new & _ & _ & -> & _ & _ & Em)].
      * congruence.
      * rewrite Em, Hl. reflexivity.
    + change (mttPhysicalPageNo (upd_slot m _ f1)) with (mttPhysicalPageNo f1).
      destruct Hplace as [(Em & _) | (_ & _ & new & Hnew & _ & _ & _ & _ & Em)].
      * rewrite Em. exact Hm.
      * rewrite Em, Hl. simpl. exact Hnew.
  - injection H as <-.
    split; [|auto]. intros j Hj.
    destruct (Z.eq_dec j m) as [->|Hne]; [|apply Hrest; auto].
    split; auto. apply (Hs m Hj). exact Elock.
Qed.

Lemma sync_ready_flushing f :
  sync_ready f -> flushing (pending_data (ttPageCount f) 0) f /\ tables_cached f.
Proof.
  intros (HK & Hu & _ & _ & _ & Hs). rewrite Forall_forall in Hs. split.
  - split; auto. split; auto.
    intros j Hj. cbv zeta.
    destruct (Hs (slot f j)) as (H1 & H2 & H3);
      [apply zth_In; unfold nslots in Hj; lia|].
    split; auto. split; auto. intros Hl. destruct (H3 Hl) as (H4 & H5 & _).
    destruct (Z.eq_dec (pb_logicalPageNo (slot f j)) 0) as [E|E]; [right; auto|].
    left. unfold pending_data.
    destruct (Z.le_gt_cases (ttPageCount f) (pb_logicalPageNo (slot f j)));
      [left; lia | right; lia].
  - intros j Hl Hlog.
    assert (0 <= j < nslots f) as Hj
        by (apply slot_in_range_of_logical; unfold TT_RECORDS_PER_PAGE in Hlog; lia).
    destruct (Hs (slot f j)) as (_ & _ & H3);
      [apply zth_In; unfold nslots in Hj; lia|].
    apply (H3 Hl). exact Hlog.
Qed.

(** The first two phases of a successful sync of a ready cache: what is
    left is the third phase on the slot of the master TT, which is the
    slot that held it before the sync, if one did. *)
Lemma ftlSync_phases f f' :
  sync_ready f ->
  ftlSync hal indeterminatePageInfo f = (true, f') ->
  exists m f3,
    sync_mtt hal m f3 = (true, f') /\
    flushing (pending_stt (ttPageCount f3) (nslots f3)) f3 /\
    nslots f3 = nslots f /\
    pageBufferSize f3 = pageBufferSize f /\
    ttPageCount f3 = ttPageCount f /\
    mttPhysicalPageNo f3 = mttPhysicalPageNo f /\
    pb_physicalPageNo (slot f3 m) = mttPhysicalPageNo f3 /\
    pb_logicalPageNo (slot f3 m) = 0 /\
    forall m0, pb_physicalPageNo (slot f m0) = mttPhysicalPageNo f ->
      m0 = m /\
      page_serial (pb_page (slot f3 m)) = page_serial (pb_page (slot f m0)) /\
      length (pb_page (slot f3 m)) = length (pb_page (slot f m0)) /\
      (pb_lock (slot f m0) = true -> pb_lock (slot f3 m) = true) /\
      (pb_pMode (slot f m0) <> NONE -> pb_pMode (slot f3 m) = pb_pMode (slot f m0)).
Proof.
  intros HR H. destruct (sync_ready_flushing f HR) as (HF & HT).
  destruct HR as (_ & _ & En & _ & _).
  unfold ftlSync in H.
  destruct (sync_data hal indeterminatePageInfo _ 0 f) as [ok1 f1] eqn:E1.
  destruct ok1; [|discriminate].
  apply sync_data_flush in E1 as (HF1 & ET1 & Esz1 & En1 & Em1 & HM1); auto.
  destruct (loadPhysicalPageInBuffer hal f1 0 (mttPhysicalPageNo f1)) as [[m|] f2] eqn:E2;
    [|discriminate].
  destruct (flushing_load_mtt hal _ _ _ _ E2 HF1) as (HF2 & Hc2 & _ & (Hp2 & Hl2) & Hhit2 & _).
  assert (ttPageCount f2 = ttPageCount f) as ET2
      by (destruct Hc2 as (_ & _ & -> & _); exact ET1).
  assert (pageBufferSize f2 = pageBufferSize f) as Esz2
      by (destruct Hc2 as (_ & _ & _ & _ & _ & _ & _ & -> & _); exact Esz1).
  assert (nslots f2 = nslots f) as En2
      by (destruct Hc2 as (_ & _ & _ & _ & _ & _ & _ & _ & _ & ->); exact En1).
  assert (mttPhysicalPageNo f2 = mttPhysicalPageNo f) as Em2
      by (destruct Hc2 as (-> & _); exact Em1).
  assert (0 <= pageBufferSize f) as Hsz by (rewrite <- En; unfold nslots; lia).
  rewrite Z2Nat.id in HF2 by lia.
  assert (flushing (pending_stt (ttPageCount f2) 0) f2) as HF2'.
  { eapply flushing_weaken; [|exact HF2]. intros j l Hr [[_ Hj]|Hj].
    - lia.
    - split; [rewrite ET2; auto | lia]. }
  destruct (sync_stt hal _ 0 m f2) as [ok3 f3] eqn:E3.
  destruct ok3; [|discriminate].
  apply sync_stt_flush in E3
    as (HF3 & ET3 & Esz3 & En3 & Hp3 & Hl3 & Em3 & Hser3 & Hlen3 & Hlk3 & Hmo3); auto.
  exists m, f3. split; [exact H|]. split.
  { rewrite ET3. replace (nslots f3) with (0 + Z.of_nat (Z.to_nat (pageBufferSize f2))).
    - exact HF3.
    - rewrite Z2Nat.id by lia. lia. }
  repeat (split; [congruence|]).
  intros m0 Hm0. destruct (HM1 m0 Hm0) as (A1 & A2 & A5 & A3 & A4).
  assert (forall j, same_fields (slot f2 j) (slot f1 j)) as Hsf.
  { destruct Hhit2 as [Habs|Hsf]; auto. exfalso. apply (Habs m0 A1). }
  pose proof (Hsf m0) as Hsf0. apply same_fields_inv in Hsf0.
  destruct Hsf0 as (_ & Bp & Bl & Bm & Bpg).
  assert (m0 = m) as ->.
  { apply HF2. - rewrite Bp. destruct Hc2 as (-> & _). exact A1. - exact Hp2. }
  split; [reflexivity|]. split; [congruence|]. split; [congruence|]. split.
  - intros Hlk. rewrite Hlk3, Bl. auto.
  - intros Hmo. rewrite Hmo3, Bm. auto.
Qed.

(** A successful sync of a ready cache leaves every slot unlocked, with
    the master TT in the cache. *)
Lemma ftlSync_flushes f f' :
  sync_ready f ->
  ftlSync hal indeterminatePageInfo f = (true, f') ->
  (forall j, 0 <= j < nslots f' ->
     pb_lock (slot f' j) = false /\ pb_pMode (slot f' j) = NONE) /\
  nslots f' = pageBufferSize f' /\
  pageBufferSize f' = pageBufferSize f /\
  0 <= mttPhysicalPageNo f' < 32768 /\
  exists m, pb_physicalPageNo (slot f' m) = mttPhysicalPageNo f'.
Proof.
  intros HR H.
  destruct (ftlSync_phases f f' HR H)
    as (m & f3 & H3 & HF3 & En3 & Esz3 & _ & _ & Hp3 & Hl3 & _).
  destruct HR as (_ & _ & En & _ & _).
  apply sync_mtt_flush with (bound := nslots f3) in H3; auto; [|lia].
  destruct H3 as (Hall & En' & Esz' & Hp' & Hm').
  split; auto. split; [congruence|]. split; [congruence|]. split; eauto.
Qed.

End SyncPhases.

(** ** After a successful sync *)

Section AfterSync.

Context {D : Type}.
Variable hal : Hal D.
Variable indeterminatePageInfo : PageInfo.
Implicit Types (f : FrFTL D) (b : PageBuffer).

Lemma count_free_all_unlocked bufs : forall found bufferCount,
  Forall (fun b => pb_lock b = false) bufs ->
  bufs <> [] ->
  0 <= found -> found + Z.of_nat (length bufs) < 65536 ->
  bufferCount <= found + Z.of_nat (length bufs) ->
  count_free bufs found bufferCount = true.
Proof.
  induction bufs as [|b t IH]; intros found k Hall Hne Hf Hlen Hk; [congruence|].
  inversion Hall as [|? ? Hb Ht]; subst. simpl. rewrite Hb. simpl.
  assert (u16 (found + 1) = found + 1) as -> by (apply u16_small; simpl length in Hlen; lia).
  destruct (Z.geb_spec (found + 1) k); auto.
  apply IH; auto; simpl length in *; try lia.
  destruct t; simpl in *; [lia | discriminate].
Qed.


Lemma sync_data_idle n : forall i f,
  (forall j, i <= j < i + Z.of_nat n -> pb_lock (slot f j) = false) ->
  sync_data hal indeterminatePageInfo n i f = (true, f).
Proof.
  induction n as [|n IH]; intros i f H; simpl; auto.
  rewrite (H i) by lia. simpl. apply IH. intros j Hj. apply H. lia.
Qed.

Lemma sync_stt_idle n : forall i m f,
  (forall j, i <= j < i + Z.of_nat n -> pb_lock (slot f j) = false) ->
  sync_stt hal n i m f = (true, f).
Proof.
  induction n as [|n IH]; intros i m f H; simpl; auto.
  rewrite (H i) by lia. simpl. apply IH. intros j Hj. apply H. lia.
Qed.


End AfterSync.

(** ** Mount: which page becomes the master TT *)

Section Mount.

Context {D : Type}.
Variable hal : Hal D.
Variables indeterminatePage indeterminateHeader : Page.
Implicit Types (f : FrFTL D).

Local Abbreviation candidate := (mtt_candidate hal indeterminateHeader).
Local Abbreviation serial := (serial_at hal indeterminateHeader).

Local Abbreviation scanned := (scanned hal indeterminateHeader).

Lemma loadFTL_scan_spec fuel : forall f i cs cp,
  0 <= i <= physicalPageCount f -> physicalPageCount f <= 32767 ->
  (Z.to_nat (physicalPageCount f - i) < fuel)%nat ->
  scanned (dev f) i cs cp ->
  exists cs' cp' f',
    loadFTL_scan hal indeterminateHeader fuel f i cs cp = Some (cs', cp', f') /\
    scanned (dev f) (physicalPageCount f) cs' cp' /\
    same_but_cache f f' /\ pageBuffer f' = pageBuffer f.
Proof.
  induction fuel as [|fuel IH]; intros f i cs cp Hi HP Hfuel Hsc; [lia|].
  simpl. destruct (Z.ltb_spec i (physicalPageCount f)) as [Hlt|Hge].
  2:{ assert (i = physicalPageCount f) as -> by lia.
      do 3 eexists. split; [reflexivity|]. split; [exact Hsc|].
      split; [apply same_but_cache_refl | reflexivity]. }
  unfold call_flashRead.
  set (f1 := set_dev (dev f) (EvRead (u32 (i * PAGE_SIZE)) sizeof_TransTableHeader) f).
  set (header := match flashRead hal (dev f) (u32 (i * PAGE_SIZE)) sizeof_TransTableHeader with
                 | Some h => h | None => indeterminateHeader end).
  assert (header = header_at hal indeterminateHeader (dev f) i) as Eh by reflexivity.
  assert (i16 (i + 1) = i + 1) as Ei by (apply i16_small; lia).
  assert (same_but_cache f f1) as Hc1 by (repeat split; reflexivity).
  assert (pageBuffer f1 = pageBuffer f) as Hb1 by reflexivity.
  assert (forall cs1 cp1, scanned (dev f) (i + 1) cs1 cp1 ->
            exists cs' cp' f',
              loadFTL_scan hal indeterminateHeader fuel f1 (i16 (i + 1)) cs1 cp1
              = Some (cs', cp', f') /\
              scanned (dev f) (physicalPageCount f) cs' cp' /\
              same_but_cache f f' /\ pageBuffer f' = pageBuffer f) as Hnext.
  { intros cs1 cp1 Hsc1. rewrite Ei.
    destruct (IH f1 (i + 1) cs1 cp1) as (cs' & cp' & f' & E & Hs & Hc & Hb).
    - change (physicalPageCount f1) with (physicalPageCount f). lia.
    - exact HP.
    - change (physicalPageCount f1) with (physicalPageCount f). lia.
    - exact Hsc1.
    - exists cs', cp', f'. split; [exact E|]. split; [exact Hs|].
      split; [exact (same_but_cache_trans _ _ _ Hc1 Hc) | rewrite Hb; exact Hb1]. }
  destruct (header_is_mtt header && (get32 header off_serial >? cs)) eqn:Ec.
  - apply andb_prop in Ec as [Ev Egt]. apply Z.gtb_lt in Egt.
    apply Hnext. right. rewrite Eh in *.
    assert (0 <= cs) as Hcs.
    { destruct Hsc as [(_ & -> & _)|(_ & (_ & Hpos) & <- & _)]; [lia|].
      unfold serial_at. lia. }
    split; [lia|]. split; [split; [exact Ev | lia]|]. split; [reflexivity|].
    split.
    + intros q Hq Hcand. destruct (Z.eq_dec q i) as [->|Hne]; [unfold serial_at; lia|].
      destruct Hsc as [(_ & _ & Hno)|(_ & _ & _ & Hle & _)].
      * exfalso. apply (Hno q); auto. lia.
      * specialize (Hle q ltac:(lia) Hcand). lia.
    + intros q Hq Hcand.
      destruct Hsc as [(_ & _ & Hno)|(_ & _ & _ & Hle & _)].
      * exfalso. apply (Hno q); auto.
      * specialize (Hle q ltac:(lia) Hcand). lia.
  - apply Hnext. rewrite Eh in *.
    assert (candidate (dev f) i -> serial (dev f) i <= cs) as Hi'.
    { intros [Hv Hpos]. rewrite Hv in Ec. simpl in Ec.
      rewrite Z.gtb_ltb in Ec. apply Z.ltb_ge in Ec. exact Ec. }
    destruct Hsc as [(-> & -> & Hno)|(Hr & Hcand & Hser & Hle & Hfirst)].
    + left. split; auto. split; auto. intros q Hq Hc.
      destruct (Z.eq_dec q i) as [->|Hne]; [|apply (Hno q); auto; lia].
      specialize (Hi' Hc). destruct Hc as [_ Hpos]. unfold serial_at in Hi'. lia.
    + right. split; [lia|]. split; auto. split; auto. split; auto.
      intros q Hq Hc. destruct (Z.eq_dec q i) as [->|Hne]; auto. apply Hle; auto. lia.
Qed.


Lemma same_location_refl f : same_location f f.
Proof. repeat split. Qed.

Lemma same_location_trans f1 f2 f3 :
  same_location f1 f2 -> same_location f2 f3 -> same_location f1 f3.
Proof. unfold same_location. intros (A & B & C) (A' & B' & C'). repeat split; congruence. Qed.

Lemma same_location_cache f f' : same_but_cache f f' -> same_location f f'.
Proof. intros (A & B & _ & _ & C & _). repeat split; auto. Qed.

Lemma same_location_mark_used f p : same_location f (mark_used f p).
Proof. unfold mark_used. destruct (p >=? 0); repeat split. Qed.

Lemma loadFTL_stt_records_location n : forall j stt f,
  same_location f (loadFTL_stt_records n j stt f).
Proof.
  induction n as [|n IH]; intros j stt f; simpl; [apply same_location_refl|].
  eapply same_location_trans; [apply same_location_mark_used | apply IH].
Qed.

Lemma loadFTL_mtt_records_location n : forall i mtt f f',
  loadFTL_mtt_records hal n i mtt f = Returned f' -> same_location f f'.
Proof.
  induction n as [|n IH]; intros i mtt f f' H; cbn [loadFTL_mtt_records] in H.
  - injection H as <-. apply same_location_refl.
  - set (f1 := mark_used f _) in *.
    assert (same_location f f1) as H1 by apply same_location_mark_used.
    destruct (i <? ttPageCount f1).
    + destruct (loadPhysicalPageInBuffer hal f1 i _) as [[stt|] f2] eqn:E; [|discriminate].
      apply load_same_but_cache in E. apply same_location_cache in E.
      apply IH in H.
      eapply same_location_trans; [exact H1|].
      eapply same_location_trans; [exact E|].
      eapply same_location_trans; [apply loadFTL_stt_records_location | exact H].
    + apply IH in H. eapply same_location_trans; eauto.
Qed.

Lemma same_location_resolve f count : same_location f (resolveUnknownState hal f count).
Proof.
  destruct (resolveUnknownState_frame hal f count) as (A & B & _ & _ & C & _).
  repeat split; auto.
Qed.

Lemma initPageBuffer_loop_returns fuel : forall i f,
  0 <= i <= pageBufferSize f -> pageBufferSize f <= 127 ->
  (Z.to_nat (pageBufferSize f - i) < fuel)%nat ->
  exists f', initPageBuffer_loop fuel i f = Returned f' /\ same_but_cache f f' /\
             trace f' = trace f.
Proof.
  induction fuel as [|fuel IH]; intros i f Hi Hs Hf; [lia|].
  simpl. destruct (Z.ltb_spec i (pageBufferSize f)).
  - destruct (Z.ltb_spec i 0); [lia|].
    assert (i8 (i + 1) = i + 1) as ->.
    { unfold i8. rewrite Z.mod_small by lia. destruct (Z.ltb_spec (i + 1) 128); lia. }
    match goal with
    | |- context [initPageBuffer_loop fuel (i + 1) ?g] =>
        destruct (IH (i + 1) g) as (f' & E & Hc & Ht);
          [simpl; lia | exact Hs | simpl; lia |]
    end.
    exists f'. split; [exact E|]. split; [|exact Ht].
    eapply same_but_cache_trans; [apply same_but_cache_upd_slot | exact Hc].
  - exists f. split; auto. split; [apply same_but_cache_refl | reflexivity].
Qed.

(** Walking the records of the master TT ends: it returns, or it stops at
    a page that could not be brought into the cache. *)
Lemma loadFTL_mtt_records_ends n : forall i mtt f,
  loadFTL_mtt_records hal n i mtt f <> NoReturn.
Proof.
  induction n as [|n IH]; intros i mtt f; cbn [loadFTL_mtt_records]; [discriminate|].
  set (f1 := mark_used f _).
  destruct (i <? ttPageCount f1); [|apply IH].
  destruct (loadPhysicalPageInBuffer hal f1 i _) as [[stt|] f2]; [apply IH | discriminate].
Qed.

(** C6 (amended). [loadFTL] scans the P physical pages (P at most 32767:
    devices of up to 64 MiB) and, among the pages whose header has magic
    0xEF87364A, logical page 0, a CRC-16 that matches (padding forced to
    0xFFFF) and a serial above zero, takes the first one that carries the
    greatest serial as [mttPhysicalPageNo] and sets the write frontier to
    the page after it, wrapping.  [loadFTL] returns false exactly when
    there is no such page; when there is one it returns true, unless it
    stops at a translation-table page that could not be brought into the
    cache.  [ftlInit] formats through [createFTL] when [loadFTL] returns
    false. *)
Theorem loadFTL_mount_authority fuel f :
  0 <= physicalPageCount f <= 32767 ->
  (Z.to_nat (physicalPageCount f) < fuel)%nat ->
  (forall f', loadFTL hal indeterminateHeader fuel f = Returned (true, f') ->
     exists p, authoritative_mtt hal indeterminateHeader (dev f) (physicalPageCount f) p /\
               mttPhysicalPageNo f' = p /\
               writeFrontier f' = if p + 1 >=? physicalPageCount f then 0 else p + 1) /\
  ((exists f1, loadFTL hal indeterminateHeader fuel f = Returned (false, f1)) <->
   (forall i, 0 <= i < physicalPageCount f -> ~ candidate (dev f) i)) /\
  ((exists i, 0 <= i < physicalPageCount f /\ candidate (dev f) i) ->
   (exists f', loadFTL hal indeterminateHeader fuel f = Returned (true, f')) \/
   loadFTL hal indeterminateHeader fuel f = Fault) /\
  forall d flashSizeInMB, In flashSizeInMB [4; 8; 16; 32; 64] ->
    exists f0, physicalPageCount f0 = flashSizeInMB * 256 /\ dev f0 = d /\
      ftlInit hal indeterminatePage indeterminateHeader fuel d flashSizeInMB
      = match loadFTL hal indeterminateHeader fuel f0 with
        | Returned (true, f2) => Returned (Some f2)
        | Returned (false, f2) => Returned (Some (createFTL hal f2))
        | Fault => Fault
        | NoReturn => NoReturn
        end.
Proof.
  intros HP Hfuel.
  destruct (loadFTL_scan_spec fuel f 0 0 (-1)) as (cs & cp & f1 & Escan & Hsc & Hc1 & _);
    [lia | lia | rewrite Z.sub_0_r; exact Hfuel | left; repeat split; intros; lia |].
  assert (physicalPageCount f1 = physicalPageCount f) as EP1 by (apply Hc1).
  split; [|split; [|split]].
  - intros f' H. unfold loadFTL in H. rewrite Escan in H.
    destruct Hsc as [(-> & _ & _)|(Hr & Hcand & Hser & Hle & Hfirst)];
      [simpl in H; discriminate|].
    destruct (Z.geb_spec cp 0); [|lia].
    match type of H with
    | match loadPhysicalPageInBuffer hal ?g _ _ with _ => _ end = _ => set (f4 := g) in *
    end.
    destruct (loadPhysicalPageInBuffer hal f4 0 cp) as [[mtt|] f5] eqn:E5; [|discriminate].
    destruct (loadFTL_mtt_records hal _ 1 mtt f5) as [f6| |] eqn:E6; try discriminate.
    injection H as <-.
    apply load_same_but_cache in E5. apply same_location_cache in E5.
    apply loadFTL_mtt_records_location in E6.
    pose proof (same_location_resolve f6 (pageBufferSize f6)) as E7.
    destruct (same_location_trans _ _ _ E5 (same_location_trans _ _ _ E6 E7))
      as (Em & Ew & _).
    exists cp. split.
    + split; [lia|]. split; [exact Hcand|]. rewrite Hser. split; auto.
    + rewrite Em, Ew. unfold f4; simpl. rewrite EP1.
      rewrite !u16_small by lia. auto.
  - unfold loadFTL. rewrite Escan. split.
    + intros [f2 H].
      destruct Hsc as [(-> & _ & Hno)|(Hr & _)]; [exact Hno|].
      destruct (Z.geb_spec cp 0); [|lia].
      destruct (loadPhysicalPageInBuffer hal _ 0 cp) as [[mtt|] f5]; [|discriminate].
      destruct (loadFTL_mtt_records hal _ 1 mtt f5); discriminate.
    + intros Hno.
      destruct Hsc as [(-> & _ & _)|(Hr & Hcand & _)]; [simpl; eauto|].
      exfalso. apply (Hno cp); solve [lia | auto].
  - intros (i & Hi & Hcand). unfold loadFTL. rewrite Escan.
    destruct Hsc as [(-> & _ & Hno)|(Hr & _)]; [exfalso; exact (Hno i Hi Hcand)|].
    destruct (Z.geb_spec cp 0); [|lia].
    destruct (loadPhysicalPageInBuffer hal _ 0 cp) as [[mtt|] f5]; [|right; reflexivity].
    destruct (loadFTL_mtt_records hal _ 1 mtt f5) as [f6| |] eqn:E6.
    + left. eexists. reflexivity.
    + right. reflexivity.
    + exfalso. exact (loadFTL_mtt_records_ends _ _ _ _ E6).
  - intros d size Hin. unfold ftlInit.
    assert (u8 size = size) as ->
        by (simpl in Hin; unfold u8; apply Z.mod_small; intuition lia).
    assert (flash_size_supported size = true) as ->
        by (simpl in Hin; intuition (subst; reflexivity)).
    simpl negb. cbv iota.
    match goal with
    | |- context [initPageBuffer _ ?g] => set (f0 := g)
    end.
    assert (physicalPageCount f0 = size * 256 /\ pageBufferSize f0 <= 127 /\
            0 <= pageBufferSize f0) as (EP0 & Hsz & Hsz').
    { unfold f0. simpl in Hin.
      destruct Hin as [<-|[<-|[<-|[<-|[<-|[]]]]]]; vm_compute; repeat split; discriminate. }
    unfold initPageBuffer.
    match goal with
    | |- context [initPageBuffer_loop 257 0 ?g] =>
        assert (pageBufferSize g = pageBufferSize f0) as Eg by reflexivity;
        destruct (initPageBuffer_loop_returns 257 0 g) as (f1' & E & Hc & Ht);
          [rewrite Eg; lia | rewrite Eg; exact Hsz | rewrite Eg; lia |]
    end.
    rewrite E. exists f1'. split; [|split; [|reflexivity]].
    + destruct Hc as (_ & -> & _). exact EP0.
    + destruct Hc as (_ & _ & _ & _ & _ & _ & _ & _ & -> & _). reflexivity.
Qed.

End Mount.

(** ** Serial numbers *)

Section Serial.

Context {D : Type}.
Variable hal : Hal D.
Implicit Types (f : FrFTL D) (p : Page).

Lemma get8_set8_same p off v :
  0 <= off < Z.of_nat (length p) -> get8 (set8 off v p) off = u8 v.
Proof. intros H. unfold get8, set8. apply zth_zupd_same; auto. Qed.

Lemma get8_set8_other p off off' v :
  off <> off' -> get8 (set8 off v p) off' = get8 p off'.
Proof. intros H. unfold get8, set8. apply zth_zupd_other; auto. Qed.

Lemma set8_length p off v : length (set8 off v p) = length p.
Proof. unfold set8. apply zupd_length. Qed.

Lemma set16_length p off v : length (set16 off v p) = length p.
Proof. unfold set16. rewrite !set8_length. reflexivity. Qed.

Lemma set32_length p off v : length (set32 off v p) = length p.
Proof. unfold set32. rewrite !set16_length. reflexivity. Qed.

Lemma get8_set16_other p off off' v :
  off' <> off -> off' <> off + 1 -> get8 (set16 off v p) off' = get8 p off'.
Proof.
  intros H1 H2. unfold set16. rewrite !get8_set8_other by lia. reflexivity.
Qed.

Lemma get16_set16_same p off v :
  0 <= off -> off + 1 < Z.of_nat (length p) -> get16 (set16 off v p) off = u16 v.
Proof.
  intros H1 H2. unfold get16, set16.
  rewrite get8_set8_other by lia.
  rewrite get8_set8_same by lia.
  rewrite get8_set8_same by (rewrite set8_length; lia).
  unfold u8, u16.
  assert ((v mod 65536 / 256) mod 256 = v mod 65536 / 256) as ->.
  { apply Z.mod_small. pose proof (Z.mod_pos_bound v 65536 ltac:(lia)).
    split; [apply Z.div_pos; lia | apply Z.div_lt_upper_bound; lia]. }
  assert (v mod 256 = (v mod 65536) mod 256) as ->.
  { symmetry. apply Z.mod_mod_divide. exists 256. reflexivity. }
  pose proof (Z.div_mod (v mod 65536) 256 ltac:(lia)). lia.
Qed.

Lemma get16_set16_other p off off' v :
  off' + 1 < off \/ off + 1 < off' -> get16 (set16 off v p) off' = get16 p off'.
Proof.
  intros H. unfold get16. rewrite !get8_set16_other by lia. reflexivity.
Qed.

Lemma get32_set32_same p off v :
  0 <= off -> off + 3 < Z.of_nat (length p) -> get32 (set32 off v p) off = u32 v.
Proof.
  intros H1 H2. unfold get32, set32.
  rewrite get16_set16_other by lia.
  rewrite get16_set16_same by lia.
  replace (off + 2) with (off + 2 + 0) at 1 by lia. rewrite Z.add_0_r.
  rewrite get16_set16_same by (rewrite ?set16_length; lia).
  unfold u16, u32.
  assert ((v mod 4294967296 / 65536) mod 65536 = v mod 4294967296 / 65536) as ->.
  { apply Z.mod_small. pose proof (Z.mod_pos_bound v 4294967296 ltac:(lia)).
    split; [apply Z.div_pos; lia | apply Z.div_lt_upper_bound; lia]. }
  assert (v mod 65536 = (v mod 4294967296) mod 65536) as ->.
  { symmetry. apply Z.mod_mod_divide. exists 65536. reflexivity. }
  pose proof (Z.div_mod (v mod 4294967296) 65536 ltac:(lia)). lia.
Qed.

Lemma get32_set16_other p off off' v :
  off' + 3 < off \/ off + 1 < off' -> get32 (set16 off v p) off' = get32 p off'.
Proof.
  intros H. unfold get32. rewrite !get16_set16_other by lia. reflexivity.
Qed.

Lemma zth_cons {A} (d h : A) (t : list A) (i : Z) :
  0 < i -> zth d (h :: t) i = zth d t (i - 1).
Proof.
  intros H. unfold zth.
  destruct (Z.ltb_spec i 0), (Z.ltb_spec (i - 1) 0); try lia.
  replace (Z.to_nat i) with (S (Z.to_nat (i - 1))) by lia. reflexivity.
Qed.

(** Copying over the start of a page bytes that are already there changes
    nothing at that place. *)
Lemma get8_blit_same src : forall dst i,
  (0 <= i < Z.of_nat (length src) -> get8 src i = get8 dst i) ->
  get8 (blit 0 src dst) i = get8 dst i.
Proof.
  unfold get8.
  induction src as [|s src IH]; intros dst i H.
  - destruct dst; reflexivity.
  - destruct dst as [|h t]; [reflexivity|]. simpl blit.
    destruct (Z.ltb_spec i 0) as [Hn|Hn]; [unfold zth; destruct (Z.ltb_spec i 0); auto; lia|].
    destruct (Z.eq_dec i 0) as [->|Hne].
    + specialize (H ltac:(simpl length; lia)). unfold zth in *. simpl in *. exact H.
    + rewrite !zth_cons by lia. apply IH. intros Hi.
      specialize (H ltac:(simpl length; lia)).
      rewrite !zth_cons in H by lia. exact H.
Qed.

Lemma get8_firstn p n i : 0 <= i < Z.of_nat n -> get8 (firstn n p) i = get8 p i.
Proof.
  intros H. unfold get8, zth. destruct (Z.ltb_spec i 0); [lia|].
  assert (Z.to_nat i < n)%nat as Hk by lia.
  clear H. revert Hk. generalize (Z.to_nat i) as k. intros k. revert n k.
  induction p as [|h t IH]; intros n k Hk.
  - rewrite firstn_nil. reflexivity.
  - destruct n; [lia|]. destruct k; simpl; auto. apply IH. lia.
Qed.

Lemma get8_header_write p i :
  8 <= i < 12 ->
  get8 (let '(crc, header) := calcCRC (firstn (Z.to_nat sizeof_TransTableHeader) p) in
        set16 off_crc16 crc (blit 0 header p)) i = get8 p i.
Proof.
  intros H. unfold calcCRC, off_crc16, off_padding.
  rewrite get8_set16_other by lia.
  apply get8_blit_same. intros Hi.
  rewrite get8_set16_other by lia.
  apply get8_firstn. change (Z.to_nat sizeof_TransTableHeader) with 16%nat. lia.
Qed.

Lemma page_serial_header_write p :
  page_serial (let '(crc, header) := calcCRC (firstn (Z.to_nat sizeof_TransTableHeader) p) in
               set16 off_crc16 crc (blit 0 header p)) = page_serial p.
Proof.
  unfold page_serial, get32, get16, off_serial.
  rewrite !get8_header_write by lia. reflexivity.
Qed.

(** [serial++] followed by the new checksum. *)
Lemma page_serial_bump p :
  (12 <= length p)%nat -> page_serial (bump_serial p) = u32 (page_serial p + 1).
Proof.
  intros H. unfold bump_serial.
  rewrite page_serial_header_write.
  unfold page_serial at 1. rewrite get32_set32_same by (unfold off_serial; lia).
  unfold u32. rewrite Z.mod_mod by lia. reflexivity.
Qed.

Lemma page_serial_set_pageInfo_physical p v :
  page_serial (set_pageInfo_physical 0 v p) = page_serial p.
Proof.
  unfold page_serial, set_pageInfo_physical.
  apply get32_set16_other. left. reflexivity.
Qed.

Lemma set_pageInfo_physical_length p r v :
  length (set_pageInfo_physical r v p) = length p.
Proof. unfold set_pageInfo_physical. apply set16_length. Qed.

(** The page a slot holds after a successful [programPageInBuffer], and the
    flash program that carried it. *)
Lemma program_page_after f i f' :
  programPageInBuffer hal f i = (true, f') ->
  pb_pMode (slot f i) <> NONE ->
  let b := slot f i in
  let b' := slot f' i in
  pb_page b' =
    match pb_pMode b with
    | RELOCATE_ERASE_PROGRAM =>
        if pb_logicalPageNo b <? ttPageCount f
        then bump_serial (if pb_logicalPageNo b =? 0
                          then set_pageInfo_physical 0 (pb_physicalPageNo b') (pb_page b)
                          else pb_page b)
        else pb_page b
    | _ => pb_page b
    end /\
  exists d, flashProgram hal d (u32 (pb_physicalPageNo b' * PAGE_SIZE)) (pb_page b')
            = (true, dev f').
Proof.
  intros H Hm b b'. subst b'.
  assert (0 <= i < nslots f) as Hi by (apply slot_in_range_of_mode; exact Hm).
  unfold programPageInBuffer in H. fold b in H. fold b in Hm.
  destruct (pb_pMode b) eqn:Em; [congruence| | |].
  - unfold call_flashProgram in H.
    destruct (flashProgram hal (dev f) _ _) as [okp d] eqn:Ep.
    destruct okp; [|discriminate]. injection H as <-.
    split; [reflexivity|]. exists (dev f). exact Ep.
  - destruct (negb (state_eqb (getPhysicalPageState f (pb_physicalPageNo b)) ERASED)).
    + unfold call_flashErase in H.
      destruct (flashErase hal (dev f) _) as [oke d1].
      destruct oke; simpl negb in H; cbv iota in H; [|discriminate].
      unfold call_flashProgram in H. simpl dev in H.
      destruct (flashProgram hal d1 _ _) as [okp d] eqn:Ep.
      destruct okp; [|discriminate]. injection H as <-.
      split; [reflexivity|]. exists d1. exact Ep.
    + simpl negb in H; cbv iota in H.
      unfold call_flashProgram in H.
      destruct (flashProgram hal (dev f) _ _) as [okp d] eqn:Ep.
      destruct okp; [|discriminate]. injection H as <-.
      split; [reflexivity|]. exists (dev f). exact Ep.
  - destruct (allocatePhysicalPage f) as [new f1] eqn:Ea.
    apply allocate_effect in Ea as ([w ->] & Hnew & _).
    destruct (Z.ltb_spec new 0) as [Hneg|Hpos]; [discriminate|].
    change (ttPageCount (set_writeFrontier w f)) with (ttPageCount f) in H.
    set (f1 := set_writeFrontier w f) in *.
    set (G := fun b0 : PageBuffer =>
                pb_with_page (bump_serial
                  (if pb_logicalPageNo b0 =? 0
                   then set_pageInfo_physical 0 new (pb_page b0) else pb_page b0)) b0) in *.
    set (f2 := if pb_logicalPageNo b <? ttPageCount f then upd_slot i G f1 else f1) in *.
    assert (pb_page (slot f2 i) =
            if pb_logicalPageNo b <? ttPageCount f
            then bump_serial (if pb_logicalPageNo b =? 0
                              then set_pageInfo_physical 0 new (pb_page b) else pb_page b)
            else pb_page b) as Hpg.
    { unfold f2. destruct (pb_logicalPageNo b <? ttPageCount f); [|reflexivity].
      rewrite slot_upd_slot_same by exact Hi. reflexivity. }
    assert (nslots f2 = nslots f) as Hn2.
    { unfold f2. destruct (pb_logicalPageNo b <? ttPageCount f); [|reflexivity].
      apply (nslots_upd_slot f1). }
    clearbody f2. clear G.
    assert ((exists d3 ev, flashProgram hal d3 (u32 (new * PAGE_SIZE)) (pb_page (slot f2 i))
              = (true, dev f') /\
              f' = (if pb_logicalPageNo b =? 0
                    then set_mttPhysicalPageNo (u16 new) else fun g => g)
                   (setPhysicalPageState
                      (upd_slot i (pb_with_physical new)
                         (setPhysicalPageState
                            (set_dev (dev f') (EvProgram (pb_logicalPageNo b) (u32 (new * PAGE_SIZE)))
                               (set_dev d3 ev f2))
                            (pb_physicalPageNo b) ERASE_REQUIRED))
                      new USED)) \/
            exists d3, flashProgram hal d3 (u32 (new * PAGE_SIZE)) (pb_page (slot f2 i))
              = (true, dev f') /\
              f' = (if pb_logicalPageNo b =? 0
                    then set_mttPhysicalPageNo (u16 new) else fun g => g)
                   (setPhysicalPageState
                      (upd_slot i (pb_with_physical new)
                         (setPhysicalPageState
                            (set_dev (dev f') (EvProgram (pb_logicalPageNo b) (u32 (new * PAGE_SIZE))) f2)
                            (pb_physicalPageNo b) ERASE_REQUIRED))
                      new USED)) as Hf'.
    { destruct (negb (state_eqb (getPhysicalPageState f2 (pb_physicalPageNo b)) ERASED)).
      - unfold call_flashErase in H.
        destruct (flashErase hal (dev f2) _) as [oke d3].
        destruct oke; simpl negb in H; cbv iota in H; [|discriminate].
        unfold call_flashProgram in H. simpl dev in H.
        change (slot (set_dev d3 (EvErase (u32 (new * PAGE_SIZE))) f2) i) with (slot f2 i) in H.
        destruct (flashProgram hal d3 _ _) as [okp d] eqn:Ep.
        destruct okp; [|discriminate]. injection H as <-.
        left. exists d3, (EvErase (u32 (new * PAGE_SIZE))).
        destruct (pb_logicalPageNo b =? 0); split; first [exact Ep | reflexivity].
      - simpl negb in H; cbv iota in H.
        unfold call_flashProgram in H.
        destruct (flashProgram hal (dev f2) _ _) as [okp d] eqn:Ep.
        destruct okp; [|discriminate]. injection H as <-.
        right. exists (dev f2).
        destruct (pb_logicalPageNo b =? 0); split; first [exact Ep | reflexivity]. }
    assert (slot f' i = pb_with_physical new (slot f2 i)) as Hs.
    { destruct Hf' as [(d3 & ev & _ & ->)|(d3 & _ & ->)];
        destruct (pb_logicalPageNo b =? 0);
        match goal with
        | |- slot ?g i = _ =>
            change (slot g i) with
              (slot (upd_slot i (pb_with_physical new) f2) i)
        end; apply slot_upd_slot_same; lia. }
    rewrite Hs. simpl pb_page. simpl pb_physicalPageNo.
    split; [exact Hpg|].
    destruct Hf' as [(d3 & ev & Hp & _)|(d3 & Hp & _)]; exists d3; exact Hp.
Qed.

(** The serial of a page changes only where [programPageInBuffer]
    relocates a translation-table page. *)
Lemma program_serial f i f' :
  programPageInBuffer hal f i = (true, f') ->
  pb_pMode (slot f i) <> NONE ->
  (12 <= length (pb_page (slot f i)))%nat ->
  (exists d, flashProgram hal d (u32 (pb_physicalPageNo (slot f' i) * PAGE_SIZE))
               (pb_page (slot f' i)) = (true, dev f')) /\
  page_serial (pb_page (slot f' i)) =
    match pb_pMode (slot f i) with
    | RELOCATE_ERASE_PROGRAM =>
        if pb_logicalPageNo (slot f i) <? ttPageCount f
        then u32 (page_serial (pb_page (slot f i)) + 1)
        else page_serial (pb_page (slot f i))
    | _ => page_serial (pb_page (slot f i))
    end /\
  (0 <= page_serial (pb_page (slot f i)) < 4294967295 ->
   page_serial (pb_page (slot f i)) <= page_serial (pb_page (slot f' i))).
Proof.
  intros H Hm Hlen.
  destruct (program_page_after f i f' H Hm) as [Hpg Hprog].
  cbv zeta in Hpg, Hprog.
  assert (page_serial (pb_page (slot f' i)) =
          match pb_pMode (slot f i) with
          | RELOCATE_ERASE_PROGRAM =>
              if pb_logicalPageNo (slot f i) <? ttPageCount f
              then u32 (page_serial (pb_page (slot f i)) + 1)
              else page_serial (pb_page (slot f i))
          | _ => page_serial (pb_page (slot f i))
          end) as Hser.
  { rewrite Hpg. destruct (pb_pMode (slot f i)); try reflexivity.
    destruct (pb_logicalPageNo (slot f i) <? ttPageCount f); [|reflexivity].
    destruct (pb_logicalPageNo (slot f i) =? 0).
    - rewrite page_serial_bump by (rewrite set_pageInfo_physical_length; exact Hlen).
      rewrite page_serial_set_pageInfo_physical. reflexivity.
    - apply page_serial_bump. exact Hlen. }
  split; [exact Hprog|]. split; [exact Hser|].
  intros Hr. rewrite Hser.
  destruct (pb_pMode (slot f i)); try lia.
  destruct (pb_logicalPageNo (slot f i) <? ttPageCount f); [|lia].
  unfold u32. rewrite Z.mod_small by lia. lia.
Qed.

End Serial.

(** ** The serial of the master TT across a sync *)

Section SerialSync.

Context {D : Type}.
Variable hal : Hal D.
Variable indeterminatePageInfo : PageInfo.
Implicit Types (f : FrFTL D) (p : Page).

(** Where the master TT is after its buffer was programmed: on a free page
    if the mode was RELOCATE_ERASE_PROGRAM, where it was otherwise. *)
Lemma program_mtt_place f i f' :
  programPageInBuffer hal f i = (true, f') ->
  pb_logicalPageNo (slot f i) = 0 ->
  getPhysicalPageState f (mttPhysicalPageNo f) = USED ->
  match pb_pMode (slot f i) with
  | RELOCATE_ERASE_PROGRAM => mttPhysicalPageNo f' <> mttPhysicalPageNo f
  | _ => mttPhysicalPageNo f' = mttPhysicalPageNo f
  end.
Proof.
  intros H Hlog Hused.
  destruct (pb_pMode (slot f i)) eqn:Em.
  1-3: apply program_effect in H; cbv zeta in H;
       destruct H as (_ & _ & _ & _ & _ & [(E & _) | (_ & Er & _)]); [exact E | congruence].
  unfold programPageInBuffer in H. rewrite Em in H.
  destruct (allocatePhysicalPage f) as [new f1] eqn:Ea.
  apply allocate_effect in Ea as ([w ->] & Hnew & Hfree).
  destruct (Z.ltb_spec new 0) as [Hneg|Hpos]; [discriminate|].
  rewrite Hlog in H.
  assert (mttPhysicalPageNo f' = u16 new) as ->.
  { destruct (negb (state_eqb _ ERASED)).
    - destruct (call_flashErase hal _ _) as [oke f3].
      destruct oke; simpl negb in H; cbv iota in H; [|discriminate].
      destruct (call_flashProgram hal _ _ _ _) as [okp f4].
      destruct okp; [|discriminate]. injection H as <-. reflexivity.
    - simpl negb in H; cbv iota in H.
      destruct (call_flashProgram hal _ _ _ _) as [okp f4].
      destruct okp; [|discriminate]. injection H as <-. reflexivity. }
  rewrite u16_small by lia. intros E. apply (Hfree Hpos). rewrite E. exact Hused.
Qed.

(** Third phase: the serial of the master TT goes up by one exactly when
    its buffer is relocated. *)
Lemma sync_mtt_serial m f f' :
  sync_mtt hal m f = (true, f') ->
  mtt_coherent f ->
  pb_physicalPageNo (slot f m) = mttPhysicalPageNo f ->
  pb_logicalPageNo (slot f m) = 0 ->
  (12 <= length (pb_page (slot f m)))%nat ->
  (pb_lock (slot f m) = true -> pb_pMode (slot f m) <> NONE ->
   pb_physicalPageNo (slot f' m) = mttPhysicalPageNo f' /\
   exists d, flashProgram hal d (u32 (mttPhysicalPageNo f' * PAGE_SIZE))
               (pb_page (slot f' m)) = (true, dev f')) /\
  if pb_lock (slot f m) && mode_eqb (pb_pMode (slot f m)) RELOCATE_ERASE_PROGRAM
  then page_serial (pb_page (slot f' m)) = u32 (page_serial (pb_page (slot f m)) + 1) /\
       mttPhysicalPageNo f' <> mttPhysicalPageNo f
  else page_serial (pb_page (slot f' m)) = page_serial (pb_page (slot f m)) /\
       mttPhysicalPageNo f' = mttPhysicalPageNo f.
Proof.
  intros H HK Hp Hl Hlen.
  pose proof (mtt_coherent_range _ HK) as Hm.
  assert (0 <= m < nslots f) as Hmr.
  { destruct (Z.leb_spec 0 m), (Z.ltb_spec m (nslots f)); try lia;
      rewrite slot_outside in Hp by lia; simpl in Hp; lia. }
  assert (1 <= ttPageCount f) as HT by apply HK.
  unfold sync_mtt in H. destruct (pb_lock (slot f m)) eqn:Elock.
  2:{ injection H as <-. split; [discriminate|]. simpl. auto. }
  destruct (programPageInBuffer hal f m) as [ok1 f1] eqn:E1.
  destruct ok1; [|discriminate]. injection H as <-.
  pose proof (program_mtt_place _ _ _ E1 Hl ltac:(apply HK)) as Hplace.
  assert (nslots f1 = nslots f) as En1.
  { apply program_effect in E1. cbv zeta in E1. apply E1. }
  assert (slot (unlock_slot m f1) m
          = pb_with_pMode NONE (pb_with_lock false (slot f1 m))) as Es
      by (unfold unlock_slot; rewrite slot_upd_slot_same by lia; reflexivity).
  change (mttPhysicalPageNo (unlock_slot m f1)) with (mttPhysicalPageNo f1).
  change (dev (unlock_slot m f1)) with (dev f1).
  rewrite Es. simpl pb_page. simpl pb_physicalPageNo.
  destruct (mode_eqb (pb_pMode (slot f m)) NONE) eqn:Enone.
  - apply mode_eqb_eq in Enone. split; [congruence|].
    rewrite Enone in *. simpl.
    unfold programPageInBuffer in E1. rewrite Enone in E1. injection E1 as <-. auto.
  - assert (pb_pMode (slot f m) <> NONE) as Hmode
        by (intros E; rewrite E in Enone; discriminate).
    destruct (program_serial hal f m f1 E1 Hmode Hlen) as (Hprog & Hser & _).
    assert (pb_physicalPageNo (slot f1 m) = mttPhysicalPageNo f1) as Hp1.
    { apply program_effect in E1. cbv zeta in E1.
      destruct E1 as (_ & _ & _ & _ & _ &
        [(Em & -> & _) | (_ & _ & new & _ & _ & -> & _ & _ & Em)]).
      - congruence.
      - rewrite Em, Hl. reflexivity. }
    split.
    + intros _ _. split; [exact Hp1|]. rewrite <- Hp1. exact Hprog.
    + rewrite Hser. simpl andb.
      destruct (pb_pMode (slot f m)) eqn:Emode; simpl;
        try (split; [reflexivity | exact Hplace]).
      destruct (Z.ltb_spec (pb_logicalPageNo (slot f m)) (ttPageCount f)); [|lia].
      split; [reflexivity | exact Hplace].
Qed.



End SerialSync.

(** ** The checks are sound *)

Section Checks.

Context {D : Type}.
Implicit Types (f : FrFTL D) (b : PageBuffer).

Lemma Forall_of_forallb {A} (P : A -> Prop) (p : A -> bool) (l : list A) :
  (forall x, p x = true -> P x) -> forallb p l = true -> Forall P l.
Proof.
  intros Hp H. apply Forall_forall. intros x Hx.
  apply Hp. rewrite forallb_forall in H. apply H. exact Hx.
Qed.

Lemma mtt_slot_okb_sound mtt b : mtt_slot_okb mtt b = true -> mtt_slot_ok mtt b.
Proof.
  unfold mtt_slot_okb, mtt_slot_ok. intros H.
  apply andb_prop in H as [H H3]. apply andb_prop in H as [H1 H2].
  apply Z.leb_le in H1. apply Z.ltb_lt in H2.
  split; [lia|]. intros E.
  apply orb_prop in H3 as [H3|H3].
  - apply negb_true_iff, Z.eqb_neq in H3. contradiction.
  - apply Z.eqb_eq. exact H3.
Qed.

Lemma mtt_coherentb_sound f : mtt_coherentb f = true -> mtt_coherent f.
Proof.
  unfold mtt_coherentb, mtt_coherent. intros H.
  apply andb_prop in H as [H H5]. apply andb_prop in H as [H H4].
  apply andb_prop in H as [H H3]. apply andb_prop in H as [H1 H2].
  apply Z.leb_le in H1. apply Z.leb_le in H2. apply Z.ltb_lt in H3.
  apply state_eqb_eq in H4.
  split; [exact H1|]. split; [lia|]. split; [exact H4|].
  exact (Forall_of_forallb _ _ _ (mtt_slot_okb_sound _) H5).
Qed.

Lemma filter_nil_nth {A} (p : A -> bool) (d : A) (l : list A) :
  p d = false -> filter p l = [] -> forall i, p (nth i l d) = false.
Proof.
  intros Hd. induction l as [|a t IH]; intros H i.
  - destruct i; exact Hd.
  - simpl in H. destruct (p a) eqn:Ea; [discriminate|].
    destruct i; simpl; auto.
Qed.

(** Where at most one element passes a test that the default fails, two
    positions that pass are the same. *)
Lemma filter_unique {A} (p : A -> bool) (d : A) (l : list A) :
  p d = false -> (length (filter p l) <= 1)%nat ->
  forall i j, p (nth i l d) = true -> p (nth j l d) = true -> i = j.
Proof.
  intros Hd. induction l as [|a t IH]; intros H i j Hi Hj.
  - destruct i; simpl in Hi; congruence.
  - simpl in H. destruct (p a) eqn:Ea.
    + simpl in H.
      assert (filter p t = []) as Ht by (destruct (filter p t); [reflexivity | simpl in H; lia]).
      destruct i as [|i]; destruct j as [|j]; auto; simpl in Hi, Hj.
      * rewrite (filter_nil_nth p d t Hd Ht j) in Hj. discriminate.
      * rewrite (filter_nil_nth p d t Hd Ht i) in Hi. discriminate.
      * rewrite (filter_nil_nth p d t Hd Ht i) in Hi. discriminate.
    + destruct i as [|i]; destruct j as [|j]; simpl in Hi, Hj; try congruence.
      f_equal. apply IH; auto.
Qed.

Lemma one_mtt_slotb_sound f : one_mtt_slotb f = true -> one_mtt_slot f.
Proof.
  unfold one_mtt_slotb, one_mtt_slot. intros H j j' Hj Hj'.
  apply andb_prop in H as [H0 H]. apply Z.leb_le in H0. apply Nat.leb_le in H.
  unfold slot, zth in Hj, Hj'.
  destruct (Z.ltb_spec j 0); [simpl in Hj; lia|].
  destruct (Z.ltb_spec j' 0); [simpl in Hj'; lia|].
  apply Z.eqb_eq in Hj, Hj'.
  assert (Z.to_nat j = Z.to_nat j') as E.
  { apply (filter_unique (fun b => pb_physicalPageNo b =? mttPhysicalPageNo f)
             no_buffer (pageBuffer f)); auto.
    apply Z.eqb_neq. simpl. lia. }
  lia.
Qed.

Lemma stt_cachedb_sound f k : stt_cachedb f k = true -> stt_cached f k.
Proof.
  unfold stt_cachedb, stt_cached. intros H.
  destruct ((0 <? k) && (k <? ttPageCount f)) eqn:Hk; [|discriminate].
  apply andb_prop in Hk as [Hk1 Hk2]. apply Z.ltb_lt in Hk1, Hk2.
  split; [lia|].
  destruct (find_slot 0 (pageBuffer f) (mttPhysicalPageNo f)) as [m|] eqn:Ef; [|discriminate].
  apply find_in_cache in Ef as (_ & Hm & _).
  exists m. split; [exact Hm|]. cbv zeta in *.
  set (q := pi_physicalPageNo (get_pageInfo (pb_page (slot f m)) k)) in *.
  destruct (Z.leb_spec 0 q) as [Hq|Hq]; [|discriminate].
  apply andb_prop in H as [H H3]. apply andb_prop in H as [H1 H2].
  split; [exact Hq|]. split; [|split].
  - apply state_eqb_eq. exact H1.
  - apply existsb_exists in H2 as (b & Hb & Eb). apply Z.eqb_eq in Eb.
    destruct (In_zth no_buffer _ _ Hb) as [s [_ <-]]. exists s. exact Eb.
  - intros s Hs.
    assert (0 <= s < nslots f) as Hr.
    { destruct (Z.leb_spec 0 s), (Z.ltb_spec s (nslots f)); try lia;
        rewrite slot_outside in Hs by lia; simpl in Hs; lia. }
    rewrite forallb_forall in H3.
    specialize (H3 (slot f s) ltac:(apply zth_In; unfold nslots in Hr; lia)).
    rewrite Hs, Z.eqb_refl in H3. simpl in H3. apply Z.eqb_eq. exact H3.
Qed.

Lemma slot_readyb_sound f b : slot_readyb f b = true -> slot_ready f b.
Proof.
  unfold slot_readyb, slot_ready. intros H.
  apply andb_prop in H as [H H3]. apply andb_prop in H as [H1 H2].
  apply Z.ltb_lt in H2.
  split; [|split; [exact H2|]].
  - intros El. rewrite El in H1. simpl in H1. apply mode_eqb_eq. exact H1.
  - intros El. rewrite El in H3.
    apply andb_prop in H3 as [H3 H8]. apply andb_prop in H3 as [H3 H7].
    apply andb_prop in H3 as [H3 H6]. apply andb_prop in H3 as [H4 H5].
    apply Z.leb_le in H4, H6. apply Z.ltb_lt in H7.
    split; [exact H4|]. split; [|split; [lia|]].
    + intros E0. rewrite E0 in H5. simpl in H5. apply Z.eqb_eq. exact H5.
    + intros Hge. destruct (Z.ltb_spec (pb_logicalPageNo b) TT_RECORDS_PER_PAGE); [lia|].
      apply stt_cachedb_sound. exact H8.
Qed.

Lemma geometry_okb_sound f : geometry_okb f = true -> geometry_ok f.
Proof.
  unfold geometry_okb, geometry_ok. intros H.
  apply andb_prop in H as [H H4]. apply andb_prop in H as [H H3].
  apply andb_prop in H as [H1 H2].
  apply Z.leb_le in H1, H2, H3. apply Z.ltb_lt in H4. lia.
Qed.

Lemma sync_readyb_sound f : sync_readyb f = true -> sync_ready f.
Proof.
  unfold sync_readyb, sync_ready. intros H.
  apply andb_prop in H as [H H6]. apply andb_prop in H as [H H5].
  apply andb_prop in H as [H H4].
  apply andb_prop in H as [H H3]. apply andb_prop in H as [H1 H2].
  split; [apply mtt_coherentb_sound; exact H1|].
  split; [apply one_mtt_slotb_sound; exact H2|].
  split; [apply Z.eqb_eq; exact H3|].
  split; [apply Z.ltb_lt; exact H4|].
  split; [apply geometry_okb_sound; exact H5|].
  exact (Forall_of_forallb _ _ _ (slot_readyb_sound f) H6).
Qed.

End Checks.
(** ** Examples on the NOR device *)

Lemma fresh4_is_ftlInit : ftlInit_nor nor_erased 4 = Returned (Some fresh4).
Proof. vm_compute. reflexivity. Qed.

Lemma setPhysicalPageState_get_frame_witness :
  getPhysicalPageState (setPhysicalPageState fresh4 5 ERASE_REQUIRED) 5 = ERASE_REQUIRED /\
  getPhysicalPageState (setPhysicalPageState fresh4 5 ERASE_REQUIRED) 4
  = getPhysicalPageState fresh4 4.
Proof.
  destruct (setPhysicalPageState_get_frame fresh4 5 ERASE_REQUIRED) as [H1 H2].
  - vm_compute; split; [discriminate | reflexivity].
  - vm_compute; discriminate.
  - vm_compute; discriminate.
  - split; [exact H1 | apply H2; [vm_compute; split; [discriminate | reflexivity] | lia]].
Defined.

(** C7, as stated, fails: a write beyond the last usable sector of a
    freshly formatted 4 MiB device is rejected, but the resolver has run
    first and page 4 has gone from UNKNOWN to ERASED in the state map. *)
Lemma ftlWriteSector_rejected_moves_state_map :
  usableSectorCount fresh4 = 8064 /\
  exists f', write1 fresh4 8064 0xAA = Returned (false, f') /\
             getPhysicalPageState fresh4 4 = UNKNOWN /\
             getPhysicalPageState f' 4 = ERASED /\
             physicalPageState f' <> physicalPageState fresh4.
Proof.
  split; [reflexivity|].
  eexists. split; [vm_compute; reflexivity|].
  split; [reflexivity|]. split; [reflexivity|].
  vm_compute. discriminate.
Qed.

Lemma invalid_parameters_rejected_witness :
  ftlInit nor_hal [] [] 0 nor_erased 5 = Returned None /\
  same_but_state_map fresh4 (resolveUnknownState nor_hal fresh4 (ttPageCount fresh4)) /\
  ftlReadSector nor_hal blank_PageInfo fresh4 8064 = (None, fresh4).
Proof.
  destruct (invalid_parameters_rejected nor_hal blank_PageInfo [] []) as (H1 & H2 & H3).
  split; [|split].
  - apply H1; [lia|]. simpl. intuition discriminate.
  - apply (H2 fresh4 8064 1 []); try lia; reflexivity.
  - apply H3; [split; [lia | reflexivity] | vm_compute; discriminate].
Defined.

(** C3 fails on the code.  On the 8 MiB device [stale8], after sector 0 was
    written twice and four more pages once, slot 6 holds logical page 2 in
    mode RELOCATE_ERASE_PROGRAM; its old physical page 2 is ERASED in the
    state map, the page the allocator hands out is page 7, which is
    ERASE_REQUIRED and holds zeros.  [programPageInBuffer] looks at the
    state of the old page, issues no erase and programs page 7 as it is. *)
Theorem relocate_programs_page_that_is_not_erased :
  match ftlInit_nor stale8 8 with
  | Returned (Some f0) =>
      match write_all f0 writes_until_relocation with
      | Some f =>
          let '(ok, f') := programPageInBuffer nor_hal f 6 in
          pb_pMode (slot f 6) = RELOCATE_ERASE_PROGRAM /\
          pb_logicalPageNo (slot f 6) = 2 /\
          pb_physicalPageNo (slot f 6) = 2 /\
          getPhysicalPageState f 2 = ERASED /\
          writeFrontier f = 7 /\
          getPhysicalPageState f 7 = ERASE_REQUIRED /\
          nor_is_erased (dev f) (7 * PAGE_SIZE) = false /\
          ok = true /\
          new_events f f' = [EvProgram 2 (7 * PAGE_SIZE)] /\
          pb_physicalPageNo (slot f' 6) = 7 /\
          getPhysicalPageState f' 7 = USED /\
          getPhysicalPageState f' 2 = ERASE_REQUIRED
      | None => False
      end
  | _ => False
  end.
Proof. vm_compute. repeat split. Qed.

(** C1 fails on the code, through the same defect.  On [stale8] every one
    of the writes of [writes_until_eviction] returns [true]; sector 0 was
    last written with 0x55 bytes; the read that follows returns [true] and
    512 zero bytes. *)
Theorem read_after_relocation_returns_stale_flash :
  match ftlInit_nor stale8 8 with
  | Returned (Some f0) =>
      match write_all f0 writes_until_eviction with
      | Some f =>
          fst (ftlReadSector nor_hal blank_PageInfo f 0)
          = Some (repeat 0 (Z.to_nat SECTOR_SIZE))
      | None => False
      end
  | _ => False
  end.
Proof. vm_compute. reflexivity. Qed.


(** C2, as stated, fails: on [shadowed8], after [ops_until_mtt_shadowed],
    slot 4 holds logical page 3 (a data page: T is 2) read from page 6, and
    the master TT has since moved to page 6.  [ftlSync] returns [true]; it
    programs the buffer of logical page 3 in its last phase, after the
    secondary TT, and no buffer of logical page 0 at all. *)
Lemma ftlSync_programs_data_buffer_last :
  match ftlInit_nor shadowed8 8 with
  | Returned (Some f0) =>
      match run_ops f0 ops_until_mtt_shadowed with
      | Some f =>
          let '(ok, f') := ftlSync nor_hal blank_PageInfo f in
          ttPageCount f = 2 /\
          mttPhysicalPageNo f = 6 /\
          pb_logicalPageNo (slot f 4) = 3 /\
          pb_physicalPageNo (slot f 4) = 6 /\
          ok = true /\
          programs_and_erases (new_events f f')
          = [EvProgram 1024 28672; EvProgram 3 24576; EvProgram 2 20480;
             EvProgram 1 4096; EvProgram 3 24576]
      | None => False
      end
  | _ => False
  end.
Proof. vm_compute. repeat split. Qed.

Lemma ftlSync_ordered_flush_witness :
  exists data_evs stt_evs mtt_evs,
    emitted overwritten4 (snd (ftlSync nor_hal blank_PageInfo overwritten4))
      (data_evs ++ stt_evs ++ mtt_evs) /\
    Forall (program_tag (fun l => ttPageCount overwritten4 <= l)) data_evs /\
    Forall (program_tag (fun l => 0 < l < ttPageCount overwritten4)) stt_evs /\
    Forall (program_tag (fun l => l = 0)) mtt_evs.
Proof.
  apply (ftlSync_ordered_flush nor_hal blank_PageInfo overwritten4
           (fst (ftlSync nor_hal blank_PageInfo overwritten4))
           (snd (ftlSync nor_hal blank_PageInfo overwritten4))).
  - apply mtt_coherentb_sound. vm_compute. reflexivity.
  - apply surjective_pairing.
Defined.



(** C6, as stated, fails: page 3 of the 4 MiB device [serial0_4] has the
    magic, logical page 0 and a matching checksum, and no other page has;
    its serial is 0.  [ftlInit] does not take it as master TT: it formats,
    programming a new master TT to page 0. *)
Lemma ftlInit_formats_over_serial_zero_mtt :
  header_is_mtt (header_at nor_hal [] serial0_4 3) = true /\
  serial_at nor_hal [] serial0_4 3 = 0 /\
  match ftlInit_nor serial0_4 4 with
  | Returned (Some f) =>
      mttPhysicalPageNo f = 0 /\
      programs_and_erases (trace f) = [EvProgram 0 0]
  | _ => False
  end.
Proof. vm_compute. repeat split. Qed.

Lemma loadFTL_mount_authority_witness :
  (exists f1, loadFTL nor_hal [] (Z.to_nat 2000) fresh4 = Returned (false, f1)) <->
  (forall i, 0 <= i < physicalPageCount fresh4 ->
             ~ mtt_candidate nor_hal [] (dev fresh4) i).
Proof.
  destruct (loadFTL_mount_authority nor_hal [] [] (Z.to_nat 2000) fresh4) as (_ & H & _).
  - vm_compute. split; discriminate.
  - apply Nat.ltb_lt. vm_compute. reflexivity.
  - exact H.
Defined.





Lemma write_overwrite_loads_never_null_witness :
  exists f',
    write_overwrite nor_hal blank_PageInfo
      (snd (ftlSync nor_hal blank_PageInfo overwritten4)) 2 1 1
      (repeat 0x33 (Z.to_nat SECTOR_SIZE))
    = Returned (true, f').
Proof.
  apply write_overwrite_loads_never_null.
  - intros d addr len. unfold nor_hal, nor_read. simpl. discriminate.
  - unfold lru_ok. vm_compute.
    exact (perm_trans (Permutation_cons_append [2; 0; 1] 3)
             (Permutation_app_tail [3] (Permutation_cons_append [0; 1] 2))).
  - apply Nat.leb_le. vm_compute. reflexivity.
  - lia.
Defined.

(** * Further properties of the code *)

(** ** The lazy resolver *)

Section Resolver.

Context {D : Type}.
Variable hal : Hal D.
Implicit Types (f : FrFTL D).

Lemma steps_to_next P idx q :
  0 <= idx < P -> 0 <= q < P -> q <> idx ->
  steps_to P (if idx + 1 >=? P then 0 else idx + 1) q = steps_to P idx q - 1.
Proof.
  intros Hi Hq Hne. unfold steps_to.
  destruct (Z.geb_spec (idx + 1) P);
    repeat match goal with
           | |- context [?a >=? ?b] => destruct (Z.geb_spec a b)
           end; lia.
Qed.

Lemma steps_to_range P idx q : 0 <= idx < P -> 0 <= q < P -> 0 <= steps_to P idx q < P.
Proof. intros Hi Hq. unfold steps_to. destruct (Z.geb_spec q idx); lia. Qed.

Lemma resolved_state_known (d : D) q : resolved_state hal d q <> UNKNOWN.
Proof. unfold resolved_state. destruct (isFlashErased hal d _); discriminate. Qed.

(** What the loop of [resolveUnknownState] does to the state map, to the
    trace and to the rest of the handle. *)
Lemma resolveUnknownState_loop_spec n : forall f idx count f' early,
  physicalPageCount f <= 32768 ->
  physicalPageCount f <= 16 * Z.of_nat (length (physicalPageState f)) ->
  0 <= idx < physicalPageCount f ->
  resolveUnknownState_loop hal n f idx count = (f', early) ->
  (dev f' = dev f /\ physicalPageCount f' = physicalPageCount f /\
   physicalPageStateResolved f' = physicalPageStateResolved f /\
   length (physicalPageState f') = length (physicalPageState f)) /\
  (forall q, 0 <= q < physicalPageCount f ->
     getPhysicalPageState f' q = getPhysicalPageState f q \/
     (getPhysicalPageState f q = UNKNOWN /\
      getPhysicalPageState f' q = resolved_state hal (dev f) q)) /\
  (early = false ->
   forall q, 0 <= q < physicalPageCount f ->
     steps_to (physicalPageCount f) idx q < Z.of_nat n ->
     getPhysicalPageState f' q <> UNKNOWN) /\
  (exists evs, emitted f f' evs /\ forallb is_probe evs = true /\
     (1 <= count < 65536 -> Z.of_nat (length evs) <= count)).
Proof.
  induction n as [|n IH]; intros f idx count f' early HP Hlen Hidx H;
    cbn [resolveUnknownState_loop] in H.
  - injection H as <- <-.
    split; [auto|]. split; [auto|].
    split; [intros _ q Hq Hs; pose proof (steps_to_range _ _ _ Hidx Hq); lia|].
    exists []. split; [unfold emitted; rewrite app_nil_r; reflexivity|].
    split; [reflexivity | simpl; lia].
  - assert (u16 (idx + 1) = idx + 1) as En by (apply u16_small; lia).
    rewrite En in H.
    set (next := if idx + 1 >=? physicalPageCount f then 0 else idx + 1) in *.
    assert (0 <= next < physicalPageCount f) as Hnext
        by (unfold next; destruct (Z.geb_spec (idx + 1) (physicalPageCount f)); lia).
    destruct (state_eqb (getPhysicalPageState f idx) UNKNOWN) eqn:Eu.
    + apply state_eqb_eq in Eu.
      unfold call_isFlashErased in H.
      set (st := if isFlashErased hal (dev f) (u32 (idx * PAGE_SIZE))
                 then ERASED else ERASE_REQUIRED) in *.
      set (f1 := set_dev (dev f) (EvIsErased (u32 (idx * PAGE_SIZE))) f) in *.
      set (f2 := setPhysicalPageState f1 idx st) in *.
      assert (getPhysicalPageState f2 idx = st) as Hsame.
      { apply getPhysicalPageState_set_same. rewrite i16_small by lia.
        change (physicalPageState f1) with (physicalPageState f). lia. }
      assert (forall q, 0 <= q < physicalPageCount f -> q <> idx ->
                getPhysicalPageState f2 q = getPhysicalPageState f q) as Hother.
      { intros q Hq Hne. unfold f2. rewrite getPhysicalPageState_set_other.
        - apply getPhysicalPageState_congr. reflexivity.
        - rewrite !i16_small by lia. lia. }
      assert (st = resolved_state hal (dev f) idx) as Est by reflexivity.
      assert (length (physicalPageState f2) = length (physicalPageState f)) as Hl2
          by (unfold f2, setPhysicalPageState; simpl; apply zupd_length).
      assert (emitted f f2 [EvIsErased (u32 (idx * PAGE_SIZE))]) as He2 by reflexivity.
      destruct (u16 (count - 1) =? 0) eqn:Ec.
      * injection H as <- <-.
        split; [repeat split; auto|]. split.
        { intros q Hq. destruct (Z.eq_dec q idx) as [->|Hne].
          - right. split; [exact Eu|]. rewrite Hsame. exact Est.
          - left. apply Hother; auto. }
        split; [discriminate|].
        eexists. split; [exact He2|]. split; [reflexivity | simpl; lia].
      * apply IH in H; [| exact HP | rewrite Hl2; exact Hlen | exact Hnext].
        destruct H as ((Hd & HPc & Hr & Hl) & Ha & Hb & (evs & He & Hp & Hc)).
        change (dev f2) with (dev f) in *.
        change (physicalPageCount f2) with (physicalPageCount f) in *.
        change (physicalPageStateResolved f2) with (physicalPageStateResolved f) in *.
        assert (getPhysicalPageState f' idx = st) as Hidx'.
        { destruct (Ha idx Hidx) as [E|[E _]]; [congruence|].
          rewrite Hsame in E. unfold st in E.
          destruct (isFlashErased hal (dev f) _); discriminate. }
        split; [repeat split; auto; congruence|]. split.
        { intros q Hq. destruct (Z.eq_dec q idx) as [->|Hne].
          - right. split; [exact Eu|]. rewrite Hidx'. exact Est.
          - rewrite <- (Hother q Hq Hne). apply Ha; auto. }
        split.
        { intros Hearly q Hq Hs. destruct (Z.eq_dec q idx) as [->|Hne].
          - rewrite Hidx'. unfold st.
            destruct (isFlashErased hal (dev f) _); discriminate.
          - apply Hb; auto. unfold next. rewrite steps_to_next by auto. lia. }
        exists (EvIsErased (u32 (idx * PAGE_SIZE)) :: evs).
        split; [exact (emitted_trans _ _ _ _ _ He2 He)|].
        split; [simpl; exact Hp|].
        intros Hcount. apply Z.eqb_neq in Ec.
        rewrite u16_small in Ec by lia.
        rewrite u16_small in Hc by lia.
        simpl length. lia.
    + apply state_eqb_neq in Eu.
      apply IH in H; auto.
      destruct H as (Hf & Ha & Hb & He).
      split; [exact Hf|]. split; [exact Ha|]. split; [|exact He].
      intros Hearly q Hq Hs. destruct (Z.eq_dec q idx) as [->|Hne].
      * destruct (Ha idx Hidx) as [E|[E _]]; congruence.
      * apply Hb; auto. unfold next. rewrite steps_to_next by auto. lia.
Qed.

(** X1. [resolveUnknownState] changes the state of a page only if that
    state is UNKNOWN, and then to what [isFlashErased] says of the page:
    ERASED or ERASE_REQUIRED.  So a page that is USED stays USED, and no
    page becomes USED or UNKNOWN. *)
Theorem resolveUnknownState_touches_unknown_only f count q :
  geometry_ok f ->
  0 <= q < physicalPageCount f ->
  getPhysicalPageState (resolveUnknownState hal f count) q = getPhysicalPageState f q \/
  (getPhysicalPageState f q = UNKNOWN /\
   getPhysicalPageState (resolveUnknownState hal f count) q
   = resolved_state hal (dev f) q).
Proof.
  intros (HP & Hlen & Hw) Hq. unfold resolveUnknownState.
  destruct (physicalPageStateResolved f); [left; reflexivity|].
  destruct (resolveUnknownState_loop hal _ f (writeFrontier f) (u16 count))
    as [f1 early] eqn:E.
  apply resolveUnknownState_loop_spec in E as (_ & Ha & _); auto.
  destruct early; simpl; apply Ha; auto.
Qed.

(** X2. When a call of [resolveUnknownState] sets
    [physicalPageStateResolved], no page of the device is left UNKNOWN. *)
Theorem resolveUnknownState_flag_means_resolved f count q :
  geometry_ok f ->
  physicalPageStateResolved f = false ->
  physicalPageStateResolved (resolveUnknownState hal f count) = true ->
  0 <= q < physicalPageCount f ->
  getPhysicalPageState (resolveUnknownState hal f count) q <> UNKNOWN.
Proof.
  intros (HP & Hlen & Hw) Hr. unfold resolveUnknownState. rewrite Hr.
  destruct (resolveUnknownState_loop hal _ f (writeFrontier f) (u16 count))
    as [f1 early] eqn:E.
  apply resolveUnknownState_loop_spec in E as ((_ & _ & Hr1 & _) & _ & Hb & _); auto.
  destruct early; simpl.
  - intros H. congruence.
  - intros _ Hq. apply (Hb eq_refl q Hq).
    pose proof (steps_to_range _ _ _ Hw Hq). lia.
Qed.

(** X3. [resolveUnknownState(ftl, count)] with [count] from 1 to 65535
    invokes [isFlashErased] at most [count] times, and no other callback. *)
Theorem resolveUnknownState_probes_at_most_count f count :
  geometry_ok f ->
  1 <= count < 65536 ->
  exists evs, emitted f (resolveUnknownState hal f count) evs /\
              forallb is_probe evs = true /\
              Z.of_nat (length evs) <= count.
Proof.
  intros (HP & Hlen & Hw) Hc. unfold resolveUnknownState.
  destruct (physicalPageStateResolved f).
  { exists []. split; [apply emitted_refl|]. split; [reflexivity | simpl; lia]. }
  destruct (resolveUnknownState_loop hal _ f (writeFrontier f) (u16 count))
    as [f1 early] eqn:E.
  apply resolveUnknownState_loop_spec in E as (_ & _ & _ & (evs & He & Hp & Hn)); auto.
  rewrite u16_small in Hn by lia.
  exists evs. split; [destruct early; exact He|]. split; [exact Hp | apply Hn; lia].
Qed.

End Resolver.

(** ** The allocator *)

Section Allocator.

Context {D : Type}.
Implicit Types (f : FrFTL D).

Lemma set_writeFrontier_twice f w1 w2 :
  set_writeFrontier w2 (set_writeFrontier w1 f) = set_writeFrontier w2 f.
Proof. reflexivity. Qed.

Lemma set_writeFrontier_same f : set_writeFrontier (writeFrontier f) f = f.
Proof. destruct f; reflexivity. Qed.

(** The scan of [allocatePhysicalPage], started with [lookupCount] steps
    already made. *)
Lemma allocate_scan_spec fuel : forall f lookupCount found f',
  physicalPageCount f <= 32768 ->
  0 <= writeFrontier f < physicalPageCount f ->
  0 <= lookupCount <= physicalPageCount f ->
  physicalPageCount f + 2 - lookupCount <= Z.of_nat fuel ->
  allocate_scan fuel f lookupCount = (found, f') ->
  exists w, f' = set_writeFrontier w f /\ 0 <= w < physicalPageCount f /\
    (found = true ->
     getPhysicalPageState f w <> USED /\
     forall q, 0 <= q < physicalPageCount f ->
       steps_to (physicalPageCount f) (writeFrontier f) q
       < steps_to (physicalPageCount f) (writeFrontier f) w ->
       getPhysicalPageState f q = USED) /\
    (found = false ->
     forall q, 0 <= q < physicalPageCount f ->
       steps_to (physicalPageCount f) (writeFrontier f) q
       <= physicalPageCount f - lookupCount ->
       getPhysicalPageState f q = USED).
Proof.
  induction fuel as [|fuel IH]; intros f c found f' HP Hw Hc Hfuel H; [lia|].
  cbn [allocate_scan] in H.
  destruct (state_eqb (getPhysicalPageState f (writeFrontier f)) USED) eqn:Eu.
  - apply state_eqb_eq in Eu.
    unfold advance_writeFrontier in H.
    rewrite (u16_small (writeFrontier f + 1)) in H by lia.
    rewrite (u16_small (c + 1)) in H by lia.
    set (next := if writeFrontier f + 1 >=? physicalPageCount f
                 then 0 else writeFrontier f + 1) in *.
    assert (0 <= next < physicalPageCount f) as Hnext
        by (unfold next;
            destruct (Z.geb_spec (writeFrontier f + 1) (physicalPageCount f)); lia).
    change (physicalPageCount (set_writeFrontier next f)) with (physicalPageCount f) in H.
    destruct (Z.gtb_spec (c + 1) (physicalPageCount f)) as [Hover|Hgo].
    + injection H as <- <-. exists next. split; [reflexivity|]. split; [exact Hnext|].
      split; [discriminate|]. intros _ q Hq Hs.
      assert (q = writeFrontier f) as ->; [|exact Eu].
      unfold steps_to in Hs. destruct (Z.geb_spec q (writeFrontier f)); lia.
    + apply IH in H; auto; try (simpl; lia).
      destruct H as (w & -> & Hwr & Ht & Hf).
      change (physicalPageCount (set_writeFrontier next f)) with (physicalPageCount f) in *.
      change (writeFrontier (set_writeFrontier next f)) with next in *.
      assert (forall q, getPhysicalPageState (set_writeFrontier next f) q
                        = getPhysicalPageState f q) as Hst by reflexivity.
      exists w. split; [reflexivity|]. split; [exact Hwr|]. split.
      * intros Hfound. destruct (Ht Hfound) as [Hnu Hused]. rewrite Hst in Hnu.
        split; [exact Hnu|]. intros q Hq Hs.
        destruct (Z.eq_dec q (writeFrontier f)) as [->|Hne]; [exact Eu|].
        rewrite <- Hst. apply Hused; auto.
        assert (w <> writeFrontier f) as Hwne by congruence.
        unfold next. rewrite !steps_to_next by auto. lia.
      * intros Hfound q Hq Hs.
        destruct (Z.eq_dec q (writeFrontier f)) as [->|Hne]; [exact Eu|].
        rewrite <- Hst. apply (Hf Hfound); auto.
        unfold next. rewrite steps_to_next by auto. lia.
  - injection H as <- <-. apply state_eqb_neq in Eu.
    exists (writeFrontier f). split; [symmetry; apply set_writeFrontier_same|].
    split; [exact Hw|]. split; [|discriminate].
    intros _. split; [exact Eu|]. intros q Hq Hs.
    unfold steps_to in Hs.
    destruct (Z.geb_spec (writeFrontier f) (writeFrontier f)); [|lia].
    destruct (Z.geb_spec q (writeFrontier f)); lia.
Qed.

(** X4. [allocatePhysicalPage] returns the first page, in the cyclic order
    that starts at the write frontier, whose state is not USED, and leaves
    the write frontier on the page after it; it returns -1 only when every
    page of the device is USED.  Nothing but the write frontier changes. *)
Theorem allocatePhysicalPage_first_free f new f' :
  geometry_ok f ->
  allocatePhysicalPage f = (new, f') ->
  (exists w, f' = set_writeFrontier w f) /\
  ((new = -1 /\
    forall q, 0 <= q < physicalPageCount f -> getPhysicalPageState f q = USED) \/
   (0 <= new < physicalPageCount f /\
    getPhysicalPageState f new <> USED /\
    (forall q, 0 <= q < physicalPageCount f ->
       steps_to (physicalPageCount f) (writeFrontier f) q
       < steps_to (physicalPageCount f) (writeFrontier f) new ->
       getPhysicalPageState f q = USED) /\
    writeFrontier f' = if new + 1 >=? physicalPageCount f then 0 else new + 1)).
Proof.
  intros (HP & Hlen & Hw) H. unfold allocatePhysicalPage in H.
  destruct (allocate_scan _ f 0) as [found f1] eqn:E.
  apply allocate_scan_spec in E; auto; try lia.
  destruct E as (w & -> & Hwr & Ht & Hf).
  destruct found; injection H as <- <-.
  - destruct (Ht eq_refl) as [Hnu Hused].
    split; [eexists; reflexivity|]. right.
    change (writeFrontier (set_writeFrontier w f)) with w.
    rewrite i16_small by lia.
    split; [exact Hwr|]. split; [exact Hnu|]. split; [exact Hused|].
    unfold advance_writeFrontier; simpl. rewrite u16_small by lia. reflexivity.
  - split; [eexists; reflexivity|]. left. split; [reflexivity|].
    intros q Hq. apply (Hf eq_refl q Hq).
    pose proof (steps_to_range _ _ _ Hw Hq). lia.
Qed.

(** The counting loop of [hasFreeBuffers]. *)
Lemma count_free_spec bufs : forall found bufferCount,
  0 <= found -> found + Z.of_nat (length bufs) < 65536 ->
  count_free bufs found bufferCount
  = (Z.max (found + 1) bufferCount
     <=? found + Z.of_nat (length (filter (fun b => negb (pb_lock b)) bufs))).
Proof.
  induction bufs as [|b t IH]; intros found k Hf Hn; cbn [count_free filter length].
  - symmetry. apply Z.leb_gt. lia.
  - simpl length in Hn. destruct (negb (pb_lock b)).
    + rewrite u16_small by lia. simpl length.
      destruct (Z.geb_spec (found + 1) k).
      * symmetry. apply Z.leb_le. lia.
      * rewrite IH by lia. f_equal; lia.
    + apply IH; lia.
Qed.

(** X5. [hasFreeBuffers(ftl, n)] tells whether at least [n] slots are
    unlocked, except that [hasFreeBuffers(ftl, 0)] is false when every slot
    is locked: the count is compared after the first unlocked slot was
    found. *)
Theorem hasFreeBuffers_counts_unlocked f bufferCount :
  0 <= bufferCount < 65536 ->
  nslots f = pageBufferSize f ->
  pageBufferSize f < 256 ->
  hasFreeBuffers f bufferCount = (Z.max 1 bufferCount <=? Z.of_nat (free_count f)).
Proof.
  intros Hk Hn Hsz. unfold hasFreeBuffers, free_count.
  rewrite u16_small by lia.
  rewrite count_free_spec by (unfold nslots in Hn; lia).
  reflexivity.
Qed.

End Allocator.

(** ** The cache policy *)

Section CachePolicy.

Context {D : Type}.
Variable hal : Hal D.
Implicit Types (f : FrFTL D) (b : PageBuffer).

Lemma lru_rank_from_None lrus i : forall j0,
  ~ In i lrus -> lru_rank_from j0 lrus i = None.
Proof.
  induction lrus as [|x t IH]; intros j0 H; simpl; auto.
  destruct (Z.eqb_spec x i) as [->|Hne]; [exfalso; apply H; left; auto|].
  simpl. apply IH. intros Hin; apply H; right; auto.
Qed.

Lemma lru_rank_from_In lrus i : forall j0,
  (1 <= j0)%nat -> In i lrus -> exists j, lru_rank_from j0 lrus i = Some j.
Proof.
  induction lrus as [|x t IH]; intros j0 Hj H; [contradiction|]. simpl.
  destruct (Z.eqb_spec x i) as [->|Hne]; simpl.
  - destruct j0; [lia|]. simpl. eauto.
  - destruct H as [H|H]; [contradiction|]. apply IH; auto.
Qed.

Lemma remove_middle (i : Z) (l1 l2 : list Z) :
  ~ In i l1 -> ~ In i l2 -> remove Z.eq_dec i (l1 ++ i :: l2) = l1 ++ l2.
Proof.
  intros H1 H2. rewrite remove_app. simpl.
  destruct (Z.eq_dec i i); [|contradiction].
  rewrite !notin_remove; auto.
Qed.

(** Promotion puts the slot in front and keeps the order of the others. *)
Lemma lru_promote_spec lrus i :
  NoDup lrus -> In i lrus -> lru_promote lrus i = i :: remove Z.eq_dec i lrus.
Proof.
  intros Hnd Hin. unfold lru_promote.
  destruct lrus as [|x t]; [contradiction|].
  cbn [lru_rank_from]. rewrite andb_false_r.
  inversion Hnd as [|? ? Hx Ht]; subst.
  destruct (Z.eq_dec x i) as [->|Hne].
  - rewrite lru_rank_from_None by auto.
    simpl. destruct (Z.eq_dec i i); [|contradiction].
    rewrite notin_remove; auto.
  - destruct Hin as [Hin|Hin]; [contradiction|].
    destruct (lru_rank_from_In t i 1 ltac:(lia) Hin) as [j E]. rewrite E.
    apply lru_rank_from_spec in E as [Hj E].
    apply nth_error_split in E as (l1 & l2 & -> & Hl).
    f_equal.
    replace j with (S (length l1)) by lia.
    change (x :: l1 ++ i :: l2) with ((x :: l1) ++ i :: l2).
    replace (S (length l1)) with (length (x :: l1)) by reflexivity.
    rewrite firstn_middle, skipn_middle.
    symmetry. apply remove_middle.
    + intros [H|H]; [contradiction|].
      apply NoDup_remove_2 in Ht. apply Ht. apply in_or_app; auto.
    + apply NoDup_remove_2 in Ht. intros H. apply Ht. apply in_or_app; auto.
Qed.

Lemma NoDup_map_of_nat (l : list nat) : NoDup l -> NoDup (map Z.of_nat l).
Proof.
  induction 1 as [|x l Hx Hl IH]; simpl; constructor; auto.
  rewrite in_map_iff. intros (y & E & Hy). apply Nat2Z.inj in E. subst. contradiction.
Qed.

Lemma lru_ok_NoDup f : lru_ok f -> NoDup (lru_order f).
Proof.
  unfold lru_ok, lru_order. intros H.
  apply Permutation_sym in H. apply (Permutation_NoDup H).
  apply NoDup_map_of_nat, seq_NoDup.
Qed.

Lemma lru_ok_In f i : lru_ok f -> 0 <= i < nslots f -> In i (lru_order f).
Proof.
  unfold lru_ok, lru_order, nslots. intros H Hi.
  apply Permutation_sym in H. apply (Permutation_in _ H).
  apply in_map_iff. exists (Z.to_nat i). split; [lia|].
  apply in_seq. lia.
Qed.

Lemma lru_order_update_lru f i :
  lru_ok f -> 0 <= i < nslots f ->
  lru_order (update_lru f i) = i :: remove Z.eq_dec i (lru_order f).
Proof.
  intros Hl Hi. unfold lru_order at 1, update_lru. simpl.
  rewrite write_lrus_lru.
  - apply lru_promote_spec; [apply lru_ok_NoDup | apply lru_ok_In]; auto.
  - rewrite (Permutation_length (lru_promote_perm _ _)), length_map. reflexivity.
Qed.

Lemma lru_order_upd_slot f i g :
  (forall b, pb_lru (g b) = pb_lru b) -> lru_order (upd_slot i g f) = lru_order f.
Proof.
  intros Hg. unfold lru_order, upd_slot, set_slot, slot; simpl.
  unfold zupd, zth. destruct (i <? 0); auto.
  rewrite map_upd, Hg, <- (map_nth pb_lru), upd_nth_same. reflexivity.
Qed.

Lemma lru_order_load f l p i f' :
  lru_ok f ->
  loadPhysicalPageInBuffer hal f l p = (Some i, f') ->
  lru_order f' = i :: remove Z.eq_dec i (lru_order f).
Proof.
  intros Hl H.
  pose proof (load_effect hal _ _ _ _ _ H) as (_ & _ & Hi & _).
  apply load_cases in H.
  destruct H as [(i0 & _ & E & ->) | (_ & [(_ & E & _) | (i0 & _ & H)])];
    try discriminate.
  - injection E as <-. apply lru_order_update_lru; auto.
  - cbv zeta in H. destruct H as [(_ & E & _) | (data & _ & E & ->)]; [discriminate|].
    injection E as <-.
    rewrite lru_order_update_lru.
    + unfold loaded_slot.
      rewrite lru_order_upd_slot by reflexivity.
      change (lru_order (set_dev ?d ?e ?g)) with (lru_order g).
      rewrite lru_order_upd_slot by reflexivity. reflexivity.
    + apply lru_ok_upd_slot; [reflexivity|].
      apply lru_ok_set_dev, lru_ok_upd_slot; auto.
    + rewrite nslots_upd_slot.
      change (nslots (set_dev ?d ?e ?g)) with (nslots g).
      rewrite nslots_upd_slot. exact Hi.
Qed.

(** X6. The slot that [loadPhysicalPageInBuffer] returns, found or filled,
    becomes the most recently used one, and the order of the other slots
    is kept. *)
Theorem load_makes_slot_most_recent f l p i f' :
  lru_ok f ->
  loadPhysicalPageInBuffer hal f l p = (Some i, f') ->
  lru_order f' = i :: remove Z.eq_dec i (lru_order f).
Proof. exact (lru_order_load f l p i f'). Qed.

Lemma scan_unlocked_split f ranks i :
  scan_unlocked f ranks = Some i ->
  exists pre post, ranks = pre ++ i :: post /\
              (forall j, In j pre -> pb_lock (slot f j) = true) /\
              pb_lock (slot f i) = false.
Proof.
  induction ranks as [|x t IH]; simpl; [discriminate|].
  destruct (pb_lock (slot f x)) eqn:E; simpl.
  - intros H. destruct (IH H) as (a & post & -> & Ha & Hi).
    exists (x :: a), post. split; [reflexivity|]. split; auto.
    intros j [<-|Hj]; auto.
  - intros H; injection H as <-. exists [], t. split; [reflexivity|].
    split; [intros j [] | exact E].
Qed.

(** X7. When the page is not in the cache, the slot
    [loadPhysicalPageInBuffer] fills is the least recently used one among
    the unlocked slots: it is unlocked, and every slot used less recently
    is locked. *)
Theorem load_miss_takes_least_recent_unlocked f l p i f' :
  loadPhysicalPageInBuffer hal f l p = (Some i, f') ->
  find_slot 0 (pageBuffer f) (u16 p) = None ->
  pb_lock (slot f i) = false /\
  exists newer older, lru_order f = newer ++ i :: older /\
    forall j, In j older -> pb_lock (slot f j) = true.
Proof.
  intros H Hmiss. apply load_cases in H.
  destruct H as [(i0 & E & _) | (_ & [(_ & E & _) | (i0 & Hp & H)])];
    try congruence.
  cbv zeta in H. destruct H as [(_ & E & _) | (data & _ & E & _)]; [discriminate|].
  injection E as <-.
  unfold pick_unlocked in Hp.
  apply scan_unlocked_split in Hp as (a & post & Hr & Ha & Hi).
  split; [exact Hi|].
  exists (rev post), (rev a). split.
  - unfold lru_order. rewrite <- (rev_involutive (map pb_lru (pageBuffer f))), Hr.
    rewrite rev_app_distr. simpl. rewrite <- app_assoc. reflexivity.
  - intros j Hj. apply Ha. apply in_rev. exact Hj.
Qed.

(** X8. [loadPhysicalPageInBuffer] changes nothing but the cache and the
    trace, reads the flash and does nothing else to it, and leaves every
    locked slot as it is, whether it succeeds or fails. *)
Theorem load_never_touches_locked_slots f l p r f' :
  loadPhysicalPageInBuffer hal f l p = (r, f') ->
  same_but_cache f f' /\ reads_only f f' /\
  forall j, pb_lock (slot f j) = true -> same_fields (slot f' j) (slot f j).
Proof.
  intros H. apply load_effect in H as (Hc & Hr & H).
  split; [exact Hc|]. split; [exact Hr|]. intros j Hj.
  destruct r as [i|].
  - destruct H as (_ & [(_ & Hs) | (_ & Hu & _ & Hs)]); [apply Hs|].
    apply Hs. intros ->. congruence.
  - destruct H as (_ & H). destruct (H j) as [Hs | (Hu & _)]; [exact Hs | congruence].
Qed.

Lemma unlocked_free_count f i :
  0 <= i < nslots f -> pb_lock (slot f i) = false -> (1 <= free_count f)%nat.
Proof.
  intros Hi Hl. unfold free_count.
  assert (In (slot f i) (filter (fun b => negb (pb_lock b)) (pageBuffer f))) as Hin.
  { apply filter_In. split; [apply zth_In; exact Hi | rewrite Hl; reflexivity]. }
  destruct (filter _ (pageBuffer f)); [contradiction | simpl; lia].
Qed.

(** X9. With [lru] fields that name every slot once,
    [loadPhysicalPageInBuffer] returns NULL exactly when the page is not in
    the cache and either every slot is locked or [flashRead] fails. *)
Theorem load_fails_iff f l p :
  lru_ok f ->
  fst (loadPhysicalPageInBuffer hal f l p) = None <->
  find_slot 0 (pageBuffer f) (u16 p) = None /\
  (free_count f = 0%nat \/
   flashRead hal (dev f) (u32 (u16 p * PAGE_SIZE)) PAGE_SIZE = None).
Proof.
  intros Hl.
  destruct (loadPhysicalPageInBuffer hal f l p) as [r f'] eqn:E. simpl.
  apply load_cases in E.
  destruct E as [(i & Hf & -> & _) | (Hf & [(Hp & -> & _) | (i & Hp & H)])].
  - split; [discriminate|]. intros [H _]. congruence.
  - split; [|reflexivity]. intros _. split; [exact Hf|]. left.
    destruct (free_count f) eqn:Ec; [reflexivity|].
    destruct (pick_unlocked_exists f Hl ltac:(lia)) as [i Hi]. congruence.
  - cbv zeta in H. destruct H as [(Hr & -> & _) | (data & Hr & -> & _)].
    + split; [|reflexivity]. intros _. split; [exact Hf|]. right. exact Hr.
    + split; [discriminate|]. intros [_ [Hc|Hn]]; [|congruence].
      apply pick_unlocked_Some in Hp as [Hi Hu].
      pose proof (unlocked_free_count f i Hi Hu). lia.
Qed.

End CachePolicy.

(** ** Records and headers of translation-table pages *)

Section Records.

Context {D : Type}.
Variable hal : Hal D.
Implicit Types (f : FrFTL D) (p : Page).

Lemma get8_set16_lo p off v :
  0 <= off -> off + 1 < Z.of_nat (length p) -> get8 (set16 off v p) off = u8 v.
Proof.
  intros H1 H2. unfold set16. rewrite get8_set8_other by lia.
  apply get8_set8_same. lia.
Qed.

Lemma get8_set16_hi p off v :
  0 <= off -> off + 1 < Z.of_nat (length p) ->
  get8 (set16 off v p) (off + 1) = u8 (u16 v / 256).
Proof.
  intros H1 H2. unfold set16. apply get8_set8_same. rewrite set8_length. lia.
Qed.

Lemma get16_set8_other p off off' v :
  off <> off' -> off <> off' + 1 -> get16 (set8 off v p) off' = get16 p off'.
Proof.
  intros H1 H2. unfold get16. rewrite !get8_set8_other by lia. reflexivity.
Qed.

Lemma i16_of_int16 (z : Z) : -32768 <= z < 32768 -> i16 z = z.
Proof. apply i16_small. Qed.

(** What [set_pageInfo] changes in a page. *)
Lemma set_pageInfo_spec p r info :
  0 <= r ->
  off_pageInfos r + 2 < Z.of_nat (length p) ->
  get_pageInfo (set_pageInfo r info p) r
  = mkPageInfo (i16 (pi_physicalPageNo info)) (u8 (pi_sectStatus info)) /\
  (forall r', 0 <= r' -> r' <> r ->
     get_pageInfo (set_pageInfo r info p) r' = get_pageInfo p r') /\
  header_of (set_pageInfo r info p) = header_of p.
Proof.
  intros Hr Hlen. unfold off_pageInfos, sizeof_TransTableHeader, sizeof_PageInfo in Hlen.
  split; [|split].
  - unfold get_pageInfo, set_pageInfo, off_pageInfos, sizeof_TransTableHeader,
      sizeof_PageInfo.
    rewrite get16_set8_other by lia.
    rewrite get16_set16_same by lia.
    rewrite get8_set8_same by (rewrite set16_length; lia).
    rewrite i16_u16. reflexivity.
  - intros r' Hr' Hne.
    unfold get_pageInfo, set_pageInfo, off_pageInfos, sizeof_TransTableHeader,
      sizeof_PageInfo.
    rewrite get16_set8_other by lia.
    rewrite get16_set16_other by lia.
    rewrite get8_set8_other by lia.
    rewrite get8_set16_other by lia.
    reflexivity.
  - unfold header_of, set_pageInfo, set16, set8, off_pageInfos, sizeof_TransTableHeader,
      sizeof_PageInfo.
    change (Z.to_nat 16) with 16%nat.
    assert (forall off v (q : Page), 16 <= off -> firstn 16 (zupd off v q) = firstn 16 q) as E.
    { intros off v q Hoff. unfold zupd. destruct (Z.ltb_spec off 0); [lia|].
      assert (16 <= Z.to_nat off)%nat as Hn by lia.
      revert Hn. generalize (Z.to_nat off) as n. generalize 16%nat as k.
      clear. intros k n. revert k n.
      induction q as [|h t IH]; intros k n Hn.
      - destruct n; reflexivity.
      - destruct n; [destruct k; [reflexivity | lia]|].
        destruct k; [reflexivity|]. simpl. f_equal. apply IH. lia. }
    rewrite !E by lia. reflexivity.
Qed.

(** X10. A page-info record written with [set_pageInfo] reads back as it
    was written ([physicalPageNo] as an [int16_t], [sectStatus] as a
    byte); every other record and the 16 bytes of the header are
    untouched. *)
Theorem pageInfo_write_read p r info :
  0 <= r ->
  off_pageInfos r + 2 < Z.of_nat (length p) ->
  get_pageInfo (set_pageInfo r info p) r
  = mkPageInfo (i16 (pi_physicalPageNo info)) (u8 (pi_sectStatus info)) /\
  (forall r', 0 <= r' -> r' <> r ->
     get_pageInfo (set_pageInfo r info p) r' = get_pageInfo p r') /\
  header_of (set_pageInfo r info p) = header_of p.
Proof. exact (set_pageInfo_spec p r info). Qed.

End Records.

Section RecordsInCache.

Context {D : Type}.
Variable hal : Hal D.
Implicit Types (f : FrFTL D).

Lemma find_slot_first bufs q : forall i0 i,
  i0 <= i < i0 + Z.of_nat (length bufs) ->
  pb_physicalPageNo (zth no_buffer bufs (i - i0)) = q ->
  (forall j, i0 <= j < i -> pb_physicalPageNo (zth no_buffer bufs (j - i0)) <> q) ->
  find_slot i0 bufs q = Some i.
Proof.
  induction bufs as [|b t IH]; intros i0 i Hi Hq Hfirst; [simpl in Hi; lia|].
  cbn [find_slot]. destruct (Z.eq_dec i i0) as [->|Hne].
  - rewrite Z.sub_diag in Hq. change (zth no_buffer (b :: t) 0) with b in Hq.
    rewrite Hq, Z.eqb_refl. reflexivity.
  - pose proof (Hfirst i0 ltac:(lia)) as Hb. rewrite Z.sub_diag in Hb.
    change (zth no_buffer (b :: t) 0) with b in Hb.
    apply Z.eqb_neq in Hb. rewrite Hb.
    apply IH.
    + simpl length in Hi. lia.
    + rewrite zth_cons in Hq by lia. replace (i - (i0 + 1)) with (i - i0 - 1) by lia.
      exact Hq.
    + intros j Hj. specialize (Hfirst j ltac:(lia)).
      rewrite zth_cons in Hfirst by lia.
      replace (j - (i0 + 1)) with (j - i0 - 1) by lia. exact Hfirst.
Qed.

Lemma find_first_in_cache f q i :
  0 <= i < nslots f ->
  pb_physicalPageNo (slot f i) = q ->
  (forall j, 0 <= j < i -> pb_physicalPageNo (slot f j) <> q) ->
  find_slot 0 (pageBuffer f) q = Some i.
Proof.
  intros Hi Hq Hfirst. apply find_slot_first.
  - unfold nslots in Hi. lia.
  - rewrite Z.sub_0_r. exact Hq.
  - intros j Hj. rewrite Z.sub_0_r. apply Hfirst. lia.
Qed.

Lemma pages_full_slot f i :
  pages_full f -> 0 <= i < nslots f -> length (pb_page (slot f i)) = Z.to_nat PAGE_SIZE.
Proof.
  intros H Hi. unfold pages_full in H. rewrite Forall_forall in H.
  apply H. apply zth_In. exact Hi.
Qed.

(** X11. A record stored with [updatePhysicalPageInfo] is what
    [readPhysicalPageInfo] returns for the same table page and record
    number right afterwards: the update lands in the slot that the lookup
    by physical page finds.  The slot is left locked with a program mode. *)
Theorem updatePhysicalPageInfo_then_read f info l p r f1 pi0 l' :
  pages_full f -> reads_full hal ->
  0 <= p < 32768 ->
  0 <= r < TT_RECORDS_PER_PAGE ->
  -32768 <= pi_physicalPageNo info < 32768 ->
  0 <= pi_sectStatus info < 256 ->
  updatePhysicalPageInfo hal f info l p r = (true, f1) ->
  exists i f2,
    readPhysicalPageInfo hal f1 pi0 l' p r = (true, info, f2) /\
    pb_lock (slot f1 i) = true /\ pb_pMode (slot f1 i) <> NONE /\
    pb_physicalPageNo (slot f1 i) = p.
Proof.
  intros Hfull Hreads Hp Hr Hphys Hstat H.
  unfold updatePhysicalPageInfo in H.
  destruct (loadPhysicalPageInBuffer hal f l p) as [[i|] f0] eqn:E; [|discriminate].
  injection H as <-.
  pose proof (load_effect hal _ _ _ _ _ E) as (Hc & _ & Hi & Hcase).
  assert (nslots f0 = nslots f) as Hn by apply Hc.
  assert (u16 p = p) as Eu by (apply u16_small; lia).
  assert (i16 p = p) as Ei by (apply i16_small; lia).
  rewrite Eu in Hcase.
  assert (pb_physicalPageNo (slot f0 i) = p /\
          length (pb_page (slot f0 i)) = Z.to_nat PAGE_SIZE /\
          forall j, 0 <= j < i -> pb_physicalPageNo (slot f0 j) <> p) as (Hph & Hlen & Hfirst).
  { destruct Hcase as [(Hf & Hs) | (Hf & _ & (data & Hrd & Hd) & Hs)].
    - apply find_in_cache in Hf as (_ & Hq & Hfst).
      pose proof (same_fields_inv _ _ (Hs i)) as (_ & E1 & _ & _ & E2).
      split; [congruence|]. split; [rewrite E2; apply pages_full_slot; auto|].
      intros j Hj. pose proof (same_fields_inv _ _ (Hs j)) as (_ & E3 & _).
      rewrite E3. apply Hfst. exact Hj.
    - apply same_fields_inv in Hd as (_ & E1 & _ & _ & E2). simpl in E1, E2.
      split; [congruence|]. split; [rewrite E2; exact (Hreads _ _ _ Hrd)|].
      intros j Hj. pose proof (same_fields_inv _ _ (Hs j ltac:(lia))) as (_ & E3 & _).
      rewrite E3. apply find_not_in_cache; [exact Hf | lia]. }
  set (G := fun b : PageBuffer =>
              pb_with_page
                (set_pageInfo r info
                   (pb_page (if mode_eqb (pb_pMode (pb_with_lock true b)) NONE
                             then pb_with_pMode PROGRAM (pb_with_lock true b)
                             else pb_with_lock true b)))
                (if mode_eqb (pb_pMode (pb_with_lock true b)) NONE
                 then pb_with_pMode PROGRAM (pb_with_lock true b)
                 else pb_with_lock true b)).
  change (upd_slot i _ f0) with (upd_slot i G f0).
  assert (slot (upd_slot i G f0) i = G (slot f0 i)) as Es
      by (apply slot_upd_slot_same; lia).
  assert (pb_physicalPageNo (G (slot f0 i)) = p /\ pb_lock (G (slot f0 i)) = true /\
          pb_pMode (G (slot f0 i)) <> NONE /\
          pb_page (G (slot f0 i)) = set_pageInfo r info (pb_page (slot f0 i)))
    as (Gph & Glk & Gmo & Gpg).
  { unfold G. destruct (slot f0 i) as [lg ph lr lk mo pg]; simpl in *.
    destruct mo; simpl; repeat split; auto; discriminate. }
  assert (find_slot 0 (pageBuffer (upd_slot i G f0)) (u16 p) = Some i) as Hfind.
  { rewrite Eu. apply find_first_in_cache.
    - rewrite nslots_upd_slot. lia.
    - rewrite Es. exact Gph.
    - intros j Hj. rewrite slot_upd_slot_other by lia. apply Hfirst. exact Hj. }
  exists i. eexists. split; [|rewrite Es; auto].
  unfold readPhysicalPageInfo, loadPhysicalPageInBuffer, findPhysicalPageInBuffer.
  rewrite Hfind. rewrite page_update_lru, Es, Gpg.
  destruct (set_pageInfo_spec (pb_page (slot f0 i)) r info) as (Hrt & _).
  { lia. }
  { rewrite Hlen. unfold off_pageInfos, sizeof_TransTableHeader, sizeof_PageInfo,
      TT_RECORDS_PER_PAGE, PAGE_SIZE in *. lia. }
  rewrite Hrt, i16_small by lia. unfold u8. rewrite Z.mod_small by lia.
  destruct info; reflexivity.
Qed.

End RecordsInCache.

(** ** Checksums of translation-table headers *)

Section Headers.

Implicit Types (p : Page).

Lemma blit_length src : forall off p, length (blit off src p) = length p.
Proof.
  induction src as [|s src IH]; intros off p.
  - revert off. induction p as [|h t IHp]; intros [|k]; simpl; auto.
  - revert off. induction p as [|h t IHp]; intros [|k]; simpl; auto.
Qed.

Lemma get8_blit_src src : forall p i,
  0 <= i < Z.of_nat (length src) -> (length src <= length p)%nat ->
  get8 (blit 0 src p) i = get8 src i.
Proof.
  unfold get8.
  induction src as [|s src IH]; intros p i Hi Hl; [simpl in Hi; lia|].
  destruct p as [|h t]; [simpl in Hl; lia|]. simpl blit.
  destruct (Z.eq_dec i 0) as [->|Hne]; [reflexivity|].
  rewrite !zth_cons by lia. apply IH; simpl in *; lia.
Qed.

Lemma get8_blit_beyond src p i :
  Z.of_nat (length src) <= i -> get8 (blit 0 src p) i = get8 p i.
Proof. intros H. apply get8_blit_same. intros Hi. lia. Qed.

Lemma list_ext_get8 (a b : list Z) :
  length a = length b ->
  (forall i, 0 <= i < Z.of_nat (length a) -> get8 a i = get8 b i) ->
  a = b.
Proof.
  intros Hl H. apply (nth_ext a b 0 0 Hl). intros n Hn.
  specialize (H (Z.of_nat n) ltac:(lia)). unfold get8, zth in H.
  destruct (Z.ltb_spec (Z.of_nat n) 0); [lia|]. rewrite Nat2Z.id in H. exact H.
Qed.

Lemma lxor_range16 (a b : Z) :
  0 <= a < 65536 -> 0 <= b < 65536 -> 0 <= Z.lxor a b < 65536.
Proof.
  intros Ha Hb.
  assert (0 <= Z.lxor a b) as Hn by (apply Z.lxor_nonneg; lia).
  split; [exact Hn|].
  destruct (Z.eq_dec (Z.lxor a b) 0) as [->|Hz]; [lia|].
  change 65536 with (2 ^ 16). apply Z.log2_lt_pow2; [lia|].
  pose proof (Z.log2_lxor a b ltac:(lia) ltac:(lia)) as Hx.
  assert (forall c, 0 <= c < 65536 -> Z.log2 c < 16) as Hlog.
  { intros c Hc. destruct (Z.eq_dec c 0) as [->|Hc0]; [simpl; lia|].
    apply Z.log2_lt_pow2; [lia|]. change (2 ^ 16) with 65536. lia. }
  pose proof (Hlog a Ha). pose proof (Hlog b Hb). lia.
Qed.

Lemma crc16_bits_range n : forall crc,
  0 <= crc < 65536 -> 0 <= crc16_bits n crc < 65536.
Proof.
  induction n as [|n IH]; intros crc H; cbn [crc16_bits]; [exact H|].
  apply IH. destruct (Z.testbit crc 15).
  - apply lxor_range16; [apply u16_range | lia].
  - apply u16_range.
Qed.

Lemma crc16_bits_range_pos n crc : (0 < n)%nat -> 0 <= crc16_bits n crc < 65536.
Proof.
  intros Hn. destruct n as [|n]; [lia|]. cbn [crc16_bits].
  apply crc16_bits_range. destruct (Z.testbit crc 15).
  - apply lxor_range16; [apply u16_range | lia].
  - apply u16_range.
Qed.

Lemma crc16_byte_range crc b : 0 <= crc16_byte crc b < 65536.
Proof. unfold crc16_byte. apply crc16_bits_range_pos. lia. Qed.

Lemma crc16_range data init :
  0 <= init < 65536 -> 0 <= crc16 data init < 65536.
Proof.
  unfold crc16. revert init.
  induction data as [|b t IH]; intros init H; cbn [fold_left]; [exact H|].
  apply IH. apply crc16_byte_range.
Qed.

Lemma header_of_length p :
  (16 <= length p)%nat -> length (header_of p) = 16%nat.
Proof.
  intros H. unfold header_of. change (Z.to_nat sizeof_TransTableHeader) with 16%nat.
  rewrite length_firstn. lia.
Qed.

Lemma get8_header_of p i : 0 <= i < 16 -> get8 (header_of p) i = get8 p i.
Proof.
  intros H. unfold header_of. apply get8_firstn.
  change (Z.to_nat sizeof_TransTableHeader) with 16%nat. lia.
Qed.

Lemma store_crc_length p : length (store_crc p) = length p.
Proof.
  unfold store_crc, calcCRC. rewrite set16_length, blit_length. reflexivity.
Qed.

(** Outside the padding and the checksum, [store_crc] leaves the page as
    it is. *)
Lemma get8_store_crc_other p i :
  (16 <= length p)%nat -> i < 12 \/ 16 <= i ->
  get8 (store_crc p) i = get8 p i.
Proof.
  intros Hl H. unfold store_crc, calcCRC, off_crc16, off_padding.
  rewrite get8_set16_other by lia.
  apply get8_blit_same. intros Hi.
  rewrite set16_length, header_of_length in Hi by exact Hl.
  rewrite get8_set16_other by lia.
  apply get8_header_of. lia.
Qed.

(** The checksum that [store_crc] stores is the one [loadFTL] computes
    from the header it reads back. *)
Lemma store_crc_checks p :
  (16 <= length p)%nat ->
  get16 (header_of (store_crc p)) off_crc16 = fst (calcCRC (header_of (store_crc p))).
Proof.
  intros Hl.
  set (h' := set16 off_padding 0xffff (header_of p)).
  set (crc := crc16 (memcpy_from h' 0 (sizeof_TransTableHeader - 2)) 0xffff).
  assert (store_crc p = set16 off_crc16 crc (blit 0 h' p)) as Eq by reflexivity.
  assert (length h' = 16%nat) as Hlh
      by (unfold h'; rewrite set16_length; apply header_of_length; exact Hl).
  assert (0 <= crc < 65536) as Hcrc by (apply crc16_range; lia).
  assert (length (store_crc p) = length p) as Hlq by apply store_crc_length.
  unfold calcCRC at 1. cbn [fst].
  (* the stored checksum *)
  assert (get16 (header_of (store_crc p)) off_crc16 = crc) as ->.
  { unfold get16, off_crc16. rewrite !get8_header_of by lia.
    fold (get16 (store_crc p) 14). rewrite Eq.
    unfold off_crc16. rewrite get16_set16_same by (rewrite ?blit_length; lia).
    apply u16_small. exact Hcrc. }
  (* the checksum of what is read back *)
  unfold crc. f_equal. unfold memcpy_from.
  change (Z.to_nat 0) with 0%nat. cbn [skipn].
  change (Z.to_nat (sizeof_TransTableHeader - 2)) with 14%nat.
  apply list_ext_get8.
  - rewrite !length_firstn. unfold h' in *. rewrite !set16_length in *.
    rewrite header_of_length by lia. rewrite header_of_length by (rewrite Hlq; lia).
    reflexivity.
  - intros i Hi.
    rewrite length_firstn, Hlh in Hi.
    rewrite !get8_firstn by lia.
    unfold h', off_padding.
    assert (length (header_of p) = 16%nat) as H1 by (apply header_of_length; exact Hl).
    assert (length (header_of (store_crc p)) = 16%nat) as H2
        by (apply header_of_length; rewrite Hlq; exact Hl).
    destruct (Z.eq_dec i 12) as [->|H12].
    { rewrite !get8_set16_lo by lia. reflexivity. }
    destruct (Z.eq_dec i 13) as [->|H13].
    { change 13 with (12 + 1). rewrite !get8_set16_hi by lia. reflexivity. }
    rewrite !get8_set16_other by lia.
    rewrite !get8_header_of by lia.
    symmetry. apply get8_store_crc_other; [exact Hl | lia].
Qed.

Lemma get32_header_of p off : 0 <= off -> off + 3 < 16 -> get32 (header_of p) off = get32 p off.
Proof.
  intros H1 H2. unfold get32, get16. rewrite !get8_header_of by lia. reflexivity.
Qed.

Lemma get32_store_crc p off :
  (16 <= length p)%nat -> 0 <= off -> off + 3 < 12 ->
  get32 (store_crc p) off = get32 p off.
Proof.
  intros Hl H1 H2. unfold get32, get16.
  rewrite !get8_store_crc_other by (auto; lia). reflexivity.
Qed.

Lemma header_is_mtt_store_crc p :
  (16 <= length p)%nat ->
  header_is_mtt (header_of (store_crc p))
  = (get32 p off_magicStart =? TT_PAGE_MAGIC) && (get32 p off_logicalPageNo =? 0).
Proof.
  intros Hl. unfold header_is_mtt.
  rewrite <- store_crc_checks by exact Hl. rewrite Z.eqb_refl, andb_true_r.
  unfold off_magicStart, off_logicalPageNo.
  rewrite !get32_header_of by lia.
  rewrite !get32_store_crc by (auto; lia). reflexivity.
Qed.

Lemma get32_set32_other p off off' v :
  off' + 3 < off \/ off + 3 < off' -> get32 (set32 off v p) off' = get32 p off'.
Proof.
  intros H. unfold set32. rewrite !get32_set16_other by lia. reflexivity.
Qed.

(** X12. When [programPageInBuffer] relocates a translation-table page it
    increments the serial and stores a new checksum ([bump_serial]); the
    header it produces passes the validity check of [loadFTL] exactly when
    the page carried the magic number and logical page 0. *)
Theorem bump_serial_header_verifies p :
  (16 <= length p)%nat ->
  header_is_mtt (header_of (bump_serial p))
  = (get32 p off_magicStart =? TT_PAGE_MAGIC) && (get32 p off_logicalPageNo =? 0).
Proof.
  intros Hl.
  change (bump_serial p)
    with (store_crc (set32 off_serial (u32 (get32 p off_serial + 1)) p)).
  rewrite header_is_mtt_store_crc by (rewrite set32_length; exact Hl).
  unfold off_magicStart, off_logicalPageNo, off_serial.
  rewrite !get32_set32_other by lia. reflexivity.
Qed.

Lemma get8_erased_page i : 0 <= i < PAGE_SIZE -> get8 erased_page i = 0xff.
Proof.
  intros H. unfold get8, zth, erased_page.
  destruct (Z.ltb_spec i 0); [lia|]. apply nth_repeat_lt. lia.
Qed.

(** The page that [initTransTablePage] builds. *)
Lemma initTransTablePage_props logicalPageNo :
  get32 (initTransTablePage logicalPageNo) off_magicStart = TT_PAGE_MAGIC /\
  get32 (initTransTablePage logicalPageNo) off_logicalPageNo = u32 logicalPageNo /\
  page_serial (initTransTablePage logicalPageNo) = 1 /\
  header_is_mtt (header_of (initTransTablePage logicalPageNo)) = (u32 logicalPageNo =? 0) /\
  forall r, 0 <= r < TT_RECORDS_PER_PAGE ->
    get_pageInfo (initTransTablePage logicalPageNo) r = unmapped_PageInfo.
Proof.
  set (p3 := set32 off_serial 1
               (set32 off_logicalPageNo logicalPageNo
                  (set32 off_magicStart TT_PAGE_MAGIC erased_page))).
  assert (initTransTablePage logicalPageNo = store_crc p3) as -> by reflexivity.
  assert (length p3 = 4096%nat) as Hl
      by (unfold p3; rewrite !set32_length; apply repeat_length).
  assert (get32 p3 off_magicStart = TT_PAGE_MAGIC) as Hm.
  { unfold p3, off_serial, off_logicalPageNo, off_magicStart.
    rewrite !get32_set32_other by lia.
    rewrite get32_set32_same by (rewrite ?repeat_length; unfold PAGE_SIZE; simpl; lia).
    reflexivity. }
  assert (get32 p3 off_logicalPageNo = u32 logicalPageNo) as Hlg.
  { unfold p3, off_serial, off_logicalPageNo, off_magicStart.
    rewrite get32_set32_other by lia.
    rewrite get32_set32_same
      by (rewrite ?set32_length, ?repeat_length; unfold PAGE_SIZE; simpl; lia).
    reflexivity. }
  assert (get32 p3 off_serial = 1) as Hs.
  { unfold p3, off_serial.
    rewrite get32_set32_same
      by (rewrite ?set32_length, ?repeat_length; unfold PAGE_SIZE; simpl; lia).
    reflexivity. }
  split; [|split; [|split; [|split]]].
  - unfold off_magicStart in *. rewrite get32_store_crc by lia. exact Hm.
  - unfold off_logicalPageNo in *. rewrite get32_store_crc by lia. exact Hlg.
  - unfold page_serial, off_serial in *. rewrite get32_store_crc by lia. exact Hs.
  - rewrite header_is_mtt_store_crc by lia. rewrite Hm, Hlg, Z.eqb_refl. reflexivity.
  - intros r Hr. unfold TT_RECORDS_PER_PAGE in Hr.
    assert (forall off, 16 <= off < 4096 -> get8 (store_crc p3) off = 0xff) as Hb.
    { intros off Hoff. rewrite get8_store_crc_other by lia.
      unfold p3, set32, off_serial, off_logicalPageNo, off_magicStart.
      rewrite !get8_set16_other by lia.
      apply get8_erased_page. unfold PAGE_SIZE. lia. }
    unfold get_pageInfo, get16, off_pageInfos, sizeof_TransTableHeader, sizeof_PageInfo.
    rewrite !Hb by lia. reflexivity.
Qed.

(** X13. A page built by [initTransTablePage] carries the magic number,
    the logical page number it was built for and serial 1, its header
    passes the validity check of [loadFTL] exactly when it was built for
    logical page 0, and every one of its 1024 records is unmapped. *)
Theorem initTransTablePage_valid_and_blank logicalPageNo :
  get32 (initTransTablePage logicalPageNo) off_magicStart = TT_PAGE_MAGIC /\
  get32 (initTransTablePage logicalPageNo) off_logicalPageNo = u32 logicalPageNo /\
  page_serial (initTransTablePage logicalPageNo) = 1 /\
  header_is_mtt (header_of (initTransTablePage logicalPageNo)) = (u32 logicalPageNo =? 0) /\
  forall r, 0 <= r < TT_RECORDS_PER_PAGE ->
    get_pageInfo (initTransTablePage logicalPageNo) r = unmapped_PageInfo.
Proof. exact (initTransTablePage_props logicalPageNo). Qed.

End Headers.

(** ** Reading sectors *)

Section ReadPath.

Context {D : Type}.
Variable hal : Hal D.
Variable indeterminatePageInfo : PageInfo.
Implicit Types (f : FrFTL D).

Lemma cache_only_refl f : cache_only f f.
Proof.
  split; [apply same_but_cache_refl|]. split; [apply reads_only_refl|].
  intros j _. apply same_fields_refl.
Qed.

Lemma cache_only_trans f1 f2 f3 :
  cache_only f1 f2 -> cache_only f2 f3 -> cache_only f1 f3.
Proof.
  intros (A1 & B1 & C1) (A2 & B2 & C2).
  split; [eapply same_but_cache_trans; eauto|].
  split; [eapply reads_only_trans; eauto|].
  intros j Hj. specialize (C1 j Hj).
  eapply same_fields_trans; [|exact C1].
  apply C2. apply same_fields_inv in C1 as (_ & _ & E & _). congruence.
Qed.

Lemma load_cache_only f l p r f' :
  loadPhysicalPageInBuffer hal f l p = (r, f') -> cache_only f f'.
Proof.
  intros H. apply load_effect in H as (Hc & Hr & H).
  split; [exact Hc|]. split; [exact Hr|]. intros j Hj.
  destruct r as [i|].
  - destruct H as (_ & [(_ & Hs) | (_ & Hu & _ & Hs)]); [apply Hs|].
    apply Hs. intros ->. congruence.
  - destruct H as (_ & H). destruct (H j) as [Hs | (Hu & _)]; [exact Hs | congruence].
Qed.

Lemma readPhysicalPageInfo_cache_only f pinfo l p recordNo ok pinfo' f' :
  readPhysicalPageInfo hal f pinfo l p recordNo = (ok, pinfo', f') -> cache_only f f'.
Proof.
  unfold readPhysicalPageInfo.
  destruct (loadPhysicalPageInBuffer hal f l p) as [[i|] f1] eqn:E;
    intros H; injection H as <- <- <-; eapply load_cache_only; eauto.
Qed.

Lemma readPageInfo_cache_only f pinfo l ok pinfo' f' :
  readPageInfo hal indeterminatePageInfo f pinfo l = (ok, pinfo', f') -> cache_only f f'.
Proof.
  unfold readPageInfo.
  destruct (u16 l <? TT_RECORDS_PER_PAGE).
  - apply readPhysicalPageInfo_cache_only.
  - destruct (readPhysicalPageInfo hal f indeterminatePageInfo 0 (mttPhysicalPageNo f) _)
      as [[ok1 info1] f1] eqn:E1.
    apply readPhysicalPageInfo_cache_only in E1.
    destruct ok1.
    + intros H. apply readPhysicalPageInfo_cache_only in H.
      eapply cache_only_trans; eauto.
    + intros H; injection H as <- <- <-. exact E1.
Qed.

(** X14. [ftlReadSector] never programs or erases: between the call and
    its return the flash was only read, the state map, the write frontier
    and the location of the master TT are unchanged, and every locked slot
    of the cache is as it was.  This holds whether it returns true or
    false. *)
Theorem ftlReadSector_reads_only f sectorNo r f' :
  ftlReadSector hal indeterminatePageInfo f sectorNo = (r, f') ->
  cache_only f f'.
Proof.
  unfold ftlReadSector.
  destruct (u32 sectorNo >=? usableSectorCount f).
  { intros H; injection H as <- <-. apply cache_only_refl. }
  destruct (readPageInfo hal indeterminatePageInfo f indeterminatePageInfo _)
    as [[ok pinfo] f1] eqn:E1.
  apply readPageInfo_cache_only in E1.
  destruct (negb _).
  { intros H; injection H as <- <-. exact E1. }
  unfold readPhysicalSector.
  destruct (loadPhysicalPageInBuffer hal f1 _ _) as [[i|] f2] eqn:E2;
    intros H; injection H as <- <-;
    apply load_cache_only in E2; eapply cache_only_trans; eauto.
Qed.

(** X15. A [programPageInBuffer] that fails leaves the buffer pending: the
    slot keeps its lock, its program mode and its logical and physical page
    numbers, the other slots and the location of the master TT are
    unchanged, and no page that was USED has lost that state.  The call
    has issued at most one erase followed by at most one program. *)
Theorem programPageInBuffer_failure_keeps_buffer f i f' :
  programPageInBuffer hal f i = (false, f') ->
  (pb_lock (slot f' i) = pb_lock (slot f i) /\
   pb_pMode (slot f' i) = pb_pMode (slot f i) /\
   pb_logicalPageNo (slot f' i) = pb_logicalPageNo (slot f i) /\
   pb_physicalPageNo (slot f' i) = pb_physicalPageNo (slot f i)) /\
  (forall j, j <> i -> slot f' j = slot f j) /\
  mttPhysicalPageNo f' = mttPhysicalPageNo f /\
  (forall q, getPhysicalPageState f q = USED -> getPhysicalPageState f' q = USED) /\
  exists evs, emitted f f' evs /\ program_events (pb_logicalPageNo (slot f i)) evs.
Proof.
  intros H. apply program_effect in H. cbv zeta in H.
  destruct H as (_ & Hother & (Hl & Hk & Hm & _) & _ & Hev & Hplace).
  destruct Hplace as [(Hmtt & Hph & Hused & _) | (Hok & _)]; [|discriminate].
  repeat split; auto.
Qed.

End ReadPath.

(** ** Format *)

Section Format.

Context {D : Type}.
Variable hal : Hal D.
Implicit Types (f : FrFTL D).

Lemma new_events_emitted f f' evs : emitted f f' evs -> new_events f f' = evs.
Proof.
  unfold emitted, new_events. intros ->.
  rewrite skipn_app, skipn_all, Nat.sub_diag. reflexivity.
Qed.

(** What [createFTL] does for one translation-table page: an erase if the
    page is not known to be erased, the program, the mark. *)
Lemma create_program_spec f no data :
  physicalPageCount f <= 32768 ->
  physicalPageCount f <= 16 * Z.of_nat (length (physicalPageState f)) ->
  0 <= no < physicalPageCount f ->
  let f' := create_program hal f no data in
  (physicalPageCount f' = physicalPageCount f /\ ttPageCount f' = ttPageCount f /\
   writeFrontier f' = writeFrontier f /\ mttPhysicalPageNo f' = mttPhysicalPageNo f /\
   pageBuffer f' = pageBuffer f /\
   length (physicalPageState f') = length (physicalPageState f)) /\
  getPhysicalPageState f' no = USED /\
  (forall q, 0 <= q < physicalPageCount f -> q <> no ->
     getPhysicalPageState f' q = getPhysicalPageState f q) /\
  exists evs, emitted f f' evs /\
    filter is_program evs = [EvProgram no (u32 (no * PAGE_SIZE))].
Proof.
  intros HP Hlen Hno. unfold create_program.
  set (addr := u32 (no * PAGE_SIZE)).
  set (f1 := if negb (state_eqb (getPhysicalPageState f no) ERASED)
             then snd (call_flashErase hal f addr) else f).
  assert (exists d1 e1, f1 = mkFrFTL (mttPhysicalPageNo f) (physicalPageCount f)
            (ttPageCount f) (usableSectorCount f) (writeFrontier f)
            (physicalPageState f) (physicalPageStateResolved f) (pageBuffer f)
            (pageBufferSize f) d1 (trace f ++ e1) /\ filter is_program e1 = [])
    as (d1 & e1 & E1 & Hp1).
  { unfold f1. destruct (negb _).
    - unfold call_flashErase. destruct (flashErase hal (dev f) addr) as [ok d].
      exists d, [EvErase addr]. split; reflexivity.
    - exists (dev f), []. rewrite app_nil_r. split; [destruct f; reflexivity | reflexivity]. }
  clearbody f1. subst f1.
  unfold call_flashProgram. simpl dev.
  destruct (flashProgram hal d1 addr data) as [okp d2]. cbn [snd].
  cbv zeta.
  split; [|split; [|split]].
  - unfold setPhysicalPageState; simpl. repeat split; auto. apply zupd_length.
  - apply getPhysicalPageState_set_same. rewrite i16_small by lia.
    cbn [physicalPageState set_dev]. lia.
  - intros q Hq Hne. rewrite getPhysicalPageState_set_other
      by (rewrite !i16_small by lia; lia).
    apply getPhysicalPageState_congr. reflexivity.
  - exists (e1 ++ [EvProgram no addr]). split.
    + unfold emitted; simpl. rewrite app_assoc. reflexivity.
    + rewrite filter_app, Hp1. reflexivity.
Qed.

Lemma createFTL_loop_spec n : forall i f mtt,
  physicalPageCount f <= 32768 ->
  physicalPageCount f <= 16 * Z.of_nat (length (physicalPageState f)) ->
  0 <= i -> i + Z.of_nat n <= physicalPageCount f ->
  let f' := fst (createFTL_loop hal n i f mtt) in
  (physicalPageCount f' = physicalPageCount f /\ ttPageCount f' = ttPageCount f /\
   writeFrontier f' = writeFrontier f /\ mttPhysicalPageNo f' = mttPhysicalPageNo f /\
   pageBuffer f' = pageBuffer f /\
   length (physicalPageState f') = length (physicalPageState f)) /\
  (forall q, i <= q < i + Z.of_nat n -> getPhysicalPageState f' q = USED) /\
  (forall q, 0 <= q < physicalPageCount f -> ~ (i <= q < i + Z.of_nat n) ->
     getPhysicalPageState f' q = getPhysicalPageState f q) /\
  exists evs, emitted f f' evs /\
    filter is_program evs
    = map (fun k => EvProgram (Z.of_nat k) (u32 (Z.of_nat k * PAGE_SIZE)))
        (seq (Z.to_nat i) n).
Proof.
  induction n as [|n IH]; intros i f mtt HP Hlen Hi Hn; cbn [createFTL_loop].
  - cbv zeta; cbn [fst]. split; [repeat split; auto|]. split; [intros q Hq; lia|].
    split; [auto|]. exists []. split; [apply emitted_refl | reflexivity].
  - destruct (create_program_spec f i (initTransTablePage i) HP Hlen ltac:(lia))
      as ((EP & ET & Ew & Em & Eb & El) & Hu & Ho & (e1 & He1 & Hp1)).
    set (f1 := create_program hal f i (initTransTablePage i)) in *.
    specialize (IH (i + 1) f1 (set_pageInfo i (mkPageInfo i 0) mtt)).
    cbv zeta in IH. rewrite EP, El in IH.
    destruct (IH HP Hlen ltac:(lia) ltac:(lia))
      as ((EP2 & ET2 & Ew2 & Em2 & Eb2 & El2) & Hu2 & Ho2 & (e2 & He2 & Hp2)).
    cbv zeta.
    split; [repeat split; congruence|]. split; [|split].
    + intros q Hq. destruct (Z.eq_dec q i) as [->|Hne].
      * rewrite Ho2 by lia. exact Hu.
      * apply Hu2. lia.
    + intros q Hq Hout. rewrite Ho2 by lia. apply Ho; lia.
    + exists (e1 ++ e2). split; [exact (emitted_trans _ _ _ _ _ He1 He2)|].
      rewrite filter_app, Hp1, Hp2. cbn [seq map app].
      rewrite Z2Nat.id by lia.
      replace (Z.to_nat (i + 1)) with (S (Z.to_nat i)) by lia. reflexivity.
Qed.

(** The order in which [createFTL] programs the translation tables, and
    the handle it leaves. *)
Lemma createFTL_events f :
  1 <= ttPageCount f <= physicalPageCount f ->
  physicalPageCount f <= 32768 ->
  physicalPageCount f <= 16 * Z.of_nat (length (physicalPageState f)) ->
  filter is_program (new_events f (createFTL hal f))
  = map (fun k => EvProgram (Z.of_nat k) (u32 (Z.of_nat k * PAGE_SIZE)))
      (seq 1 (Z.to_nat (ttPageCount f - 1)))
    ++ [EvProgram 0 0] /\
  writeFrontier (createFTL hal f) = ttPageCount f /\
  (forall q, 0 <= q < ttPageCount f -> getPhysicalPageState (createFTL hal f) q = USED) /\
  mttPhysicalPageNo (createFTL hal f) = mttPhysicalPageNo f /\
  pageBuffer (createFTL hal f) = pageBuffer f.
Proof.
  intros HT HP Hlen. unfold createFTL.
  set (f0 := set_writeFrontier 0 f).
  pose proof (resolveUnknownState_frame hal f0 (pageBufferSize f))
    as (Rm & RP & RT & _ & Rw & Rb & _ & _).
  assert (exists e0, emitted f (resolveUnknownState hal f0 (pageBufferSize f)) e0 /\
                     filter is_program e0 = []) as (e0 & He0 & Hp0).
  { unfold resolveUnknownState.
    destruct (physicalPageStateResolved f0).
    { exists []. split; [unfold emitted; simpl; rewrite app_nil_r; reflexivity | reflexivity]. }
    destruct (resolveUnknownState_loop hal _ f0 (writeFrontier f0)
                (u16 (pageBufferSize f))) as [g early] eqn:E.
    apply resolveUnknownState_loop_spec in E as (_ & _ & _ & (evs & He & Hpr & _));
      try exact HP; try exact Hlen; try (change (0 <= 0 < physicalPageCount f); lia).
    exists evs. split; [destruct early; exact He|].
    clear - Hpr. induction evs as [|e t IH]; [reflexivity|].
    simpl in Hpr. apply andb_prop in Hpr as [H1 H2].
    destruct e; try discriminate. simpl. auto. }
  assert (length (physicalPageState (resolveUnknownState hal f0 (pageBufferSize f)))
          = length (physicalPageState f)) as Rl.
  { unfold resolveUnknownState.
    destruct (physicalPageStateResolved f0); [reflexivity|].
    destruct (resolveUnknownState_loop hal _ f0 (writeFrontier f0)
                (u16 (pageBufferSize f))) as [g early] eqn:E.
    apply resolveUnknownState_loop_spec in E as ((_ & _ & _ & El) & _);
      try exact HP; try exact Hlen; try (change (0 <= 0 < physicalPageCount f); lia).
    destruct early; exact El. }
  set (f1 := resolveUnknownState hal f0 (pageBufferSize f)) in *.
  change (physicalPageCount f0) with (physicalPageCount f) in *.
  change (ttPageCount f0) with (ttPageCount f) in *.
  change (mttPhysicalPageNo f0) with (mttPhysicalPageNo f) in *.
  change (pageBuffer f0) with (pageBuffer f) in *.
  set (mtt := set_pageInfo 0 (mkPageInfo 0 0) (initTransTablePage 0)).
  pose proof (createFTL_loop_spec (Z.to_nat (ttPageCount f1 - 1)) 1 f1 mtt) as L.
  cbv zeta in L. rewrite RP, Rl, RT in L.
  destruct (L HP Hlen ltac:(lia) ltac:(lia))
    as ((EP2 & ET2 & Ew2 & Em2 & Eb2 & El2) & Hu2 & Ho2 & (e2 & He2 & Hp2)).
  rewrite RT.
  destruct (createFTL_loop hal (Z.to_nat (ttPageCount f - 1)) 1 f1 mtt) as [f2 mtt1].
  cbn [fst] in *.
  destruct (create_program_spec f2 0 mtt1) as ((EP3 & ET3 & Ew3 & Em3 & Eb3 & El3)
                                               & Hu3 & Ho3 & (e3 & He3 & Hp3));
    try lia.
  set (f3 := create_program hal f2 0 mtt1) in *.
  split; [|split; [|split; [|split]]].
  - assert (emitted f (set_writeFrontier (ttPageCount f3) f3) (e0 ++ e2 ++ e3)) as He.
    { eapply emitted_trans; [exact He0|]. eapply emitted_trans; [exact He2|]. exact He3. }
    rewrite (new_events_emitted _ _ _ He).
    rewrite !filter_app, Hp0, Hp2, Hp3. reflexivity.
  - change (ttPageCount f3 = ttPageCount f). congruence.
  - intros q Hq. change (getPhysicalPageState f3 q = USED).
    destruct (Z.eq_dec q 0) as [->|Hne]; [exact Hu3|].
    rewrite Ho3 by lia. apply Hu2. lia.
  - change (mttPhysicalPageNo f3 = mttPhysicalPageNo f). congruence.
  - change (pageBuffer f3 = pageBuffer f). congruence.
Qed.

End Format.

(** ** What [createFTL] programs *)

Section FormatLog.

Context {D : Type}.
Variable hal : Hal D.
Implicit Types (f : FrFTL D) (g : FrFTL (D * list (Z * Page))) (p : Page).

Lemma create_program_log g no data :
  programmed (create_program (recording hal) g no data)
  = programmed g ++ [(u32 (no * PAGE_SIZE), data)].
Proof.
  unfold create_program, programmed.
  set (addr := u32 (no * PAGE_SIZE)).
  set (g1 := if negb (state_eqb (getPhysicalPageState g no) ERASED)
             then snd (call_flashErase (recording hal) g addr) else g).
  assert (snd (dev g1) = snd (dev g)) as E1.
  { unfold g1. destruct (negb _); [|reflexivity].
    unfold call_flashErase. cbn [flashErase recording].
    destruct (flashErase hal (fst (dev g)) addr) as [ok d]. reflexivity. }
  clearbody g1. unfold call_flashProgram. cbn [flashProgram recording].
  destruct (flashProgram hal (fst (dev g1)) addr data) as [ok d].
  cbn. rewrite E1. reflexivity.
Qed.

Lemma createFTL_loop_log n : forall i g mtt,
  0 <= i ->
  programmed (fst (createFTL_loop (recording hal) n i g mtt))
  = programmed g
    ++ map (fun k => (u32 (Z.of_nat k * PAGE_SIZE), initTransTablePage (Z.of_nat k)))
         (seq (Z.to_nat i) n).
Proof.
  induction n as [|n IH]; intros i g mtt Hi; cbn [createFTL_loop].
  - cbn. rewrite app_nil_r. reflexivity.
  - rewrite IH by lia. rewrite create_program_log. rewrite <- app_assoc.
    cbn [seq map app]. rewrite Z2Nat.id by lia.
    replace (Z.to_nat (i + 1)) with (S (Z.to_nat i)) by lia. reflexivity.
Qed.

(** The master TT that the loop of [createFTL] builds. *)
Lemma createFTL_loop_page {E : Type} (h : Hal E) n : forall i (f : FrFTL E) mtt,
  0 <= i -> i + Z.of_nat n <= TT_RECORDS_PER_PAGE ->
  length mtt = Z.to_nat PAGE_SIZE ->
  let mtt' := snd (createFTL_loop h n i f mtt) in
  length mtt' = Z.to_nat PAGE_SIZE /\
  header_of mtt' = header_of mtt /\
  (forall k, i <= k < i + Z.of_nat n -> get_pageInfo mtt' k = mkPageInfo k 0) /\
  (forall k, 0 <= k -> ~ (i <= k < i + Z.of_nat n) ->
     get_pageInfo mtt' k = get_pageInfo mtt k).
Proof.
  induction n as [|n IH]; intros i f mtt Hi Hn Hlen; cbn [createFTL_loop].
  - cbv zeta; cbn [snd]. repeat split; auto. intros k Hk. lia.
  - unfold TT_RECORDS_PER_PAGE in *.
    assert (off_pageInfos i + 2 < Z.of_nat (length mtt)) as Hoff.
    { rewrite Hlen. unfold off_pageInfos, sizeof_TransTableHeader, sizeof_PageInfo, PAGE_SIZE.
      lia. }
    destruct (set_pageInfo_spec mtt i (mkPageInfo i 0) Hi Hoff) as (Hsame & Hother & Hhdr).
    specialize (IH (i + 1) (create_program h f i (initTransTablePage i))
                  (set_pageInfo i (mkPageInfo i 0) mtt)).
    cbv zeta in IH.
    destruct IH as (L & Hh & Hin & Hout); try lia.
    { rewrite set_pageInfo_keeps_length. exact Hlen. }
    cbv zeta. split; [exact L|]. split; [congruence|]. split.
    + intros k Hk. destruct (Z.eq_dec k i) as [->|Hne].
      * rewrite Hout by lia. rewrite Hsame. cbn [pi_physicalPageNo pi_sectStatus].
        rewrite i16_small by lia. reflexivity.
      * apply Hin. lia.
    + intros k Hk Hout'. rewrite Hout by lia. apply Hother; lia.
Qed.


Lemma initTransTablePage_length l : length (initTransTablePage l) = Z.to_nat PAGE_SIZE.
Proof.
  change (initTransTablePage l)
    with (store_crc (set32 off_serial 1 (set32 off_logicalPageNo l
                       (set32 off_magicStart TT_PAGE_MAGIC erased_page)))).
  rewrite store_crc_length, !set32_length. apply repeat_length.
Qed.

(** X16. [createFTL] programs the secondary translation tables, pages 1 to
    T-1 in this order, each with the page [initTransTablePage] builds for
    it, and after them, at address 0, the master translation table: a
    page with the header of [initTransTablePage(0)], whose records 0 to
    T-1 map the translation-table pages to the physical pages 0 to T-1 and
    whose other records are unmapped.  The callbacks are those of
    [recording hal], which keeps a log of the address and the data of
    every [flashProgram] call.  [createFTL] leaves the write frontier at
    page T, the pages 0 to T-1 marked USED, and the cache and
    [mttPhysicalPageNo] as they were. *)
Theorem createFTL_programs_master_last g :
  1 <= ttPageCount g <= physicalPageCount g ->
  ttPageCount g <= TT_RECORDS_PER_PAGE ->
  physicalPageCount g <= 32768 ->
  physicalPageCount g <= 16 * Z.of_nat (length (physicalPageState g)) ->
  (exists mtt,
     programmed (createFTL (recording hal) g)
     = programmed g
       ++ map (fun k => (u32 (Z.of_nat k * PAGE_SIZE), initTransTablePage (Z.of_nat k)))
            (seq 1 (Z.to_nat (ttPageCount g - 1)))
       ++ [(0, mtt)] /\
     length mtt = Z.to_nat PAGE_SIZE /\
     header_of mtt = header_of (initTransTablePage 0) /\
     (forall k, 0 <= k < ttPageCount g -> get_pageInfo mtt k = mkPageInfo k 0) /\
     (forall k, ttPageCount g <= k < TT_RECORDS_PER_PAGE ->
        get_pageInfo mtt k = unmapped_PageInfo)) /\
  filter is_program (new_events g (createFTL (recording hal) g))
  = map (fun k => EvProgram (Z.of_nat k) (u32 (Z.of_nat k * PAGE_SIZE)))
      (seq 1 (Z.to_nat (ttPageCount g - 1)))
    ++ [EvProgram 0 0] /\
  writeFrontier (createFTL (recording hal) g) = ttPageCount g /\
  (forall q, 0 <= q < ttPageCount g ->
     getPhysicalPageState (createFTL (recording hal) g) q = USED) /\
  mttPhysicalPageNo (createFTL (recording hal) g) = mttPhysicalPageNo g /\
  pageBuffer (createFTL (recording hal) g) = pageBuffer g.
Proof.
  intros HT HT2 HP Hlen.
  split; [|exact (createFTL_events (recording hal) g HT HP Hlen)].
  unfold createFTL.
  set (g1 := resolveUnknownState (recording hal) (set_writeFrontier 0 g) (pageBufferSize g)).
  assert (programmed g1 = programmed g /\ ttPageCount g1 = ttPageCount g) as (Eg1 & ET1).
  { pose proof (resolveUnknownState_frame (recording hal) (set_writeFrontier 0 g)
                  (pageBufferSize g)) as (_ & _ & RT & _ & _ & _ & _ & Rd).
    fold g1 in RT, Rd. unfold programmed. rewrite Rd. split; [reflexivity | exact RT]. }
  set (mtt0 := set_pageInfo 0 (mkPageInfo 0 0) (initTransTablePage 0)).
  pose proof (initTransTablePage_length 0) as L0.
  assert (off_pageInfos 0 + 2 < Z.of_nat (length (initTransTablePage 0))) as Hoff
      by (rewrite L0; vm_compute; reflexivity).
  destruct (set_pageInfo_spec (initTransTablePage 0) 0 (mkPageInfo 0 0) ltac:(lia) Hoff)
    as (H0s & H0o & H0h).
  fold mtt0 in H0s, H0o, H0h.
  pose proof (createFTL_loop_log (Z.to_nat (ttPageCount g1 - 1)) 1 g1 mtt0 ltac:(lia)) as Hlog.
  pose proof (createFTL_loop_page (recording hal) (Z.to_nat (ttPageCount g1 - 1)) 1 g1 mtt0
                ltac:(lia) ltac:(rewrite ET1; lia)
                ltac:(unfold mtt0; rewrite set_pageInfo_keeps_length; exact L0))
    as (L1 & Hh1 & Hin1 & Hout1).
  cbv zeta in L1, Hh1, Hin1, Hout1.
  destruct (createFTL_loop (recording hal) (Z.to_nat (ttPageCount g1 - 1)) 1 g1 mtt0)
    as [g2 mtt1].
  cbn [fst snd] in *.
  exists mtt1. split; [|split; [exact L1|split; [congruence|split]]].
  - transitivity (programmed (create_program (recording hal) g2 0 mtt1)); [reflexivity|].
    rewrite create_program_log, Hlog, Eg1, ET1, <- app_assoc. reflexivity.
  - intros k Hk. destruct (Z.eq_dec k 0) as [->|Hne].
    + rewrite Hout1 by lia. rewrite H0s. reflexivity.
    + apply Hin1. lia.
  - intros k Hk. unfold TT_RECORDS_PER_PAGE in *. rewrite Hout1 by lia.
    rewrite H0o by lia.
    apply (initTransTablePage_props 0). unfold TT_RECORDS_PER_PAGE. lia.
Qed.

End FormatLog.

(** ** The ranks of the cache across the calls *)

Section Ranks.

Context {D : Type}.
Variable hal : Hal D.
Variable indeterminatePageInfo : PageInfo.
Implicit Types (f : FrFTL D).

Lemma ranks_kept_refl f : ranks_kept f f.
Proof. split; [apply Permutation_refl | split; reflexivity]. Qed.

Lemma ranks_kept_trans f1 f2 f3 :
  ranks_kept f1 f2 -> ranks_kept f2 f3 -> ranks_kept f1 f3.
Proof.
  intros (A1 & B1 & C1) (A2 & B2 & C2).
  split; [eapply Permutation_trans; eauto | split; congruence].
Qed.

Lemma ranks_kept_buffers f f' :
  pageBuffer f' = pageBuffer f -> pageBufferSize f' = pageBufferSize f -> ranks_kept f f'.
Proof.
  intros E1 E2. unfold ranks_kept, lru_order, nslots. rewrite E1, E2.
  split; [apply Permutation_refl | split; reflexivity].
Qed.

Lemma ranks_kept_upd_slot f i g :
  (forall b, pb_lru (g b) = pb_lru b) -> ranks_kept f (upd_slot i g f).
Proof.
  intros Hg. split; [|split; [apply nslots_upd_slot | reflexivity]].
  unfold lru_order, upd_slot, set_slot, slot; simpl.
  unfold zupd, zth. destruct (i <? 0); [apply Permutation_refl|].
  rewrite map_upd, Hg, <- (map_nth pb_lru), upd_nth_same. apply Permutation_refl.
Qed.

Lemma ranks_kept_update_lru f i : ranks_kept f (update_lru f i).
Proof.
  split; [|split; [apply nslots_update_lru | reflexivity]].
  unfold lru_order, update_lru; simpl.
  rewrite write_lrus_lru.
  - apply lru_promote_perm.
  - rewrite (Permutation_length (lru_promote_perm _ _)), length_map. reflexivity.
Qed.

Lemma ranks_kept_lru_ok f f' : ranks_kept f f' -> lru_ok f -> lru_ok f'.
Proof.
  intros (A & B & _) H. unfold lru_ok in *. unfold lru_order in A.
  unfold nslots in B. apply Nat2Z.inj in B. rewrite B.
  eapply Permutation_trans; eauto.
Qed.

Lemma ranks_kept_cache_ranked f f' : ranks_kept f f' -> cache_ranked f -> cache_ranked f'.
Proof.
  intros K [H1 H2]. split; [eapply ranks_kept_lru_ok; eauto|].
  destruct K as (_ & B & C). congruence.
Qed.

Lemma ranks_kept_load f l p r f' :
  loadPhysicalPageInBuffer hal f l p = (r, f') -> ranks_kept f f'.
Proof.
  intros H. apply load_cases in H.
  destruct H as [(i & _ & _ & ->) | (_ & [(_ & _ & ->) | (i & _ & H)])].
  - apply ranks_kept_update_lru.
  - apply ranks_kept_refl.
  - cbv zeta in H.
    assert (ranks_kept f (set_dev (dev f) (EvRead (u32 (u16 p * PAGE_SIZE)) PAGE_SIZE)
                            (upd_slot i (pb_with_physical (-1)) f))) as K3.
    { eapply ranks_kept_trans;
        [apply (ranks_kept_upd_slot f i (pb_with_physical (-1))); reflexivity|].
      apply ranks_kept_buffers; reflexivity. }
    destruct H as [(_ & _ & ->) | (data & _ & _ & ->)]; [exact K3|].
    exact (ranks_kept_trans _ _ _ K3
             (ranks_kept_trans _ _ _
                (ranks_kept_upd_slot _ i (loaded_slot l p data) (fun b => eq_refl))
                (ranks_kept_update_lru _ i))).
Qed.

Lemma lru_order_ext f f' :
  nslots f' = nslots f ->
  (forall j, pb_lru (slot f' j) = pb_lru (slot f j)) ->
  lru_order f' = lru_order f.
Proof.
  intros Hn Hl. unfold lru_order.
  apply (nth_ext _ _ 0 0).
  - rewrite !length_map. unfold nslots in Hn. lia.
  - intros n Hn'. specialize (Hl (Z.of_nat n)). unfold slot, zth in Hl.
    destruct (Z.ltb_spec (Z.of_nat n) 0); [lia|].
    rewrite Nat2Z.id in Hl.
    change 0 with (pb_lru no_buffer).
    rewrite !(map_nth pb_lru). exact Hl.
Qed.

Lemma ranks_kept_program f i ok f' :
  programPageInBuffer hal f i = (ok, f') -> ranks_kept f f'.
Proof.
  intros H. apply program_effect in H. cbv zeta in H.
  destruct H as ((_ & _ & _ & Hsz & Hn) & Hother & (_ & _ & _ & Hlru) & _).
  split; [|split; auto].
  rewrite (lru_order_ext f f' Hn); [apply Permutation_refl|].
  intros j. destruct (Z.eq_dec j i) as [->|Hne]; [exact Hlru|].
  rewrite Hother by exact Hne. reflexivity.
Qed.

Lemma ranks_kept_allocate f new f' :
  allocatePhysicalPage f = (new, f') -> ranks_kept f f'.
Proof.
  intros H. apply allocate_effect in H as ([w ->] & _).
  apply ranks_kept_buffers; reflexivity.
Qed.

Lemma ranks_kept_resolve f count : ranks_kept f (resolveUnknownState hal f count).
Proof.
  pose proof (resolveUnknownState_frame hal f count) as (_ & _ & _ & _ & _ & Eb & Es & _).
  apply ranks_kept_buffers; auto.
Qed.

End Ranks.

(** ** Relations that the calls keep

    A relation between the handle before and after a step that is
    reflexive and transitive and holds across the steps the calls are made
    of (a change of a slot that leaves its [lru] alone, an LRU promotion,
    a page load, a page program, an allocation, a run of the resolver)
    holds across [ftlSync], [ftlWriteSector] and [ftlReadSector]. *)

Section Calls.

Context {D : Type}.
Variable hal : Hal D.
Variable indeterminatePageInfo : PageInfo.
Implicit Types (f : FrFTL D).

Variable R : FrFTL D -> FrFTL D -> Prop.
Hypothesis R_refl : forall f, R f f.
Hypothesis R_trans : forall f1 f2 f3, R f1 f2 -> R f2 f3 -> R f1 f3.
Hypothesis R_slot : forall f i g,
  (forall b, pb_lru (g b) = pb_lru b) -> R f (upd_slot i g f).
Hypothesis R_lru : forall f i, R f (update_lru f i).
Hypothesis R_load : forall f l p r f',
  loadPhysicalPageInBuffer hal f l p = (r, f') -> R f f'.
Hypothesis R_program : forall f i ok f',
  programPageInBuffer hal f i = (ok, f') -> R f f'.
Hypothesis R_allocate : forall f new f', allocatePhysicalPage f = (new, f') -> R f f'.
Hypothesis R_resolve : forall f count, R f (resolveUnknownState hal f count).

Lemma rel_readPhysicalPageInfo f pinfo l p recordNo ok pinfo' f' :
  readPhysicalPageInfo hal f pinfo l p recordNo = (ok, pinfo', f') -> R f f'.
Proof.
  unfold readPhysicalPageInfo.
  destruct (loadPhysicalPageInBuffer hal f l p) as [[i|] f1] eqn:E;
    intros H; injection H as <- <- <-; eapply R_load; eauto.
Qed.

Lemma rel_readPageInfo f pinfo l ok pinfo' f' :
  readPageInfo hal indeterminatePageInfo f pinfo l = (ok, pinfo', f') -> R f f'.
Proof.
  unfold readPageInfo.
  destruct (u16 l <? TT_RECORDS_PER_PAGE).
  - apply rel_readPhysicalPageInfo.
  - destruct (readPhysicalPageInfo hal f indeterminatePageInfo 0 (mttPhysicalPageNo f) _)
      as [[ok1 info1] f1] eqn:E1.
    apply rel_readPhysicalPageInfo in E1.
    destruct ok1.
    + intros H. apply rel_readPhysicalPageInfo in H.
      eapply R_trans; eauto.
    + intros H; injection H as <- <- <-. exact E1.
Qed.

Lemma rel_updatePhysicalPageInfo f pinfo l p recordNo ok f' :
  updatePhysicalPageInfo hal f pinfo l p recordNo = (ok, f') -> R f f'.
Proof.
  unfold updatePhysicalPageInfo.
  destruct (loadPhysicalPageInBuffer hal f l p) as [[i|] f1] eqn:E;
    intros H; injection H as <- <-; apply R_load in E; [|exact E].
  eapply R_trans; [exact E|].
  apply R_slot. intros b. destruct (mode_eqb _ _); reflexivity.
Qed.

Lemma rel_updatePageInfo f pinfo l ok f' :
  updatePageInfo hal indeterminatePageInfo f pinfo l = (ok, f') -> R f f'.
Proof.
  unfold updatePageInfo.
  destruct (u16 l <? TT_RECORDS_PER_PAGE).
  - apply rel_updatePhysicalPageInfo.
  - destruct (readPhysicalPageInfo hal f indeterminatePageInfo 0 (mttPhysicalPageNo f) _)
      as [[ok1 info1] f1] eqn:E1.
    apply rel_readPhysicalPageInfo in E1.
    destruct ok1.
    + intros H. apply rel_updatePhysicalPageInfo in H.
      eapply R_trans; eauto.
    + intros H; injection H as <- <-. exact E1.
Qed.

Lemma rel_unlock f i : R f (unlock_slot i f).
Proof. apply R_slot. reflexivity. Qed.

Lemma rel_sync_data n : forall i f ok f',
  sync_data hal indeterminatePageInfo n i f = (ok, f') -> R f f'.
Proof.
  induction n as [|n IH]; intros i f ok f' H; cbn [sync_data] in H.
  - injection H as <- <-. apply R_refl.
  - cbv zeta in H. destruct (_ && _); [|eapply IH; eauto].
    destruct (programPageInBuffer hal f i) as [ok1 f1] eqn:E1.
    apply R_program in E1.
    destruct ok1; [|injection H as <- <-; exact E1].
    destruct (readPageInfo hal indeterminatePageInfo f1 indeterminatePageInfo _)
      as [[ok2 pinfo] f2] eqn:E2.
    apply rel_readPageInfo in E2.
    destruct ok2; [|injection H as <- <-; eapply R_trans; eauto].
    destruct (updatePageInfo hal indeterminatePageInfo f2 _ _) as [ok3 f3] eqn:E3.
    apply rel_updatePageInfo in E3.
    destruct ok3.
    + apply IH in H.
      eapply R_trans; [exact E1|]. eapply R_trans; [exact E2|].
      eapply R_trans; [exact E3|].
      eapply R_trans; [apply rel_unlock | exact H].
    + injection H as <- <-.
      eapply R_trans; [exact E1|]. eapply R_trans; eauto.
Qed.

Lemma rel_sync_stt n : forall i m f ok f',
  sync_stt hal n i m f = (ok, f') -> R f f'.
Proof.
  induction n as [|n IH]; intros i m f ok f' H; cbn [sync_stt] in H.
  - injection H as <- <-. apply R_refl.
  - cbv zeta in H. destruct (_ && _); [|eapply IH; eauto].
    destruct (programPageInBuffer hal f i) as [ok1 f1] eqn:E1.
    apply R_program in E1.
    destruct ok1; [|injection H as <- <-; exact E1].
    apply IH in H.
    match type of H with
    | R ?g _ => assert (R f1 g) as K
    end.
    { eapply R_trans; [|apply rel_unlock].
      apply R_slot. reflexivity. }
    exact (R_trans _ _ _ E1 (R_trans _ _ _ K H)).
Qed.

Lemma rel_ftlSync f ok f' :
  ftlSync hal indeterminatePageInfo f = (ok, f') -> R f f'.
Proof.
  unfold ftlSync.
  destruct (sync_data hal indeterminatePageInfo _ 0 f) as [ok1 f1] eqn:E1.
  apply rel_sync_data in E1.
  destruct ok1; [|intros H; injection H as <- <-; exact E1].
  destruct (loadPhysicalPageInBuffer hal f1 0 (mttPhysicalPageNo f1)) as [[m|] f2] eqn:E2;
    apply R_load in E2;
    [|intros H; injection H as <- <-; eapply R_trans; eauto].
  destruct (sync_stt hal _ 0 m f2) as [ok3 f3] eqn:E3.
  apply rel_sync_stt in E3.
  assert (R f f3) as K3
      by (eapply R_trans; [exact E1|]; eapply R_trans; eauto).
  destruct ok3; [|intros H; injection H as <- <-; exact K3].
  unfold sync_mtt. destruct (pb_lock (slot f3 m)).
  - destruct (programPageInBuffer hal f3 m) as [ok4 f4] eqn:E4.
    apply R_program in E4.
    destruct ok4; intros H; injection H as <- <-.
    + eapply R_trans; [exact K3|].
      eapply R_trans; [exact E4 | apply rel_unlock].
    + eapply R_trans; eauto.
  - intros H; injection H as <- <-. exact K3.
Qed.

Lemma rel_init f l p r f' :
  initPhysicalPageInBuffer f l p = (r, f') -> R f f'.
Proof.
  unfold initPhysicalPageInBuffer, findPhysicalPageInBuffer.
  destruct (find_slot 0 (pageBuffer f) (u16 p)) as [i|].
  - intros H; injection H as <- <-. apply R_lru.
  - destruct (pick_unlocked f) as [b|]; intros H; injection H as <- <-.
    + apply R_slot. reflexivity.
    + apply R_refl.
Qed.

Lemma rel_write_overwrite f dataBuffer l s buf ok f' :
  write_overwrite hal indeterminatePageInfo f dataBuffer l s buf = Returned (ok, f') ->
  R f f'.
Proof.
  unfold write_overwrite.
  match goal with
  | |- context [readPageInfo hal indeterminatePageInfo ?g _ _] =>
      assert (R f g) as K1 by (apply R_slot; reflexivity);
      destruct (readPageInfo hal indeterminatePageInfo g indeterminatePageInfo
                  (l / TT_RECORDS_PER_PAGE)) as [[ok2 info] f2] eqn:E2
  end.
  apply rel_readPageInfo in E2.
  assert (R f f2) as K2 by (eapply R_trans; eauto).
  destruct ok2; [|intros H; injection H as <- <-; exact K2].
  destruct (loadPhysicalPageInBuffer hal f2 _ _) as [[tt|] f3] eqn:E3; [|discriminate].
  apply R_load in E3.
  assert (R f (upd_slot tt (lock_for RELOCATE_ERASE_PROGRAM) f3)) as K4.
  { eapply R_trans; [exact K2|]. eapply R_trans; [exact E3|].
    apply R_slot. reflexivity. }
  destruct (_ >? 0).
  - destruct (loadPhysicalPageInBuffer hal _ 0 _) as [[m|] f5] eqn:E5; [|discriminate].
    apply R_load in E5.
    intros H; injection H as <- <-.
    eapply R_trans; [exact K4|]. eapply R_trans; [exact E5|].
    apply R_slot. reflexivity.
  - intros H; injection H as <- <-. exact K4.
Qed.

Lemma rel_write_one f sectorNo buf ok f' :
  write_one hal indeterminatePageInfo f sectorNo buf = Returned (ok, f') ->
  R f f'.
Proof.
  unfold write_one.
  destruct (if negb (hasFreeBuffers f 3) then ftlSync hal indeterminatePageInfo f
            else (true, f)) as [ok0 f0] eqn:E0.
  assert (R f f0) as K0.
  { destruct (negb (hasFreeBuffers f 3)).
    - eapply rel_ftlSync; eauto.
    - injection E0 as <- <-. apply R_refl. }
  destruct ok0; cbn [negb]; [|intros H; injection H as <- <-; exact K0].
  destruct (readPageInfo hal indeterminatePageInfo f0 indeterminatePageInfo _)
    as [[ok1 pinfo] f1] eqn:E1.
  apply rel_readPageInfo in E1.
  assert (R f f1) as K1 by (eapply R_trans; eauto).
  match goal with
  | |- match ?c with _ => _ end = _ -> _ => destruct c as [[[dataBuffer pinfo1]|] f5] eqn:E5
  end.
  - assert (R f f5) as K5.
    { destruct (pi_physicalPageNo pinfo <? 0).
      - destruct (allocatePhysicalPage f1) as [p f2] eqn:E2.
        apply R_allocate in E2.
        destruct (p <? 0); [discriminate|].
        destruct (initPhysicalPageInBuffer f2 _ p) as [[db|] f3] eqn:E3; [|discriminate].
        apply rel_init in E3.
        destruct (updatePageInfo hal indeterminatePageInfo f3 _ _) as [ok4 f4] eqn:E4.
        apply rel_updatePageInfo in E4.
        destruct ok4; [|discriminate]. injection E5 as <- <- <-.
        eapply R_trans; [exact K1|]. eapply R_trans; [exact E2|].
        eapply R_trans; eauto.
      - destruct (loadPhysicalPageInBuffer hal f1 _ _) as [[db|] f2] eqn:E2; [|discriminate].
        apply R_load in E2. injection E5 as <- <- <-.
        eapply R_trans; eauto. }
    destruct (negb (Z.land _ _ =? 0)).
    + destruct (updatePageInfo hal indeterminatePageInfo f5 _ _) as [ok6 f6] eqn:E6.
      apply rel_updatePageInfo in E6.
      destruct ok6; intros H; injection H as <- <-.
      * eapply R_trans; [exact K5|]. eapply R_trans; [exact E6|].
        apply R_slot. intros b. unfold copy_sector, lock_at_least_PROGRAM.
        destruct (mode_eqb _ _); reflexivity.
      * eapply R_trans; eauto.
    + intros H. apply rel_write_overwrite in H. eapply R_trans; eauto.
  - intros H; injection H as <- <-.
    destruct (pi_physicalPageNo pinfo <? 0).
    + destruct (allocatePhysicalPage f1) as [p f2] eqn:E2.
      apply R_allocate in E2.
      destruct (p <? 0).
      { injection E5 as <-. eapply R_trans; eauto. }
      destruct (initPhysicalPageInBuffer f2 _ p) as [[db|] f3] eqn:E3;
        apply rel_init in E3.
      * destruct (updatePageInfo hal indeterminatePageInfo f3 _ _) as [ok4 f4] eqn:E4.
        apply rel_updatePageInfo in E4.
        destruct ok4; [discriminate|]. injection E5 as <-.
        eapply R_trans; [exact K1|]. eapply R_trans; [exact E2|].
        eapply R_trans; eauto.
      * injection E5 as <-.
        eapply R_trans; [exact K1|]. eapply R_trans; eauto.
    + destruct (loadPhysicalPageInBuffer hal f1 _ _) as [[db|] f2] eqn:E2; [discriminate|].
      apply R_load in E2. injection E5 as <-.
      eapply R_trans; eauto.
Qed.

Lemma rel_write_loop n : forall f sectorNo buf ok f',
  write_loop hal indeterminatePageInfo n f sectorNo buf = Returned (ok, f') ->
  R f f'.
Proof.
  induction n as [|n IH]; intros f sectorNo buf ok f' H; cbn [write_loop] in H.
  - injection H as <- <-. apply R_refl.
  - destruct (write_one hal indeterminatePageInfo f sectorNo buf) as [[ok1 f1]| |] eqn:E1;
      try discriminate.
    apply rel_write_one in E1.
    destruct ok1.
    + apply IH in H. eapply R_trans; eauto.
    + injection H as <- <-. exact E1.
Qed.

Lemma rel_ftlWriteSector f startSectorNo noOfSectors buf ok f' :
  ftlWriteSector hal indeterminatePageInfo f startSectorNo noOfSectors buf
  = Returned (ok, f') -> R f f'.
Proof.
  unfold ftlWriteSector.
  pose proof (R_resolve f (ttPageCount f)) as K0.
  destruct (_ >? _).
  - intros H; injection H as <- <-. exact K0.
  - intros H. apply rel_write_loop in H. eapply R_trans; eauto.
Qed.

Lemma rel_ftlReadSector f sectorNo r f' :
  ftlReadSector hal indeterminatePageInfo f sectorNo = (r, f') -> R f f'.
Proof.
  unfold ftlReadSector.
  destruct (u32 sectorNo >=? usableSectorCount f).
  { intros H; injection H as <- <-. apply R_refl. }
  destruct (readPageInfo hal indeterminatePageInfo f indeterminatePageInfo _)
    as [[ok pinfo] f1] eqn:E1.
  apply rel_readPageInfo in E1.
  destruct (negb _).
  { intros H; injection H as <- <-. exact E1. }
  unfold readPhysicalSector.
  destruct (loadPhysicalPageInBuffer hal f1 _ _) as [[i|] f2] eqn:E2;
    intros H; injection H as <- <-;
    apply R_load in E2; eapply R_trans; eauto.
Qed.

End Calls.

(** ** Initialisation *)

Section Init.

Context {D : Type}.
Variable hal : Hal D.
Variables indeterminatePage indeterminateHeader : Page.
Implicit Types (f : FrFTL D).

Lemma i8_small x : -128 <= x < 128 -> i8 x = x.
Proof.
  intros H. unfold i8.
  destruct (Z.ltb_spec 0 (x + 1)).
  - rewrite Z.mod_small by lia. destruct (Z.ltb_spec x 128); lia.
  - replace (x mod 256) with (x + 256).
    + destruct (Z.ltb_spec (x + 256) 128); lia.
    + apply Z.mod_unique with (q := -1); lia.
Qed.

Lemma initPageBuffer_loop_spec fuel : forall i f,
  0 <= i <= pageBufferSize f -> pageBufferSize f <= 127 ->
  nslots f = pageBufferSize f ->
  (Z.to_nat (pageBufferSize f - i) < fuel)%nat ->
  exists f', initPageBuffer_loop fuel i f = Returned f' /\ same_but_cache f f' /\
             trace f' = trace f /\
             (forall j, 0 <= j < i -> slot f' j = slot f j) /\
             (forall j, i <= j < pageBufferSize f ->
                slot f' j = mkPageBuffer (-1) (-1) j false NONE (pb_page (slot f j))).
Proof.
  induction fuel as [|fuel IH]; intros i f Hi Hs Hn Hf; [lia|].
  cbn [initPageBuffer_loop]. destruct (Z.ltb_spec i (pageBufferSize f)).
  - destruct (Z.ltb_spec i 0); [lia|].
    rewrite i8_small by lia.
    match goal with
    | |- context [initPageBuffer_loop fuel (i + 1) ?g] =>
        assert (pageBufferSize g = pageBufferSize f) as Eg by reflexivity;
        assert (nslots g = nslots f) as En by apply nslots_upd_slot;
        destruct (IH (i + 1) g) as (f' & E & Hc & Ht & Hlow & Hhigh);
          [rewrite Eg; lia | rewrite Eg; exact Hs | rewrite En, Eg; exact Hn
          | rewrite Eg; lia |]
    end.
    exists f'. split; [exact E|]. split; [|split; [exact Ht|split]].
    + eapply same_but_cache_trans; [apply same_but_cache_upd_slot | exact Hc].
    + intros j Hj. rewrite Hlow by lia. apply slot_upd_slot_other. lia.
    + intros j Hj. destruct (Z.eq_dec j i) as [->|Hne].
      * rewrite Hlow by lia. rewrite slot_upd_slot_same by lia.
        unfold u8. rewrite Z.mod_small by lia. reflexivity.
      * rewrite Hhigh by (rewrite Eg; lia).
        rewrite slot_upd_slot_other by lia. reflexivity.
  - exists f. split; [reflexivity|]. split; [apply same_but_cache_refl|].
    split; [reflexivity|]. split; [reflexivity|]. intros j Hj. lia.
Qed.

(** With 128 slots or more the [int8_t] counter wraps to -128 before it
    reaches [pageBufferSize]. *)
Lemma initPageBuffer_loop_wraps fuel : forall i f,
  0 <= i <= 128 -> 128 <= pageBufferSize f -> (Z.to_nat (128 - i) < fuel)%nat ->
  initPageBuffer_loop fuel (if i =? 128 then -128 else i) f = Fault.
Proof.
  induction fuel as [|fuel IH]; intros i f Hi Hs Hf; [lia|].
  cbn [initPageBuffer_loop]. destruct (Z.eqb_spec i 128) as [->|Hne].
  - destruct (Z.ltb_spec (-128) (pageBufferSize f)); [reflexivity|lia].
  - destruct (Z.ltb_spec i (pageBufferSize f)); [|lia].
    destruct (Z.ltb_spec i 0); [lia|].
    match goal with
    | |- initPageBuffer_loop fuel _ ?g = _ =>
        specialize (IH (i + 1) g ltac:(lia) Hs ltac:(lia))
    end.
    replace (i8 (i + 1)) with (if i + 1 =? 128 then -128 else i + 1); [exact IH|].
    destruct (Z.eqb_spec (i + 1) 128) as [E|E].
    + rewrite E. reflexivity.
    + rewrite i8_small by lia. reflexivity.
Qed.

Lemma lru_order_of_slots f n :
  length (pageBuffer f) = n ->
  (forall j, 0 <= j < Z.of_nat n -> pb_lru (slot f j) = j) ->
  lru_order f = map Z.of_nat (seq 0 n).
Proof.
  unfold lru_order, slot. intros Hlen H.
  apply nth_ext with (d := pb_lru no_buffer) (d' := Z.of_nat 0).
  - rewrite !length_map, length_seq. exact Hlen.
  - intros k Hk. rewrite length_map, Hlen in Hk.
    rewrite map_nth, map_nth, seq_nth by exact Hk.
    specialize (H (Z.of_nat k) ltac:(lia)).
    unfold zth in H. destruct (Z.ltb_spec (Z.of_nat k) 0); [lia|].
    rewrite Nat2Z.id in H. exact H.
Qed.

(** The two ways [initPageBuffer] ends. *)
Lemma initPageBuffer_spec f :
  0 <= pageBufferSize f ->
  if pageBufferSize f <=? 127 then
    exists f', initPageBuffer indeterminatePage f = Returned f' /\
      cache_ranked f' /\ lru_order f' = map Z.of_nat (seq 0 (Z.to_nat (pageBufferSize f))) /\
      (forall j, 0 <= j < pageBufferSize f ->
         slot f' j = mkPageBuffer (-1) (-1) j false NONE indeterminatePage) /\
      same_geometry f f' /\ pageBufferSize f' = pageBufferSize f /\
      writeFrontier f' = writeFrontier f /\ physicalPageState f' = physicalPageState f /\
      dev f' = dev f /\ trace f' = trace f
  else initPageBuffer indeterminatePage f = Fault.
Proof.
  intros H0. unfold initPageBuffer. set (raw := mkPageBuffer 0 0 0 false NONE indeterminatePage).
  set (g := set_pageBuffer (repeat raw (Z.to_nat (pageBufferSize f))) f).
  assert (pageBufferSize g = pageBufferSize f) as Eg by reflexivity.
  destruct (Z.leb_spec (pageBufferSize f) 127) as [Hs|Hs].
  - { assert (nslots g = pageBufferSize g) as Hn.
      { unfold nslots, g; simpl. rewrite repeat_length. lia. }
      destruct (initPageBuffer_loop_spec 257 0 g) as (f' & E & Hc & Ht & _ & Hhigh);
        [rewrite Eg; lia | rewrite Eg; exact Hs | exact Hn | rewrite Eg; lia |].
      exists f'. split; [exact E|].
      destruct Hc as (Hm & HP & HT & HU & Hw & Hst & Hr & Hsz & Hd & Hns).
      assert (forall j, 0 <= j < pageBufferSize f ->
                slot f' j = mkPageBuffer (-1) (-1) j false NONE indeterminatePage) as Hsl.
      { intros j Hj. rewrite Hhigh by (rewrite Eg; exact Hj).
        replace (pb_page (slot g j)) with indeterminatePage; [reflexivity|].
        unfold slot, g, zth; simpl. destruct (Z.ltb_spec j 0); [lia|].
        symmetry. transitivity (pb_page raw); [|reflexivity]. f_equal.
        apply nth_repeat_lt. lia. }
      assert (length (pageBuffer f') = Z.to_nat (pageBufferSize f)) as Hlen.
      { unfold nslots in Hns, Hn. rewrite Eg in Hn. lia. }
      assert (lru_order f' = map Z.of_nat (seq 0 (Z.to_nat (pageBufferSize f)))) as Hl.
      { apply lru_order_of_slots; [exact Hlen|].
        intros j Hj. rewrite Hsl by lia. reflexivity. }
      split; [|split; [exact Hl|split; [exact Hsl|]]].
      * split; [|rewrite Hns, Hsz; exact Hn].
        unfold lru_ok. fold (lru_order f'). rewrite Hl, Hlen. apply Permutation_refl.
      * unfold same_geometry. rewrite HP, HT, HU, Hst, Hsz, Hw, Hd, Ht.
        repeat split; reflexivity. }
  - exact (initPageBuffer_loop_wraps 257 0 g ltac:(lia) ltac:(rewrite Eg; lia) ltac:(lia)).
Qed.

(** X18. [initPageBuffer] on a cache of up to 127 slots returns with every
    slot unlocked, without pending program, holding no page (logical and
    physical page number -1) and with [lru] equal to its own index, so the
    [lru] fields name every slot once; nothing else in the handle changes.
    With 128 slots or more (the 128 MiB size) the [int8_t] loop counter
    wraps before it reaches [pageBufferSize] and the loop writes in front
    of the array. *)
Theorem initPageBuffer_fills_cache f :
  0 <= pageBufferSize f ->
  if pageBufferSize f <=? 127 then
    exists f', initPageBuffer indeterminatePage f = Returned f' /\
      cache_ranked f' /\ lru_order f' = map Z.of_nat (seq 0 (Z.to_nat (pageBufferSize f))) /\
      (forall j, 0 <= j < pageBufferSize f ->
         slot f' j = mkPageBuffer (-1) (-1) j false NONE indeterminatePage) /\
      same_geometry f f' /\ pageBufferSize f' = pageBufferSize f /\
      writeFrontier f' = writeFrontier f /\ physicalPageState f' = physicalPageState f /\
      dev f' = dev f /\ trace f' = trace f
  else initPageBuffer indeterminatePage f = Fault.
Proof. exact (initPageBuffer_spec f). Qed.

Local Abbreviation kept f f' :=
  (same_geometry f f' /\ ranks_kept f f' /\ writeFrontier f' = writeFrontier f).

Lemma kept_refl f : kept f f.
Proof.
  split; [unfold same_geometry; tauto|]. split; [apply ranks_kept_refl | reflexivity].
Qed.

Lemma same_geometry_trans f1 f2 f3 :
  same_geometry f1 f2 -> same_geometry f2 f3 -> same_geometry f1 f3.
Proof.
  unfold same_geometry. intros (A1 & A2 & A3 & A4) (B1 & B2 & B3 & B4).
  repeat split; congruence.
Qed.

Lemma kept_trans f1 f2 f3 : kept f1 f2 -> kept f2 f3 -> kept f1 f3.
Proof.
  intros (G1 & R1 & W1) (G2 & R2 & W2).
  split; [exact (same_geometry_trans _ _ _ G1 G2)|].
  split; [exact (ranks_kept_trans _ _ _ R1 R2) | congruence].
Qed.

(** A step that leaves the sizes, the cache and the write frontier alone
    and keeps the length of the state map. *)
Lemma kept_fields f f' :
  physicalPageCount f' = physicalPageCount f -> ttPageCount f' = ttPageCount f ->
  usableSectorCount f' = usableSectorCount f ->
  length (physicalPageState f') = length (physicalPageState f) ->
  pageBuffer f' = pageBuffer f -> pageBufferSize f' = pageBufferSize f ->
  writeFrontier f' = writeFrontier f -> kept f f'.
Proof.
  intros A1 A2 A3 A4 A5 A6 A7. split; [unfold same_geometry; tauto|].
  split; [apply ranks_kept_buffers; assumption | exact A7].
Qed.

Lemma kept_set_state f q st : kept f (setPhysicalPageState f q st).
Proof.
  apply kept_fields; try reflexivity.
  unfold setPhysicalPageState; cbn [physicalPageState set_physicalPageState].
  apply zupd_length.
Qed.

Lemma kept_load f l p r f' :
  loadPhysicalPageInBuffer hal f l p = (r, f') -> kept f f'.
Proof.
  intros H. pose proof (ranks_kept_load hal _ _ _ _ _ H) as R.
  apply load_same_but_cache in H as (_ & A1 & A2 & A3 & A4 & A5 & _).
  split; [unfold same_geometry; rewrite A1, A2, A3, A5; tauto|].
  split; [exact R | exact A4].
Qed.

Lemma kept_resolve_loop n : forall f idx count,
  kept f (fst (resolveUnknownState_loop hal n f idx count)).
Proof.
  induction n as [|n IH]; intros f idx count; cbn [resolveUnknownState_loop].
  - apply kept_refl.
  - destruct (state_eqb _ _); [|apply IH].
    unfold call_isFlashErased.
    set (f2 := setPhysicalPageState _ idx _).
    assert (kept f f2) as K.
    { unfold f2. eapply kept_trans; [|apply kept_set_state].
      apply kept_fields; reflexivity. }
    destruct (u16 (count - 1) =? 0); [exact K|].
    eapply kept_trans; [exact K|]. apply IH.
Qed.

Lemma kept_resolve f count : kept f (resolveUnknownState hal f count).
Proof.
  unfold resolveUnknownState. destruct (physicalPageStateResolved f); [apply kept_refl|].
  pose proof (kept_resolve_loop (Z.to_nat (physicalPageCount f)) f (writeFrontier f)
                (u16 count)) as K.
  destruct (resolveUnknownState_loop hal _ f _ _) as [f1 early]. cbn [fst] in K.
  destruct early; cbn [negb]; [exact K|].
  eapply kept_trans; [exact K|]. apply kept_fields; reflexivity.
Qed.

Lemma kept_mark_used f q : kept f (mark_used f q).
Proof.
  unfold mark_used. destruct (q >=? 0); [apply kept_set_state | apply kept_refl].
Qed.

Lemma kept_stt_records n : forall j stt f, kept f (loadFTL_stt_records n j stt f).
Proof.
  induction n as [|n IH]; intros j stt f; cbn [loadFTL_stt_records].
  - apply kept_refl.
  - eapply kept_trans; [apply kept_mark_used | apply IH].
Qed.

Lemma kept_mtt_records n : forall i mtt f f',
  loadFTL_mtt_records hal n i mtt f = Returned f' -> kept f f'.
Proof.
  induction n as [|n IH]; intros i mtt f f'; cbn [loadFTL_mtt_records].
  - intros H; injection H as <-. apply kept_refl.
  - set (f1 := mark_used f _).
    assert (kept f f1) as K1 by apply kept_mark_used.
    destruct (i <? ttPageCount f1).
    + destruct (loadPhysicalPageInBuffer hal f1 i _) as [[stt|] f2] eqn:E2; [|discriminate].
      apply kept_load in E2. intros H. apply IH in H.
      eapply kept_trans; [exact K1|]. eapply kept_trans; [exact E2|].
      eapply kept_trans; [apply kept_stt_records | exact H].
    + intros H. apply IH in H. exact (kept_trans _ _ _ K1 H).
Qed.

Lemma kept_scan fuel : forall f i cs cp cs' cp' f',
  loadFTL_scan hal indeterminateHeader fuel f i cs cp = Some (cs', cp', f') -> kept f f'.
Proof.
  induction fuel as [|fuel IH]; intros f i cs cp cs' cp' f'; cbn [loadFTL_scan];
    [discriminate|].
  destruct (i <? physicalPageCount f).
  - unfold call_flashRead.
    match goal with
    | |- context [set_dev ?d ?e f] =>
        assert (kept f (set_dev d e f)) as K by (apply kept_fields; reflexivity)
    end.
    destruct (_ && _); intros H; apply IH in H; exact (kept_trans _ _ _ K H).
  - intros H; injection H as <- <- <-. apply kept_refl.
Qed.

Lemma kept_create_program f no data : kept f (create_program hal f no data).
Proof.
  unfold create_program.
  eapply kept_trans; [|apply kept_set_state].
  unfold call_flashProgram.
  match goal with
  | |- context [flashProgram hal (dev ?g) ?a ?d] =>
      assert (kept f g) as K1; [|destruct (flashProgram hal (dev g) a d) as [ok d2]]
  end.
  - destruct (negb _); [|apply kept_refl].
    unfold call_flashErase. destruct (flashErase hal (dev f) _) as [ok d1].
    apply kept_fields; reflexivity.
  - eapply kept_trans; [exact K1|]. apply kept_fields; reflexivity.
Qed.

Lemma kept_createFTL_loop n : forall i f mtt, kept f (fst (createFTL_loop hal n i f mtt)).
Proof.
  induction n as [|n IH]; intros i f mtt; cbn [createFTL_loop].
  - apply kept_refl.
  - eapply kept_trans; [apply kept_create_program | apply IH].
Qed.

(** [createFTL] keeps sizes and cache and leaves the write frontier at T. *)
Lemma createFTL_shape f :
  same_geometry f (createFTL hal f) /\ ranks_kept f (createFTL hal f) /\
  writeFrontier (createFTL hal f) = ttPageCount f.
Proof.
  unfold createFTL.
  set (f1 := resolveUnknownState hal (set_writeFrontier 0 f) (pageBufferSize f)).
  assert (same_geometry f f1 /\ ranks_kept f f1) as (G1 & R1).
  { destruct (kept_resolve (set_writeFrontier 0 f) (pageBufferSize f)) as (G & R & _).
    split.
    - eapply same_geometry_trans; [|exact G]. unfold same_geometry; tauto.
    - eapply ranks_kept_trans; [|exact R]. apply ranks_kept_buffers; reflexivity. }
  pose proof (kept_createFTL_loop (Z.to_nat (ttPageCount f1 - 1)) 1 f1
                (set_pageInfo 0 (mkPageInfo 0 0) (initTransTablePage 0))) as K2.
  destruct (createFTL_loop hal _ 1 f1 _) as [f2 mtt1]. cbn [fst] in K2.
  destruct (kept_trans _ _ _ K2 (kept_create_program f2 0 mtt1)) as (G3 & R3 & _).
  set (f3 := create_program hal f2 0 mtt1) in *.
  split; [|split].
  - eapply same_geometry_trans; [exact G1|]. eapply same_geometry_trans; [exact G3|].
    unfold same_geometry; tauto.
  - eapply ranks_kept_trans; [exact R1|]. eapply ranks_kept_trans; [exact R3|].
    apply ranks_kept_buffers; reflexivity.
  - change (ttPageCount f3 = ttPageCount f).
    destruct G3 as (_ & -> & _). destruct G1 as (_ & -> & _). reflexivity.
Qed.

(** [loadFTL] keeps sizes and cache; when it has found a master
    translation table the write frontier is a page of the device. *)
Lemma loadFTL_shape fuel f ok f' :
  0 < physicalPageCount f ->
  loadFTL hal indeterminateHeader fuel f = Returned (ok, f') ->
  same_geometry f f' /\ ranks_kept f f' /\
  (if ok then 0 <= writeFrontier f' < physicalPageCount f
   else writeFrontier f' = writeFrontier f).
Proof.
  intros HP. unfold loadFTL.
  destruct (loadFTL_scan hal indeterminateHeader fuel f 0 0 (-1)) as [[[cs cp] f1]|] eqn:E1;
    [|discriminate].
  apply kept_scan in E1.
  destruct (cp >=? 0).
  - set (f3 := setPhysicalPageState (set_mttPhysicalPageNo (u16 cp) f1) cp USED).
    assert (kept f f3) as K3.
    { eapply kept_trans; [exact E1|]. unfold f3.
      eapply kept_trans; [|apply kept_set_state]. apply kept_fields; reflexivity. }
    set (w := if u16 (cp + 1) >=? physicalPageCount f3 then 0 else u16 (cp + 1)).
    assert (physicalPageCount f3 = physicalPageCount f) as EP by apply K3.
    assert (0 <= w < physicalPageCount f) as Hw.
    { unfold w. rewrite EP. destruct (Z.geb_spec (u16 (cp + 1)) (physicalPageCount f)).
      - lia.
      - unfold u16 in *. pose proof (Z.mod_pos_bound (cp + 1) 65536 ltac:(lia)). lia. }
    destruct (loadPhysicalPageInBuffer hal (set_writeFrontier w f3) 0 cp)
      as [[mtt|] f5] eqn:E5; [|discriminate].
    apply kept_load in E5.
    destruct (loadFTL_mtt_records hal _ 1 mtt f5) as [f6| |] eqn:E6; try discriminate.
    apply kept_mtt_records in E6.
    intros H; injection H as <- <-.
    pose proof (kept_trans _ _ _ E5 (kept_trans _ _ _ E6
                  (kept_resolve f6 (pageBufferSize f6)))) as (G & R & W).
    destruct K3 as (G3 & R3 & _).
    split; [|split].
    + eapply same_geometry_trans; [exact G3|]. eapply same_geometry_trans; [|exact G].
      unfold same_geometry; tauto.
    + eapply ranks_kept_trans; [exact R3|]. eapply ranks_kept_trans; [|exact R].
      apply ranks_kept_buffers; reflexivity.
    + rewrite W. exact Hw.
  - intros H; injection H as <- <-. exact E1.
Qed.

(** What [ftlInit] does once the handle is allocated and its sizes are
    set. *)
Lemma ftlInit_tail fuel f0 s f1 ok f2 :
  4 <= s <= 128 ->
  physicalPageCount f0 = 256 * s -> ttPageCount f0 = s / 4 ->
  usableSectorCount f0 = 2016 * s -> pageBufferSize f0 = s ->
  length (physicalPageState f0) = Z.to_nat (16 * s) -> writeFrontier f0 = 0 ->
  initPageBuffer indeterminatePage f0 = Returned f1 ->
  loadFTL hal indeterminateHeader fuel f1 = Returned (ok, f2) ->
  forall f, f = (if ok then f2 else createFTL hal f2) ->
  s <= 127 /\
  physicalPageCount f = 256 * s /\ ttPageCount f = s / 4 /\
  pageBufferSize f = s /\ usableSectorCount f = 2016 * s /\
  geometry_ok f /\ cache_ranked f.
Proof.
  intros Hs EP ET EU EC El Ew EI EL f ->.
  pose proof (initPageBuffer_spec f0 ltac:(lia)) as HI.
  rewrite EC in HI. destruct (Z.leb_spec s 127) as [Hs'|Hs'];
    [|rewrite HI in EI; discriminate].
  destruct HI as (f1' & HI & Hr1 & _ & _ & G1 & C1 & W1 & _).
  rewrite HI in EI. injection EI as ->.
  assert (1 <= s / 4 <= 32) as HT.
  { split; [apply Z.div_le_lower_bound | apply Z.div_le_upper_bound]; lia. }
  assert (forall g, same_geometry f1 g -> ranks_kept f1 g ->
            0 <= writeFrontier g < 256 * s ->
            physicalPageCount g = 256 * s /\ ttPageCount g = s / 4 /\
            pageBufferSize g = s /\ usableSectorCount g = 2016 * s /\
            geometry_ok g /\ cache_ranked g) as Hfin.
  { intros g G R W.
    destruct (same_geometry_trans _ _ _ G1 G) as (A1 & A2 & A3 & A4).
    rewrite EP in A1. rewrite ET in A2. rewrite EU in A3. rewrite El in A4.
    assert (pageBufferSize g = s) as A5 by (destruct R as (_ & _ & ->); congruence).
    split; [exact A1|]. split; [exact A2|]. split; [exact A5|]. split; [exact A3|].
    split; [|exact (ranks_kept_cache_ranked _ _ R Hr1)].
    unfold geometry_ok. rewrite A1, A4. lia. }
  assert (physicalPageCount f1 = 256 * s) as EP1 by (destruct G1 as (-> & _); exact EP).
  apply loadFTL_shape in EL as (G2 & R2 & W2); [|lia].
  destruct ok.
  - split; [exact Hs'|]. apply Hfin; auto. rewrite <- EP1. exact W2.
  - destruct (createFTL_shape f2) as (G3 & R3 & W3).
    split; [exact Hs'|]. apply Hfin.
    + exact (same_geometry_trans _ _ _ G2 G3).
    + exact (ranks_kept_trans _ _ _ R2 R3).
    + rewrite W3. destruct G2 as (_ & -> & _). destruct G1 as (_ & -> & _).
      rewrite ET. lia.
Qed.

(** The shape of the handle that [ftlInit] returns, with the ranks of the
    cache as they are when every page marked at mount lies inside the
    state map. *)
Lemma ftlInit_shape fuel d flashSizeInMB f :
  ftlInit hal indeterminatePage indeterminateHeader fuel d flashSizeInMB
  = Returned (Some f) ->
  In (u8 flashSizeInMB) [4; 8; 16; 32; 64] /\
  physicalPageCount f = 256 * u8 flashSizeInMB /\
  ttPageCount f = u8 flashSizeInMB / 4 /\
  pageBufferSize f = u8 flashSizeInMB /\
  usableSectorCount f = 2016 * u8 flashSizeInMB /\
  geometry_ok f /\ cache_ranked f.
Proof.
  unfold ftlInit. set (s := u8 flashSizeInMB).
  destruct (flash_size_supported s) eqn:Ess; cbn [negb]; [|discriminate].
  assert (In s supportedFlashSizes) as Hin.
  { unfold flash_size_supported in Ess. apply existsb_exists in Ess as (x & Hx & E).
    apply Z.eqb_eq in E. subst x. exact Hx. }
  intros H.
  assert (s <= 127 /\ physicalPageCount f = 256 * s /\ ttPageCount f = s / 4 /\
          pageBufferSize f = s /\ usableSectorCount f = 2016 * s /\
          geometry_ok f /\ cache_ranked f) as (Hs & R).
  { clearbody s.
    simpl in Hin. destruct Hin as [<-|[<-|[<-|[<-|[<-|[<-|[]]]]]]];
      match type of H with
      | context [initPageBuffer _ ?g] =>
          destruct (initPageBuffer indeterminatePage g) as [f1| |] eqn:EI;
            [|discriminate H|discriminate H];
          destruct (loadFTL hal indeterminateHeader fuel f1) as [[ok f2]| |] eqn:EL;
            [|discriminate H|discriminate H];
          match g with
          | context [u16 (?c * 1024 * 1024 / PAGE_SIZE)] =>
              refine (ftlInit_tail fuel g c f1 ok f2 _ _ _ _ _ _ _ EI EL f _);
                [lia | vm_compute; reflexivity .. |]
          end
      end;
      destruct ok; injection H as <-; reflexivity. }
  split; [|exact R].
  simpl in Hin. simpl. intuition lia.
Qed.


(** X20. For the 128 MiB size, which [ftlInit] accepts, the cache has 128
    slots and the [int8_t] counter of [initPageBuffer] cannot reach that
    number: on every device the call runs into the write in front of the
    slot array and returns no handle. *)
Theorem ftlInit_128_writes_out_of_bounds fuel d flashSizeInMB :
  u8 flashSizeInMB = 128 ->
  ftlInit hal indeterminatePage indeterminateHeader fuel d flashSizeInMB = Fault.
Proof.
  intros E. unfold ftlInit. rewrite E.
  change (flash_size_supported 128) with true. cbn [negb].
  match goal with
  | |- context [initPageBuffer _ ?g] =>
      pose proof (initPageBuffer_spec g) as HI;
      change (pageBufferSize g) with 128 in HI
  end.
  change (128 <=? 127) with false in HI. cbv iota in HI.
  rewrite HI by lia. reflexivity.
Qed.

End Init.

(** ** What the calls keep *)

Section CallInvariants.

Context {D : Type}.
Variable hal : Hal D.
Variable indeterminatePageInfo : PageInfo.
Implicit Types (f : FrFTL D).

Local Abbreviation sized f f' :=
  (same_geometry f f' /\ (geometry_ok f -> geometry_ok f')).

Lemma sized_refl f : sized f f.
Proof. split; [unfold same_geometry; tauto | auto]. Qed.

Lemma sized_trans f1 f2 f3 : sized f1 f2 -> sized f2 f3 -> sized f1 f3.
Proof.
  intros (G1 & H1) (G2 & H2). split; [|auto].
  unfold same_geometry in *. destruct G1 as (A1 & A2 & A3 & A4).
  destruct G2 as (B1 & B2 & B3 & B4). repeat split; congruence.
Qed.

Lemma sized_frontier f f' :
  same_geometry f f' ->
  (0 <= writeFrontier f < physicalPageCount f ->
   0 <= writeFrontier f' < physicalPageCount f') ->
  sized f f'.
Proof.
  intros G W. split; [exact G|]. intros (HP & Hl & Hw).
  destruct G as (A1 & _ & _ & A4). specialize (W Hw).
  unfold geometry_ok. rewrite A4. rewrite A1 in *. auto.
Qed.

Lemma sized_kept f f' :
  same_geometry f f' /\ ranks_kept f f' /\ writeFrontier f' = writeFrontier f ->
  sized f f'.
Proof.
  intros (G & _ & W). apply sized_frontier; [exact G|].
  rewrite W. destruct G as (-> & _). auto.
Qed.

Lemma sized_fields f f' :
  physicalPageCount f' = physicalPageCount f -> ttPageCount f' = ttPageCount f ->
  usableSectorCount f' = usableSectorCount f ->
  physicalPageState f' = physicalPageState f ->
  writeFrontier f' = writeFrontier f -> sized f f'.
Proof.
  intros A1 A2 A3 A4 A5. apply sized_frontier.
  - unfold same_geometry. rewrite A4. tauto.
  - rewrite A1, A5. auto.
Qed.

Lemma sized_slot f i (g : PageBuffer -> PageBuffer) : sized f (upd_slot i g f).
Proof. apply sized_fields; reflexivity. Qed.

Lemma sized_lru f i : sized f (update_lru f i).
Proof. apply sized_fields; reflexivity. Qed.

Lemma sized_load f l p r f' :
  loadPhysicalPageInBuffer hal f l p = (r, f') -> sized f f'.
Proof. intros H. apply sized_kept. eapply kept_load; eauto. Qed.

Lemma sized_set_state f q st : sized f (setPhysicalPageState f q st).
Proof. apply sized_kept. apply kept_set_state. Qed.

Lemma sized_resolve f count : sized f (resolveUnknownState hal f count).
Proof. apply sized_kept. apply kept_resolve. Qed.

Lemma sized_advance f : sized f (advance_writeFrontier f).
Proof.
  apply sized_frontier; [unfold same_geometry; tauto|].
  intros Hw. unfold advance_writeFrontier.
  cbn [writeFrontier physicalPageCount set_writeFrontier].
  destruct (Z.geb_spec (u16 (writeFrontier f + 1)) (physicalPageCount f)); [lia|].
  unfold u16 in *. pose proof (Z.mod_pos_bound (writeFrontier f + 1) 65536 ltac:(lia)).
  lia.
Qed.

Lemma sized_allocate_scan fuel : forall f lookupCount found f',
  allocate_scan fuel f lookupCount = (found, f') -> sized f f'.
Proof.
  induction fuel as [|fuel IH]; intros f c found f' H; cbn [allocate_scan] in H.
  - injection H as <- <-. apply sized_refl.
  - destruct (state_eqb _ _).
    + cbv zeta in H. destruct (_ >? _).
      * injection H as <- <-. apply sized_advance.
      * apply IH in H. exact (sized_trans _ _ _ (sized_advance f) H).
    + injection H as <- <-. apply sized_refl.
Qed.

Lemma sized_allocate f new f' : allocatePhysicalPage f = (new, f') -> sized f f'.
Proof.
  unfold allocatePhysicalPage.
  destruct (allocate_scan _ f 0) as [found f1] eqn:E.
  apply sized_allocate_scan in E.
  destruct found; intros H; injection H as <- <-; [|exact E].
  exact (sized_trans _ _ _ E (sized_advance f1)).
Qed.

Lemma sized_dev f d e : sized f (set_dev d e f).
Proof. apply sized_fields; reflexivity. Qed.

Lemma sized_flashProgram f l addr data ok f' :
  call_flashProgram hal f l addr data = (ok, f') -> sized f f'.
Proof. intros H. apply call_flashProgram_effect in H as [d ->]. apply sized_dev. Qed.

Lemma sized_flashErase_if (c : bool) f addr ok f' :
  (if c then call_flashErase hal f addr else (true, f)) = (ok, f') -> sized f f'.
Proof.
  destruct c.
  - intros H. apply call_flashErase_effect in H as [d ->]. apply sized_dev.
  - intros H; injection H as <- <-. apply sized_refl.
Qed.

Lemma sized_program f i ok f' : programPageInBuffer hal f i = (ok, f') -> sized f f'.
Proof.
  unfold programPageInBuffer. destruct (pb_pMode (slot f i)).
  - intros H; injection H as <- <-. apply sized_refl.
  - destruct (call_flashProgram hal f _ _ _) as [okp f1] eqn:Ep.
    apply sized_flashProgram in Ep.
    destruct okp; intros H; injection H as <- <-; [|exact Ep].
    exact (sized_trans _ _ _ Ep (sized_set_state _ _ _)).
  - destruct (if negb _ then _ else _) as [oke f1] eqn:Ee.
    apply sized_flashErase_if in Ee.
    destruct oke; cbn [negb]; [|intros H; injection H as <- <-; exact Ee].
    destruct (call_flashProgram hal f1 _ _ _) as [okp f2] eqn:Ep.
    apply sized_flashProgram in Ep.
    destruct okp; intros H; injection H as <- <-.
    + exact (sized_trans _ _ _ Ee (sized_trans _ _ _ Ep (sized_set_state _ _ _))).
    + exact (sized_trans _ _ _ Ee Ep).
  - destruct (allocatePhysicalPage f) as [new f1] eqn:Ea.
    apply sized_allocate in Ea.
    destruct (new <? 0); [intros H; injection H as <- <-; exact Ea|].
    match goal with
    | |- context [getPhysicalPageState ?g (pb_physicalPageNo (slot f i))] =>
        assert (sized f g) as K2;
          [|destruct (if negb (state_eqb (getPhysicalPageState g
                                 (pb_physicalPageNo (slot f i))) ERASED)
                      then call_flashErase hal g (u32 (new * PAGE_SIZE))
                      else (true, g)) as [oke f3] eqn:Ee]
    end.
    { destruct (_ <? _); [|exact Ea]. exact (sized_trans _ _ _ Ea (sized_slot _ _ _)). }
    apply sized_flashErase_if in Ee.
    pose proof (sized_trans _ _ _ K2 Ee) as K3.
    destruct oke; cbn [negb]; [|intros H; injection H as <- <-; exact K3].
    destruct (call_flashProgram hal f3 _ _ _) as [okp f4] eqn:Ep.
    apply sized_flashProgram in Ep.
    pose proof (sized_trans _ _ _ K3 Ep) as K4.
    destruct okp; intros H; injection H as <- <-; [|exact K4].
    cbv zeta.
    match goal with
    | |- sized f (if _ then set_mttPhysicalPageNo _ ?g else ?g) =>
        assert (sized f g) as K7
    end.
    { eapply sized_trans; [|apply sized_set_state].
      eapply sized_trans; [|apply sized_slot].
      eapply sized_trans; [exact K4 | apply sized_set_state]. }
    destruct (_ =? 0); [|exact K7].
    eapply sized_trans; [exact K7|]. apply sized_fields; reflexivity.
Qed.

Local Ltac ranks_steps :=
  first [ exact ranks_kept_refl | exact ranks_kept_trans | exact ranks_kept_upd_slot
        | exact ranks_kept_update_lru | exact (ranks_kept_load hal)
        | exact (ranks_kept_program hal) | exact ranks_kept_allocate
        | exact (ranks_kept_resolve hal) ].

Local Ltac sized_steps :=
  first [ exact sized_refl | exact sized_trans | exact (fun f i g _ => sized_slot f i g)
        | exact sized_lru | exact sized_load | exact sized_program
        | exact sized_allocate | exact sized_resolve ].


(** X21. The calls of the sector API never change the page counts, the
    number of usable sectors or the length of the state map, and they keep
    the write frontier on a page of the device: a handle whose state map
    covers its physical pages and whose write frontier is one of them is
    such a handle after [ftlSync], [ftlWriteSector] and [ftlReadSector],
    whatever they return. *)
Theorem sector_api_keeps_geometry f :
  geometry_ok f ->
  (forall ok f', ftlSync hal indeterminatePageInfo f = (ok, f') ->
     same_geometry f f' /\ geometry_ok f') /\
  (forall startSectorNo noOfSectors buf ok f',
     ftlWriteSector hal indeterminatePageInfo f startSectorNo noOfSectors buf
     = Returned (ok, f') -> same_geometry f f' /\ geometry_ok f') /\
  (forall sectorNo r f',
     ftlReadSector hal indeterminatePageInfo f sectorNo = (r, f') ->
     same_geometry f f' /\ geometry_ok f').
Proof.
  intros Hg.
  assert (forall f', sized f f' -> same_geometry f f' /\ geometry_ok f') as Hfin
      by (intros f' (G & K); auto).
  split; [|split].
  - intros ok f' H. apply Hfin.
    eapply (rel_ftlSync hal indeterminatePageInfo
              (fun f f' => same_geometry f f' /\ (geometry_ok f -> geometry_ok f')));
      first [exact H | sized_steps].
  - intros s n buf ok f' H. apply Hfin.
    eapply (rel_ftlWriteSector hal indeterminatePageInfo
              (fun f f' => same_geometry f f' /\ (geometry_ok f -> geometry_ok f')));
      first [exact H | sized_steps].
  - intros s r f' H. apply Hfin.
    eapply (rel_ftlReadSector hal indeterminatePageInfo
              (fun f f' => same_geometry f f' /\ (geometry_ok f -> geometry_ok f')));
      first [exact H | sized_steps].
Qed.

End CallInvariants.

(** ** Reading back what was written *)

Section ReadBack.

Context {D : Type}.
Variable hal : Hal D.
Variable indeterminatePageInfo : PageInfo.
Implicit Types (f : FrFTL D).

(** The lookup by physical page [q] finds slot [i]. *)
Local Abbreviation cached_at f q i := (find_slot 0 (pageBuffer f) q = Some i).

Lemma cached_at_keep f f' q i :
  cached_at f q i -> nslots f' = nslots f ->
  pb_physicalPageNo (slot f' i) = pb_physicalPageNo (slot f i) ->
  (forall j, 0 <= j < i -> pb_physicalPageNo (slot f' j) <> q) ->
  cached_at f' q i.
Proof.
  intros H Hn Hi Hj. apply find_in_cache in H as (Hr & Hq & _).
  apply find_first_in_cache; [lia | congruence | exact Hj].
Qed.

Lemma cached_at_same f f' q i :
  cached_at f q i -> nslots f' = nslots f ->
  (forall j, pb_physicalPageNo (slot f' j) = pb_physicalPageNo (slot f j)) ->
  cached_at f' q i.
Proof.
  intros H Hn Hs. apply (cached_at_keep f f' q i H Hn (Hs i)).
  intros j Hj. rewrite Hs. apply find_in_cache in H as (_ & _ & Hf). auto.
Qed.

Lemma cached_at_update_lru f q i k : cached_at f q i -> cached_at (update_lru f k) q i.
Proof.
  intros H. apply (cached_at_same f _ q i H (nslots_update_lru f k)).
  intros j. pose proof (same_fields_inv _ _ (same_fields_update_lru f k j)). tauto.
Qed.

Lemma cached_at_upd_slot f q i k g :
  (forall b, pb_physicalPageNo (g b) = pb_physicalPageNo b) ->
  cached_at f q i -> cached_at (upd_slot k g f) q i.
Proof.
  intros Hg H. apply (cached_at_same f _ q i H (nslots_upd_slot f k g)).
  intros j. rewrite slot_upd_slot. destruct (_ && _) eqn:E; [|reflexivity].
  apply andb_prop in E as [E _]. apply andb_prop in E as [E _].
  apply Z.eqb_eq in E. subst j. apply Hg.
Qed.

Lemma scan_unlocked_before f l t v :
  (exists u, In u l /\ pb_lock (slot f u) = false) ->
  scan_unlocked f (l ++ [t]) = Some v -> In v l.
Proof.
  induction l as [|x l IH]; intros (u & Hu & Hlock) H; [contradiction|].
  cbn [app scan_unlocked] in H.
  destruct (pb_lock (slot f x)) eqn:Ex; cbn [negb] in H.
  - right. apply IH; [|exact H]. exists u. split; [|exact Hlock].
    destruct Hu as [<-|Hu]; [congruence | exact Hu].
  - injection H as <-. left. reflexivity.
Qed.

Lemma victim_spared f k v :
  lru_ok f -> spared f k -> pick_unlocked f = Some v -> v <> k.
Proof.
  intros Hl [Hk | (rest & Ho & u & Hu & Hlock)] Hp.
  - apply pick_unlocked_Some in Hp as [_ Hv]. congruence.
  - pose proof (lru_ok_NoDup f Hl) as Hnd. rewrite Ho in Hnd.
    unfold pick_unlocked in Hp. fold (lru_order f) in Hp. rewrite Ho in Hp.
    cbn [rev] in Hp.
    apply scan_unlocked_before in Hp.
    + apply in_rev in Hp. inversion Hnd; subst. congruence.
    + exists u. split; [apply in_rev; rewrite rev_involutive; exact Hu | exact Hlock].
Qed.

Lemma i16_nonneg_u16 q : 0 <= i16 q -> i16 q = u16 q.
Proof.
  unfold i16, u16. pose proof (Z.mod_pos_bound q 65536 ltac:(lia)).
  destruct (Z.ltb_spec (q mod 65536) 32768); lia.
Qed.

(** A load leaves the page of a spared slot where the lookup finds it. *)
Lemma load_keep f l q r f' x k :
  lru_ok f ->
  loadPhysicalPageInBuffer hal f l q = (r, f') ->
  cached_at f x k -> 0 <= x -> spared f k ->
  cached_at f' x k /\ same_fields (slot f' k) (slot f k).
Proof.
  intros Hl H Hk Hx Hsp. apply load_cases in H.
  destruct H as [(i & _ & _ & ->) | (Hmiss & [(_ & _ & ->) | (v & Hp & H)])].
  - split; [apply cached_at_update_lru; exact Hk | apply same_fields_update_lru].
  - split; [exact Hk | apply same_fields_refl].
  - pose proof (victim_spared f k v Hl Hsp Hp) as Hne.
    pose proof (find_in_cache _ _ _ Hk) as (Hr & Hq & Hfirst).
    assert (x <> u16 q) as Hxq.
    { intros ->. congruence. }
    cbv zeta in H.
    set (f3 := set_dev (dev f) (EvRead (u32 (u16 q * PAGE_SIZE)) PAGE_SIZE)
                 (upd_slot v (pb_with_physical (-1)) f)) in *.
    assert (forall j, slot f3 j = slot (upd_slot v (pb_with_physical (-1)) f) j) as E3
        by reflexivity.
    assert (nslots f3 = nslots f) as N3 by apply nslots_upd_slot.
    assert (cached_at f3 x k /\ slot f3 k = slot f k) as (C3 & S3).
    { split.
      - apply (cached_at_keep f f3 x k Hk N3).
        + rewrite E3, slot_upd_slot_other by auto. reflexivity.
        + intros j Hj. rewrite E3, slot_upd_slot.
          destruct (_ && _); [simpl; lia | apply Hfirst; exact Hj].
      - rewrite E3. apply slot_upd_slot_other. auto. }
    destruct H as [(_ & _ & ->) | (data & _ & _ & ->)].
    + split; [exact C3 | rewrite S3; apply same_fields_refl].
    + split.
      * apply cached_at_update_lru.
        apply (cached_at_keep f3 _ x k C3 (nslots_upd_slot _ _ _)).
        -- rewrite slot_upd_slot_other by auto. reflexivity.
        -- intros j Hj. rewrite slot_upd_slot.
           destruct (_ && _).
           ++ unfold loaded_slot; simpl. intros E.
              rewrite <- E in Hx. apply i16_nonneg_u16 in Hx. congruence.
           ++ apply find_in_cache in C3 as (_ & _ & Hf3). apply Hf3. exact Hj.
      * eapply same_fields_trans; [apply same_fields_update_lru|].
        rewrite slot_upd_slot_other by auto. rewrite S3. apply same_fields_refl.
Qed.

Lemma spared_head f t rest :
  lru_ok f -> (2 <= free_count f)%nat -> lru_order f = (t :: rest)%list -> spared f t.
Proof.
  intros Hl Hf Ho. right. exists rest. split; [exact Ho|].
  pose proof (free_count_upd_slot f t (pb_with_lock true)) as Hc.
  destruct (free_count_pos (upd_slot t (pb_with_lock true) f) ltac:(lia)) as (u & Hu & Hlock).
  rewrite nslots_upd_slot in Hu. rewrite slot_upd_slot in Hlock.
  destruct (_ && _) eqn:E; [discriminate|].
  exists u. split; [|exact Hlock].
  pose proof (lru_ok_In f u Hl Hu) as Hin. rewrite Ho in Hin.
  destruct Hin as [<-|Hin]; [|exact Hin].
  exfalso. rewrite Z.eqb_refl in E.
  destruct (Z.leb_spec 0 t), (Z.ltb_spec t (nslots f)); simpl in E; try discriminate; lia.
Qed.

Lemma pages_full_of_slots f :
  (forall j, 0 <= j < nslots f -> length (pb_page (slot f j)) = Z.to_nat PAGE_SIZE) ->
  pages_full f.
Proof.
  intros H. unfold pages_full. apply Forall_forall. intros b Hb.
  apply (In_nth _ _ no_buffer) in Hb as (n & Hn & <-).
  specialize (H (Z.of_nat n)). unfold nslots, slot, zth in H.
  destruct (Z.ltb_spec (Z.of_nat n) 0); [lia|].
  rewrite Nat2Z.id in H. apply H. lia.
Qed.

Lemma pages_full_upd_slot f i g :
  (forall b, length (pb_page b) = Z.to_nat PAGE_SIZE ->
             length (pb_page (g b)) = Z.to_nat PAGE_SIZE) ->
  pages_full f -> pages_full (upd_slot i g f).
Proof.
  intros Hg Hf. apply pages_full_of_slots. intros j Hj.
  rewrite nslots_upd_slot in Hj. rewrite slot_upd_slot.
  destruct (_ && _) eqn:E.
  - apply Hg. apply pages_full_slot; [exact Hf|].
    apply andb_prop in E as [E E3]. apply andb_prop in E as [_ E2]. lia.
  - apply pages_full_slot; assumption.
Qed.

Lemma pages_full_same f f' :
  nslots f' = nslots f -> (forall j, pb_page (slot f' j) = pb_page (slot f j)) ->
  pages_full f -> pages_full f'.
Proof.
  intros Hn Hs Hf. apply pages_full_of_slots. intros j Hj.
  rewrite Hs. apply pages_full_slot; [exact Hf | lia].
Qed.

(** What a successful load establishes. *)
Lemma load_found f l q i f' :
  lru_ok f -> pages_full f -> reads_full hal -> 0 <= q < 32768 ->
  loadPhysicalPageInBuffer hal f l q = (Some i, f') ->
  cached_at f' q i /\
  lru_order f' = (i :: remove Z.eq_dec i (lru_order f))%list /\
  lru_ok f' /\ pages_full f' /\ free_count f' = free_count f /\
  (forall j, pb_lock (slot f' j) = pb_lock (slot f j)) /\
  same_but_cache f f'.
Proof.
  intros Hl Hfull Hreads Hq H.
  pose proof (lru_order_load hal f l q i f' Hl H) as Ho.
  pose proof (load_keeps_lru_ok hal _ _ _ _ _ H Hl) as Hl'.
  pose proof (load_keeps_free_count hal _ _ _ _ _ H) as Hc.
  pose proof (load_keeps_locks hal _ _ _ _ _ H) as Hk.
  pose proof (load_effect hal _ _ _ _ _ H) as (Hsbc & _ & Hi & Hcase).
  assert (nslots f' = nslots f) as Hn by apply Hsbc.
  rewrite (u16_small q) in Hcase by lia.
  assert (cached_at f' q i /\ pages_full f') as (C & F).
  { destruct Hcase as [(Hf & Hs) | (Hf & _ & (data & Hrd & Hd) & Hs)].
    - split.
      + apply (cached_at_same f f' q i Hf Hn).
        intros j. pose proof (same_fields_inv _ _ (Hs j)). tauto.
      + apply (pages_full_same f f' Hn); [|exact Hfull].
        intros j. pose proof (same_fields_inv _ _ (Hs j)). tauto.
    - apply same_fields_inv in Hd as (_ & E1 & _ & _ & E2). simpl in E1, E2.
      rewrite i16_small in E1 by lia.
      split.
      + apply find_first_in_cache; [lia | exact E1 |].
        intros j Hj. pose proof (same_fields_inv _ _ (Hs j ltac:(lia))) as (_ & E3 & _).
        rewrite E3. apply find_not_in_cache; [exact Hf | lia].
      + apply pages_full_of_slots. intros j Hj.
        destruct (Z.eq_dec j i) as [->|Hne].
        * rewrite E2. exact (Hreads _ _ _ Hrd).
        * pose proof (same_fields_inv _ _ (Hs j Hne)) as (_ & _ & _ & _ & E3).
          rewrite E3. apply pages_full_slot; [exact Hfull | lia]. }
  repeat split; try assumption; apply Hsbc.
Qed.

(** The slot as [updatePhysicalPageInfo] leaves it. *)
Local Abbreviation stored r info :=
  (fun b : PageBuffer =>
     let b1 := pb_with_lock true b in
     let b2 := if mode_eqb (pb_pMode b1) NONE then pb_with_pMode PROGRAM b1 else b1 in
     pb_with_page (set_pageInfo r info (pb_page b2)) b2).

Lemma stored_fields r info b :
  pb_physicalPageNo (stored r info b) = pb_physicalPageNo b /\
  pb_lru (stored r info b) = pb_lru b /\
  pb_lock (stored r info b) = true /\
  pb_page (stored r info b) = set_pageInfo r info (pb_page b).
Proof. destruct b as [lg ph lr lk mo pg]. destruct mo; repeat split. Qed.

Lemma set_pageInfo_length r info p : length (set_pageInfo r info p) = length p.
Proof. unfold set_pageInfo. rewrite set8_length, set16_length. reflexivity. Qed.

(** [updatePhysicalPageInfo] on a page that the lookup finds. *)
Lemma update_hit f info l q r t :
  cached_at f (u16 q) t ->
  updatePhysicalPageInfo hal f info l q r
  = (true, upd_slot t (stored r info) (update_lru f t)).
Proof.
  intros H. unfold updatePhysicalPageInfo, loadPhysicalPageInBuffer,
    findPhysicalPageInBuffer. rewrite H. reflexivity.
Qed.

Lemma read_hit f pi0 l q r t :
  cached_at f (u16 q) t ->
  readPhysicalPageInfo hal f pi0 l q r
  = (true, get_pageInfo (pb_page (slot f t)) r, update_lru f t).
Proof.
  intros H. unfold readPhysicalPageInfo, loadPhysicalPageInBuffer,
    findPhysicalPageInBuffer. rewrite H, page_update_lru. reflexivity.
Qed.

Lemma skipn_blit src : forall off p,
  skipn off (blit off src p) = blit 0 src (skipn off p).
Proof.
  intros off. induction off as [|k IH]; intros p.
  - reflexivity.
  - destruct p as [|h t]; [reflexivity|]. cbn [blit skipn]. apply IH.
Qed.

Lemma firstn_blit src : forall p,
  (length src <= length p)%nat -> firstn (length src) (blit 0 src p) = src.
Proof.
  induction src as [|x src IH]; intros p Hp; [reflexivity|].
  destruct p as [|h t]; [simpl in Hp; lia|].
  cbn [blit length firstn]. f_equal. apply IH. simpl in Hp. lia.
Qed.

(** A sector copied into a page is what is copied out of it. *)
Lemma sector_round_trip page s buf :
  length page = Z.to_nat PAGE_SIZE -> 0 <= s < SECTORS_PER_PAGE ->
  (Z.to_nat SECTOR_SIZE <= length buf)%nat ->
  memcpy_from (memcpy_to page (s * SECTOR_SIZE) buf SECTOR_SIZE) (s * SECTOR_SIZE)
    SECTOR_SIZE
  = firstn (Z.to_nat SECTOR_SIZE) buf.
Proof.
  intros Hp Hs Hb. unfold memcpy_from, memcpy_to. rewrite skipn_blit.
  set (src := firstn (Z.to_nat SECTOR_SIZE) buf).
  assert (length src = Z.to_nat SECTOR_SIZE) as Hl
      by (unfold src; rewrite length_firstn; lia).
  rewrite <- Hl. apply firstn_blit.
  rewrite length_skipn, Hp, Hl.
  unfold SECTORS_PER_PAGE, PAGE_SIZE, SECTOR_SIZE in *.
  change (4096 / 512) with 8 in Hs. lia.
Qed.

(** The read of a sector that the cache holds. *)
Lemma read_back f sectorNo data :
  0 <= sectorNo < usableSectorCount f -> sectorNo < 4294967296 ->
  0 <= sectorNo / SECTORS_PER_PAGE + ttPageCount f < TT_RECORDS_PER_PAGE ->
  0 <= mttPhysicalPageNo f < 32768 ->
  sector_in_cache f (sectorNo / SECTORS_PER_PAGE + ttPageCount f)
    (u8 (sectorNo mod SECTORS_PER_PAGE)) data ->
  exists f', ftlReadSector hal indeterminatePageInfo f sectorNo = (Some data, f').
Proof.
  intros Hs Hs32 HL Hm (t & db & p & st & Ht & Hrec & Hbit & Hp & Hdb & Hdata).
  assert (u32 sectorNo = sectorNo) as E32 by (apply Z.mod_small; lia).
  unfold TT_RECORDS_PER_PAGE in HL.
  assert (u16 (sectorNo / SECTORS_PER_PAGE + ttPageCount f)
          = sectorNo / SECTORS_PER_PAGE + ttPageCount f) as EL by (apply u16_small; lia).
  unfold ftlReadSector. rewrite !E32.
  destruct (Z.geb_spec sectorNo (usableSectorCount f)); [lia|].
  unfold readPageInfo. rewrite !EL.
  destruct (Z.ltb_spec (sectorNo / SECTORS_PER_PAGE + ttPageCount f) TT_RECORDS_PER_PAGE)
    as [_|Hge]; [|unfold TT_RECORDS_PER_PAGE in Hge; lia].
  rewrite (read_hit f _ 0 (mttPhysicalPageNo f) _ t)
    by (rewrite u16_small by lia; exact Ht).
  rewrite Hrec. cbn [pi_sectStatus pi_physicalPageNo]. rewrite Hbit.
  cbn [Z.eqb negb]. unfold readPhysicalSector, loadPhysicalPageInBuffer,
    findPhysicalPageInBuffer.
  rewrite (u16_small p) by lia.
  rewrite (cached_at_update_lru f p db t Hdb).
  rewrite !page_update_lru, Hdata. eexists. reflexivity.
Qed.

Lemma land_cleared x mask : Z.land (u8 (u8 (Z.land x (Z.lnot mask)))) mask = 0.
Proof.
  unfold u8. rewrite Z.mod_mod by lia.
  change 256 with (2 ^ 8). rewrite <- Z.land_ones by lia.
  apply Z.bits_inj'. intros n Hn.
  rewrite !Z.land_spec, Z.lnot_spec, Z.bits_0 by lia.
  destruct (Z.testbit mask n); simpl; rewrite ?andb_false_r; reflexivity.
Qed.

Lemma copied_fields s buf b :
  pb_physicalPageNo (copy_sector s buf (lock_at_least_PROGRAM b)) = pb_physicalPageNo b /\
  pb_page (copy_sector s buf (lock_at_least_PROGRAM b))
  = memcpy_to (pb_page b) (s * SECTOR_SIZE) buf SECTOR_SIZE.
Proof. destruct b as [lg ph lr lk mo pg]. destruct mo; split; reflexivity. Qed.

(** The "sector never written" branch of [ftlWriteSector], entered with the
    table and the data page where the lookup finds them. *)
Lemma append_caches f l s buf t db pinfo f6 :
  0 <= l < TT_RECORDS_PER_PAGE -> 0 <= s < SECTORS_PER_PAGE ->
  0 <= mttPhysicalPageNo f < 32768 -> pages_full f ->
  cached_at f (mttPhysicalPageNo f) t ->
  cached_at f (pi_physicalPageNo pinfo) db ->
  pi_physicalPageNo pinfo <> mttPhysicalPageNo f ->
  0 <= pi_physicalPageNo pinfo < 32768 ->
  (Z.to_nat SECTOR_SIZE <= length buf)%nat ->
  updatePageInfo hal indeterminatePageInfo f
    (with_sectStatus (u8 (Z.land (pi_sectStatus pinfo) (Z.lnot (u8 (Z.shiftl 1 s))))) pinfo)
    l = (true, f6) ->
  let f' := upd_slot db (fun b => copy_sector s buf (lock_at_least_PROGRAM b)) f6 in
  sector_in_cache f' l s (firstn (Z.to_nat SECTOR_SIZE) buf) /\
  mttPhysicalPageNo f' = mttPhysicalPageNo f /\ ttPageCount f' = ttPageCount f /\
  usableSectorCount f' = usableSectorCount f.
Proof.
  intros Hl Hs Hm Hfull Ht Hdb Hne Hp Hbuf H.
  set (p := pi_physicalPageNo pinfo) in *.
  set (info := with_sectStatus _ pinfo) in H.
  unfold updatePageInfo in H. unfold TT_RECORDS_PER_PAGE in Hl.
  rewrite (u16_small l) in H by lia.
  destruct (Z.ltb_spec l TT_RECORDS_PER_PAGE) as [_|Hge];
    [|unfold TT_RECORDS_PER_PAGE in Hge; lia].
  rewrite (update_hit f info 0 (mttPhysicalPageNo f) l t) in H
    by (rewrite u16_small by lia; exact Ht).
  injection H as E6.
  pose proof (find_in_cache _ _ _ Ht) as (Rt & Pt & _).
  pose proof (find_in_cache _ _ _ Hdb) as (Rdb & Pdb & _).
  assert (db <> t) as Hdt by (intros ->; congruence).
  set (g1 := update_lru f t).
  set (g2 := upd_slot t (stored l info) g1).
  assert (f6 = g2) as -> by (symmetry; exact E6). clear E6.
  assert (nslots g1 = nslots f) as N1 by apply nslots_update_lru.
  assert (nslots g2 = nslots f) as N2 by (unfold g2; rewrite nslots_upd_slot; exact N1).
  cbv zeta.
  set (G := fun b => copy_sector s buf (lock_at_least_PROGRAM b)).
  assert (forall x k, cached_at f x k -> cached_at (upd_slot db G g2) x k) as Hkeep.
  { intros x k Hk. apply cached_at_upd_slot; [intros b; apply copied_fields|].
    apply cached_at_upd_slot; [intros b; apply stored_fields|].
    apply cached_at_update_lru. exact Hk. }
  split; [|repeat split].
  exists t, db, p, (u8 (u8 (Z.land (pi_sectStatus pinfo) (Z.lnot (u8 (Z.shiftl 1 s)))))).
  split; [apply Hkeep; exact Ht|]. split; [|split; [apply land_cleared|]].
  - rewrite slot_upd_slot_other by exact Hdt.
    replace (pb_page (slot g2 t)) with (set_pageInfo l info (pb_page (slot g1 t)))
      by (unfold g2; rewrite slot_upd_slot_same by lia; symmetry; apply stored_fields).
    unfold g1. rewrite page_update_lru.
    destruct (set_pageInfo_spec (pb_page (slot f t)) l info) as (-> & _).
    + lia.
    + rewrite (pages_full_slot f t Hfull Rt).
      unfold off_pageInfos, sizeof_TransTableHeader, sizeof_PageInfo, PAGE_SIZE. lia.
    + unfold info; cbn [pi_physicalPageNo pi_sectStatus with_sectStatus].
      fold p. rewrite i16_small by lia. reflexivity.
  - split; [exact Hp|]. split; [apply Hkeep; exact Hdb|].
    replace (pb_page (slot (upd_slot db G g2) db))
      with (memcpy_to (pb_page (slot g2 db)) (s * SECTOR_SIZE) buf SECTOR_SIZE)
      by (rewrite slot_upd_slot_same by lia; symmetry; apply copied_fields).
    unfold g2. rewrite slot_upd_slot_other by auto.
    unfold g1. rewrite page_update_lru.
    apply sector_round_trip; [apply pages_full_slot; assumption | exact Hs | exact Hbuf].
Qed.

Lemma page_upd_slot f i g j :
  (forall b, pb_page (g b) = pb_page b) ->
  pb_page (slot (upd_slot i g f) j) = pb_page (slot f j).
Proof.
  intros Hg. rewrite slot_upd_slot. destruct (_ && _) eqn:E; [|reflexivity].
  apply andb_prop in E as [E _]. apply andb_prop in E as [E _].
  apply Z.eqb_eq in E. subst j. apply Hg.
Qed.

Lemma overwritten_fields s buf b :
  pb_physicalPageNo (copy_sector s buf (lock_for RELOCATE_ERASE_PROGRAM b))
  = pb_physicalPageNo b /\
  pb_lru (copy_sector s buf (lock_for RELOCATE_ERASE_PROGRAM b)) = pb_lru b /\
  pb_lock (copy_sector s buf (lock_for RELOCATE_ERASE_PROGRAM b)) = true /\
  pb_page (copy_sector s buf (lock_for RELOCATE_ERASE_PROGRAM b))
  = memcpy_to (pb_page b) (s * SECTOR_SIZE) buf SECTOR_SIZE.
Proof. destruct b; repeat split. Qed.

(** The "sector already written" branch of [ftlWriteSector], entered with
    the table and the data page where the lookup finds them and with three
    unlocked slots. *)
Lemma overwrite_caches f l s buf t db p st ok f' :
  0 <= l < TT_RECORDS_PER_PAGE -> 0 <= s < SECTORS_PER_PAGE ->
  0 <= mttPhysicalPageNo f < 32768 ->
  lru_ok f -> pages_full f -> (3 <= free_count f)%nat ->
  cached_at f (mttPhysicalPageNo f) t ->
  get_pageInfo (pb_page (slot f t)) l = mkPageInfo p st ->
  Z.land st (u8 (Z.shiftl 1 s)) = 0 ->
  cached_at f p db -> p <> mttPhysicalPageNo f -> 0 <= p < 32768 ->
  (Z.to_nat SECTOR_SIZE <= length buf)%nat ->
  write_overwrite hal indeterminatePageInfo f db l s buf = Returned (ok, f') ->
  sector_in_cache f' l s (firstn (Z.to_nat SECTOR_SIZE) buf) /\
  mttPhysicalPageNo f' = mttPhysicalPageNo f /\ ttPageCount f' = ttPageCount f /\
  usableSectorCount f' = usableSectorCount f.
Proof.
  intros Hl Hs Hm Hlru Hfull Hfree Ht Hrec Hbit Hdb Hne Hp Hbuf H.
  pose proof (find_in_cache _ _ _ Ht) as (Rt & Pt & _).
  pose proof (find_in_cache _ _ _ Hdb) as (Rdb & Pdb & _).
  assert (db <> t) as Hdt by (intros ->; congruence).
  unfold write_overwrite in H.
  set (G := fun b => copy_sector s buf (lock_for RELOCATE_ERASE_PROGRAM b)) in H.
  set (f3 := upd_slot db G f) in H.
  assert (l / TT_RECORDS_PER_PAGE = 0) as E0
      by (apply Z.div_small; exact Hl).
  rewrite E0 in H.
  assert (nslots f3 = nslots f) as N3 by apply nslots_upd_slot.
  assert (cached_at f3 (mttPhysicalPageNo f) t) as Ht3
      by (apply cached_at_upd_slot; [intros b; apply overwritten_fields | exact Ht]).
  assert (cached_at f3 p db) as Hdb3
      by (apply cached_at_upd_slot; [intros b; apply overwritten_fields | exact Hdb]).
  assert (lru_ok f3) as Hlru3
      by (apply lru_ok_upd_slot; [intros b; apply overwritten_fields | exact Hlru]).
  pose proof (free_count_upd_slot f db G) as Hfree3. fold f3 in Hfree3.
  assert (slot f3 db = G (slot f db)) as Sdb3 by (apply slot_upd_slot_same; lia).
  assert (slot f3 t = slot f t) as St3 by (apply slot_upd_slot_other; auto).
  unfold readPageInfo in H. rewrite (u16_small 0) in H by lia.
  change (0 <? TT_RECORDS_PER_PAGE) with true in H. cbv iota in H.
  rewrite (read_hit f3 _ 0 (mttPhysicalPageNo f3) 0 t) in H
    by (change (mttPhysicalPageNo f3) with (mttPhysicalPageNo f);
        rewrite u16_small by lia; exact Ht3).
  set (f4 := update_lru f3 t) in H.
  assert (nslots f4 = nslots f) as N4 by (unfold f4; rewrite nslots_update_lru; exact N3).
  assert (lru_ok f4) as Hlru4 by (apply lru_ok_update_lru; exact Hlru3).
  assert (spared f4 t) as Sp4t.
  { apply (spared_head f4 t (remove Z.eq_dec t (lru_order f3))).
    - exact Hlru4.
    - unfold f4. rewrite free_count_update_lru. lia.
    - apply lru_order_update_lru; [exact Hlru3 | lia]. }
  assert (spared f4 db) as Sp4db.
  { left. pose proof (same_fields_inv _ _ (same_fields_update_lru f3 t db)) as (_ & _ & E & _).
    unfold f4. rewrite E, Sdb3. apply overwritten_fields. }
  destruct (loadPhysicalPageInBuffer hal f4 0 _) as [[tt|] f5] eqn:E5; [|discriminate].
  change (0 >? 0) with false in H. cbv iota in H.
  injection H as _ E'.
  destruct (load_keep f4 0 _ _ f5 (mttPhysicalPageNo f) t Hlru4 E5
              (cached_at_update_lru f3 _ t t Ht3) ltac:(lia) Sp4t) as (Ct5 & St5).
  destruct (load_keep f4 0 _ _ f5 p db Hlru4 E5
              (cached_at_update_lru f3 _ db t Hdb3) ltac:(lia) Sp4db) as (Cdb5 & Sdb5).
  pose proof (load_same_but_cache hal _ _ _ _ _ E5) as (Em & _ & ET & EU & _).
  set (L := lock_for RELOCATE_ERASE_PROGRAM) in E'.
  assert (forall b, pb_physicalPageNo (L b) = pb_physicalPageNo b /\
                    pb_page (L b) = pb_page b) as HL by (intros b; split; reflexivity).
  assert (pb_page (slot f' t) = pb_page (slot f4 t) /\
          pb_page (slot f' db) = pb_page (slot f4 db)) as (Hpt & Hpdb).
  { rewrite <- E'. rewrite !page_upd_slot by (intros b; apply HL).
    apply same_fields_inv in St5, Sdb5. split; tauto. }
  split; [|rewrite <- E'; repeat split; assumption].
  exists t, db, p, st.
  assert (mttPhysicalPageNo f' = mttPhysicalPageNo f) as -> by (rewrite <- E'; exact Em).
  split; [rewrite <- E'; apply cached_at_upd_slot; [apply HL | exact Ct5]|].
  split.
  { rewrite Hpt. unfold f4. rewrite page_update_lru, St3. exact Hrec. }
  split; [exact Hbit|]. split; [exact Hp|].
  split; [rewrite <- E'; apply cached_at_upd_slot; [apply HL | exact Cdb5]|].
  rewrite Hpdb. unfold f4. rewrite page_update_lru, Sdb3.
  replace (pb_page (G (slot f db)))
    with (memcpy_to (pb_page (slot f db)) (s * SECTOR_SIZE) buf SECTOR_SIZE)
    by (symmetry; apply overwritten_fields).
  apply sector_round_trip; [apply pages_full_slot; assumption | exact Hs | exact Hbuf].
Qed.

Lemma three_free f :
  nslots f = pageBufferSize f -> pageBufferSize f < 256 -> (3 <= free_count f)%nat ->
  hasFreeBuffers f 3 = true.
Proof.
  intros Hn Hsz Hf. unfold hasFreeBuffers. rewrite u16_small by lia.
  rewrite count_free_spec by (unfold nslots in Hn; lia).
  apply Z.leb_le. unfold free_count in Hf. lia.
Qed.

Lemma sector_mask s :
  0 <= s < 8 -> (Z.land 255 (u8 (Z.shiftl 1 s)) =? 0) = false.
Proof.
  intros H.
  assert (s = 0 \/ s = 1 \/ s = 2 \/ s = 3 \/ s = 4 \/ s = 5 \/ s = 6 \/ s = 7)
    as [->|[->|[->|[->|[->|[->|[->| ->]]]]]]] by lia; reflexivity.
Qed.

(** [initPhysicalPageInBuffer] for a page other than the master
    translation table, which is in the cache and spared. *)
Lemma init_found f l p db f' t :
  lru_ok f -> pages_full f -> 0 <= p < 32768 ->
  0 <= mttPhysicalPageNo f -> p <> mttPhysicalPageNo f ->
  cached_at f (mttPhysicalPageNo f) t -> spared f t ->
  initPhysicalPageInBuffer f l p = (Some db, f') ->
  cached_at f' p db /\ cached_at f' (mttPhysicalPageNo f) t /\
  pb_page (slot f' t) = pb_page (slot f t) /\ pages_full f' /\
  mttPhysicalPageNo f' = mttPhysicalPageNo f /\ ttPageCount f' = ttPageCount f /\
  usableSectorCount f' = usableSectorCount f.
Proof.
  intros Hlru Hfull Hp Hm Hne Ht Hsp H.
  unfold initPhysicalPageInBuffer, findPhysicalPageInBuffer in H.
  rewrite (u16_small p) in H by lia.
  destruct (find_slot 0 (pageBuffer f) p) as [j|] eqn:Ef.
  - injection H as <- <-.
    split; [apply cached_at_update_lru; exact Ef|].
    split; [apply cached_at_update_lru; exact Ht|].
    split; [apply page_update_lru|].
    split; [|repeat split].
    apply (pages_full_same f); [apply nslots_update_lru | | exact Hfull].
    intros k. apply page_update_lru.
  - destruct (pick_unlocked f) as [v|] eqn:Ev; [|discriminate].
    injection H as <- <-.
    pose proof (victim_spared f t v Hlru Hsp Ev) as Hvt.
    pose proof (pick_unlocked_Some f v Ev) as (Rv & _).
    pose proof (find_in_cache _ _ _ Ht) as (Rt & Pt & Hfirst).
    set (g := fun b => pb_with_page erased_page (pb_with_pMode ERASE_PROGRAM
                (pb_with_lock true (pb_with_physical (i16 p)
                  (pb_with_logical (i16 l) b))))).
    assert (slot (upd_slot v g f) v = g (slot f v)) as Sv
        by (apply slot_upd_slot_same; exact Rv).
    split; [|split; [|split; [|split; [|repeat split]]]].
    + apply find_first_in_cache.
      * rewrite nslots_upd_slot. exact Rv.
      * rewrite Sv. unfold g; simpl. apply i16_small. lia.
      * intros k Hk. rewrite slot_upd_slot_other by lia.
        apply find_not_in_cache; [exact Ef | lia].
    + apply (cached_at_keep f _ _ t Ht (nslots_upd_slot _ _ _)).
      * rewrite slot_upd_slot_other by exact Hvt. reflexivity.
      * intros k Hk. destruct (Z.eq_dec k v) as [->|Hkv].
        -- rewrite Sv. unfold g; simpl. rewrite i16_small by lia. exact Hne.
        -- rewrite slot_upd_slot_other by auto. apply Hfirst. exact Hk.
    + rewrite slot_upd_slot_other by exact Hvt. reflexivity.
    + apply pages_full_upd_slot; [|exact Hfull].
      intros b _. change (length erased_page = Z.to_nat PAGE_SIZE). apply repeat_length.
Qed.

(** One iteration of the loop of [ftlWriteSector] that finds three
    unlocked slots. *)
Lemma write_one_caches f sectorNo buf f' :
  reads_succeed hal -> reads_full hal ->
  cache_ranked f -> pageBufferSize f < 256 -> pages_full f ->
  (3 <= free_count f)%nat ->
  0 <= mttPhysicalPageNo f < 32768 ->
  getPhysicalPageState f (mttPhysicalPageNo f) = USED ->
  0 <= sectorNo ->
  0 <= sectorNo / SECTORS_PER_PAGE + ttPageCount f < TT_RECORDS_PER_PAGE ->
  pi_physicalPageNo
    (snd (fst (readPageInfo hal indeterminatePageInfo f indeterminatePageInfo
                 (sectorNo / SECTORS_PER_PAGE + ttPageCount f))))
  <> mttPhysicalPageNo f ->
  (Z.to_nat SECTOR_SIZE <= length buf)%nat ->
  write_one hal indeterminatePageInfo f sectorNo buf = Returned (true, f') ->
  sector_in_cache f' (sectorNo / SECTORS_PER_PAGE + ttPageCount f)
    (u8 (sectorNo mod SECTORS_PER_PAGE)) (firstn (Z.to_nat SECTOR_SIZE) buf) /\
  mttPhysicalPageNo f' = mttPhysicalPageNo f /\ ttPageCount f' = ttPageCount f /\
  usableSectorCount f' = usableSectorCount f.
Proof.
  intros Hrs Hrf [Hlru Hn] Hsz Hfull Hfree Hm Hused Hs HL H6 Hbuf H.
  unfold write_one in H. rewrite (three_free f Hn Hsz Hfree) in H.
  cbv beta iota zeta in H. cbn [negb] in H. cbv iota in H.
  set (l := sectorNo / SECTORS_PER_PAGE + ttPageCount f) in *.
  assert (u16 l = l) as El by (apply u16_small; unfold TT_RECORDS_PER_PAGE in HL; lia).
  assert (0 <= sectorNo mod SECTORS_PER_PAGE < 8) as Hmod
      by (apply Z.mod_pos_bound; reflexivity).
  assert (u8 (sectorNo mod SECTORS_PER_PAGE) = sectorNo mod SECTORS_PER_PAGE) as Es
      by (apply Z.mod_small; lia).
  rewrite !El, !Es in H. rewrite Es.
  set (s := sectorNo mod SECTORS_PER_PAGE) in *.
  unfold readPageInfo in H, H6. rewrite El in H, H6.
  destruct (Z.ltb_spec l TT_RECORDS_PER_PAGE) as [_|Hge]; [|lia].
  unfold readPhysicalPageInfo in H, H6.
  destruct (load_succeeds hal f 0 (mttPhysicalPageNo f) Hrs Hlru ltac:(lia))
    as (t & f1 & E1).
  rewrite E1 in H, H6. cbn [fst snd] in H6.
  set (pinfo := get_pageInfo (pb_page (slot f1 t)) l) in *.
  destruct (load_found f 0 _ t f1 Hlru Hfull Hrf Hm E1)
    as (Ct1 & Ho1 & Hlru1 & Hfull1 & Hfree1 & _ & Hsbc1).
  assert (spared f1 t) as Sp1 by (apply (spared_head f1 t _ Hlru1 ltac:(lia) Ho1)).
  destruct Hsbc1 as (Em1 & _ & ET1 & EU1 & _ & Est1 & _).
  destruct (pi_physicalPageNo pinfo <? 0) eqn:Eneg.
  - (* a page that was never written *)
    destruct (allocatePhysicalPage f1) as [p f2] eqn:Ea.
    apply allocate_effect in Ea as ([w ->] & Hpr & Hpu).
    destruct (Z.ltb_spec p 0) as [|Hp0]; [discriminate H|].
    assert (p <> mttPhysicalPageNo f) as Hpm.
    { intros ->. apply (Hpu ltac:(lia)).
      rewrite (getPhysicalPageState_congr f f1) by exact Est1. exact Hused. }
    set (f2 := set_writeFrontier w f1) in *.
    destruct (initPhysicalPageInBuffer f2 l p) as [[db|] f3] eqn:Ei; [|discriminate H].
    assert (mttPhysicalPageNo f2 = mttPhysicalPageNo f) as Em2 by exact Em1.
    destruct (init_found f2 l p db f3 t) as (Cdb3 & Ct3 & _ & Hfull3 & Em3 & ET3 & EU3);
      [exact Hlru1 | exact Hfull1 | lia | rewrite Em2; lia | rewrite Em2; exact Hpm
      | rewrite Em2; exact Ct1 | exact Sp1 | exact Ei |].
    rewrite Em2 in Ct3, Em3.
    set (pinfo1 := with_sectStatus 255 (with_physicalPageNo p pinfo)) in *.
    destruct (updatePageInfo hal indeterminatePageInfo f3 pinfo1 l) as [ok4 f4] eqn:E4.
    unfold updatePageInfo in E4. rewrite El in E4.
    destruct (Z.ltb_spec l TT_RECORDS_PER_PAGE) as [_|Hge]; [|lia].
    rewrite (update_hit f3 pinfo1 0 (mttPhysicalPageNo f3) l t) in E4
      by (rewrite Em3, u16_small by lia; exact Ct3).
    injection E4 as <- E4.
    assert (cached_at f4 (mttPhysicalPageNo f) t /\ cached_at f4 p db /\ pages_full f4 /\
            mttPhysicalPageNo f4 = mttPhysicalPageNo f /\
            ttPageCount f4 = ttPageCount f /\ usableSectorCount f4 = usableSectorCount f)
      as (Ct4 & Cdb4 & Hfull4 & Em4 & ET4 & EU4).
    { rewrite <- E4.
      split; [|split; [|split; [|repeat split]]].
      - apply cached_at_upd_slot; [intros b; apply stored_fields|].
        apply cached_at_update_lru. exact Ct3.
      - apply cached_at_upd_slot; [intros b; apply stored_fields|].
        apply cached_at_update_lru. exact Cdb3.
      - apply pages_full_upd_slot.
        + intros b Hb.
          transitivity (length (set_pageInfo l pinfo1 (pb_page b)));
            [f_equal; apply stored_fields | rewrite set_pageInfo_length; exact Hb].
        + apply (pages_full_same f3); [apply nslots_update_lru | | exact Hfull3].
          intros k. apply page_update_lru.
      - exact Em3.
      - change (ttPageCount f3 = ttPageCount f). rewrite ET3. exact ET1.
      - change (usableSectorCount f3 = usableSectorCount f). rewrite EU3. exact EU1. }
    cbv beta iota zeta in H.
    change (pi_sectStatus pinfo1) with 255 in H.
    rewrite (sector_mask s Hmod) in H. cbn [negb] in H. cbv iota in H.
    destruct (updatePageInfo hal indeterminatePageInfo f4 _ l) as [ok6 f6] eqn:E6.
    destruct ok6; [|discriminate H]. injection H as <-.
    destruct (append_caches f4 l s buf t db pinfo1 f6) as (Hc & Em' & ET' & EU');
      [exact HL | exact Hmod | rewrite Em4; exact Hm | exact Hfull4
      | rewrite Em4; exact Ct4 | exact Cdb4 | rewrite Em4; exact Hpm
      | change (0 <= p < 32768); lia | exact Hbuf | exact E6 |].
    cbv zeta in Hc, Em', ET', EU'.
    split; [exact Hc|]. split; [congruence|]. split; congruence.
  - (* a page that the table maps *)
    apply Z.ltb_ge in Eneg.
    set (p := pi_physicalPageNo pinfo) in *.
    assert (0 <= p < 32768) as Hp
        by (split; [exact Eneg | apply (i16_range (get16 _ _))]).
    destruct (loadPhysicalPageInBuffer hal f1 l p) as [[db|] f2] eqn:E2; [|discriminate H].
    destruct (load_found f1 l p db f2 Hlru1 Hfull1 Hrf Hp E2)
      as (Cdb2 & _ & Hlru2 & Hfull2 & Hfree2 & _ & Hsbc2).
    destruct (load_keep f1 l p _ f2 (mttPhysicalPageNo f) t Hlru1 E2 Ct1 ltac:(lia) Sp1)
      as (Ct2 & St2).
    destruct Hsbc2 as (Em2 & _ & ET2 & EU2 & _).
    assert (mttPhysicalPageNo f2 = mttPhysicalPageNo f) as Em2' by congruence.
    assert (get_pageInfo (pb_page (slot f2 t)) l = mkPageInfo p (pi_sectStatus pinfo))
      as Hrec.
    { apply same_fields_inv in St2 as (_ & _ & _ & _ & ->).
      fold pinfo. unfold p. destruct pinfo; reflexivity. }
    cbv beta iota zeta in H.
    destruct (Z.land (pi_sectStatus pinfo) (u8 (Z.shiftl 1 s)) =? 0) eqn:Ebit;
      cbn [negb] in H; cbv iota in H.
    + apply Z.eqb_eq in Ebit.
      destruct (overwrite_caches f2 l s buf t db p (pi_sectStatus pinfo) true f')
        as (Hc & Em' & ET' & EU');
        [exact HL | exact Hmod | rewrite Em2'; exact Hm | exact Hlru2 | exact Hfull2
        | lia | rewrite Em2'; exact Ct2 | exact Hrec | exact Ebit | exact Cdb2
        | rewrite Em2'; exact H6 | exact Hp | exact Hbuf | exact H |].
      split; [exact Hc|]. split; [congruence|]. split; congruence.
    + destruct (updatePageInfo hal indeterminatePageInfo f2 _ l) as [ok6 f6] eqn:E6.
      destruct ok6; [|discriminate H]. injection H as <-.
      destruct (append_caches f2 l s buf t db pinfo f6) as (Hc & Em' & ET' & EU');
        [exact HL | exact Hmod | rewrite Em2'; exact Hm | exact Hfull2
        | rewrite Em2'; exact Ct2 | exact Cdb2 | rewrite Em2'; exact H6
        | exact Hp | exact Hbuf | exact E6 |].
      cbv zeta in Hc, Em', ET', EU'.
      split; [exact Hc|]. split; [congruence|]. split; congruence.
Qed.

(** The cache functions do not look at the state map. *)
Lemma scan_unlocked_cache f (g : FrFTL D) ranks :
  pageBuffer g = pageBuffer f -> scan_unlocked g ranks = scan_unlocked f ranks.
Proof.
  intros E. induction ranks as [|x r IH]; [reflexivity|].
  cbn [scan_unlocked]. unfold slot. rewrite E, IH. reflexivity.
Qed.

Lemma load_cache f (g : FrFTL D) l q :
  pageBuffer g = pageBuffer f -> dev g = dev f ->
  fst (loadPhysicalPageInBuffer hal g l q) = fst (loadPhysicalPageInBuffer hal f l q) /\
  pageBuffer (snd (loadPhysicalPageInBuffer hal g l q))
  = pageBuffer (snd (loadPhysicalPageInBuffer hal f l q)).
Proof.
  intros Eb Ed.
  unfold loadPhysicalPageInBuffer, findPhysicalPageInBuffer. rewrite Eb.
  destruct (find_slot 0 (pageBuffer f) (u16 q)) as [i|].
  - cbn [fst snd]. split; [reflexivity|].
    unfold update_lru. cbn [pageBuffer set_pageBuffer]. rewrite Eb. reflexivity.
  - unfold pick_unlocked. rewrite Eb, (scan_unlocked_cache f g _ Eb).
    destruct (scan_unlocked f _) as [v|]; [|split; [reflexivity | exact Eb]].
    unfold call_flashRead, upd_slot, set_slot, slot, update_lru.
    cbn [dev set_dev pageBuffer set_pageBuffer]. rewrite Eb, Ed.
    destruct (flashRead hal (dev f) _ PAGE_SIZE) as [data|]; cbn [fst snd];
      (split; [reflexivity|]); cbn [dev set_dev pageBuffer set_pageBuffer];
      rewrite ?Eb; reflexivity.
Qed.

Lemma record_cache f (g : FrFTL D) l :
  pageBuffer g = pageBuffer f -> dev g = dev f ->
  mttPhysicalPageNo g = mttPhysicalPageNo f ->
  u16 l < TT_RECORDS_PER_PAGE ->
  snd (fst (readPageInfo hal indeterminatePageInfo g indeterminatePageInfo l))
  = snd (fst (readPageInfo hal indeterminatePageInfo f indeterminatePageInfo l)).
Proof.
  intros Eb Ed Em Hl. unfold readPageInfo.
  destruct (Z.ltb_spec (u16 l) TT_RECORDS_PER_PAGE) as [_|]; [|lia].
  unfold readPhysicalPageInfo. rewrite Em.
  destruct (load_cache f g 0 (mttPhysicalPageNo f) Eb Ed) as (E1 & E2).
  destruct (loadPhysicalPageInBuffer hal g 0 _) as [r1 g1].
  destruct (loadPhysicalPageInBuffer hal f 0 _) as [r2 f1].
  cbn [fst snd] in E1, E2. subst r2.
  destruct r1 as [i|]; cbn [fst snd]; [|reflexivity].
  unfold slot. rewrite E2. reflexivity.
Qed.

Lemma resolve_keeps_used f count q :
  geometry_ok f -> 0 <= q < physicalPageCount f ->
  getPhysicalPageState f q = USED ->
  getPhysicalPageState (resolveUnknownState hal f count) q = USED.
Proof.
  intros (HP & Hlen & Hw) Hq Hu. unfold resolveUnknownState.
  destruct (physicalPageStateResolved f); [exact Hu|].
  destruct (resolveUnknownState_loop hal _ f (writeFrontier f) (u16 count))
    as [f1 early] eqn:E.
  apply resolveUnknownState_loop_spec in E as (_ & Ha & _); auto.
  assert (getPhysicalPageState f1 q = USED) as H1
      by (destruct (Ha q Hq) as [->|(C & _)]; [exact Hu | congruence]).
  destruct early; exact H1.
Qed.

(** X22. A sector read right after it was written is what was written:
    when [ftlWriteSector] of one sector returns true on a handle with
    three unlocked slots (so that it does not sync first), the following
    [ftlReadSector] of that sector returns true with the 512 bytes of the
    write.  The flash callbacks read whole pages and do not fail; the
    cache holds [pageBufferSize] full pages ranked by their [lru] fields;
    the master translation table is on a page that the state map marks
    USED; the logical page is one that the master translation table maps
    itself (below 1024) and its record does not name the page of the
    master translation table. *)
Theorem ftlReadSector_after_ftlWriteSector f sectorNo buf f' :
  reads_succeed hal -> reads_full hal ->
  cache_ranked f -> pageBufferSize f < 256 -> pages_full f ->
  (3 <= free_count f)%nat ->
  geometry_ok f ->
  0 <= mttPhysicalPageNo f < physicalPageCount f ->
  getPhysicalPageState f (mttPhysicalPageNo f) = USED ->
  0 <= sectorNo -> 0 <= ttPageCount f ->
  sectorNo / SECTORS_PER_PAGE + ttPageCount f < TT_RECORDS_PER_PAGE ->
  pi_physicalPageNo
    (snd (fst (readPageInfo hal indeterminatePageInfo f indeterminatePageInfo
                 (sectorNo / SECTORS_PER_PAGE + ttPageCount f))))
  <> mttPhysicalPageNo f ->
  (Z.to_nat SECTOR_SIZE <= length buf)%nat ->
  ftlWriteSector hal indeterminatePageInfo f sectorNo 1 buf = Returned (true, f') ->
  exists f'',
    ftlReadSector hal indeterminatePageInfo f' sectorNo
    = (Some (firstn (Z.to_nat SECTOR_SIZE) buf), f'').
Proof.
  intros Hrs Hrf [Hlru Hn] Hsz Hfull Hfree Hg Hm Hused Hs HT HL H6 Hbuf H.
  assert (0 <= sectorNo / SECTORS_PER_PAGE) as Hdiv
      by (apply Z.div_pos; [exact Hs | reflexivity]).
  assert (sectorNo < 8192) as Hs'.
  { unfold TT_RECORDS_PER_PAGE in HL.
    pose proof (Z.div_mod sectorNo SECTORS_PER_PAGE ltac:(discriminate)) as Hdm.
    pose proof (Z.mod_pos_bound sectorNo SECTORS_PER_PAGE ltac:(reflexivity)) as Hmb.
    change SECTORS_PER_PAGE with 8 in *. lia. }
  unfold ftlWriteSector in H.
  set (f0 := resolveUnknownState hal f (ttPageCount f)) in H.
  pose proof (resolveUnknownState_frame hal f (ttPageCount f))
    as (Em0 & EP0 & ET0 & EU0 & _ & Eb0 & Es0 & Ed0).
  fold f0 in Em0, EP0, ET0, EU0, Eb0, Es0, Ed0.
  assert (u32 sectorNo = sectorNo) as E32 by (apply Z.mod_small; lia).
  rewrite E32 in H. change (u32 1) with 1 in H.
  assert (u32 (sectorNo + 1) = sectorNo + 1) as E33 by (apply Z.mod_small; lia).
  rewrite E33 in H.
  destruct (Z.gtb_spec (sectorNo + 1) (usableSectorCount f0)) as [|Hu]; [discriminate H|].
  change (Z.to_nat 1) with 1%nat in H. cbn [write_loop] in H.
  destruct (write_one hal indeterminatePageInfo f0 sectorNo buf) as [[ok1 f1]| |] eqn:E1;
    [|discriminate H|discriminate H].
  destruct ok1; [|discriminate H]. injection H as <-.
  destruct (write_one_caches f0 sectorNo buf f1) as (Hc & Em1 & ET1 & EU1).
  - exact Hrs.
  - exact Hrf.
  - split; [unfold lru_ok; rewrite Eb0; exact Hlru|].
    unfold nslots. rewrite Eb0, Es0. exact Hn.
  - rewrite Es0. exact Hsz.
  - unfold pages_full. rewrite Eb0. exact Hfull.
  - unfold free_count. rewrite Eb0. exact Hfree.
  - rewrite Em0. destruct Hg as (HP & _). lia.
  - rewrite Em0. apply resolve_keeps_used; assumption.
  - exact Hs.
  - rewrite ET0. lia.
  - rewrite ET0, Em0.
    rewrite (record_cache f f0 _ Eb0 Ed0 Em0); [exact H6|].
    rewrite u16_small; unfold TT_RECORDS_PER_PAGE in *; lia.
  - exact Hbuf.
  - exact E1.
  - rewrite ET0 in Hc.
    apply read_back.
    + rewrite EU1. lia.
    + lia.
    + rewrite ET1, ET0. lia.
    + rewrite Em1, Em0. destruct Hg as (HP & _). lia.
    + rewrite ET1, ET0. exact Hc.
Qed.

End ReadBack.

(** * Further examples on the NOR device *)

Lemma whole_hal_reads_succeed : reads_succeed whole_hal.
Proof.
  intros d addr len. unfold whole_hal. cbn [flashRead].
  unfold nor_read_whole, nor_read. discriminate.
Qed.

Lemma whole_hal_reads_full : reads_full whole_hal.
Proof.
  intros d addr data. unfold whole_hal. cbn [flashRead].
  unfold nor_read_whole, nor_read.
  generalize (Z.to_nat PAGE_SIZE)
    (memcpy_from (nor_page d (addr / PAGE_SIZE)) (addr mod PAGE_SIZE) PAGE_SIZE).
  intros n l H. injection H as <-.
  rewrite length_firstn, length_app, repeat_length. lia.
Qed.

Lemma pairing_of_fst {A B} (x : A * B) (a : A) : fst x = a -> x = (a, snd x).
Proof. intros <-. apply surjective_pairing. Qed.

Local Ltac by_computation := vm_compute; repeat split; first [reflexivity | discriminate].

Lemma resolveUnknownState_touches_unknown_only_witness :
  getPhysicalPageState (resolveUnknownState nor_hal fresh4 1) 5
  = getPhysicalPageState fresh4 5 \/
  (getPhysicalPageState fresh4 5 = UNKNOWN /\
   getPhysicalPageState (resolveUnknownState nor_hal fresh4 1) 5
   = resolved_state nor_hal (dev fresh4) 5).
Proof.
  apply resolveUnknownState_touches_unknown_only; by_computation.
Defined.

Lemma resolveUnknownState_flag_means_resolved_witness :
  getPhysicalPageState (resolveUnknownState nor_hal fresh4 0) 5 <> UNKNOWN.
Proof.
  apply resolveUnknownState_flag_means_resolved; by_computation.
Defined.

Lemma resolveUnknownState_probes_at_most_count_witness :
  exists evs, emitted fresh4 (resolveUnknownState nor_hal fresh4 3) evs /\
              forallb is_probe evs = true /\ Z.of_nat (length evs) <= 3.
Proof.
  apply resolveUnknownState_probes_at_most_count; by_computation.
Defined.

Lemma allocatePhysicalPage_first_free_witness :
  exists w, snd (allocatePhysicalPage fresh4) = set_writeFrontier w fresh4.
Proof.
  destruct (allocatePhysicalPage_first_free fresh4 _ _ ltac:(by_computation)
              (surjective_pairing (allocatePhysicalPage fresh4))) as [H _].
  exact H.
Defined.

Lemma hasFreeBuffers_counts_unlocked_witness :
  hasFreeBuffers fresh4 3 = (Z.max 1 3 <=? Z.of_nat (free_count fresh4)).
Proof.
  apply hasFreeBuffers_counts_unlocked; by_computation.
Defined.

Lemma load_makes_slot_most_recent_witness :
  lru_order (snd (loadPhysicalPageInBuffer nor_hal fresh4 0 0))
  = 3 :: remove Z.eq_dec 3 (lru_order fresh4).
Proof.
  apply (load_makes_slot_most_recent nor_hal fresh4 0 0 3).
  - unfold lru_ok. vm_compute. apply Permutation_refl.
  - apply pairing_of_fst. vm_compute. reflexivity.
Defined.

Lemma load_miss_takes_least_recent_unlocked_witness :
  pb_lock (slot fresh4 3) = false.
Proof.
  apply (load_miss_takes_least_recent_unlocked nor_hal fresh4 0 0 3
           (snd (loadPhysicalPageInBuffer nor_hal fresh4 0 0))).
  - apply pairing_of_fst. vm_compute. reflexivity.
  - vm_compute. reflexivity.
Defined.

Lemma load_never_touches_locked_slots_witness :
  same_fields (slot (snd (loadPhysicalPageInBuffer nor_hal overwritten4 5 7)) 2)
    (slot overwritten4 2).
Proof.
  apply (load_never_touches_locked_slots nor_hal overwritten4 5 7 _ _
           (surjective_pairing _)).
  vm_compute. reflexivity.
Defined.

Lemma load_fails_iff_witness :
  fst (loadPhysicalPageInBuffer nor_hal fresh4 0 0) = None <->
  find_slot 0 (pageBuffer fresh4) (u16 0) = None /\
  (free_count fresh4 = 0%nat \/
   flashRead nor_hal (dev fresh4) (u32 (u16 0 * PAGE_SIZE)) PAGE_SIZE = None).
Proof.
  apply load_fails_iff. unfold lru_ok. vm_compute. apply Permutation_refl.
Defined.

Lemma pageInfo_write_read_witness :
  get_pageInfo (set_pageInfo 5 (mkPageInfo 7 254) erased_page) 5
  = mkPageInfo (i16 7) (u8 254).
Proof.
  apply (pageInfo_write_read erased_page 5 (mkPageInfo 7 254)); by_computation.
Defined.

Lemma updatePhysicalPageInfo_then_read_witness :
  exists i f2,
    readPhysicalPageInfo whole_hal
      (snd (updatePhysicalPageInfo whole_hal full4 (mkPageInfo 7 254) 0 0 5))
      blank_PageInfo 0 0 5 = (true, mkPageInfo 7 254, f2) /\
    pb_lock (slot (snd (updatePhysicalPageInfo whole_hal full4 (mkPageInfo 7 254) 0 0 5)) i)
    = true /\
    pb_pMode (slot (snd (updatePhysicalPageInfo whole_hal full4 (mkPageInfo 7 254) 0 0 5)) i)
    <> NONE /\
    pb_physicalPageNo
      (slot (snd (updatePhysicalPageInfo whole_hal full4 (mkPageInfo 7 254) 0 0 5)) i) = 0.
Proof.
  apply (updatePhysicalPageInfo_then_read whole_hal full4 (mkPageInfo 7 254) 0 0 5).
  - unfold pages_full. vm_compute. repeat constructor.
  - exact whole_hal_reads_full.
  - lia.
  - by_computation.
  - simpl. lia.
  - simpl. lia.
  - apply pairing_of_fst. vm_compute. reflexivity.
Defined.

Lemma bump_serial_header_verifies_witness :
  header_is_mtt (header_of (bump_serial (initTransTablePage 0)))
  = (get32 (initTransTablePage 0) off_magicStart =? TT_PAGE_MAGIC)
    && (get32 (initTransTablePage 0) off_logicalPageNo =? 0).
Proof.
  apply bump_serial_header_verifies. apply Nat.leb_le. vm_compute. reflexivity.
Defined.

Lemma initTransTablePage_valid_and_blank_witness :
  get_pageInfo (initTransTablePage 0) 5 = unmapped_PageInfo.
Proof.
  apply (initTransTablePage_valid_and_blank 0). by_computation.
Defined.

Lemma ftlReadSector_reads_only_witness :
  cache_only fresh4 (snd (ftlReadSector nor_hal blank_PageInfo fresh4 0)).
Proof.
  apply (ftlReadSector_reads_only nor_hal blank_PageInfo fresh4 0 _ _
           (surjective_pairing _)).
Defined.

Lemma programPageInBuffer_failure_keeps_buffer_witness :
  pb_lock (slot (snd (programPageInBuffer protected_hal overwritten4 2)) 2)
  = pb_lock (slot overwritten4 2) /\
  pb_pMode (slot (snd (programPageInBuffer protected_hal overwritten4 2)) 2)
  = pb_pMode (slot overwritten4 2) /\
  pb_logicalPageNo (slot (snd (programPageInBuffer protected_hal overwritten4 2)) 2)
  = pb_logicalPageNo (slot overwritten4 2) /\
  pb_physicalPageNo (slot (snd (programPageInBuffer protected_hal overwritten4 2)) 2)
  = pb_physicalPageNo (slot overwritten4 2).
Proof.
  apply (programPageInBuffer_failure_keeps_buffer protected_hal overwritten4 2).
  apply pairing_of_fst. vm_compute. reflexivity.
Defined.

Lemma createFTL_programs_master_last_witness :
  exists mtt,
    programmed (createFTL (recording nor_hal) unformatted8)
    = [(4096, initTransTablePage 1); (0, mtt)] /\
    get_pageInfo mtt 1 = mkPageInfo 1 0.
Proof.
  destruct (createFTL_programs_master_last nor_hal unformatted8)
    as ((mtt & H1 & _ & _ & H2 & _) & _).
  - vm_compute. split; discriminate.
  - vm_compute. discriminate.
  - vm_compute. discriminate.
  - vm_compute. discriminate.
  - exists mtt. split; [exact H1|]. apply H2. vm_compute. split; [discriminate | reflexivity].
Defined.


Lemma initPageBuffer_fills_cache_witness :
  exists f', initPageBuffer [] fresh4 = Returned f' /\ cache_ranked f'.
Proof.
  pose proof (initPageBuffer_fills_cache [] fresh4 ltac:(by_computation)) as H.
  change (pageBufferSize fresh4 <=? 127) with true in H.
  destruct H as (f' & E & R & _). exists f'. split; [exact E | exact R].
Defined.

Lemma nor_erased_records_within P : 0 <= P -> records_within nor_hal nor_erased P.
Proof.
  intros HP p data H. unfold nor_hal in H. cbn [flashRead] in H. unfold nor_read in H.
  assert (u32 (u16 p * PAGE_SIZE) mod PAGE_SIZE = 0) as E0.
  { unfold u32, PAGE_SIZE. pose proof (u16_range p).
    rewrite (Z.mod_small (u16 p * 4096)) by lia. apply Z.mod_mul. lia. }
  rewrite E0 in H.
  change (nor_page nor_erased (u32 (u16 p * PAGE_SIZE) / PAGE_SIZE)) with erased_page in H.
  assert (memcpy_from erased_page 0 PAGE_SIZE = erased_page) as E1.
  { unfold memcpy_from. change (Z.to_nat 0) with 0%nat. cbn [skipn].
    apply firstn_all2. unfold erased_page. rewrite repeat_length. lia. }
  rewrite E1 in H. injection H as <-.
  split; [unfold erased_page; apply repeat_length|].
  intros r Hr. unfold TT_RECORDS_PER_PAGE in Hr.
  unfold get_pageInfo. cbn [pi_physicalPageNo].
  unfold get16, off_pageInfos, sizeof_TransTableHeader, sizeof_PageInfo.
  rewrite !get8_erased_page by (unfold PAGE_SIZE; lia).
  change (i16 (255 + 256 * 255)) with (-1). lia.
Qed.


Lemma ftlInit_128_writes_out_of_bounds_witness :
  ftlInit nor_hal [] [] 0 nor_erased 128 = Fault.
Proof.
  apply ftlInit_128_writes_out_of_bounds. reflexivity.
Defined.

Lemma sector_api_keeps_geometry_witness :
  same_geometry fresh4 (snd (ftlSync nor_hal blank_PageInfo fresh4)) /\
  geometry_ok (snd (ftlSync nor_hal blank_PageInfo fresh4)).
Proof.
  apply (proj1 (sector_api_keeps_geometry nor_hal blank_PageInfo fresh4
                  ltac:(by_computation)) _ _ (surjective_pairing _)).
Defined.

Lemma ftlReadSector_after_ftlWriteSector_witness :
  exists f'',
    ftlReadSector whole_hal blank_PageInfo written_full4 0
    = (Some (firstn (Z.to_nat SECTOR_SIZE) (repeat 0xAA (Z.to_nat SECTOR_SIZE))), f'').
Proof.
  apply (ftlReadSector_after_ftlWriteSector whole_hal blank_PageInfo full4 0
           (repeat 0xAA (Z.to_nat SECTOR_SIZE)) written_full4).
  - exact whole_hal_reads_succeed.
  - exact whole_hal_reads_full.
  - split; [unfold lru_ok; vm_compute; apply Permutation_refl | vm_compute; reflexivity].
  - by_computation.
  - unfold pages_full. vm_compute. repeat constructor.
  - apply Nat.leb_le. vm_compute. reflexivity.
  - by_computation.
  - by_computation.
  - vm_compute. reflexivity.
  - lia.
  - by_computation.
  - by_computation.
  - vm_compute. discriminate.
  - apply Nat.leb_le. vm_compute. reflexivity.
  - vm_compute. reflexivity.
Defined.
